(* ===== verification/_CoqProject ===== *)
-Q . S2P
Prelude.v
Store.v
Contexts.v
Demo.v
I18n.v
Errors.v
Message.v
MessageJson.v
Broker.v
Float64.v
Retry.v
InMemory.v
InMemorySubs.v
InMemoryProps.v
PubSub.v
ConsumerGroup.v
BatchConsumer.v
DeadLetter.v
Codecs.v
SyncProducer.v
AsyncProducer.v
Adapter.v
Kafka.v
Rabbit.v
Runner.v
Challenge.v
ChallengeWorld.v
ChallengeGroup.v
ChallengeRun.v
ChallengeSpec.v
ChallengePubSub.v
ChallengeDispatch.v
ChallengeRetry.v
ChallengeMain.v
