(* ===== verification/Prelude.v ===== *)
(** * Verification of the [digital.vasic.messaging] Go module

    A library of Rocq models and theorems for a message broker abstraction:
    an in-memory broker, Kafka and RabbitMQ adapters, producers, consumers,
    and the runner that exercises them.  This is the root file: its header
    describes the development, its body is the prelude the other files share.

    ** The program and its parts

    Package [broker] (src/pkg/broker) declares the interface [MessageBroker],
    the [Message] type, the errors and the in-memory broker; [kafka] and
    [rabbitmq] declare producers and consumers of the same shape around an
    injected publish function; [consumer] has consumer groups, retries, the
    dead letter handler and the batch consumer; [producer] the serializers,
    compressors and the synchronous and asynchronous producers.  Consumers and
    producers only use the interface; challenges/runner/main.go composes them
    all on an in-memory broker.

    ** Files, in dependency order, and the code they model

    - Prelude: Go computations [GoM S A] (a state transformer that returns a
      value or panics), their weakest preconditions [wp] and the tactics
      [wp_step], the parts of the state a computation leaves alone ([leaves]);
      int64 arithmetic ([wrap64]); ranging over a map in an order
      the environment chooses ([MapRange]); lemmas on lists and maps; runs of a
      labelled step relation ([runs]) with their rules of induction.
    - Store: the Go heap (byte arrays, header maps, messages, contexts, one
      allocator), slices as views of an array, [content_of] (a message with its
      references followed), well-formedness [mem_wf], the extension orders
      [mem_extends] (old objects unchanged) and [mem_keeps] (old objects may be
      written), the clock and UUIDs ([Env], [UuidSpec]) and the [World] of a
      broker: store, run queue of goroutines, broker state.
    - Contexts: [context.WithTimeout] and [WithCancel]; cancellation reaches
      the descendants only.
    - Demo: a concrete environment and store, for the witnesses.
    - I18n: pkg/i18n/translator.go and the translator variables of
      pkg/broker/i18n_wiring.go and pkg/consumer/i18n_messages.go.
    - Errors: pkg/broker/errors.go, with [errors.Is] and [errors.As].
    - Message: the types of pkg/broker/broker.go and the methods of [Message]
      and [Config].
    - MessageJson: [MarshalJSON] and [UnmarshalJSON] of pkg/broker/broker.go:
      what the fields a document assigns do to the message and its objects
      ([assign]), around encoding/json as a parameter ([AliasJSON]).
    - Broker: the interface.  [MessageBroker] (a class of operations over a
      broker state, [Subscription] included) and its laws [MessageBrokerSpec];
      pkg/broker/options.go and metrics.go.
    - Float64, Retry: [RetryPolicy.Delay] in binary64 arithmetic with
      [math.Pow], and [WithRetry] (pkg/consumer/consumer.go).
    - InMemory: pkg/broker/inmemory.go (Module [Ops], one definition per
      method), its invariant [inmem_inv] and the instance of
      [MessageBrokerSpec]; InMemorySubs: runs of the broker by any number of
      clients ([action], [exec], [run]) and the invariant [subs_inv] that links
      subscriber entries with subscription objects; InMemoryProps: the
      broker's properties; PubSub: the abstract publish/subscribe service and
      the refinement.
    - ConsumerGroup, BatchConsumer, DeadLetter: the rest of
      pkg/consumer/consumer.go.
    - Codecs, SyncProducer, AsyncProducer: pkg/producer/producer.go.
    - Adapter: the specification both adapters implement ([Registry] for the
      consumers, [ProducerState] for the producers, the classes
      [ConsumerAdapterSpec] and [ProducerAdapterSpec]); Kafka and Rabbit:
      pkg/kafka/kafka.go and pkg/rabbitmq/rabbitmq.go (Modules [Producer] and
      [Consumer]) and their instances.
    - Runner, Challenge: challenges/runner/main.go, its two comparison helpers
      and its [main], one definition per section; ChallengeWorld,
      ChallengeGroup, ChallengeRun, ChallengeSpec, ChallengePubSub,
      ChallengeDispatch, ChallengeRetry and ChallengeMain: the proof that the
      runner passes.

    Definitions keep the names of the code.  A method takes the receiver's
    state from the monad's state; where Go distinguishes nil, the model has an
    [option].  Handlers, callbacks and translators are values compared with
    nil and called through a parameter that gives their behaviour.

    ** Concurrency

    A critical section, an atomic access, a channel operation or a call of a
    broker is one atomic step.  Operations that hold one mutex from their first
    to their last access of the state are one step; those that read a flag
    before they lock are two ([Start_check] and [Start_locked] of a consumer
    group, [Subscribe_check] and [Subscribe_locked], [closed_Swap] and
    [Close_locked] of the adapters), and theorems interleave them.  The batch
    consumer and the asynchronous producer are step relations over threads at
    program points.  A delivery of the in-memory broker is an entry of the
    world's run queue; the runner's model runs those entries during the waits
    of [main] and where it may be preempted around its calls of the broker
    ([yield]), in an order and number chosen by a [Scheduler], each handler
    call as one step.

    ** What the theorems show

    - Broker: what a publication or a batch of them queues, which goroutines
      it starts and with which copies; the independence of the copies; an
      invariant of every run; that a subscription keeps its deliveries until it
      is ended and has none afterwards; that a broker closed and connected
      again cannot be closed; the refinement of the abstract service.
    - Messages and errors: [Clone] is a deep copy; a message written to JSON
      is read back into another one, merged with what that one held;
      [errors.Is] as membership in the chain of causes, retryable codes.
    - Retry: with a handler that does not panic every run ends within
      [MaxRetries + 1] calls, with the outcome of the last call or the
      context's error; delays are bounded, but for products that are NaN or
      below the int64 range; at the largest int the loop never ends.
    - Consumer groups, dead letters: all or nothing [Start], [Stop] releases,
      what two concurrent calls of [Start] leave behind; the dead letter has
      the failed message's bytes, the reason and the time.
    - Batch consumer, asynchronous producer: conservation of messages in every
      interleaving, flushing of a full buffer, draining by [Stop]; the goroutines
      come to rest within a bounded number of steps (no deadlock: [Stop]
      returns); and the interleavings that lose messages.
    - Synchronous producer and codecs: counts, contexts, JSON content, what a
      failing compressor does; a value compressed with gzip reaches every
      subscriber in a form that [Decompress] takes back.
    - Adapters: refinement of [Registry], producer life cycles, validation,
      the connection string; the subscriptions that outlive [Close].
    - Runner: it never panics, under any schedule; and when no wait ended with
      a goroutine left, all checks pass and the exit code is 0.

    ** Bounds and fuel

    [WithRetry] has a fuel of loop iterations: [MaxRetries + 2] is proved to be
    enough, and the runner's policy needs 4.  [ctx_err_fuel] follows the
    parents of a context: a context is younger than its parent, so its location
    plus one is enough.  [pow_loop] halves an int64, so 64 is enough.  The
    polling loops of the runner end at a deadline: the number of their rounds
    is the scheduler's choice.  Counters wrap around at 64 bits.

    ** Parameters

    encoding/json, compress/gzip, the functions injected in serializers,
    compressors and adapters, handlers, callbacks, translators, the clock, the
    UUID source, the order of map iteration, and what the platform makes of a
    float64 outside the range of int64 ([Platform]).  What a theorem needs of them is a named
    hypothesis or class ([UuidSpec]: 36 characters, the first [N] distinct;
    [MapRangeSpec]; [AliasJSONSpec]; [ClockSpec]), with an instance in the
    witnesses.

    ** Not modelled

    - The text of JSON: encoding/json is a parameter, for messages with what it
      documents of the struct tags ([AliasJSONSpec]).  Documents that spell the
      bytes of a key or value as an array of numbers, which are decoded into
      the array that is there, are not covered by [assignment].
    - Time itself: deadlines pass when the environment says so ([WithTimeout]
      contexts end by an explicit step), tickers fire at any time; the runner's
      30 second context stays alive.
    - The TLS configuration values of the adapters (kept as opaque values).
    - The flag of the runner and the texts of its lines beyond their labels.
    - Tests, benchmarks, shell scripts, and the message bundle that no Go code
      reads.

    ** Plan

    Next: handlers of the runner in smaller steps than whole calls; a broker
    whose handlers call it back, in the refinement of the abstract service. *)

From Stdlib Require Import ZArith Lia.
From stdpp Require Import base gmap strings list fin_maps.

#[export] Set Default Goal Selector "!".
#[export] Set Warnings "-clear-no-such-hyp".

(** ** Outcomes of Go code

    A Go function either returns or panics; the store it has modified so far
    stays modified when it panics. *)

Inductive panic :=
| NilDereference          (* invalid memory address or nil pointer dereference *)
| NilFuncCall             (* call of a nil func value *)
| NilMapWrite             (* assignment to entry in nil map *)
| CloseOfClosedChannel    (* close of closed channel *)
| InconsistentStore       (* sync/atomic: store of inconsistently typed value *)
| SliceOutOfRange         (* slice bounds out of range *)
| DanglingReference.      (* not a Go panic: a reference to no object *)

#[global] Instance panic_eq_dec : EqDecision panic.
Proof. solve_decision. Defined.

Inductive outcome (A : Type) :=
| Ok (a : A)
| Panic (p : panic).
Arguments Ok {A} a.
Arguments Panic {A} p.

(** A Go computation over a state [S]. *)
Definition GoM (S A : Type) : Type := S -> outcome A * S.

Section Monad.
Context {S : Type}.

Definition ret {A} (a : A) : GoM S A := fun s => (Ok a, s).

Definition bind {A B} (m : GoM S A) (k : A -> GoM S B) : GoM S B :=
  fun s => match m s with
           | (Ok a, s') => k a s'
           | (Panic p, s') => (Panic p, s')
           end.

Definition throw {A} (p : panic) : GoM S A := fun s => (Panic p, s).

Definition get : GoM S S := fun s => (Ok s, s).

Definition put (s : S) : GoM S unit := fun _ => (Ok tt, s).

Definition modify (f : S -> S) : GoM S unit := fun s => (Ok tt, f s).

Definition gets {A} (f : S -> A) : GoM S A := fun s => (Ok (f s), s).

(** [for _, x := range l { body(x) }] *)
Fixpoint for_range {A} (l : list A) (body : A -> GoM S unit) : GoM S unit :=
  match l with
  | [] => ret tt
  | x :: l' => bind (body x) (fun _ => for_range l' body)
  end.
End Monad.

Declare Scope go_scope.
Delimit Scope go_scope with go.
Notation "'let!' x ':=' m 'in' k" := (bind m (fun x => k))
  (at level 10, x pattern, m at level 100, k at level 200) : go_scope.
Notation "m ';;;' k" := (bind m (fun _ => k))
  (at level 199, right associativity) : go_scope.
Open Scope go_scope.

(** Running code over one component of a larger state. *)
Definition on_fst {S T A} (m : GoM S A) : GoM (S * T) A :=
  fun st => let '(o, s') := m st.1 in (o, (s', st.2)).

Definition on_snd {S T A} (m : GoM T A) : GoM (S * T) A :=
  fun st => let '(o, t') := m st.2 in (o, (st.1, t')).

(** ** Weakest preconditions (total: no panic, and the postcondition) *)

Definition wp {S A} (m : GoM S A) (Q : A -> S -> Prop) (s : S) : Prop :=
  match m s with
  | (Ok a, s') => Q a s'
  | (Panic _, _) => False
  end.

(** [panics m p s]: from [s], [m] panics with [p]. *)
Definition panics {S A} (m : GoM S A) (p : panic) (s : S) : Prop :=
  (m s).1 = Panic p.

Section WP.
Context {S : Type}.

Lemma wp_ret {A} (a : A) Q (s : S) : Q a s -> wp (ret a) Q s.
Proof. done. Qed.

Lemma wp_bind {A B} (m : GoM S A) (k : A -> GoM S B) Q s :
  wp m (fun a s' => wp (k a) Q s') s -> wp (bind m k) Q s.
Proof. unfold wp, bind. by destruct (m s) as [[a|p] s']. Qed.

Lemma wp_mono {A} (m : GoM S A) (P Q : A -> S -> Prop) s :
  wp m P s -> (forall a s', P a s' -> Q a s') -> wp m Q s.
Proof. unfold wp. destruct (m s) as [[a|p] s']; auto. Qed.

Lemma wp_and {A} (m : GoM S A) (P Q : A -> S -> Prop) s :
  wp m P s -> wp m Q s -> wp m (fun a s' => P a s' /\ Q a s') s.
Proof. unfold wp. by destruct (m s) as [[a|p] s']. Qed.

Lemma wp_get Q (s : S) : Q s s -> wp get Q s.
Proof. done. Qed.

Lemma wp_gets {A} (f : S -> A) Q (s : S) : Q (f s) s -> wp (gets f) Q s.
Proof. done. Qed.

Lemma wp_put Q (s s' : S) : Q tt s' -> wp (put s') Q s.
Proof. done. Qed.

Lemma wp_modify (f : S -> S) Q s : Q tt (f s) -> wp (modify f) Q s.
Proof. done. Qed.

Lemma wp_run {A} (m : GoM S A) Q s :
  wp m Q s -> exists a s', m s = (Ok a, s') /\ Q a s'.
Proof. unfold wp. destruct (m s) as [[a|p] s']; [eauto | done]. Qed.

Lemma wp_intro {A} (m : GoM S A) (Q : A -> S -> Prop) s a s' :
  m s = (Ok a, s') -> Q a s' -> wp m Q s.
Proof. unfold wp. by intros ->. Qed.

(** The loop rule: an invariant indexed by the elements already visited. *)
Lemma wp_for_range {A} (body : A -> GoM S unit) (I : list A -> S -> Prop) l s :
  I [] s ->
  (forall pre x rest s', l = pre ++ x :: rest -> I pre s' ->
     wp (body x) (fun _ s'' => I (pre ++ [x]) s'') s') ->
  wp (for_range l body) (fun _ s' => I l s') s.
Proof.
  intros HI Hstep.
  assert (forall rest pre s', l = pre ++ rest -> I pre s' ->
    wp (for_range rest body) (fun _ s'' => I l s'') s') as H; [|by apply (H l [])].
  induction rest as [|x rest IH]; intros pre s' -> Hd; simpl.
  - rewrite app_nil_r. by apply wp_ret.
  - apply wp_bind. eapply wp_mono; [by eapply Hstep|].
    intros [] s'' Hd'. apply (IH (pre ++ [x])); [|done]. by rewrite <- app_assoc.
Qed.

Lemma bind_ok {A B} (m : GoM S A) (k : A -> GoM S B) s a s' :
  m s = (Ok a, s') -> bind m k s = k a s'.
Proof. unfold bind. by intros ->. Qed.

Lemma bind_inv {A B} (m : GoM S A) (k : A -> GoM S B) s b s' :
  bind m k s = (Ok b, s') -> exists a s1, m s = (Ok a, s1) /\ k a s1 = (Ok b, s').
Proof. unfold bind. destruct (m s) as [[a|p] s1]; [eauto|done]. Qed.

Lemma bind_panic {A B} (m : GoM S A) (k : A -> GoM S B) s p s' :
  m s = (Panic p, s') -> bind m k s = (Panic p, s').
Proof. unfold bind. by intros ->. Qed.

Lemma bind_assoc {A B C} (m : GoM S A) (f : A -> GoM S B) (g : B -> GoM S C) s :
  bind (bind m f) g s = bind m (fun a => bind (f a) g) s.
Proof. unfold bind. by destruct (m s) as [[a|p] s']. Qed.

Lemma wp_bind_assoc {A B C} (m : GoM S A) (f : A -> GoM S B) (g : B -> GoM S C) Q s :
  wp (bind (bind m f) g) Q s -> wp (bind m (fun a => bind (f a) g)) Q s.
Proof. unfold wp. by rewrite bind_assoc. Qed.
End WP.

Lemma wp_on_fst {S T A} (c : GoM S A) Q (st : S * T) :
  wp c (fun a s => Q a (s, st.2)) st.1 -> wp (on_fst c) Q st.
Proof. unfold wp, on_fst. by destruct (c st.1) as [[a|p] s]. Qed.

Lemma wp_on_snd {S T A} (c : GoM T A) Q (st : S * T) :
  wp c (fun a t => Q a (st.1, t)) st.2 -> wp (on_snd c) Q st.
Proof. unfold wp, on_snd. by destruct (c st.2) as [[a|p] t]. Qed.

Lemma on_fst_ok {S T A C} (c : GoM S A) (k : A -> GoM (S * T) C) s t a s' :
  c s = (Ok a, s') -> bind (on_fst c) k (s, t) = k a (s', t).
Proof. unfold bind, on_fst. simpl. by intros ->. Qed.

Lemma on_snd_ok {S T A C} (c : GoM T A) (k : A -> GoM (S * T) C) s t a t' :
  c t = (Ok a, t') -> bind (on_snd c) k (s, t) = k a (s, t').
Proof. unfold bind, on_snd. simpl. by intros ->. Qed.

(** ** What a computation leaves alone

    [leaves f c]: [c] does not change the part [f] of the state, even when it
    panics. *)
Definition leaves {S A C} (f : S -> C) (c : GoM S A) : Prop := forall s, f (c s).2 = f s.

Lemma leaves_ret {S A C} (f : S -> C) (a : A) : leaves f (ret a).
Proof. by intros s. Qed.

Lemma leaves_bind {S A D C} (f : S -> C) (m : GoM S A) (k : A -> GoM S D) :
  leaves f m -> (forall a, leaves f (k a)) -> leaves f (bind m k).
Proof.
  intros Hm Hk s. specialize (Hm s). unfold bind.
  destruct (m s) as [[a|p] s']; [|done]. rewrite Hk. exact Hm.
Qed.

Lemma leaves_for_range {S A C} (f : S -> C) (body : A -> GoM S unit) l :
  (forall a, leaves f (body a)) -> leaves f (for_range l body).
Proof.
  intros Hb. induction l as [|a l IH]; simpl; [apply leaves_ret|].
  apply leaves_bind; [apply Hb|by intros []].
Qed.

Lemma wp_leaves {S A C} (f : S -> C) (c : GoM S A) Q s :
  leaves f c -> wp c (fun a s' => f s' = f s -> Q a s') s -> wp c Q s.
Proof. intros Hc. specialize (Hc s). unfold wp. destruct (c s) as [[a|p] s']; auto. Qed.

Lemma leaves_ok {S A C} (f : S -> C) (c : GoM S A) s a s' :
  leaves f c -> c s = (Ok a, s') -> f s' = f s.
Proof. intros Hc Hrun. specialize (Hc s). by rewrite Hrun in Hc. Qed.

Create HintDb leaves.
#[export] Hint Resolve leaves_ret leaves_bind leaves_for_range : leaves.

(** [wp_steps] runs the administrative steps of a computation. *)
Ltac wp_step :=
  match goal with
  | |- wp (bind _ _) _ _ => apply wp_bind
  | |- wp (ret _) _ _ => apply wp_ret
  | |- wp get _ _ => apply wp_get
  | |- wp (gets _) _ _ => apply wp_gets
  | |- wp (put _) _ _ => apply wp_put
  | |- wp (modify _) _ _ => apply wp_modify
  end.
Ltac wp_steps := repeat wp_step.

(** ** Machine integers: Go's [int] and [int64] wrap around at 64 bits *)

Definition int64_min : Z := (-2 ^ 63)%Z.
Definition int64_max : Z := (2 ^ 63 - 1)%Z.
Definition wrap64 (z : Z) : Z := ((z + 2 ^ 63) mod 2 ^ 64 - 2 ^ 63)%Z.
Definition in_int64 (z : Z) : Prop := (int64_min <= z <= int64_max)%Z.

Lemma wrap64_id z : in_int64 z -> wrap64 z = z.
Proof.
  unfold in_int64, wrap64, int64_min, int64_max. intros H.
  rewrite Z.mod_small; lia.
Qed.

Lemma wrap64_range z : in_int64 (wrap64 z).
Proof.
  unfold in_int64, wrap64, int64_min, int64_max.
  pose proof (Z.mod_pos_bound (z + 2 ^ 63) (2 ^ 64) ltac:(lia)). lia.
Qed.

Lemma wrap64_add_l a b : wrap64 (wrap64 a + b) = wrap64 (a + b).
Proof.
  unfold wrap64.
  replace ((a + 2 ^ 63) mod 2 ^ 64 - 2 ^ 63 + b + 2 ^ 63)%Z
    with ((a + 2 ^ 63) mod 2 ^ 64 + b)%Z by lia.
  rewrite Zplus_mod_idemp_l. do 2 f_equal. lia.
Qed.

(** ** Labelled runs

    [runs R a tr b]: steps of [R] whose labels are [tr] lead from [a] to [b]. *)

Section Runs.
Context {A L : Type} (R : A -> L -> A -> Prop).

Inductive runs : A -> list L -> A -> Prop :=
| runs_nil a : runs a [] a
| runs_step a tr b l c : runs a tr b -> R b l c -> runs a (tr ++ [l]) c.

Lemma runs_one a l b : R a l b -> runs a [l] b.
Proof. intros H. by apply (runs_step a [] a l b); [apply runs_nil|]. Qed.

Lemma runs_app a tr1 b tr2 c : runs a tr1 b -> runs b tr2 c -> runs a (tr1 ++ tr2) c.
Proof.
  intros H1 H2. revert H1. induction H2 as [b|b tr2 c l d H2 IH Hstep]; intros H1.
  - by rewrite app_nil_r.
  - rewrite app_assoc. eapply runs_step; [by apply IH|done].
Qed.

Lemma runs_cons a l b tr c : R a l b -> runs b tr c -> runs a (l :: tr) c.
Proof. intros H. apply (runs_app a [l]). by apply runs_one. Qed.

(** Rule induction for an invariant of the state and the labels so far. *)
Lemma runs_invariant (I : list L -> A -> Prop) a tr b :
  (forall tr b l c, I tr b -> R b l c -> I (tr ++ [l]) c) ->
  I [] a -> runs a tr b -> I tr b.
Proof. intros Hstep Ha. induction 1; eauto. Qed.

(** The same for a run that goes on from a state that satisfies it, with
    labels of a kind. *)
Lemma runs_keep (P : L -> Prop) (I : A -> Prop) a tr b :
  (forall b l c, I b -> P l -> R b l c -> I c) ->
  Forall P tr -> I a -> runs a tr b -> I b.
Proof.
  intros Hstep HP Ha Hr. revert HP.
  induction Hr as [|a tr b l c Hr IH Hbc]; [done|]. intros [HP [Hl _]%Forall_cons]%Forall_app.
  exact (Hstep _ _ _ (IH Ha HP) Hl Hbc).
Qed.

(** A run along which a measure decreases is not longer than the measure. *)
Lemma runs_measure (f : A -> nat) a tr b :
  (forall a l b, R a l b -> f b < f a) -> runs a tr b -> length tr + f b <= f a.
Proof.
  intros Hdec. induction 1 as [|a tr b l c _ IH Hstep%Hdec]; [done|].
  rewrite length_app. simpl. lia.
Qed.
End Runs.

Lemma runs_mono {A L} (R R' : A -> L -> A -> Prop) a tr b :
  (forall a l b, R a l b -> R' a l b) -> runs R a tr b -> runs R' a tr b.
Proof. intros Hsub. induction 1; econstructor; eauto. Qed.

Create HintDb go.
#[export] Hint Resolve runs_nil runs_one : go.

(** ** Lists *)

Lemma take_drop_all {A} (l : list A) : take (length l) (drop 0 l) = l.
Proof. by rewrite drop_0, firstn_all. Qed.

Lemma elem_middle {A} (x t : A) pre post :
  x ∈ pre ++ t :: post <-> x = t \/ x ∈ pre ++ post.
Proof. rewrite !elem_of_app, elem_of_cons. tauto. Qed.

Lemma sum_map_app {A} (f : A -> nat) l1 l2 :
  sum_list (map f (l1 ++ l2)) = sum_list (map f l1) + sum_list (map f l2).
Proof.
  rewrite map_app. induction (map f l1) as [|x l IH]; simpl; [done|]. rewrite IH. lia.
Qed.

Lemma sum_map_middle {A} (f : A -> nat) t pre post :
  sum_list (map f (pre ++ t :: post)) = f t + sum_list (map f (pre ++ post)).
Proof. rewrite !sum_map_app. simpl. lia. Qed.

(** ** Strings *)

Lemma string_length_app (s t : string) :
  String.length (s +:+ t) = String.length s + String.length t.
Proof. induction s as [|a s IH]; simpl; [done|]. by rewrite IH. Qed.

(** ** Filtering by a key *)

Lemma filter_every {A} (P : A -> Prop) `{!forall x, Decision (P x)} (l : list A) :
  (forall x, x ∈ l -> P x) -> filter P l = l.
Proof.
  induction l as [|x l IH]; intros Hl; [done|].
  rewrite filter_cons_True by (apply Hl; by left). f_equal. apply IH. intros y Hy. apply Hl. by right.
Qed.

Lemma filter_key_none {A} (f : A -> string) l k :
  k ∉ f <$> l -> filter (fun y => f y = k) l = [].
Proof.
  induction l as [|x l IH]; [done|]. rewrite fmap_cons. intros [Hx Hl]%not_elem_of_cons.
  rewrite filter_cons_False by congruence. auto.
Qed.

Lemma filter_key_unique {A} (f : A -> string) l x :
  NoDup (f <$> l) -> x ∈ l -> filter (fun y => f y = f x) l = [x].
Proof.
  induction l as [|y l IH]; [by intros _ ?%elem_of_nil|].
  rewrite fmap_cons. intros [Hy Hl]%NoDup_cons [->|Hx]%elem_of_cons.
  - rewrite filter_cons_True by done. by rewrite filter_key_none.
  - rewrite filter_cons_False; [auto|]. intros Heq. apply Hy. rewrite Heq.
    by apply list_elem_of_fmap_2.
Qed.

(** ** Ranging over maps

    Go visits the entries of a map in an order of its own choice:
    [map_range n m] is the order of the [n]-th iteration of a run. *)

Class MapRange := { map_range : nat -> forall V, gmap string V -> list (string * V) }.
Arguments map_range {_} n {V} m.

(** A range visits every entry once, in any order. *)
Class MapRangeSpec `{MapRange} : Prop := {
  map_range_perm : forall n V (m : gmap string V), map_range n m ≡ₚ map_to_list m }.
