(* ===== verification/Store.v ===== *)
(** * The Go store the program runs over

    Objects are referred to by locations; one allocator serves every kind of
    object, so two objects never share a location.  Byte slices are views
    (backing array, offset, length), so aliasing between slices, messages and
    header maps is represented.  The file also holds the context store of
    package [context], the environment (clock and UUID source) and the [World]
    a broker runs in: the store, the goroutines it has started and its own
    state. *)

From Stdlib Require Import ZArith Lia.
From stdpp Require Import base gmap strings list fin_maps.
From S2P Require Import Prelude.

Abbreviation loc := nat (only parsing).
Abbreviation bytes := (list Byte.byte) (only parsing).

(** A [time.Time]: nanoseconds since the Unix epoch and the zone offset. *)
Record Time := mkTime { t_nanos : Z; t_offset : Z }.
Definition UTC (t : Time) : Time := {| t_nanos := t_nanos t; t_offset := 0 |}.

(** A non-nil [[]byte]; a nil slice is [None] of [option slice]. *)
Record slice := mkSlice { sl_arr : loc; sl_off : nat; sl_len : nat }.

Definition slice_len (s : option slice) : nat := from_option sl_len 0 s.

(** The [Message] struct of pkg/broker/broker.go. *)
Record Message := mkMessage {
  msg_ID : string;
  msg_Topic : string;
  msg_Key : option slice;
  msg_Value : option slice;
  msg_Headers : option loc;
  msg_Timestamp : Time }.

(** ** Contexts *)

Inductive ctx_error := Canceled | DeadlineExceeded.
#[global] Instance ctx_error_eq_dec : EqDecision ctx_error.
Proof. solve_decision. Defined.

(** A [context.Context]: [Background] is never done; the others are nodes of
    the context store, done with their own error or with their parent's. *)
Inductive Ctx := Background | CtxNode (l : loc).
#[global] Instance Ctx_eq_dec : EqDecision Ctx.
Proof. solve_decision. Defined.

Record ctx_node := mkCtxNode {
  cn_parent : Ctx;
  cn_timeout : option Z;      (* the duration given to WithTimeout, if any *)
  cn_err : option ctx_error }.

(** ** The store *)

Record mem := mkMem {
  bytes_of : gmap loc bytes;
  maps_of : gmap loc (gmap string string);
  msgs_of : gmap loc Message;
  ctxs_of : gmap loc ctx_node;
  next_loc : loc;
  uuid_ctr : nat;             (* UUIDs drawn so far *)
  clock_ctr : nat }.          (* clock readings so far *)

Definition empty_mem : mem := mkMem ∅ ∅ ∅ ∅ 0 0 0.

(** The environment of a run: the i-th UUID of the uuid package, printed, and
    the i-th reading of the clock, in nanoseconds. *)
Class Env := {
  uuid_String : nat -> string;
  clock_Nanos : nat -> Z }.

(** What the uuid package documents and the code relies on: the printed form
    has 36 characters, and the first [N] UUIDs of the run are distinct. *)
Class UuidSpec `{Env} (N : nat) : Prop := {
  uuid_length : forall n, String.length (uuid_String n) = 36;
  uuid_distinct : forall i j, i < j -> j < N -> uuid_String i <> uuid_String j }.

(** ** Reading *)

Definition read_slice (m : mem) (s : option slice) : option bytes :=
  match s with
  | None => Some []
  | Some s => arr ← bytes_of m !! sl_arr s; Some (take (sl_len s) (drop (sl_off s) arr))
  end.

(** The error of a context: its own, or its nearest ancestor's.  [fuel] bounds
    the chain of parents; a context is allocated after its parent, so its
    location plus one is enough. *)
Fixpoint ctx_err_fuel (fuel : nat) (m : mem) (c : Ctx) : option ctx_error :=
  match fuel, c with
  | S fuel, CtxNode l =>
    match ctxs_of m !! l with
    | Some n => match cn_err n with
                | Some e => Some e
                | None => ctx_err_fuel fuel m (cn_parent n)
                end
    | None => None
    end
  | _, _ => None
  end.

Definition ctx_depth (c : Ctx) : nat :=
  match c with Background => 0 | CtxNode l => S l end.

Definition ctx_Err (m : mem) (c : Ctx) : option ctx_error :=
  ctx_err_fuel (ctx_depth c) m c.

(** ** Updating *)

Definition put_bytes (l : loc) (x : bytes) (m : mem) : mem :=
  mkMem (<[l := x]> (bytes_of m)) (maps_of m) (msgs_of m) (ctxs_of m)
    (next_loc m) (uuid_ctr m) (clock_ctr m).
Definition put_map (l : loc) (x : gmap string string) (m : mem) : mem :=
  mkMem (bytes_of m) (<[l := x]> (maps_of m)) (msgs_of m) (ctxs_of m)
    (next_loc m) (uuid_ctr m) (clock_ctr m).
Definition put_msg (l : loc) (x : Message) (m : mem) : mem :=
  mkMem (bytes_of m) (maps_of m) (<[l := x]> (msgs_of m)) (ctxs_of m)
    (next_loc m) (uuid_ctr m) (clock_ctr m).
Definition put_ctx (l : loc) (x : ctx_node) (m : mem) : mem :=
  mkMem (bytes_of m) (maps_of m) (msgs_of m) (<[l := x]> (ctxs_of m))
    (next_loc m) (uuid_ctr m) (clock_ctr m).
Definition bump (m : mem) : mem :=
  mkMem (bytes_of m) (maps_of m) (msgs_of m) (ctxs_of m)
    (S (next_loc m)) (uuid_ctr m) (clock_ctr m).
Definition tick (m : mem) : mem :=
  mkMem (bytes_of m) (maps_of m) (msgs_of m) (ctxs_of m)
    (next_loc m) (uuid_ctr m) (S (clock_ctr m)).
Definition draw (m : mem) : mem :=
  mkMem (bytes_of m) (maps_of m) (msgs_of m) (ctxs_of m)
    (next_loc m) (S (uuid_ctr m)) (clock_ctr m).

(** ** Primitive operations *)

(** [&x] of a fresh object of no interest but its identity *)
Definition alloc_loc : GoM mem loc := fun m => (Ok (next_loc m), bump m).

(** A fresh backing array. *)
Definition new_array (bs : bytes) : GoM mem slice := fun m =>
  (Ok (mkSlice (next_loc m) 0 (length bs)), put_bytes (next_loc m) bs (bump m)).

(** [make([]byte, n)] *)
Definition make_bytes (n : nat) : GoM mem slice :=
  new_array (replicate n Byte.x00).

(** [make(map[string]string)] *)
Definition make_map : GoM mem loc := fun m =>
  (Ok (next_loc m), put_map (next_loc m) ∅ (bump m)).

(** [&Message{...}] *)
Definition new_msg (x : Message) : GoM mem loc := fun m =>
  (Ok (next_loc m), put_msg (next_loc m) x (bump m)).

Definition new_ctx (n : ctx_node) : GoM mem Ctx := fun m =>
  (Ok (CtxNode (next_loc m)), put_ctx (next_loc m) n (bump m)).

(** [*m], for a message pointer *)
Definition load_msg (p : option loc) : GoM mem Message := fun m =>
  match p with
  | None => (Panic NilDereference, m)
  | Some l => match msgs_of m !! l with
              | Some x => (Ok x, m)
              | None => (Panic DanglingReference, m)
              end
  end.

(** one field assignment through a message pointer *)
Definition update_msg (p : option loc) (f : Message -> Message) : GoM mem unit := fun m =>
  match p with
  | None => (Panic NilDereference, m)
  | Some l => match msgs_of m !! l with
              | Some x => (Ok tt, put_msg l (f x) m)
              | None => (Panic DanglingReference, m)
              end
  end.

(** [m[k] = v] *)
Definition map_assign (h : option loc) (k v : string) : GoM mem unit := fun m =>
  match h with
  | None => (Panic NilMapWrite, m)
  | Some l => match maps_of m !! l with
              | Some x => (Ok tt, put_map l (<[k := v]> x) m)
              | None => (Panic DanglingReference, m)
              end
  end.

(** The map a header reference denotes; a nil map reads as an empty one. *)
Definition load_map (h : option loc) : GoM mem (gmap string string) := fun m =>
  match h with
  | None => (Ok ∅, m)
  | Some l => match maps_of m !! l with
              | Some x => (Ok x, m)
              | None => (Panic DanglingReference, m)
              end
  end.

Definition load_bytes (s : option slice) : GoM mem bytes := fun m =>
  match read_slice m s with
  | Some bs => (Ok bs, m)
  | None => (Panic DanglingReference, m)
  end.

Definition splice (arr : bytes) (off : nat) (bs : bytes) : bytes :=
  take off arr ++ bs ++ drop (off + length bs) arr.

(** [copy(dst, src)] *)
Definition copy_bytes (dst : slice) (src : option slice) : GoM mem nat := fun m =>
  match bytes_of m !! sl_arr dst, read_slice m src with
  | Some arr, Some bs =>
    let n := sl_len dst `min` length bs in
    (Ok n, put_bytes (sl_arr dst) (splice arr (sl_off dst) (take n bs)) m)
  | _, _ => (Panic DanglingReference, m)
  end.

(** [context.WithTimeout(parent, d)] and [context.WithCancel(parent)]. *)
Definition context_WithTimeout (parent : Ctx) (d : Z) : GoM mem Ctx :=
  new_ctx (mkCtxNode parent (Some d) None).

Definition context_WithCancel (parent : Ctx) : GoM mem Ctx :=
  new_ctx (mkCtxNode parent None None).

(** Ending a context; one that is already done keeps its error. *)
Definition ctx_finish (c : Ctx) (e : ctx_error) : GoM mem unit := fun m =>
  match c, ctx_Err m c with
  | CtxNode l, None =>
    match ctxs_of m !! l with
    | Some n => (Ok tt, put_ctx l (mkCtxNode (cn_parent n) (cn_timeout n) (Some e)) m)
    | None => (Ok tt, m)
    end
  | _, _ => (Ok tt, m)
  end.

(** The cancel function returned with a context. *)
Definition ctx_cancel (c : Ctx) : GoM mem unit := ctx_finish c Canceled.

Section Environment.
Context `{Env}.

(** The [i]-th reading of the clock, in UTC. *)
Definition clock_time (i : nat) : Time := UTC (mkTime (clock_Nanos i) 0).

(** [time.Now().UTC()] *)
Definition time_Now_UTC : GoM mem Time := fun m => (Ok (clock_time (clock_ctr m)), tick m).

(** [uuid.New().String()] *)
Definition uuid_New_String : GoM mem string := fun m =>
  (Ok (uuid_String (uuid_ctr m)), draw m).
End Environment.

(** ** Well-formed stores *)

Definition slice_ok (m : mem) (s : slice) : Prop :=
  exists arr, bytes_of m !! sl_arr s = Some arr /\ sl_off s + sl_len s <= length arr.

Definition slice_ok_opt (m : mem) (s : option slice) : Prop :=
  match s with None => True | Some s => slice_ok m s end.

Definition headers_ok (m : mem) (h : option loc) : Prop :=
  match h with None => True | Some l => is_Some (maps_of m !! l) end.

Definition message_ok (m : mem) (x : Message) : Prop :=
  slice_ok_opt m (msg_Key x) /\ slice_ok_opt m (msg_Value x) /\ headers_ok m (msg_Headers x).

(** Every object lies below the allocator, every reference has an object, and
    a context is younger than its parent. *)
Record mem_wf (m : mem) : Prop := {
  wf_bytes : forall l, is_Some (bytes_of m !! l) -> l < next_loc m;
  wf_maps : forall l, is_Some (maps_of m !! l) -> l < next_loc m;
  wf_msgs : forall l x, msgs_of m !! l = Some x -> l < next_loc m /\ message_ok m x;
  wf_ctxs : forall l n, ctxs_of m !! l = Some n ->
    l < next_loc m /\ ctx_depth (cn_parent n) <= l }.

#[global] Instance slice_ok_dec m s : Decision (slice_ok m s).
Proof.
  unfold slice_ok. destruct (bytes_of m !! sl_arr s) as [arr|] eqn:Ha.
  - destruct (decide (sl_off s + sl_len s <= length arr)) as [H|H]; [left; eauto|right].
    intros (arr' & ? & ?). by simplify_eq.
  - right. by intros (arr' & ? & ?).
Defined.

#[global] Instance slice_ok_opt_dec m s : Decision (slice_ok_opt m s).
Proof. destruct s; simpl; apply _. Defined.

#[global] Instance headers_ok_dec m h : Decision (headers_ok m h).
Proof. destruct h; simpl; apply _. Defined.

#[global] Instance message_ok_dec m x : Decision (message_ok m x).
Proof. unfold message_ok. apply _. Defined.

(** Well-formedness is decidable, so concrete stores are checked by computation. *)
Lemma mem_wf_alt m :
  map_Forall (fun l _ => l < next_loc m) (bytes_of m) /\
  map_Forall (fun l _ => l < next_loc m) (maps_of m) /\
  map_Forall (fun l x => l < next_loc m /\ message_ok m x) (msgs_of m) /\
  map_Forall (fun l n => l < next_loc m /\ ctx_depth (cn_parent n) <= l) (ctxs_of m)
  <-> mem_wf m.
Proof.
  split.
  - intros (Hb & Hp & Hm & Hc). split; [..|by apply Hm|by apply Hc].
    + intros l [x Hx]. by eapply Hb.
    + intros l [x Hx]. by eapply Hp.
  - intros [Hb Hp Hm Hc]. split_and!; intros l x Hx; eauto.
Qed.

#[global] Instance mem_wf_dec m : Decision (mem_wf m).
Proof.
  refine (cast_if (decide (
    map_Forall (fun l _ => l < next_loc m) (bytes_of m) /\
    map_Forall (fun l _ => l < next_loc m) (maps_of m) /\
    map_Forall (fun l x => l < next_loc m /\ message_ok m x) (msgs_of m) /\
    map_Forall (fun l n => l < next_loc m /\ ctx_depth (cn_parent n) <= l) (ctxs_of m))));
    by rewrite <- mem_wf_alt.
Defined.

(** [m'] holds every object of [m] unchanged. *)
Record mem_extends (m m' : mem) : Prop := {
  ext_next : next_loc m <= next_loc m';
  ext_uuid : uuid_ctr m <= uuid_ctr m';
  ext_bytes : forall l, l < next_loc m -> bytes_of m' !! l = bytes_of m !! l;
  ext_maps : forall l, l < next_loc m -> maps_of m' !! l = maps_of m !! l;
  ext_msgs : forall l, l < next_loc m -> msgs_of m' !! l = msgs_of m !! l;
  ext_ctxs : forall l, l < next_loc m -> ctxs_of m' !! l = ctxs_of m !! l }.

#[global] Instance mem_extends_preorder : PreOrder mem_extends.
Proof.
  split.
  - by intros m; split.
  - intros m1 m2 m3 [N1 U1 B1 P1 M1 C1] [N2 U2 B2 P2 M2 C2]; split; [lia|lia|..]; intros l Hl.
    + rewrite B2, B1; [done|lia..].
    + rewrite P2, P1; [done|lia..].
    + rewrite M2, M1; [done|lia..].
    + rewrite C2, C1; [done|lia..].
Qed.

(** [m'] still has every context of [m] and every message, under its topic;
    their other fields may have been assigned to. *)
Record mem_keeps (m m' : mem) : Prop := {
  keep_next : next_loc m <= next_loc m';
  keep_uuid : uuid_ctr m <= uuid_ctr m';
  keep_ctxs : forall l, is_Some (ctxs_of m !! l) -> is_Some (ctxs_of m' !! l);
  keep_msgs : forall l x, msgs_of m !! l = Some x ->
    exists x', msgs_of m' !! l = Some x' /\ msg_Topic x' = msg_Topic x }.

#[global] Instance mem_keeps_preorder : PreOrder mem_keeps.
Proof.
  split.
  - intros m. split; eauto.
  - intros m1 m2 m3 [N1 U1 C1 M1] [N2 U2 C2 M2]. split; [lia|lia|by auto|]. intros l x Hx.
    destruct (M1 _ _ Hx) as (x2 & Hx2 & Ht2), (M2 _ _ Hx2) as (x3 & Hx3 & Ht3).
    exists x3. split; [done|congruence].
Qed.

Lemma empty_mem_wf : mem_wf empty_mem.
Proof. split; intros l; simpl; rewrite lookup_empty; first [by intros []|done]. Qed.

(** What a message says, references followed. *)
Record content := mkContent {
  c_id : string;
  c_topic : string;
  c_key : option bytes;
  c_value : option bytes;
  c_headers : option (gmap string string);
  c_time : Time }.

Definition slice_content (m : mem) (s : option slice) : option (option bytes) :=
  match s with
  | None => Some None
  | Some s => Some <$> read_slice m (Some s)
  end.

Definition headers_content (m : mem) (h : option loc) : option (option (gmap string string)) :=
  match h with
  | None => Some None
  | Some l => Some <$> maps_of m !! l
  end.

Definition content_of (m : mem) (l : loc) : option content :=
  x ← msgs_of m !! l;
  k ← slice_content m (msg_Key x);
  v ← slice_content m (msg_Value x);
  h ← headers_content m (msg_Headers x);
  Some (mkContent (msg_ID x) (msg_Topic x) k v h (msg_Timestamp x)).

(** The locations a message reaches. *)
Definition footprint (m : mem) (l : loc) : list loc :=
  l :: match msgs_of m !! l with
       | None => []
       | Some x =>
         from_option (fun s => [sl_arr s]) [] (msg_Key x) ++
         from_option (fun s => [sl_arr s]) [] (msg_Value x) ++
         from_option (fun h => [h]) [] (msg_Headers x)
       end.

(** ** The world a broker runs in *)

Abbreviation handler := nat (only parsing).

(** A goroutine started to deliver a message: the handler (nil allowed), the
    context and the message it will be called with. *)
Record task := mkTask {
  task_handler : option handler;
  task_ctx : Ctx;
  task_msg : loc }.

Record World (B : Type) := mkWorld {
  w_mem : mem;
  w_go : list task;          (* started, not yet run *)
  w_br : B }.
Arguments mkWorld {B}.
Arguments w_mem {B}.
Arguments w_go {B}.
Arguments w_br {B}.

Section World.
Context {B : Type}.

Definition set_mem (w : World B) (m : mem) : World B := mkWorld m (w_go w) (w_br w).
Definition set_br (w : World B) (b : B) : World B := mkWorld (w_mem w) (w_go w) b.

Definition on_mem {A} (c : GoM mem A) : GoM (World B) A := fun w =>
  let '(o, m') := c (w_mem w) in (o, set_mem w m').

Definition go (t : task) : GoM (World B) unit :=
  modify (fun w => mkWorld (w_mem w) (w_go w ++ [t]) (w_br w)).

Definition get_br : GoM (World B) B := gets w_br.
Definition put_br (b : B) : GoM (World B) unit := modify (fun w => set_br w b).

Lemma wp_on_mem {A} (c : GoM mem A) Q (w : World B) :
  wp c (fun a m' => Q a (set_mem w m')) (w_mem w) -> wp (on_mem c) Q w.
Proof. unfold wp, on_mem. by destruct (c (w_mem w)) as [[a|p] m']. Qed.
End World.

(** ** The clock

    Only [time.Now] changes the reading of the clock. *)

Definition now_at `{Env} {B} (w : World B) : Time := clock_time (clock_ctr (w_mem w)).

Abbreviation clock_still := (leaves clock_ctr).

Lemma on_mem_clock {B A} (c : GoM mem A) :
  clock_still c -> leaves (fun w : World B => clock_ctr (w_mem w)) (on_mem c).
Proof. intros Hc w. specialize (Hc (w_mem w)). unfold on_mem. by destruct (c (w_mem w)). Qed.

Lemma load_msg_clock p : clock_still (load_msg p).
Proof. intros m. unfold load_msg. by repeat case_match. Qed.

Lemma update_msg_clock p f : clock_still (update_msg p f).
Proof. intros m. unfold update_msg. by repeat case_match. Qed.

Lemma load_map_clock h : clock_still (load_map h).
Proof. intros m. unfold load_map. by repeat case_match. Qed.

Lemma map_assign_clock h k v : clock_still (map_assign h k v).
Proof. intros m. unfold map_assign. by repeat case_match. Qed.

Lemma copy_bytes_clock d s : clock_still (copy_bytes d s).
Proof. intros m. unfold copy_bytes. by repeat case_match. Qed.

Lemma make_bytes_clock n : clock_still (make_bytes n).
Proof. by intros m. Qed.

Lemma make_map_clock : clock_still make_map.
Proof. by intros m. Qed.

Lemma new_msg_clock x : clock_still (new_msg x).
Proof. by intros m. Qed.

#[export] Hint Resolve load_msg_clock update_msg_clock load_map_clock map_assign_clock
  copy_bytes_clock make_bytes_clock make_map_clock new_msg_clock : leaves.

(** ** Lemmas on stores *)

Lemma read_slice_ok m s :
  slice_ok m s -> exists bs, read_slice m (Some s) = Some bs /\ length bs = sl_len s.
Proof.
  intros (arr & Harr & Hle). unfold read_slice. rewrite Harr. simpl.
  eexists; split; [done|]. rewrite length_take, length_drop. lia.
Qed.

Lemma read_slice_opt_ok m s :
  slice_ok_opt m s -> exists bs, read_slice m s = Some bs /\ length bs = slice_len s.
Proof. destruct s as [s|]; simpl; [apply read_slice_ok|]. by exists []. Qed.

Lemma slice_content_ok m s : slice_ok_opt m s -> is_Some (slice_content m s).
Proof.
  destruct s as [s|]; [|done]. intros Hs.
  destruct (read_slice_ok m s Hs) as (bs & Hbs & _).
  unfold slice_content. rewrite Hbs. by eexists.
Qed.

Lemma slice_content_read m s bs :
  read_slice m s = Some bs ->
  default [] <$> slice_content m s = Some bs.
Proof. destruct s; simpl; [|by intros [= <-]]. intros ->. done. Qed.

Section Extends.
Context (m m' : mem) (Hwf : mem_wf m) (Hext : mem_extends m m').

Lemma slice_ok_lt s : slice_ok m s -> sl_arr s < next_loc m.
Proof using Hwf. intros (arr & Harr & _). eapply wf_bytes; eauto. Qed.

Lemma slice_ok_extends s : slice_ok m s -> slice_ok m' s.
Proof using Hwf Hext.
  intros Hs. pose proof (slice_ok_lt s Hs). destruct Hs as (arr & Harr & Hle).
  exists arr. by rewrite (ext_bytes _ _ Hext) by done.
Qed.

Lemma read_slice_keeps s bs : read_slice m s = Some bs -> read_slice m' s = Some bs.
Proof using Hwf Hext.
  destruct s as [s|]; [|done]. unfold read_slice. destruct (bytes_of m !! sl_arr s) as [arr|] eqn:Harr.
  - rewrite (ext_bytes _ _ Hext), Harr; [done|]. by eapply wf_bytes.
  - done.
Qed.

Lemma slice_content_extends s :
  slice_ok_opt m s -> slice_content m' s = slice_content m s.
Proof using Hwf Hext.
  destruct s as [s|]; [|done]. intros Hs. pose proof (slice_ok_lt s Hs).
  unfold slice_content, read_slice. by rewrite (ext_bytes _ _ Hext) by done.
Qed.

Lemma read_slice_extends s :
  slice_ok_opt m s -> read_slice m' s = read_slice m s.
Proof using Hwf Hext.
  destruct s as [s|]; [|done]. intros Hs. pose proof (slice_ok_lt s Hs).
  unfold read_slice. by rewrite (ext_bytes _ _ Hext) by done.
Qed.

Lemma headers_content_extends h :
  headers_ok m h -> headers_content m' h = headers_content m h.
Proof using Hwf Hext.
  destruct h as [l|]; [|done]. intros Hh. unfold headers_content.
  by rewrite (ext_maps _ _ Hext) by (by eapply wf_maps).
Qed.

Lemma message_ok_extends x : message_ok m x -> message_ok m' x.
Proof using Hwf Hext.
  intros (Hk & Hv & Hh). unfold message_ok. split_and!.
  - destruct (msg_Key x); [by apply slice_ok_extends|done].
  - destruct (msg_Value x); [by apply slice_ok_extends|done].
  - destruct (msg_Headers x) as [h|]; [|done]. simpl in *.
    by rewrite (ext_maps _ _ Hext) by (by eapply wf_maps).
Qed.

Lemma msgs_extends l x : msgs_of m !! l = Some x -> msgs_of m' !! l = Some x.
Proof using Hwf Hext.
  intros Hl. destruct (wf_msgs _ Hwf _ _ Hl). by rewrite (ext_msgs _ _ Hext).
Qed.

Lemma content_of_extends l :
  is_Some (msgs_of m !! l) -> content_of m' l = content_of m l.
Proof using Hwf Hext.
  intros [x Hx]. destruct (wf_msgs _ Hwf _ _ Hx) as [_ (Hk & Hv & Hh)].
  unfold content_of. rewrite (msgs_extends _ _ Hx), Hx. simpl.
  by rewrite !slice_content_extends, headers_content_extends by done.
Qed.

Lemma footprint_extends l :
  is_Some (msgs_of m !! l) -> footprint m' l = footprint m l.
Proof using Hwf Hext.
  intros [x Hx]. unfold footprint. by rewrite (msgs_extends _ _ Hx), Hx.
Qed.
End Extends.

Lemma content_of_is_Some m l :
  mem_wf m -> is_Some (msgs_of m !! l) -> is_Some (content_of m l).
Proof.
  intros Hwf [x Hx]. destruct (wf_msgs _ Hwf _ _ Hx) as [_ (Hk & Hv & Hh)].
  unfold content_of. rewrite Hx. simpl.
  destruct (slice_content_ok _ _ Hk) as [k ->], (slice_content_ok _ _ Hv) as [v ->].
  destruct (msg_Headers x) as [h|]; simpl; [|eauto].
  destruct Hh as [y ->]. simpl. eauto.
Qed.

Lemma footprint_lt m l x :
  mem_wf m -> is_Some (msgs_of m !! l) -> x ∈ footprint m l -> x < next_loc m.
Proof.
  intros Hwf [y Hy]. destruct (wf_msgs _ Hwf _ _ Hy) as [Hl (Hk & Hv & Hh)].
  unfold footprint. rewrite Hy.
  destruct (msg_Key y) as [sk|], (msg_Value y) as [sv|], (msg_Headers y) as [h|];
    simpl in *; rewrite ?elem_of_cons, ?elem_of_nil; intros;
    destruct_or?; subst; first [done | by eapply slice_ok_lt | by eapply wf_maps].
Qed.

Lemma mem_extends_keeps m m' : mem_wf m -> mem_extends m m' -> mem_keeps m m'.
Proof.
  intros Hwf Hext. split; [by apply ext_next|by apply ext_uuid| |].
  - intros l [n Hn]. rewrite (ext_ctxs _ _ Hext); [by exists n|]. by destruct (wf_ctxs _ Hwf _ _ Hn).
  - intros l x Hx. exists x. split; [by apply (msgs_extends m)|done].
Qed.

(** ** Well-formedness and extension, update by update *)

Lemma bump_extends m0 m : mem_extends m0 m -> mem_extends m0 (bump m).
Proof. intros []; split; simpl; auto with lia. Qed.

Lemma tick_extends m0 m : mem_extends m0 m -> mem_extends m0 (tick m).
Proof. intros []; by split. Qed.

Lemma draw_extends m0 m : mem_extends m0 m -> mem_extends m0 (draw m).
Proof. intros []; split; simpl; auto with lia. Qed.

Section PutExtends.
Context (m0 m : mem) (l : loc) (Hext : mem_extends m0 m) (Hl : next_loc m0 <= l).

Lemma put_bytes_extends x : mem_extends m0 (put_bytes l x m).
Proof using Hext Hl.
  destruct Hext; split; simpl; auto. intros l' ?. rewrite lookup_insert_ne by lia. auto.
Qed.
Lemma put_map_extends x : mem_extends m0 (put_map l x m).
Proof using Hext Hl.
  destruct Hext; split; simpl; auto. intros l' ?. rewrite lookup_insert_ne by lia. auto.
Qed.
Lemma put_msg_extends x : mem_extends m0 (put_msg l x m).
Proof using Hext Hl.
  destruct Hext; split; simpl; auto. intros l' ?. rewrite lookup_insert_ne by lia. auto.
Qed.
Lemma put_ctx_extends x : mem_extends m0 (put_ctx l x m).
Proof using Hext Hl.
  destruct Hext; split; simpl; auto. intros l' ?. rewrite lookup_insert_ne by lia. auto.
Qed.
End PutExtends.

Section PutWf.
Context (m : mem) (Hwf : mem_wf m).

Lemma bump_wf : mem_wf (bump m).
Proof using Hwf.
  destruct Hwf as [Hb Hp Hm Hc]. split; simpl.
  - intros l ?%Hb. lia.
  - intros l ?%Hp. lia.
  - intros l x [? ?]%Hm. split; [lia|done].
  - intros l n [? ?]%Hc. lia.
Qed.
Lemma tick_wf : mem_wf (tick m).
Proof using Hwf. destruct Hwf; by split. Qed.
Lemma draw_wf : mem_wf (draw m).
Proof using Hwf. destruct Hwf; by split. Qed.

Lemma put_bytes_wf l x :
  l < next_loc m ->
  (forall y, bytes_of m !! l = Some y -> length y <= length x) ->
  mem_wf (put_bytes l x m).
Proof using Hwf.
  intros Hl Hx. assert (forall s, slice_ok m s -> slice_ok (put_bytes l x m) s) as Hs.
  { intros s (arr & Harr & Hle). unfold slice_ok. simpl.
    rewrite lookup_insert. case_decide; [|eauto]. simplify_eq.
    exists x. split; [done|]. specialize (Hx _ Harr). lia. }
  split; simpl.
  - intros l'. rewrite lookup_insert. case_decide; [by simplify_eq|]. apply (wf_bytes _ Hwf).
  - apply (wf_maps _ Hwf).
  - intros l' y Hy. destruct (wf_msgs _ Hwf _ _ Hy) as [? (Hk & Hv & Hh)].
    split; [done|]. unfold message_ok. split_and!; [| |done].
    + destruct (msg_Key y); [by apply Hs|done].
    + destruct (msg_Value y); [by apply Hs|done].
  - apply (wf_ctxs _ Hwf).
Qed.

Lemma put_map_wf l x : l < next_loc m -> mem_wf (put_map l x m).
Proof using Hwf.
  intros Hl. split; simpl.
  - apply (wf_bytes _ Hwf).
  - intros l'. rewrite lookup_insert. case_decide; [by simplify_eq|]. apply (wf_maps _ Hwf).
  - intros l' y Hy. destruct (wf_msgs _ Hwf _ _ Hy) as [? (Hk & Hv & Hh)].
    split; [done|]. unfold message_ok. split_and!; [done..|].
    destruct (msg_Headers y) as [h|]; [|done]. simpl in *.
    rewrite lookup_insert. by case_decide.
  - apply (wf_ctxs _ Hwf).
Qed.

Lemma put_msg_wf l x : l < next_loc m -> message_ok m x -> mem_wf (put_msg l x m).
Proof using Hwf.
  intros Hl Hx. split; simpl.
  - apply (wf_bytes _ Hwf).
  - apply (wf_maps _ Hwf).
  - intros l' y. rewrite lookup_insert. case_decide; [by intros; simplify_eq|].
    apply (wf_msgs _ Hwf).
  - apply (wf_ctxs _ Hwf).
Qed.

Lemma put_ctx_wf l x :
  l < next_loc m -> ctx_depth (cn_parent x) <= l -> mem_wf (put_ctx l x m).
Proof using Hwf.
  intros Hl Hx. split; simpl.
  - apply (wf_bytes _ Hwf).
  - apply (wf_maps _ Hwf).
  - apply (wf_msgs _ Hwf).
  - intros l' y. rewrite lookup_insert. case_decide; [by intros; simplify_eq|].
    apply (wf_ctxs _ Hwf).
Qed.
End PutWf.

(** A location at or above the allocator holds nothing. *)
Lemma wf_fresh_bytes m : mem_wf m -> bytes_of m !! next_loc m = None.
Proof.
  intros Hwf. apply eq_None_not_Some. intros Hs%(wf_bytes _ Hwf). lia.
Qed.
Lemma wf_fresh_maps m : mem_wf m -> maps_of m !! next_loc m = None.
Proof.
  intros Hwf. apply eq_None_not_Some. intros Hs%(wf_maps _ Hwf). lia.
Qed.
Lemma wf_fresh_msgs m : mem_wf m -> msgs_of m !! next_loc m = None.
Proof.
  intros Hwf. apply eq_None_not_Some. intros [x Hx]. destruct (wf_msgs _ Hwf _ _ Hx). lia.
Qed.

#[export] Hint Resolve bump_extends tick_extends draw_extends put_bytes_extends
  put_map_extends put_msg_extends put_ctx_extends bump_wf tick_wf draw_wf
  put_map_wf : go.

(** Overwriting a whole array. *)
Lemma splice_full arr bs : length arr = length bs -> splice arr 0 bs = bs.
Proof.
  intros Hlen. unfold splice. simpl.
  rewrite drop_ge by lia. by rewrite app_nil_r.
Qed.

(** The rules for the primitives that only add an object: the store stays
    well formed and everything that was there is unchanged. *)
Lemma new_array_spec bs m0 m :
  mem_wf m -> mem_extends m0 m ->
  wp (new_array bs) (fun s m' =>
    mem_wf m' /\ mem_extends m0 m' /\ mem_extends m m' /\ next_loc m' = S (next_loc m) /\
    s = mkSlice (next_loc m) 0 (length bs) /\
    bytes_of m' !! next_loc m = Some bs /\ slice_ok m' s) m.
Proof.
  intros Hwf Hext. unfold wp, new_array. cbv beta iota.
  split_and!; try done.
  - apply put_bytes_wf; [by eauto with go|simpl; lia|]. simpl. intros y Hy.
    by rewrite (wf_fresh_bytes m) in Hy.
  - apply put_bytes_extends; [by apply bump_extends|by apply ext_next].
  - apply put_bytes_extends; [by apply bump_extends|done].
  - simpl. by rewrite lookup_insert_eq.
  - exists bs. simpl. rewrite lookup_insert_eq. auto.
Qed.

Lemma make_map_spec m0 m :
  mem_wf m -> mem_extends m0 m ->
  wp make_map (fun l m' =>
    mem_wf m' /\ mem_extends m0 m' /\ mem_extends m m' /\ next_loc m' = S (next_loc m) /\
    l = next_loc m /\ m' = put_map (next_loc m) ∅ (bump m)) m.
Proof.
  intros Hwf Hext. unfold wp, make_map. cbv beta iota.
  split_and!; try done.
  - apply put_map_wf; [by apply bump_wf|simpl; lia].
  - apply put_map_extends; [by apply bump_extends|by apply ext_next].
  - apply put_map_extends; [by apply bump_extends|done].
Qed.

Lemma new_msg_spec x m0 m :
  mem_wf m -> mem_extends m0 m -> message_ok m x ->
  wp (new_msg x) (fun l m' =>
    mem_wf m' /\ mem_extends m0 m' /\ mem_extends m m' /\ next_loc m' = S (next_loc m) /\
    l = next_loc m /\ m' = put_msg (next_loc m) x (bump m)) m.
Proof.
  intros Hwf Hext Hx. unfold wp, new_msg. cbv beta iota.
  split_and!; try done.
  - apply put_msg_wf; [by apply bump_wf|simpl; lia|done].
  - apply put_msg_extends; [by apply bump_extends|by apply ext_next].
  - apply put_msg_extends; [by apply bump_extends|done].
Qed.

(** Writes to an object the caller allocated itself. *)
Lemma update_msg_spec l x f m0 m :
  mem_wf m -> mem_extends m0 m -> next_loc m0 <= l ->
  msgs_of m !! l = Some x -> message_ok m (f x) ->
  wp (update_msg (Some l) f) (fun _ m' =>
    mem_wf m' /\ mem_extends m0 m' /\ m' = put_msg l (f x) m) m.
Proof.
  intros Hwf Hext Hle Hx Hf. unfold wp, update_msg. rewrite Hx.
  split_and!; try done.
  - apply put_msg_wf; [done| |done]. by destruct (wf_msgs _ Hwf _ _ Hx).
  - by apply put_msg_extends.
Qed.

Lemma map_assign_spec l x k v m0 m :
  mem_wf m -> mem_extends m0 m -> next_loc m0 <= l -> maps_of m !! l = Some x ->
  wp (map_assign (Some l) k v) (fun _ m' =>
    mem_wf m' /\ mem_extends m0 m' /\ m' = put_map l (<[k := v]> x) m) m.
Proof.
  intros Hwf Hext Hle Hx. unfold wp, map_assign. rewrite Hx.
  split_and!; try done.
  - apply put_map_wf; [done|]. apply (wf_maps _ Hwf). by rewrite Hx.
  - by apply put_map_extends.
Qed.

(** Filling a fresh array from a slice of the same length. *)
Lemma copy_bytes_spec d src arr bs m0 m :
  mem_wf m -> mem_extends m0 m -> next_loc m0 <= sl_arr d ->
  bytes_of m !! sl_arr d = Some arr -> sl_off d = 0 ->
  read_slice m src = Some bs -> length bs = sl_len d -> length arr = sl_len d ->
  wp (copy_bytes d src) (fun n m' =>
    mem_wf m' /\ mem_extends m0 m' /\ n = length bs /\
    m' = put_bytes (sl_arr d) bs m) m.
Proof.
  intros Hwf Hext Hle Harr Hoff Hbs Hlen Hlen'. unfold wp, copy_bytes.
  rewrite Harr, Hbs, Hoff, Hlen, Nat.min_id, firstn_all2 by lia.
  rewrite splice_full by lia. split_and!; try done.
  - apply put_bytes_wf; [done| |]; [apply (wf_bytes _ Hwf); by rewrite Harr|].
    intros y Hy. simplify_eq. lia.
  - by apply put_bytes_extends.
Qed.

Lemma content_fields m l ct :
  content_of m l = Some ct -> exists x, msgs_of m !! l = Some x /\
    msg_ID x = c_id ct /\ msg_Topic x = c_topic ct /\ msg_Timestamp x = c_time ct /\
    slice_content m (msg_Key x) = Some (c_key ct) /\
    slice_content m (msg_Value x) = Some (c_value ct) /\
    headers_content m (msg_Headers x) = Some (c_headers ct).
Proof.
  unfold content_of. destruct (msgs_of m !! l) as [x|]; [simpl|done].
  destruct (slice_content m (msg_Key x)) eqn:?; simpl; [|done].
  destruct (slice_content m (msg_Value x)) eqn:?; simpl; [|done].
  destruct (headers_content m (msg_Headers x)) eqn:?; simpl; [|done].
  intros [= <-]. exists x. by split_and!.
Qed.

Lemma content_live m l ct : content_of m l = Some ct -> is_Some (msgs_of m !! l).
Proof. intros (x & Hx & _)%content_fields. by exists x. Qed.
