(* ===== verification/Contexts.v ===== *)
(** * Contexts: cancellation and its propagation

    What the models of [context.WithTimeout], [context.WithCancel] and cancel
    functions in Store.v guarantee. *)

From Stdlib Require Import ZArith Lia.
From stdpp Require Import base gmap strings list fin_maps.
From S2P Require Import Prelude Store.

(** Cancelling a context leaves everything else of the store alone. *)
Lemma ctx_cancel_spec l n m :
  mem_wf m -> ctxs_of m !! l = Some n ->
  wp (ctx_cancel (CtxNode l)) (fun _ m' => mem_wf m' /\ mem_keeps m m' /\
    ctx_Err m' (CtxNode l) <> None /\ forall k, content_of m' k = content_of m k) m.
Proof.
  intros Hwf Hn. unfold wp, ctx_cancel, ctx_finish.
  destruct (ctx_Err m (CtxNode l)) as [e|] eqn:He; [by rewrite He|]. rewrite Hn.
  split_and!; [| | |done].
  2:{ split; [done|done| |eauto]. intros k Hk. simpl. rewrite lookup_insert. by case_decide. }
  - destruct Hwf as [Hb Hp Hm Hc]. split; simpl; [done|done|done|].
    intros l2 n2. rewrite lookup_insert. case_decide; [subst|eauto]. intros [= <-].
    apply (Hc _ _ Hn).
  - unfold ctx_Err, ctx_depth. simpl. by rewrite lookup_insert_eq.
Qed.

Lemma new_ctx_spec n m :
  mem_wf m -> ctx_depth (cn_parent n) <= next_loc m ->
  wp (new_ctx n) (fun c m' => c = CtxNode (next_loc m) /\ mem_wf m' /\ mem_extends m m' /\
    ctxs_of m' !! next_loc m = Some n) m.
Proof.
  intros Hwf Hd. unfold wp, new_ctx. split_and!; [done| | |simpl; by rewrite lookup_insert_eq].
  - pose proof (bump_wf _ Hwf) as [Hb Hp Hm Hc]. split; simpl in *; [done|done|done|].
    intros l2 n2. rewrite lookup_insert. case_decide; [subst|eauto]. intros [= <-]. lia.
  - pose proof (bump_extends m m ltac:(reflexivity)) as [E1 E2 E3 E4 E5 E6].
    split; simpl in *; [lia|lia|done|done|done|].
    intros l Hl. rewrite lookup_insert_ne by lia. done.
Qed.

(** ** A done context stays done *)

(** [m'] has the contexts of [m], with the same parents, done if they were. *)
Definition ctxs_grow (m m' : mem) : Prop :=
  forall l n, ctxs_of m !! l = Some n -> exists n', ctxs_of m' !! l = Some n' /\
    cn_parent n' = cn_parent n /\ (cn_err n <> None -> cn_err n' <> None).

#[export] Instance ctxs_grow_preorder : PreOrder ctxs_grow.
Proof.
  split.
  - intros m l n Hn. by exists n.
  - intros m1 m2 m3 H12 H23 l n Hn. destruct (H12 _ _ Hn) as (n2 & Hn2 & Hp2 & He2).
    destruct (H23 _ _ Hn2) as (n3 & Hn3 & Hp3 & He3). exists n3.
    split_and!; [done|congruence|auto].
Qed.

Lemma ctx_Err_grow m m' c : ctxs_grow m m' -> ctx_Err m c <> None -> ctx_Err m' c <> None.
Proof.
  intros Hg. unfold ctx_Err. generalize (ctx_depth c). intros fuel. revert c.
  induction fuel as [|fuel IH]; intros c; [done|]. destruct c as [|l]; [done|]. simpl.
  destruct (ctxs_of m !! l) as [n|] eqn:Hn; [|done].
  destruct (Hg _ _ Hn) as (n' & -> & -> & He).
  destruct (cn_err n) as [e|]; [destruct (cn_err n'); [done|by destruct He]|].
  intros Hp. destruct (cn_err n'); [done|]. by apply IH.
Qed.

Lemma mem_extends_grow m m' : mem_wf m -> mem_extends m m' -> ctxs_grow m m'.
Proof.
  intros Hwf Hext l n Hn. exists n. rewrite (ext_ctxs _ _ Hext); [done|].
  by destruct (wf_ctxs _ Hwf _ _ Hn).
Qed.

Lemma ctx_cancel_grow l m : ctxs_grow m (ctx_cancel (CtxNode l) m).2.
Proof.
  unfold ctx_cancel, ctx_finish. destruct (ctx_Err m (CtxNode l)); [done|].
  destruct (ctxs_of m !! l) as [n|] eqn:Hn; [|done]. intros l2 n2 Hn2. simpl.
  rewrite lookup_insert. case_decide; [subst; simplify_eq|by exists n2].
  eexists. split; [done|]. by split.
Qed.
