(* ===== verification/Demo.v ===== *)
(** * A concrete environment for the witnesses

    A clock that advances one millisecond per reading (for the first billion
    readings) and a UUID source whose
    values differ in their last eight digits, with the facts the theorems
    assume of an environment; and a small concrete store. *)

From Stdlib Require Import ZArith Lia.
From stdpp Require Import base gmap strings list fin_maps.
From S2P Require Import Prelude Store.

Definition digit (n : nat) : Ascii.ascii := Ascii.ascii_of_nat (48 + n mod 10).

Fixpoint digits (k n : nat) : string :=
  match k with
  | 0 => ""
  | S k => digits k (n / 10) +:+ String (digit n) ""
  end.

Definition demo_uuid (n : nat) : string := "5f0c7a9e-3b1d-4e60-8a42-c1d2" +:+ digits 8 n.

#[export] Instance demo_env : Env := {|
  uuid_String := demo_uuid;
  clock_Nanos := fun n => (1700000000000000000 + 1000000 * (Z.of_nat n mod 1000000000))%Z |}.

Lemma digits_length k n : String.length (digits k n) = k.
Proof.
  revert n. induction k as [|k IH]; intros n; simpl; [done|].
  rewrite string_length_app, IH. simpl. lia.
Qed.

(** The first [n] of them, compared pairwise. *)
Definition demo_uuids_differ (n : nat) : bool :=
  forallb (fun j => forallb (fun i => negb (bool_decide (demo_uuid i = demo_uuid j))) (seq 0 j))
    (seq 0 n).

Lemma demo_uuid_spec_upto n : demo_uuids_differ n = true -> UuidSpec n.
Proof.
  intros Hall. split.
  - intros k. change (String.length (demo_uuid k) = 36). unfold demo_uuid.
    rewrite string_length_app, digits_length. done.
  - intros i j Hij Hj Heq. unfold demo_uuids_differ in Hall. rewrite forallb_forall in Hall.
    specialize (Hall j ltac:(apply in_seq; lia)). rewrite forallb_forall in Hall.
    specialize (Hall i ltac:(apply in_seq; lia)).
    change (demo_uuid i = demo_uuid j) in Heq. by rewrite bool_decide_eq_true_2 in Hall.
Qed.

#[export] Instance demo_uuid_spec : UuidSpec 16.
Proof. apply demo_uuid_spec_upto. vm_compute. reflexivity. Qed.

#[export] Instance demo_uuid_spec_32 : UuidSpec 32.
Proof. apply demo_uuid_spec_upto. vm_compute. reflexivity. Qed.

(** A store with one message: key [k], value [hi], one header. *)
Definition demo_mem : mem :=
  mkMem {[0 := [Byte.x6b]; 1 := [Byte.x68; Byte.x69]]} {[2 := {["trace" := "t-1"]}]}
    {[3 := mkMessage "m-1" "orders" (Some (mkSlice 0 0 1)) (Some (mkSlice 1 0 2)) (Some 2)
             (mkTime 1690000000000000000 0)]} ∅ 4 0 0.
Definition demo_msg : loc := 3.

Definition demo_content : content := {|
  c_id := "m-1"; c_topic := "orders"; c_key := Some [Byte.x6b];
  c_value := Some [Byte.x68; Byte.x69]; c_headers := Some {["trace" := "t-1"]};
  c_time := mkTime 1690000000000000000 0 |}.

Lemma demo_mem_wf : mem_wf demo_mem.
Proof. apply (bool_decide_unpack _). vm_compute. exact I. Qed.

Lemma demo_msg_content : content_of demo_mem demo_msg = Some demo_content.
Proof. vm_compute. reflexivity. Qed.

Lemma demo_msg_live : is_Some (msgs_of demo_mem !! demo_msg).
Proof. by eexists. Qed.

(** A map order: the one of the finite map's list. *)
#[export] Instance demo_range : MapRange := {| map_range := fun _ V m => map_to_list m |}.

#[export] Instance demo_range_spec : MapRangeSpec.
Proof. by constructor. Qed.
