(* ===== verification/I18n.v ===== *)
(** * The translation seam (pkg/i18n/translator.go, pkg/broker/i18n_wiring.go)

    A translator is an interface value: its dynamic type and its [T] method.
    [atomic.Value] remembers the dynamic type of the first value stored in it
    and refuses values of any other type. *)

From Stdlib Require Import ZArith Lia.
From stdpp Require Import base gmap strings list fin_maps.
From S2P Require Import Prelude.

Section I18n.
(** the values of a [map[string]any] of template parameters *)
Context {any : Type}.

Abbreviation params := (gmap string any) (only parsing).

(** An [i18n.Translator] that is not nil: the package's own [NoopTranslator],
    or a value of another type [ty] with the method [T]. *)
Inductive Translator :=
| NoopTranslator
| OtherTranslator (ty : nat) (T : string -> params -> string).

Definition NoopTranslator_T (key : string) (_ : params) : string := key.

Definition T (t : Translator) (key : string) (p : params) : string :=
  match t with
  | NoopTranslator => NoopTranslator_T key p
  | OtherTranslator _ f => f key p
  end.

(** The dynamic type of the interface value. *)
Definition dynamic_type (t : Translator) : option nat :=
  match t with NoopTranslator => None | OtherTranslator ty _ => Some ty end.

(** [atomic.Value]: empty, or a value whose type is then fixed. *)
Definition atomic_Value := option Translator.

Definition atomic_Store (v : Translator) : GoM atomic_Value unit := fun s =>
  match s with
  | None => (Ok tt, Some v)
  | Some old =>
    if bool_decide (dynamic_type old = dynamic_type v)
    then (Ok tt, Some v)
    else (Panic InconsistentStore, s)
  end.

(** The broker package's [pkgTranslator], initially empty and then set by
    the package's [init]. *)
Definition resetTranslator : GoM atomic_Value unit := atomic_Store NoopTranslator.

Definition SetTranslator (t : option Translator) : GoM atomic_Value unit :=
  match t with
  | None => resetTranslator
  | Some t => atomic_Store t
  end.

Definition tr (v : atomic_Value) : Translator :=
  match v with
  | None => NoopTranslator
  | Some t => t
  end.

(** The package state after [init] and a sequence of [SetTranslator] calls;
    a call that panics leaves what it has done so far. *)
Definition init_state : atomic_Value := (resetTranslator None).2.

Definition after_calls (calls : list (option Translator)) : atomic_Value :=
  foldl (fun s t => (SetTranslator t s).2) init_state calls.

Lemma after_calls_Noop calls : after_calls calls = Some NoopTranslator.
Proof.
  unfold after_calls. assert (init_state = Some NoopTranslator) as -> by done.
  induction calls as [|[[|ty f]|] calls IH]; simpl; auto.
Qed.

End I18n.
Arguments Translator : clear implicits.
Arguments atomic_Value : clear implicits.

(** C36: no translator of another type can be installed.  After the package's
    [init] and any sequence of [SetTranslator] calls, a call with a
    translator of a type other than [NoopTranslator] panics in
    [atomic.Value.Store], and the active translator still returns every key
    unchanged. *)
Theorem SetTranslator_never_installs (any : Type)
    (calls : list (option (Translator any))) ty f key p :
  panics (SetTranslator (Some (OtherTranslator ty f))) InconsistentStore (after_calls calls) /\
  T (tr (after_calls (calls ++ [Some (OtherTranslator ty f)]))) key p = key.
Proof. by rewrite !after_calls_Noop. Qed.
