(* ===== verification/Errors.v ===== *)
(** * Errors (pkg/broker/errors.go)

    Go error values with their identity: an error made by [errors.New],
    [fmt.Errorf] or a composite literal is a pointer, compared by address. *)

From Stdlib Require Import ZArith Lia.
From stdpp Require Import base gmap strings list fin_maps pretty.
From S2P Require Import Prelude Store I18n.

(** ** Error codes *)

Definition ErrorCode := string.

Definition ErrCodeConnectionFailed : ErrorCode := "CONNECTION_FAILED".
Definition ErrCodeConnectionClosed : ErrorCode := "CONNECTION_CLOSED".
Definition ErrCodeConnectionTimeout : ErrorCode := "CONNECTION_TIMEOUT".
Definition ErrCodeAuthFailed : ErrorCode := "AUTHENTICATION_FAILED".
Definition ErrCodePublishFailed : ErrorCode := "PUBLISH_FAILED".
Definition ErrCodePublishTimeout : ErrorCode := "PUBLISH_TIMEOUT".
Definition ErrCodeSubscribeFailed : ErrorCode := "SUBSCRIBE_FAILED".
Definition ErrCodeConsumerCanceled : ErrorCode := "CONSUMER_CANCELED".
Definition ErrCodeHandlerError : ErrorCode := "HANDLER_ERROR".
Definition ErrCodeMessageTooLarge : ErrorCode := "MESSAGE_TOO_LARGE".
Definition ErrCodeMessageExpired : ErrorCode := "MESSAGE_EXPIRED".
Definition ErrCodeMessageInvalid : ErrorCode := "MESSAGE_INVALID".
Definition ErrCodeInvalidConfig : ErrorCode := "INVALID_CONFIG".
Definition ErrCodeBrokerUnavailable : ErrorCode := "BROKER_UNAVAILABLE".
Definition ErrCodeOperationCanceled : ErrorCode := "OPERATION_CANCELED".

(** ** Sentinel errors: package variables, one pointer each *)

Inductive sentinel :=
| ErrConnectionFailed | ErrConnectionClosed | ErrConnectionTimeout | ErrAuthFailed
| ErrNotConnected | ErrPublishFailed | ErrPublishTimeout | ErrSubscribeFailed
| ErrConsumerCanceled | ErrHandlerError | ErrMessageTooLarge | ErrMessageExpired
| ErrMessageInvalid | ErrInvalidConfig | ErrBrokerUnavailable | ErrOperationCanceled
| ErrTopicNotFound | ErrQueueNotFound.

#[global] Instance sentinel_eq_dec : EqDecision sentinel.
Proof. solve_decision. Defined.

Definition sentinel_text (s : sentinel) : string :=
  match s with
  | ErrConnectionFailed => "connection failed"
  | ErrConnectionClosed => "connection closed"
  | ErrConnectionTimeout => "connection timeout"
  | ErrAuthFailed => "authentication failed"
  | ErrNotConnected => "not connected to broker"
  | ErrPublishFailed => "publish failed"
  | ErrPublishTimeout => "publish timeout"
  | ErrSubscribeFailed => "subscribe failed"
  | ErrConsumerCanceled => "consumer canceled"
  | ErrHandlerError => "message handler error"
  | ErrMessageTooLarge => "message too large"
  | ErrMessageExpired => "message expired"
  | ErrMessageInvalid => "invalid message"
  | ErrInvalidConfig => "invalid configuration"
  | ErrBrokerUnavailable => "broker unavailable"
  | ErrOperationCanceled => "operation canceled"
  | ErrTopicNotFound => "topic not found"
  | ErrQueueNotFound => "queue not found"
  end.

(** ** Error values *)

Record BrokerErrorOf (E : Type) := mkBrokerError {
  Code : ErrorCode;
  be_Message : string;
  Cause : option E;
  Retryable : bool }.
Arguments mkBrokerError {E}.
Arguments Code {E}.
Arguments be_Message {E}.
Arguments Cause {E}.
Arguments Retryable {E}.

Record MultiErrorOf (E : Type) := mkMultiError { me_Errors : list (option E) }.
Arguments mkMultiError {E}.
Arguments me_Errors {E}.

Scheme All for option.
Scheme All for list.
Scheme All for BrokerErrorOf.
Scheme All for MultiErrorOf.

(** A non-nil [error]; the location is the pointer's address. *)
Inductive error :=
| ErrSentinel (s : sentinel)
| ErrCtx (e : ctx_error)                             (* context.Canceled, ... *)
| ErrString (l : loc) (text : string)                (* errors.New, fmt.Errorf *)
| ErrWrap (l : loc) (text : string) (err : error)    (* fmt.Errorf with %w *)
| ErrBroker (l : loc) (e : BrokerErrorOf error)
| ErrMulti (l : loc) (e : MultiErrorOf error).

Abbreviation BrokerError := (BrokerErrorOf error) (only parsing).
Abbreviation MultiError := (MultiErrorOf error) (only parsing).

(** A value of type [any], as far as the program passes one. *)
Inductive any := AnyInt (z : Z) | AnyString (s : string) | AnyError (e : option error).

(** The operator [==] on two non-nil errors. *)
Definition same_error (a b : error) : bool :=
  match a, b with
  | ErrSentinel s, ErrSentinel t => bool_decide (s = t)
  | ErrCtx s, ErrCtx t => bool_decide (s = t)
  | ErrString l _, ErrString k _ => Nat.eqb l k
  | ErrWrap l _ _, ErrWrap k _ _ => Nat.eqb l k
  | ErrBroker l _, ErrBroker k _ => Nat.eqb l k
  | ErrMulti l _, ErrMulti k _ => Nat.eqb l k
  | _, _ => false
  end.

(** The [Unwrap] methods. *)
Definition BrokerError_Unwrap (e : BrokerError) : option error := Cause e.

Definition MultiError_Unwrap (e : MultiError) : option error :=
  match me_Errors e with
  | [] => None
  | x :: _ => x
  end.

(** [errors.Unwrap] *)
Definition unwrap (e : error) : option error :=
  match e with
  | ErrWrap _ _ c => Some c
  | ErrBroker _ b => BrokerError_Unwrap b
  | ErrMulti _ m => MultiError_Unwrap m
  | _ => None
  end.

(** ** errors.Is and errors.As *)

(** [errors.Is(err, target)] for two non-nil errors: compare, ask the error's
    own [Is] method ([BrokerError.Is], below), then unwrap. *)
Fixpoint errors_is (err target : error) {struct err} : bool :=
  same_error err target ||
  match err with
  | ErrBroker _ {| Code := code; Cause := cause |} =>
    match target with
    | ErrBroker _ t => bool_decide (code = Code t)
    | _ => match cause with Some c => errors_is c target | None => false end
    end ||
    match cause with Some c => errors_is c target | None => false end
  | ErrWrap _ _ c => errors_is c target
  | ErrMulti _ {| me_Errors := Some c :: _ |} => errors_is c target
  | _ => false
  end.

Definition errors_Is (err target : option error) : bool :=
  match err, target with
  | Some e, Some t => errors_is e t
  | None, None => true
  | _, _ => false
  end.

Definition BrokerError_Is (e : BrokerError) (target : option error) : bool :=
  match target with
  | Some (ErrBroker _ t) => bool_decide (Code e = Code t)
  | _ => errors_Is (Cause e) target
  end.

(** [errors.As(err, &brokerErr)]: the first [*BrokerError] met. *)
Fixpoint errors_as_broker (err : error) : option (loc * BrokerError) :=
  match err with
  | ErrBroker l b => Some (l, b)
  | ErrWrap _ _ c => errors_as_broker c
  | ErrMulti _ {| me_Errors := Some c :: _ |} => errors_as_broker c
  | _ => None
  end.

(** ** BrokerError *)

Definition isRetryable (code : ErrorCode) : bool :=
  bool_decide (code = ErrCodeConnectionFailed)
  || bool_decide (code = ErrCodeConnectionTimeout)
  || bool_decide (code = ErrCodePublishTimeout)
  || bool_decide (code = ErrCodeBrokerUnavailable).

Definition NewBrokerError (code : ErrorCode) (message : string) (cause : option error) :
    BrokerError :=
  {| Code := code; be_Message := message; Cause := cause; Retryable := isRetryable code |}.

Definition GetBrokerError (err : option error) : option (loc * BrokerError) :=
  e ← err; errors_as_broker e.

Definition IsBrokerError (err : option error) : bool :=
  match GetBrokerError err with Some _ => true | None => false end.

Definition IsRetryableError (err : option error) : bool :=
  match GetBrokerError err with
  | Some (_, b) => Retryable b
  | None => false
  end.

Definition connection_code (code : ErrorCode) : bool :=
  bool_decide (code = ErrCodeConnectionFailed)
  || bool_decide (code = ErrCodeConnectionClosed)
  || bool_decide (code = ErrCodeConnectionTimeout)
  || bool_decide (code = ErrCodeAuthFailed).

Definition IsConnectionError (err : option error) : bool :=
  if match GetBrokerError err with Some (_, b) => connection_code (Code b) | None => false end
  then true
  else errors_Is err (Some (ErrSentinel ErrConnectionFailed))
       || errors_Is err (Some (ErrSentinel ErrConnectionClosed))
       || errors_Is err (Some (ErrSentinel ErrConnectionTimeout)).

(** ** MultiError *)

Definition NewMultiError (errs : list (option error)) : MultiError := mkMultiError errs.

Definition MultiError_Add (e : MultiError) (err : option error) : MultiError :=
  match err with
  | Some x => mkMultiError (me_Errors e ++ [Some x])
  | None => e
  end.

Definition HasErrors (e : MultiError) : bool := 0 <? length (me_Errors e).

(** [l] is the address of the MultiError. *)
Definition ErrorOrNil (l : loc) (e : MultiError) : option error :=
  if HasErrors e then Some (ErrMulti l e) else None.

(** ** Error strings

    [Error()] panics when a MultiError holds exactly one error and it is nil;
    [None] stands for that panic (a nil dereference).  [fmt] catches a panic of
    the [Error] method of an operand and prints it in place. *)

Definition panic_text : string :=
  "%!v(PANIC=Error method: runtime error: invalid memory address or nil pointer dereference)".

(** [%v] and [%w] of an error operand *)
Definition fmt_v (rendered : option string) : string := default panic_text rendered.

Definition multi_error_key : string := "messaging_broker_multi_error".

Section ErrorStrings.
Context (t : Translator any).     (* the active translator *)

(** The two methods, for the rendering of the errors they hold. *)
Definition BrokerError_Error (Error : error -> option string) (e : BrokerErrorOf error) :
    option string :=
  match Cause e with
  | Some c => Some ("[" +:+ Code e +:+ "] " +:+ be_Message e +:+ ": " +:+ fmt_v (Error c))
  | None => Some ("[" +:+ Code e +:+ "] " +:+ be_Message e)
  end.

Definition MultiError_Error (Error : error -> option string) (e : MultiErrorOf error) :
    option string :=
  match me_Errors e with
  | [] => Some "no errors"
  | [x] => match x with Some c => Error c | None => None end
  | first :: _ =>
    let rendered := T t multi_error_key
      (<["count" := AnyInt (Z.of_nat (length (me_Errors e)))]>
        (<["first" := AnyError first]> ∅)) in
    if bool_decide (rendered = multi_error_key)
    then Some ("multiple errors (" +:+ pretty (length (me_Errors e)) +:+ "): " +:+
               match first with Some c => fmt_v (Error c) | None => "<nil>" end)
    else Some rendered
  end.

Fixpoint Error (e : error) : option string :=
  match e with
  | ErrSentinel s => Some (sentinel_text s)
  | ErrCtx Canceled => Some "context canceled"
  | ErrCtx DeadlineExceeded => Some "context deadline exceeded"
  | ErrString _ text => Some text
  | ErrWrap _ text _ => Some text
  | ErrBroker _ e => BrokerError_Error Error e
  | ErrMulti _ e => MultiError_Error Error e
  end.
End ErrorStrings.

(** [fmt.Errorf(prefix + ": %w", err)] at address [l]. *)
Definition Errorf_wrap (t : Translator any) (l : loc) (prefix : string) (err : error) : error :=
  ErrWrap l (prefix +:+ ": " +:+ fmt_v (Error t err)) err.

(** [errors.New(text)], or [fmt.Errorf] without [%w]; and [fmt.Errorf(prefix + ": %w", err)] *)
Definition fresh_error (text : string) : GoM mem error :=
  let! l := alloc_loc in ret (ErrString l text).

Definition Errorf_fresh (tr : Translator any) (prefix : string) (e : error) : GoM mem error :=
  let! l := alloc_loc in ret (Errorf_wrap tr l prefix e).

(** ** The chain of an error: itself, then what it unwraps to *)

Section ErrorInd.
Context (P : error -> Prop)
  (Hleaf : forall e, unwrap e = None -> P e)
  (Hstep : forall e c, unwrap e = Some c -> P c -> P e).

(** Induction along [errors.Unwrap]. *)
Fixpoint error_unwrap_ind (e : error) : P e.
Proof using Hleaf Hstep.
  destruct e as [s|ce|l s|l s c|l [code msg [c|] r]|l [[|[c|] es]]].
  all: first [by apply Hleaf | by eapply Hstep; [reflexivity|apply error_unwrap_ind]].
Defined.
End ErrorInd.

Fixpoint chain (e : error) : list error :=
  e :: match e with
       | ErrWrap _ _ c => chain c
       | ErrBroker _ {| Cause := Some c |} => chain c
       | ErrMulti _ {| me_Errors := Some c :: _ |} => chain c
       | _ => []
       end.

Definition chain_opt (e : option error) : list error := from_option chain [] e.

Lemma chain_unwrap e : chain e = e :: chain_opt (unwrap e).
Proof. by destruct e as [s|ce|l s|l s c|l [code msg [c|] r]|l [[|[c|] es]]]. Qed.

(** One error of a chain meets the target: the same pointer, or two broker
    errors with the same code. *)
Definition matches (target x : error) : bool :=
  same_error x target ||
  match x, target with
  | ErrBroker _ b, ErrBroker _ t => bool_decide (Code b = Code t)
  | _, _ => false
  end.

Lemma errors_is_unwrap e t :
  errors_is e t = matches t e || match unwrap e with Some c => errors_is c t | None => false end.
Proof.
  unfold matches. destruct e as [s|ce|l s|l s c|l [code msg [c|] r]|l [[|[c|] es]]]; simpl;
    destruct t; simpl; rewrite ?orb_false_r, ?orb_diag; try done.
  all: by rewrite ?orb_assoc.
Qed.

Lemma errors_is_chain e t : errors_is e t = existsb (matches t) (chain e).
Proof.
  induction e as [e He|e c He IH] using error_unwrap_ind;
    rewrite errors_is_unwrap, chain_unwrap, He; simpl; by rewrite ?IH.
Qed.

Definition as_broker (e : error) : option (loc * BrokerError) :=
  match e with ErrBroker l b => Some (l, b) | _ => None end.

Lemma errors_as_broker_unwrap e :
  errors_as_broker e =
    match as_broker e with Some b => Some b | None => unwrap e ≫= errors_as_broker end.
Proof. by destruct e as [s|ce|l s|l s c|l [code msg [c|] r]|l [[|[c|] es]]]. Qed.

Lemma errors_as_broker_chain e : errors_as_broker e = head (omap as_broker (chain e)).
Proof.
  induction e as [e He|e c He IH] using error_unwrap_ind;
    rewrite errors_as_broker_unwrap, chain_unwrap, He; simpl;
    destruct (as_broker e); simpl; by rewrite ?IH.
Qed.

(** [BrokerError.Is], on which [errors.Is] relies, agrees with the definition
    of [errors_is] above. *)
Lemma errors_is_BrokerError_Is l b t :
  errors_is (ErrBroker l b) t =
    same_error (ErrBroker l b) t || BrokerError_Is b (Some t)
    || errors_Is (BrokerError_Unwrap b) (Some t).
Proof.
  destruct b as [code msg [c|] r], t; simpl; rewrite ?orb_false_r; try done.
  all: by rewrite ?orb_assoc.
Qed.

Definition sentinel_in (s : sentinel) (l : list error) : Prop := ErrSentinel s ∈ l.

Lemma matches_sentinel s x : matches (ErrSentinel s) x = true <-> x = ErrSentinel s.
Proof.
  destruct x; unfold matches; simpl; rewrite ?orb_false_r, ?bool_decide_eq_true.
  all: split; intros; simplify_eq; done.
Qed.

Lemma errors_Is_sentinel e s :
  errors_Is (Some e) (Some (ErrSentinel s)) = true <-> sentinel_in s (chain e).
Proof.
  simpl. rewrite errors_is_chain, existsb_exists. unfold sentinel_in.
  setoid_rewrite matches_sentinel. rewrite list_elem_of_In. split.
  - by intros (x & Hx & ->).
  - by eexists.
Qed.

Lemma connection_code_elem c :
  connection_code c = true <->
  c ∈ [ErrCodeConnectionFailed; ErrCodeConnectionClosed; ErrCodeConnectionTimeout; ErrCodeAuthFailed].
Proof.
  unfold connection_code. rewrite !orb_true_iff, !bool_decide_eq_true, !elem_of_cons, elem_of_nil.
  tauto.
Qed.

Lemma isRetryable_elem c :
  isRetryable c = true <->
  c ∈ [ErrCodeConnectionFailed; ErrCodeConnectionTimeout; ErrCodePublishTimeout;
       ErrCodeBrokerUnavailable].
Proof.
  unfold isRetryable. rewrite !orb_true_iff, !bool_decide_eq_true, !elem_of_cons, elem_of_nil.
  tauto.
Qed.

(** Wrapping with [%w] changes neither classification. *)
Lemma GetBrokerError_wrap l s e :
  GetBrokerError (Some (ErrWrap l s e)) = GetBrokerError (Some e).
Proof. done. Qed.

Lemma IsRetryableError_wrap l s e :
  IsRetryableError (Some (ErrWrap l s e)) = IsRetryableError (Some e).
Proof. done. Qed.

(** Errors put together by the package's own constructor. *)
Definition constructed (e : error) : Prop :=
  match e with
  | ErrBroker _ b => Retryable b = isRetryable (Code b)
  | _ => True
  end.

Lemma NewBrokerError_constructed l code msg cause :
  constructed (ErrBroker l (NewBrokerError code msg cause)).
Proof. done. Qed.

Lemma first_broker_constructed l c b :
  Forall constructed l -> head (omap as_broker l) = Some (c, b) ->
  Retryable b = isRetryable (Code b).
Proof.
  induction 1 as [|e l He Hl IH]; simpl; [done|].
  destruct e as [s|ce|l' s|l' s c'|l' b'|l' m]; simpl; auto.
  by intros [= -> ->].
Qed.

(** *** errors.Is, counted *)

(** [errors_is] with the number of errors visited. *)
Fixpoint errors_is_count (err target : error) {struct err} : bool * nat :=
  if same_error err target then (true, 1) else
  match err with
  | ErrBroker _ {| Code := code; Cause := cause |} =>
    let '(b, n) := match target with
                   | ErrBroker _ t => (bool_decide (code = Code t), 0)
                   | _ => match cause with
                          | Some c => errors_is_count c target
                          | None => (false, 0)
                          end
                   end in
    if b then (true, S n) else
    match cause with
    | Some c => let '(b', k) := errors_is_count c target in (b', S (n + k))
    | None => (false, S n)
    end
  | ErrWrap _ _ c => let '(b, n) := errors_is_count c target in (b, S n)
  | ErrMulti _ {| me_Errors := Some c :: _ |} =>
    let '(b, n) := errors_is_count c target in (b, S n)
  | _ => (false, 1)
  end.

Lemma errors_is_count_fst e t : (errors_is_count e t).1 = errors_is e t.
Proof.
  induction e as [e He|e c He IH] using error_unwrap_ind.
  all: destruct e as [s|ce|l s|l s c'|l [code msg [c'|] r]|l [[|[c'|] es]]];
    cbn in He; simplify_eq/=.
  all: repeat case_match; simplify_eq/=;
    rewrite ?orb_false_r, ?orb_true_r, ?orb_diag; congruence.
Qed.

(** [n] broker errors around a base error. *)
Fixpoint nested (code : ErrorCode) (n : nat) (base : error) : error :=
  match n with
  | 0 => base
  | S n => ErrBroker n (NewBrokerError code "" (Some (nested code n base)))
  end.

(** ** Properties *)

(** C23: [errors.Is(err, target)] holds exactly when some error of the chain of
    [err] (itself, then what it unwraps to, a MultiError unwrapping to its
    first element only) is the target itself or, both being broker errors, has
    the target's code. *)
Theorem errors_Is_iff (e t : error) :
  errors_Is (Some e) (Some t) = true <->
  exists x, x ∈ chain e /\
    (same_error x t = true \/
     exists lx bx lt bt, x = ErrBroker lx bx /\ t = ErrBroker lt bt /\ Code bx = Code bt).
Proof.
  simpl. rewrite errors_is_chain, existsb_exists. setoid_rewrite <- list_elem_of_In.
  unfold matches. split; intros (x & Hx & Hm); exists x; (split; [done|]).
  - apply orb_true_iff in Hm as [Hm|Hm]; [by left|right].
    destruct x, t; try done. apply bool_decide_eq_true in Hm. eauto 10.
  - apply orb_true_iff. destruct Hm as [Hm|(lx & bx & lt & bt & -> & -> & Heq)]; [by left|right].
    by apply bool_decide_eq_true.
Qed.

(** C31: for errors whose broker errors come from [NewBrokerError], an error is
    retryable exactly when the first broker error of its chain carries one of
    the four transient codes; deeper broker errors do not count. *)
Theorem IsRetryableError_iff (e : error) :
  Forall constructed (chain e) ->
  IsRetryableError (Some e) = true <->
  exists l b, head (omap as_broker (chain e)) = Some (l, b) /\
    Code b ∈ [ErrCodeConnectionFailed; ErrCodeConnectionTimeout;
              ErrCodePublishTimeout; ErrCodeBrokerUnavailable].
Proof.
  intros Hc. unfold IsRetryableError, GetBrokerError. simpl. rewrite errors_as_broker_chain.
  destruct (head (omap as_broker (chain e))) as [[l b]|] eqn:Hb; [|naive_solver].
  rewrite (first_broker_constructed _ _ _ Hc Hb), isRetryable_elem. naive_solver.
Qed.

Lemma IsRetryableError_iff_witness :
  let e := ErrWrap 1 "w" (ErrBroker 0 (NewBrokerError ErrCodePublishTimeout "m" None)) in
  Forall constructed (chain e) /\ IsRetryableError (Some e) = true.
Proof.
  split; [by repeat constructor|].
  apply (proj2 (IsRetryableError_iff
    (ErrWrap 1 "w" (ErrBroker 0 (NewBrokerError ErrCodePublishTimeout "m" None)))
    ltac:(by repeat constructor))).
  exists 0, (NewBrokerError ErrCodePublishTimeout "m" None). split; [done|].
  by repeat constructor.
Defined.

(** An error is a connection error exactly when the first broker error of
    its chain has a connection code, or one of the three sentinels
    [ErrConnectionFailed], [ErrConnectionClosed], [ErrConnectionTimeout] is in
    the chain; in particular the code [AUTHENTICATION_FAILED] counts and the
    sentinel [ErrAuthFailed] does not. *)
Theorem IsConnectionError_iff (e : error) :
  IsConnectionError (Some e) = true <->
  (exists l b, head (omap as_broker (chain e)) = Some (l, b) /\
    Code b ∈ [ErrCodeConnectionFailed; ErrCodeConnectionClosed;
              ErrCodeConnectionTimeout; ErrCodeAuthFailed]) \/
  sentinel_in ErrConnectionFailed (chain e) \/
  sentinel_in ErrConnectionClosed (chain e) \/
  sentinel_in ErrConnectionTimeout (chain e).
Proof.
  unfold IsConnectionError, GetBrokerError. simpl (_ ≫= _).
  rewrite errors_as_broker_chain, <- !errors_Is_sentinel.
  destruct (head (omap as_broker (chain e))) as [[l b]|] eqn:Hb.
  - destruct (connection_code (Code b)) eqn:Hc.
    + rewrite connection_code_elem in Hc. naive_solver.
    + rewrite !orb_true_iff. rewrite <- not_true_iff_false, connection_code_elem in Hc.
      naive_solver.
  - rewrite !orb_true_iff. naive_solver.
Qed.

(** Adding errors to an empty MultiError keeps the non-nil ones in order:
    [ErrorOrNil] is nil exactly when all were nil, and otherwise [Unwrap] is the
    first non-nil one, which is all that [errors.Is] and [errors.As] see. *)
Theorem MultiError_collects (l : loc) (errs : list (option error)) :
  let m := foldl MultiError_Add (NewMultiError []) errs in
  me_Errors m = Some <$> omap id errs /\
  (ErrorOrNil l m = None <-> Forall (fun e => e = None) errs) /\
  MultiError_Unwrap m = head (omap id errs) /\
  forall t, errors_Is (ErrorOrNil l m) (Some (ErrSentinel t)) =
    errors_Is (head (omap id errs)) (Some (ErrSentinel t)).
Proof.
  intros m. assert (me_Errors m = Some <$> omap id errs) as Hm.
  { unfold m. assert (forall m0, me_Errors (foldl MultiError_Add m0 errs) =
      me_Errors m0 ++ (Some <$> omap id errs)) as H; [|by rewrite H].
    induction errs as [|[e|] errs IH]; intros m0; simpl.
    - by rewrite app_nil_r.
    - rewrite IH. simpl. by rewrite <- app_assoc.
    - by rewrite IH. }
  assert (omap id errs = [] <-> Forall (fun e => e = None) errs) as Hnil.
  { clear. induction errs as [|[e|] errs IH]; simpl; [by split|..].
    - split; [done|]. by inversion 1.
    - rewrite IH. split; [by constructor|by inversion 1]. }
  clearbody m. destruct m as [es]. simpl in *. subst es.
  unfold ErrorOrNil, HasErrors, MultiError_Unwrap; simpl.
  rewrite length_fmap, <- Hnil. by destruct (omap id errs).
Qed.

(** The number of comparisons of [errors.Is] doubles with every broker
    error in the chain: around a base that does not match, [n] broker errors
    cost [2^(n+1) - 1], because [BrokerError.Is] searches the cause and
    [errors.Is] then searches it again. *)
Theorem errors_Is_exponential (code : ErrorCode) (n : nat) (b t : sentinel) :
  b <> t ->
  errors_is_count (nested code n (ErrSentinel b)) (ErrSentinel t) = (false, 2 ^ (n + 1) - 1).
Proof.
  intros Hne. induction n as [|n IH]; simpl.
  - by rewrite bool_decide_eq_false_2.
  - rewrite IH. simpl. f_equal. rewrite !Nat.add_1_r. simpl.
    pose proof (Nat.pow_nonzero 2 n). lia.
Qed.

Lemma errors_Is_exponential_witness :
  errors_is_count (nested ErrCodePublishFailed 5 (ErrSentinel ErrPublishFailed))
    (ErrSentinel ErrConnectionFailed) = (false, 63).
Proof. by apply (errors_Is_exponential ErrCodePublishFailed 5). Defined.
