(* ===== verification/Message.v ===== *)
(** * Messages, broker types and the common configuration (pkg/broker/broker.go)

    [Message] itself is declared in [Store]; here are its constructors and
    methods over the Go store, [BrokerType], [Config] and [Config.Validate]. *)

From Stdlib Require Import ZArith Lia.
From stdpp Require Import base gmap strings list fin_maps.
From S2P Require Import Prelude Store Demo Errors.

(** ** BrokerType *)

Definition BrokerType := string.
Definition BrokerTypeKafka : BrokerType := "kafka".
Definition BrokerTypeRabbitMQ : BrokerType := "rabbitmq".
Definition BrokerTypeInMemory : BrokerType := "inmemory".

Definition BrokerType_String (bt : BrokerType) : string := bt.

Definition BrokerType_IsValid (bt : BrokerType) : bool :=
  bool_decide (bt = BrokerTypeKafka) || bool_decide (bt = BrokerTypeRabbitMQ)
  || bool_decide (bt = BrokerTypeInMemory).

(** ** Message *)

Section Constructors.
Context `{Env}.

Definition NewMessage (topic : string) (value : option slice) : GoM mem loc :=
  let! id := uuid_New_String in
  let! h := make_map in
  let! t := time_Now_UTC in
  new_msg {| msg_ID := id; msg_Topic := topic; msg_Key := None; msg_Value := value;
             msg_Headers := Some h; msg_Timestamp := t |}.

Definition NewMessageWithKey (topic : string) (key value : option slice) : GoM mem loc :=
  let! msg := NewMessage topic value in
  update_msg (Some msg) (fun x =>
    {| msg_ID := msg_ID x; msg_Topic := msg_Topic x; msg_Key := key;
       msg_Value := msg_Value x; msg_Headers := msg_Headers x;
       msg_Timestamp := msg_Timestamp x |}) ;;;
  ret msg.

Definition NewMessageWithID (id topic : string) (value : option slice) : GoM mem loc :=
  let! msg := NewMessage topic value in
  update_msg (Some msg) (fun x =>
    {| msg_ID := id; msg_Topic := msg_Topic x; msg_Key := msg_Key x;
       msg_Value := msg_Value x; msg_Headers := msg_Headers x;
       msg_Timestamp := msg_Timestamp x |}) ;;;
  ret msg.
End Constructors.

Definition with_Headers (h : option loc) (x : Message) : Message :=
  {| msg_ID := msg_ID x; msg_Topic := msg_Topic x; msg_Key := msg_Key x;
     msg_Value := msg_Value x; msg_Headers := h; msg_Timestamp := msg_Timestamp x |}.

Definition with_Key (k : option slice) (x : Message) : Message :=
  {| msg_ID := msg_ID x; msg_Topic := msg_Topic x; msg_Key := k;
     msg_Value := msg_Value x; msg_Headers := msg_Headers x;
     msg_Timestamp := msg_Timestamp x |}.

Definition with_Value (v : option slice) (x : Message) : Message :=
  {| msg_ID := msg_ID x; msg_Topic := msg_Topic x; msg_Key := msg_Key x;
     msg_Value := v; msg_Headers := msg_Headers x; msg_Timestamp := msg_Timestamp x |}.

Definition with_Topic (t : string) (x : Message) : Message :=
  {| msg_ID := msg_ID x; msg_Topic := t; msg_Key := msg_Key x; msg_Value := msg_Value x;
     msg_Headers := msg_Headers x; msg_Timestamp := msg_Timestamp x |}.

Definition with_Timestamp (t : Time) (x : Message) : Message :=
  {| msg_ID := msg_ID x; msg_Topic := msg_Topic x; msg_Key := msg_Key x;
     msg_Value := msg_Value x; msg_Headers := msg_Headers x; msg_Timestamp := t |}.

Definition SetHeader (m : option loc) (key value : string) : GoM mem (option loc) :=
  let! x := load_msg m in
  match msg_Headers x with
  | None => let! h := make_map in update_msg m (with_Headers (Some h))
  | Some _ => ret tt
  end ;;;
  let! x := load_msg m in
  map_assign (msg_Headers x) key value ;;;
  ret m.

Definition GetHeader (m : option loc) (key : string) : GoM mem string :=
  let! x := load_msg m in
  match msg_Headers x with
  | None => ret ""%string
  | Some h => let! hs := load_map (Some h) in ret (default ""%string (hs !! key))
  end.

Definition WithKey (m : option loc) (key : option slice) : GoM mem (option loc) :=
  update_msg m (with_Key key) ;;; ret m.

(** [[]byte(key)] *)
Definition WithStringKey (m : option loc) (key : string) : GoM mem (option loc) :=
  let! k := new_array (String.list_byte_of_string key) in
  update_msg m (with_Key (Some k)) ;;; ret m.

(** The headers of the clone: [for k, v := range m.Headers { clone.Headers[k] = v }]. *)
Definition copy_headers (src : gmap string string) (dst : option loc) : GoM mem unit :=
  for_range (map_to_list src) (fun kv => map_assign dst kv.1 kv.2).

(** The struct literal of [Clone] and the two [copy] calls. *)
Definition clone_fields (x : Message) : GoM mem loc :=
  let! k := make_bytes (slice_len (msg_Key x)) in
  let! v := make_bytes (slice_len (msg_Value x)) in
  let! clone := new_msg {| msg_ID := msg_ID x; msg_Topic := msg_Topic x;
                           msg_Key := Some k; msg_Value := Some v;
                           msg_Headers := None; msg_Timestamp := msg_Timestamp x |} in
  copy_bytes k (msg_Key x) ;;;
  copy_bytes v (msg_Value x) ;;;
  ret clone.

Definition Clone (m : option loc) : GoM mem loc :=
  let! x := load_msg m in
  let! clone := clone_fields x in
  match msg_Headers x with
  | None => ret tt
  | Some h =>
    let! dst := make_map in
    update_msg (Some clone) (with_Headers (Some dst)) ;;;
    let! src := load_map (Some h) in
    copy_headers src (Some dst)
  end ;;;
  ret clone.

(** ** Config *)

Record Config := mkConfig { Brokers : list string; ClientID : string }.

(** [for _, b := range c.Brokers { if b == "" { return err } }] *)
Fixpoint first_empty (l : list string) : bool :=
  match l with
  | [] => false
  | b :: l' => if bool_decide (b = ""%string) then true else first_empty l'
  end.

Definition Validate (c : Config) : option error :=
  if bool_decide (length (Brokers c) = 0) then Some (ErrSentinel ErrInvalidConfig)
  else if first_empty (Brokers c) then Some (ErrSentinel ErrInvalidConfig)
  else if bool_decide (ClientID c = ""%string) then Some (ErrSentinel ErrInvalidConfig)
  else None.

Definition DefaultConfig : Config :=
  {| Brokers := ["localhost:9092"%string]; ClientID := "messaging-client" |}.

(** ** Lemmas *)

(** The entries [kvs] assigned one after the other. *)
Definition assign_all (kvs : list (string * string)) (x : gmap string string) :
    gmap string string := foldl (fun acc kv => <[kv.1 := kv.2]> acc) x kvs.

Lemma assign_all_union kvs x :
  NoDup kvs.*1 -> assign_all kvs x = list_to_map kvs ∪ x.
Proof.
  revert x. induction kvs as [|[k v] kvs IH]; intros x Hnd; simpl.
  - by rewrite (left_id_L ∅ _).
  - rewrite fmap_cons in Hnd. apply NoDup_cons in Hnd as [Hk Hnd].
    unfold assign_all in *. simpl. rewrite IH by done. rewrite <- insert_union_l.
    rewrite <- insert_union_r; [done|]. by apply not_elem_of_list_to_map_1.
Qed.

Lemma assign_all_spec kvs l x m0 m :
  mem_wf m -> mem_extends m0 m -> next_loc m0 <= l -> maps_of m !! l = Some x ->
  wp (for_range kvs (fun kv => map_assign (Some l) kv.1 kv.2)) (fun _ m' =>
    mem_wf m' /\ mem_extends m0 m' /\ m' = put_map l (assign_all kvs x) m) m.
Proof.
  intros Hwf Hext Hle Hx. revert x m Hwf Hext Hx.
  induction kvs as [|[k v] kvs IH]; intros x m Hwf Hext Hx; simpl.
  - apply wp_ret. split_and!; try done.
    destruct m; unfold put_map; simpl in *. by rewrite insert_id.
  - apply wp_bind. eapply wp_mono; [by eapply map_assign_spec|].
    intros _ m1 (Hwf1 & Hext1 & ->). eapply wp_mono.
    + apply IH; [done..|]. simpl. by rewrite lookup_insert_eq.
    + intros _ m2 (Hwf2 & Hext2 & ->). split_and!; try done.
      unfold put_map; simpl. by rewrite insert_insert_eq.
Qed.

Lemma copy_headers_spec src l x m0 m :
  mem_wf m -> mem_extends m0 m -> next_loc m0 <= l -> maps_of m !! l = Some x ->
  wp (copy_headers src (Some l)) (fun _ m' =>
    mem_wf m' /\ mem_extends m0 m' /\ m' = put_map l (src ∪ x) m) m.
Proof.
  intros Hwf Hext Hle Hx. eapply wp_mono; [by apply assign_all_spec|].
  intros _ m' (Hwf' & Hext' & ->). split_and!; try done. f_equal.
  rewrite assign_all_union by apply NoDup_fst_map_to_list. by rewrite list_to_map_to_list.
Qed.

(** The content of a clone: nil slices have become empty ones. *)
Definition clone_content (c : content) : content :=
  {| c_id := c_id c; c_topic := c_topic c; c_key := Some (default [] (c_key c));
     c_value := Some (default [] (c_value c)); c_headers := c_headers c;
     c_time := c_time c |}.

(** All that a message reaches was allocated after [m0]. *)
Definition all_fresh (m0 m : mem) (l : loc) : Prop :=
  forall x, x ∈ footprint m l -> next_loc m0 <= x.

(** The message [clone_fields] builds: fresh arrays, no headers yet. *)
Definition fields_clone (x : Message) (n : loc) (kb vb : bytes) : Message :=
  with_Key (Some (mkSlice n 0 (length kb)))
    (with_Value (Some (mkSlice (S n) 0 (length vb))) (with_Headers None x)).

Lemma clone_fields_spec x m :
  mem_wf m -> message_ok m x ->
  wp (clone_fields x) (fun c m' => exists kb vb,
      read_slice m (msg_Key x) = Some kb /\ read_slice m (msg_Value x) = Some vb /\
      mem_wf m' /\ mem_extends m m' /\ c = S (S (next_loc m)) /\
      bytes_of m' !! next_loc m = Some kb /\ bytes_of m' !! S (next_loc m) = Some vb /\
      msgs_of m' !! c = Some (fields_clone x (next_loc m) kb vb)) m.
Proof.
  intros Hwf (Hk & Hv & _). unfold clone_fields, fields_clone.
  destruct (read_slice_opt_ok _ _ Hk) as (kb & Hkb & Hklen).
  destruct (read_slice_opt_ok _ _ Hv) as (vb & Hvb & Hvlen).
  unfold make_bytes.
  wp_step. eapply wp_mono; [by apply (new_array_spec _ m)|].
  intros k m1 (Hwf1 & Hext1 & _ & Hn1 & -> & Hk1 & Hok1).
  wp_step. eapply wp_mono; [by apply (new_array_spec _ m)|].
  intros v m2 (Hwf2 & Hext2 & Hext12 & Hn2 & -> & Hv2 & Hok2).
  rewrite !length_replicate in *. rewrite Hn1 in *.
  assert (bytes_of m2 !! next_loc m = Some (replicate (slice_len (msg_Key x)) Byte.x00)) as Hk2.
  { rewrite (ext_bytes _ _ Hext12); [done|lia]. }
  wp_step. eapply wp_mono; [eapply (new_msg_spec _ m); try done|].
  { unfold message_ok; split_and!; simpl; [by eapply (slice_ok_extends m1)|done|done]. }
  intros c m3 (Hwf3 & Hext3 & _ & Hn3 & -> & Hm3). rewrite Hn2 in *.
  wp_step. eapply wp_mono.
  { eapply (copy_bytes_spec _ _ (replicate (slice_len (msg_Key x)) Byte.x00) kb m); simpl; try done; rewrite ?length_replicate; try done.
    - subst m3. exact Hk2.
    - by rewrite (read_slice_extends m m3). }
  intros _ m4 (Hwf4 & Hext4 & _ & Hm4).
  wp_step. eapply wp_mono.
  { eapply (copy_bytes_spec _ _ (replicate (slice_len (msg_Value x)) Byte.x00) vb m); simpl; try done; rewrite ?length_replicate; try done.
    - lia.
    - subst m4 m3. simpl. rewrite lookup_insert_ne by lia. exact Hv2.
    - by rewrite (read_slice_extends m m4). }
  intros _ m5 (Hwf5 & Hext5 & _ & Hm5). apply wp_ret.
  exists kb, vb. subst m5 m4 m3. simpl. rewrite Hklen, Hvlen.
  split_and!; try done; [rewrite lookup_insert_ne by lia| |]; by rewrite lookup_insert_eq.
Qed.

Lemma clone_headers_spec c y h hs m0 m :
  mem_wf m -> mem_extends m0 m -> next_loc m0 <= c -> c < next_loc m ->
  msgs_of m !! c = Some y -> maps_of m !! h = Some hs ->
  wp (let! dst := make_map in
      update_msg (Some c) (with_Headers (Some dst)) ;;;
      let! src := load_map (Some h) in
      copy_headers src (Some dst))
    (fun _ m' => mem_wf m' /\ mem_extends m0 m' /\
       m' = put_map (next_loc m) hs (put_msg c (with_Headers (Some (next_loc m)) y) (bump m))) m.
Proof.
  intros Hwf Hext Hle Hlt Hc Hh. pose proof (ext_next _ _ Hext).
  destruct (wf_msgs _ Hwf _ _ Hc) as [_ (Hk & Hv & _)].
  wp_step. eapply wp_mono; [by apply (make_map_spec m0)|].
  intros dst m1 (Hwf1 & Hext1 & Hext01 & Hn1 & -> & Hm1).
  wp_step. eapply wp_mono.
  { eapply (update_msg_spec _ y _ m0); [done|done|done|by rewrite Hm1|].
    subst m1. unfold message_ok. split_and!; simpl.
    - destruct (msg_Key y); [by eapply (slice_ok_extends m)|done].
    - destruct (msg_Value y); [by eapply (slice_ok_extends m)|done].
    - rewrite lookup_insert_eq. done. }
  intros _ m2 (Hwf2 & Hext2 & Hm2).
  assert (maps_of m2 !! h = Some hs) as Hh2.
  { subst m2 m1. simpl. rewrite lookup_insert_ne; [done|]. intros <-.
    by rewrite (wf_fresh_maps m) in Hh. }
  wp_step. unfold wp at 1, load_map. rewrite Hh2.
  eapply wp_mono.
  { eapply (copy_headers_spec _ _ ∅ m0); [done|done|done|].
    subst m2 m1. simpl. by rewrite lookup_insert_eq. }
  intros _ m3 (Hwf3 & Hext3 & Hm3). split_and!; [done|done|].
  subst m3 m2 m1. unfold put_map, put_msg; simpl.
  by rewrite insert_insert_eq, (right_id_L ∅ _).
Qed.

(** The content of [fields_clone], once its header map [h] is in place. *)
Lemma fields_clone_content m x c n kb vb h :
  msgs_of m !! c = Some (with_Headers h (fields_clone x n kb vb)) ->
  bytes_of m !! n = Some kb -> bytes_of m !! S n = Some vb ->
  content_of m c =
    (fun hs => mkContent (msg_ID x) (msg_Topic x) (Some kb) (Some vb) hs (msg_Timestamp x))
      <$> headers_content m h.
Proof.
  intros Hc Hk Hv. unfold content_of. rewrite Hc. simpl. rewrite Hk, Hv. simpl.
  rewrite !firstn_all. by destruct (headers_content m h).
Qed.

Lemma message_content m l x kb vb :
  msgs_of m !! l = Some x ->
  read_slice m (msg_Key x) = Some kb -> read_slice m (msg_Value x) = Some vb ->
  clone_content <$> content_of m l =
    (fun hs => mkContent (msg_ID x) (msg_Topic x) (Some kb) (Some vb) hs (msg_Timestamp x))
      <$> headers_content m (msg_Headers x).
Proof.
  intros Hl Hk Hv. apply slice_content_read in Hk, Hv. unfold content_of. rewrite Hl. simpl.
  destruct (slice_content m (msg_Key x)), (slice_content m (msg_Value x)); simplify_eq/=.
  destruct (headers_content m (msg_Headers x)); simpl; [|done]. by simplify_eq.
Qed.

Lemma fields_clone_footprint m x c n kb vb h y :
  msgs_of m !! c = Some (with_Headers h (fields_clone x n kb vb)) ->
  y ∈ footprint m c -> y = c \/ y = n \/ y = S n \/ h = Some y.
Proof.
  intros Hc. unfold footprint. rewrite Hc. destruct h; simpl;
    rewrite ?elem_of_cons, ?elem_of_nil; intros; destruct_or?; simplify_eq; auto.
Qed.

(** [Clone] and [SetHeader] do not read the clock. *)
Lemma Clone_clock p : clock_still (Clone p).
Proof.
  unfold Clone, clone_fields, copy_headers.
  apply leaves_bind; [auto with leaves|]. intros x. apply leaves_bind.
  { repeat (apply leaves_bind; [auto with leaves|intros ?]). auto with leaves. }
  intros clone. apply leaves_bind; [|auto with leaves]. destruct (msg_Headers x); [|auto with leaves].
  repeat (apply leaves_bind; [auto with leaves|intros ?]). auto with leaves.
Qed.

Lemma SetHeader_clock p k v : clock_still (SetHeader p k v).
Proof.
  unfold SetHeader. apply leaves_bind; [auto with leaves|]. intros x. apply leaves_bind.
  { destruct (msg_Headers x); auto 6 with leaves. }
  repeat (intros ?; apply leaves_bind; [auto with leaves|]). auto with leaves.
Qed.

Lemma Clone_spec l m :
  mem_wf m -> is_Some (msgs_of m !! l) ->
  wp (Clone (Some l)) (fun c m' =>
    mem_wf m' /\ mem_extends m m' /\ is_Some (msgs_of m' !! c) /\ all_fresh m m' c /\
    content_of m' c = clone_content <$> content_of m l) m.
Proof.
  intros Hwf [x Hx]. destruct (wf_msgs _ Hwf _ _ Hx) as [Hl Hok].
  unfold Clone. wp_step. unfold wp at 1, load_msg. rewrite Hx.
  wp_step. eapply wp_mono; [by apply clone_fields_spec|].
  intros c m1 (kb & vb & Hkb & Hvb & Hwf1 & Hext1 & -> & Hk1 & Hv1 & Hc1).
  rewrite (message_content m l x kb vb) by done.
  destruct (msg_Headers x) as [h|] eqn:Hhx.
  - destruct Hok as (_ & _ & Hh). rewrite Hhx in Hh. destruct Hh as [hs Hhs].
    destruct (wf_msgs _ Hwf1 _ _ Hc1) as [Hlt _].
    pose proof (ext_next _ _ Hext1).
    assert (maps_of m1 !! h = Some hs) as Hhs1.
    { rewrite (ext_maps _ _ Hext1); [done|]. apply (wf_maps _ Hwf). by rewrite Hhs. }
    wp_step. eapply wp_mono; [by eapply (clone_headers_spec _ _ h hs m); eauto with lia|].
    intros _ m2 (Hwf2 & Hext2 & Hm2). apply wp_ret.
    assert (msgs_of m2 !! S (S (next_loc m)) =
      Some (with_Headers (Some (next_loc m1)) (fields_clone x (next_loc m) kb vb))) as Hc2.
    { subst m2. simpl. by rewrite lookup_insert_eq. }
    split_and!; [done|done|by rewrite Hc2| |].
    + intros y Hy. eapply fields_clone_footprint in Hy; [|done].
      destruct_or?; simplify_eq; lia.
    + rewrite (fields_clone_content _ _ _ _ _ _ _ Hc2); [|by subst m2..].
      subst m2. simpl. by rewrite lookup_insert_eq, Hhs.
  - wp_step. apply wp_ret. wp_step.
    split_and!; [done|done|by rewrite Hc1| |].
    + intros y Hy. eapply (fields_clone_footprint _ _ _ _ _ _ None) in Hy; [|exact Hc1].
      destruct_or?; simplify_eq; lia.
    + by rewrite (fields_clone_content m1 x _ _ _ _ None Hc1 Hk1 Hv1).
Qed.

Lemma Clone_nil m : panics (Clone None) NilDereference m.
Proof. done. Qed.

Definition set_header_content (k v : string) (c : content) : content :=
  {| c_id := c_id c; c_topic := c_topic c; c_key := c_key c; c_value := c_value c;
     c_headers := Some (<[k := v]> (default ∅ (c_headers c))); c_time := c_time c |}.

(** [SetHeader] on a message whose header map is nil, or is not. *)
Lemma SetHeader_eq l x k v m :
  mem_wf m -> msgs_of m !! l = Some x ->
  SetHeader (Some l) k v m =
    (Ok (Some l),
     match msg_Headers x with
     | Some h => put_map h (<[k := v]> (default ∅ (maps_of m !! h))) m
     | None => put_map (next_loc m) {[k := v]}
                 (put_msg l (with_Headers (Some (next_loc m)) x) (bump m))
     end).
Proof.
  intros Hwf Hx. destruct (wf_msgs _ Hwf _ _ Hx) as [_ (_ & _ & Hh)].
  unfold SetHeader. erewrite bind_ok by (unfold load_msg; by rewrite Hx).
  destruct (msg_Headers x) as [h|] eqn:Hhx.
  - destruct Hh as [hs Hhs]. erewrite bind_ok by done.
    erewrite bind_ok by (unfold load_msg; by rewrite Hx).
    erewrite bind_ok by (unfold map_assign; by rewrite Hhx, Hhs). by rewrite Hhs.
  - unfold bind, make_map, update_msg, load_msg, map_assign, ret. simpl. rewrite Hx. simpl.
    rewrite lookup_insert_eq. simpl. rewrite lookup_insert_eq.
    unfold put_map; simpl. by rewrite insert_insert_eq.
Qed.

Lemma SetHeader_spec l k v m :
  mem_wf m -> is_Some (msgs_of m !! l) ->
  wp (SetHeader (Some l) k v) (fun r m' =>
    r = Some l /\ mem_wf m' /\ is_Some (msgs_of m' !! l) /\
    content_of m' l = set_header_content k v <$> content_of m l /\
    forall m0, mem_extends m0 m -> all_fresh m0 m l ->
      mem_extends m0 m' /\ all_fresh m0 m' l) m.
Proof.
  intros Hwf [x Hx]. destruct (wf_msgs _ Hwf _ _ Hx) as [Hl (Hk & Hv & Hh)].
  eapply wp_intro; [by apply SetHeader_eq|].
  destruct (slice_content_ok _ _ Hk) as [kc Hkc], (slice_content_ok _ _ Hv) as [vc Hvc].
  destruct (msg_Headers x) as [h|] eqn:Hhx.
  - destruct Hh as [hs Hhs]. rewrite Hhs. simpl.
    assert (h < next_loc m) by (apply (wf_maps _ Hwf); by rewrite Hhs).
    split_and!; [done|by apply put_map_wf|by rewrite Hx| |].
    + unfold content_of, slice_content, read_slice in *. simpl. rewrite Hx. simpl.
      rewrite Hkc, Hvc, Hhx. simpl. by rewrite lookup_insert_eq, Hhs.
    + intros m0 Hext Hfr. split.
      * apply put_map_extends; [done|]. apply Hfr. unfold footprint. rewrite Hx, Hhx. simpl.
        rewrite !elem_of_cons, !elem_of_app, list_elem_of_singleton. auto.
      * intros y. unfold footprint. simpl. apply Hfr.
  - assert (mem_wf (put_msg l (with_Headers (Some (next_loc m)) x)
      (put_map (next_loc m) {[k := v]} (bump m)))) as Hwf'.
    { apply put_msg_wf; [apply put_map_wf; [by apply bump_wf|simpl; lia]|simpl; lia|].
      unfold message_ok; split_and!; simpl; [done..|by rewrite lookup_insert_eq]. }
    split_and!; [done|exact Hwf'|simpl; by rewrite lookup_insert_eq| |].
    + unfold content_of, slice_content, read_slice in *. simpl.
      rewrite lookup_insert_eq, Hx. simpl. rewrite Hkc, Hvc, Hhx. simpl.
      rewrite lookup_insert_eq. simpl. done.
    + intros m0 Hext Hfr. pose proof (ext_next _ _ Hext).
      assert (next_loc m0 <= l) by (apply Hfr; unfold footprint; set_solver). split.
      * apply put_map_extends; [|done]. apply put_msg_extends; [by apply bump_extends|done].
      * intros y. specialize (Hfr y). revert Hfr. unfold footprint. simpl.
        rewrite lookup_insert_eq, Hx, Hhx. simpl. rewrite !elem_of_cons, !elem_of_app,
          ?list_elem_of_singleton, ?elem_of_nil. intuition lia.
Qed.

Lemma first_empty_iff l : first_empty l = true <-> ""%string ∈ l.
Proof.
  induction l as [|b l IH]; simpl; [by rewrite elem_of_nil|].
  rewrite elem_of_cons, <- IH. case_bool_decide; intuition congruence.
Qed.

(** The constructors. *)
Lemma NewMessage_spec `{Env} topic value m0 m :
  mem_wf m -> mem_extends m0 m -> slice_ok_opt m value ->
  wp (NewMessage topic value) (fun l m' => exists id t,
    mem_wf m' /\ mem_extends m0 m' /\ next_loc m0 <= l /\
    msgs_of m' !! l = Some (mkMessage id topic None value (Some (next_loc m)) t) /\
    maps_of m' !! next_loc m = Some ∅) m.
Proof.
  intros Hwf Hext Hv. unfold NewMessage.
  wp_step. unfold wp at 1, uuid_New_String.
  wp_step. eapply wp_mono; [by apply (make_map_spec m0); [apply draw_wf|apply draw_extends]|].
  intros h m1 (Hwf1 & Hext1 & Hext01 & Hn1 & -> & Hm1).
  wp_step. unfold wp at 1, time_Now_UTC.
  eapply wp_mono.
  { apply (new_msg_spec _ m0); [by apply tick_wf|by apply tick_extends|].
    unfold message_ok; split_and!; simpl; [done| |].
    - assert (mem_extends m m1) as Hext2 by (etrans; [|done]; by apply draw_extends).
      destruct value as [s|]; [|done]. by apply (slice_ok_extends m m1 Hwf Hext2).
    - subst m1. simpl. by rewrite lookup_insert_eq. }
  intros l m2 (Hwf2 & Hext2 & _ & Hn2 & -> & Hm2). simpl in *.
  pose proof (ext_next _ _ Hext1). subst m2 m1. simpl in *.
  eexists _, _. split_and!; [done|done|lia| |]; by rewrite lookup_insert_eq.
Qed.

(** ** Properties *)

(** Two stores that agree everywhere but at the locations [F]. *)
Record differs_only_at (F : list loc) (m m' : mem) : Prop := {
  dif_bytes : forall l, l ∉ F -> bytes_of m' !! l = bytes_of m !! l;
  dif_maps : forall l, l ∉ F -> maps_of m' !! l = maps_of m !! l;
  dif_msgs : forall l, l ∉ F -> msgs_of m' !! l = msgs_of m !! l }.

(** Stores that agree on what a message reaches give it the same content. *)
Lemma content_agrees m m' l :
  (forall y, y ∈ footprint m l -> bytes_of m' !! y = bytes_of m !! y /\
     maps_of m' !! y = maps_of m !! y /\ msgs_of m' !! y = msgs_of m !! y) ->
  content_of m' l = content_of m l.
Proof.
  intros Hag. unfold content_of, footprint in *.
  destruct (Hag l) as (_ & _ & Hl); [by left|]. rewrite Hl.
  destruct (msgs_of m !! l) as [x|]; [|done]. simpl in *.
  assert (slice_content m' (msg_Key x) = slice_content m (msg_Key x)) as ->.
  { destruct (msg_Key x) as [s|]; [|done]. simpl.
    destruct (Hag (sl_arr s)) as (Hb & _); [set_solver|]. by rewrite Hb. }
  assert (slice_content m' (msg_Value x) = slice_content m (msg_Value x)) as ->.
  { destruct (msg_Value x) as [s|]; [|done]. simpl.
    destruct (Hag (sl_arr s)) as (Hb & _); [set_solver|]. by rewrite Hb. }
  assert (headers_content m' (msg_Headers x) = headers_content m (msg_Headers x)) as ->; [|done].
  destruct (msg_Headers x) as [h|]; [|done]. simpl.
  destruct (Hag h) as (_ & Hp & _); [set_solver|]. by rewrite Hp.
Qed.

Lemma differs_content F m m' l :
  differs_only_at F m m' -> (forall y, y ∈ footprint m l -> y ∉ F) ->
  content_of m' l = content_of m l.
Proof. intros [Hb Hp Hm] Hdis. apply content_agrees. intros y Hy%Hdis. auto. Qed.

(** C17: [Clone] returns a message of the same content (nil key and value having
    become empty ones) and is a deep copy: whatever is later written to the
    objects one of the two messages reaches, the other keeps its content. *)
Theorem Clone_deep_copy (l : loc) (m : mem) :
  mem_wf m -> is_Some (msgs_of m !! l) ->
  exists c m', Clone (Some l) m = (Ok c, m') /\
    content_of m' c = clone_content <$> content_of m l /\
    content_of m' l = content_of m l /\
    (forall m'', differs_only_at (footprint m' c) m' m'' -> content_of m'' l = content_of m l) /\
    (forall m'', differs_only_at (footprint m' l) m' m'' -> content_of m'' c = content_of m' c).
Proof.
  intros Hwf Hl. destruct (wp_run _ _ _ (Clone_spec l m Hwf Hl))
    as (c & m' & Hrun & Hwf' & Hext & Hc & Hfresh & Hcont).
  exists c, m'. pose proof (content_of_extends _ _ Hwf Hext l Hl) as Hsame.
  assert (forall y, y ∈ footprint m' l -> y ∉ footprint m' c) as Hdis.
  { intros y. rewrite (footprint_extends _ _ Hwf Hext l Hl). intros Hy%footprint_lt Hy'; [|done..].
    apply Hfresh in Hy'. lia. }
  split_and!; [done..| |].
  - intros m'' Hd. rewrite <- Hsame. by apply (differs_content (footprint m' c)).
  - intros m'' Hd. apply (differs_content (footprint m' l)); [done|].
    intros y Hy Hy'. by eapply Hdis.
Qed.

Lemma Clone_deep_copy_witness :
  exists c m', Clone (Some demo_msg) demo_mem = (Ok c, m') /\
    content_of m' c = Some demo_content.
Proof.
  destruct (Clone_deep_copy demo_msg demo_mem demo_mem_wf demo_msg_live)
    as (c & m' & Hrun & Hc & _).
  exists c, m'. split; [exact Hrun|]. rewrite Hc, demo_msg_content. reflexivity.
Defined.

(** [SetHeader] then [GetHeader]: the header set is read back, the others
    are unchanged (the header map being created when it was nil), and no
    other part of the message changes. *)
Theorem SetHeader_GetHeader (l : loc) (k v k' : string) (m : mem) (c : content) :
  mem_wf m -> content_of m l = Some c ->
  exists m', SetHeader (Some l) k v m = (Ok (Some l), m') /\
    GetHeader (Some l) k' m' =
      (Ok (if decide (k = k') then v
           else default ""%string (default ∅ (c_headers c) !! k')), m') /\
    content_of m' l = Some (set_header_content k v c).
Proof.
  intros Hwf Hc.
  pose proof (content_live _ _ _ Hc) as Hl.
  destruct (wp_run _ _ _ (SetHeader_spec l k v m Hwf Hl))
    as (r & m' & Hrun & -> & Hwf' & _ & Hc' & _).
  exists m'. rewrite Hc in Hc'. split_and!; [done| |done].
  destruct (content_fields _ _ _ Hc') as (x & Hx & _ & _ & _ & _ & _ & Hh).
  unfold GetHeader, bind, load_msg. rewrite Hx.
  destruct (msg_Headers x) as [h|]; simpl in Hh; [|done].
  destruct (maps_of m' !! h) as [hs|] eqn:Hhs; simplify_eq/=.
  rewrite Hhs. unfold ret. rewrite lookup_insert. by case_decide.
Qed.

Lemma SetHeader_GetHeader_witness :
  exists m', SetHeader (Some demo_msg) "trace" "t-2" demo_mem = (Ok (Some demo_msg), m') /\
    GetHeader (Some demo_msg) "trace" m' = (Ok "t-2", m').
Proof.
  destruct (SetHeader_GetHeader demo_msg "trace" "t-2" "trace" demo_mem demo_content
    demo_mem_wf demo_msg_content) as (m' & Hrun & Hget & _).
  exists m'. split; [exact Hrun|exact Hget].
Defined.

(** A configuration is valid exactly when it names at least one broker, no
    broker address is empty and the client identifier is not empty; every
    other one is refused with [ErrInvalidConfig]. *)
Theorem Config_Validate_iff (c : Config) :
  (Validate c = None <-> Brokers c <> [] /\ (""%string ∉ Brokers c) /\ ClientID c <> ""%string) /\
  (Validate c <> None -> Validate c = Some (ErrSentinel ErrInvalidConfig)).
Proof.
  unfold Validate. destruct c as [bs id]; simpl.
  pose proof (first_empty_iff bs) as Hfe.
  destruct bs as [|b bs].
  - simpl. split; [naive_solver|done].
  - rewrite bool_decide_eq_false_2 by done. destruct (first_empty (b :: bs)) eqn:Hf.
    + split; [|done]. naive_solver.
    + assert (""%string ∉ b :: bs) by (rewrite <- Hfe; congruence).
      case_bool_decide; split; naive_solver.
Qed.

Lemma DefaultConfig_valid : Validate DefaultConfig = None.
Proof. reflexivity. Qed.

Lemma Config_Validate_iff_witness :
  Validate (mkConfig [""%string] "c") = Some (ErrSentinel ErrInvalidConfig).
Proof.
  apply (proj2 (Config_Validate_iff (mkConfig [""%string] "c"))). done.
Defined.
