(* ===== verification/MessageJson.v ===== *)
(** * JSON of messages (pkg/broker/broker.go)

    [MarshalJSON] and [UnmarshalJSON] hand the fields of the message to
    encoding/json.  What that package makes of them is a parameter
    ([AliasJSON]) with what it documents as laws ([AliasJSONSpec]); here is
    what the two methods do to the store: the bytes are fresh, and a document
    is decoded into the message that is there, field by field, so header
    maps are merged and whatever the document does not mention stays. *)

From Stdlib Require Import ZArith Lia.
From stdpp Require Import base gmap strings list fin_maps.
From S2P Require Import Prelude Store Demo Errors Message.

(** ** What encoding/json reads and writes *)

(** What decoding a document assigns, in the order of the document.  The bytes
    of a slice field come from a base64 string, or [null]; documents that spell
    them as arrays of numbers are left out. *)
Inductive assignment :=
| AID (s : string)
| ATopic (s : string)
| AKey (v : option bytes)
| AValue (v : option bytes)
| AHeaders (v : option (list (string * string)))      (* entries, or [null] *)
| ATimestamp (t : Time).

(** encoding/json on the struct type [Alias], the fields of [Message] with
    their tags: encoding, the check of the syntax, decoding (the assignments
    made, and the first error met); and what comes back of a string that was
    encoded. *)
Class AliasJSON := {
  alias_Marshal : content -> bytes + error;
  json_checkValid : bytes -> option error;
  alias_decode : bytes -> list assignment * option error;
  json_clean : string -> string }.

Section Methods.
Context {AJ : AliasJSON}.

(** The message at a location, references followed. *)
Definition load_content (l : loc) : GoM mem content := fun m =>
  match content_of m l with
  | None => (Panic DanglingReference, m)
  | Some c => (Ok c, m)
  end.

Definition MarshalJSON (m : option loc) : GoM mem (option slice * option error) :=
  match m with
  | None => let! s := new_array (String.list_byte_of_string "null") in ret (Some s, None)
  | Some l =>
    let! c := load_content l in
    match alias_Marshal c with
    | inl bs => let! s := new_array bs in ret (Some s, None)
    | inr e => ret (None, Some e)
    end
  end.

Definition with_ID (i : string) (x : Message) : Message :=
  {| msg_ID := i; msg_Topic := msg_Topic x; msg_Key := msg_Key x; msg_Value := msg_Value x;
     msg_Headers := msg_Headers x; msg_Timestamp := msg_Timestamp x |}.

(** One assignment.  A slice field gets a new array; entries are added to the
    map that is there, or to a new one. *)
Definition assign (l : loc) (a : assignment) : GoM mem unit :=
  let set_bytes f v :=
    match v with
    | None => update_msg (Some l) (f None)
    | Some bs => let! s := new_array bs in update_msg (Some l) (f (Some s))
    end in
  match a with
  | AID s => update_msg (Some l) (with_ID s)
  | ATopic s => update_msg (Some l) (with_Topic s)
  | AKey v => set_bytes with_Key v
  | AValue v => set_bytes with_Value v
  | AHeaders None => update_msg (Some l) (with_Headers None)
  | AHeaders (Some kvs) =>
    let! x := load_msg (Some l) in
    let! h :=
      match msg_Headers x with
      | Some h => ret h
      | None =>
        let! h := make_map in
        update_msg (Some l) (with_Headers (Some h)) ;;;
        ret h
      end in
    for_range kvs (fun kv => map_assign (Some h) kv.1 kv.2)
  | ATimestamp t => update_msg (Some l) (with_Timestamp t)
  end.

Definition UnmarshalJSON (m : option loc) (data : option slice) : GoM mem (option error) :=
  let! bs := load_bytes data in
  match json_checkValid bs with
  | Some e => ret (Some e)
  | None =>
    match m with
    | None => let! e := fresh_error "json: Unmarshal(nil *broker.Alias)" in ret (Some e)
    | Some l =>
      let '(fields, err) := alias_decode bs in
      for_range fields (assign l) ;;;
      ret err
    end
  end.
End Methods.

(** [var x Message]: the zero message, in a variable of its own *)
Definition zero_Message : Message := mkMessage "" "" None None None
  (mkTime (-62135596800 * 1000000000) 0).

(** [zero_Message], as a content *)
Definition zero_content : content := mkContent "" "" None None None
  (mkTime (-62135596800 * 1000000000) 0).

(** ** The laws *)

Definition byte_in (lo hi : N) (a : Ascii.ascii) : bool :=
  (lo <=? Ascii.N_of_ascii a)%N && (Ascii.N_of_ascii a <=? hi)%N.

(** A continuation byte *)
Definition cont : Ascii.ascii -> bool := byte_in 128 191.

(** [utf8.ValidString]: a JSON string holds such text only. *)
Fixpoint utf8_valid (s : string) : bool :=
  match s with
  | "" => true
  | String a s1 =>
    if byte_in 0 127 a then utf8_valid s1 else
    match s1 with
    | "" => false
    | String b s2 =>
      if byte_in 194 223 a then cont b && utf8_valid s2 else
      match s2 with
      | "" => false
      | String c s3 =>
        if byte_in 224 239 a
        then (if byte_in 224 224 a then byte_in 160 191 b
              else if byte_in 237 237 a then byte_in 128 159 b else cont b)
             && cont c && utf8_valid s3
        else
        match s3 with
        | "" => false
        | String d s4 =>
          byte_in 240 244 a
          && (if byte_in 240 240 a then byte_in 144 191 b
              else if byte_in 244 244 a then byte_in 128 143 b else cont b)
          && cont c && cont d && utf8_valid s4
        end
      end
    end
  end%string.

Example utf8_valid_cyrillic : utf8_valid "Здраво" = true.
Proof. reflexivity. Qed.
Example utf8_valid_surrogate :
  utf8_valid (String.string_of_list_byte [Byte.xed; Byte.xa0; Byte.x80]) = false.
Proof. reflexivity. Qed.

(** A UTC time whose year has four digits: one that has a JSON form. *)
Definition json_time (t : Time) : Prop :=
  (-62167219200 * 1000000000 <= t_nanos t < 253402300800 * 1000000000)%Z /\ t_offset t = 0%Z.

(** What the encoding of a message assigns when it is decoded: the fields in
    the order of the struct, those marked [omitempty] unless they are empty,
    header entries in the order [kvs]. *)
Definition alias_fields `{AliasJSON} (kvs : list (string * string)) (c : content) :
    list assignment :=
  [AID (json_clean (c_id c)); ATopic (json_clean (c_topic c))] ++
  match default [] (c_key c) with [] => [] | k => [AKey (Some k)] end ++
  [AValue (c_value c)] ++
  match kvs with [] => [] | _ => [AHeaders (Some (prod_map json_clean json_clean <$> kvs))] end ++
  [ATimestamp (c_time c)].

(** What encoding/json documents, for the tags of [Message]: a time with a
    four-digit year has an encoding, base64 brings bytes back, valid UTF-8 is
    kept. *)
Class AliasJSONSpec `{AliasJSON} : Prop := {
  alias_Marshal_ok c : json_time (c_time c) -> exists bs, alias_Marshal c = inl bs;
  alias_roundtrip c bs : json_time (c_time c) -> alias_Marshal c = inl bs ->
    json_checkValid bs = None /\ exists kvs, kvs ≡ₚ map_to_list (default ∅ (c_headers c)) /\
      alias_decode bs = (alias_fields kvs c, None);
  json_clean_valid s : utf8_valid s = true -> json_clean s = s }.

(** ** One message written, the others left alone *)

(** [m'] comes from [m] by writing to what message [l] reaches, and to new
    objects. *)
Record writes_only (l : loc) (m m' : mem) : Prop := {
  wo_wf : mem_wf m';
  wo_next : next_loc m <= next_loc m';
  wo_uuid : uuid_ctr m <= uuid_ctr m';
  wo_ctxs : forall y, y < next_loc m -> ctxs_of m' !! y = ctxs_of m !! y;
  wo_reach : forall y, y ∈ footprint m' l -> y ∈ footprint m l \/ next_loc m <= y;
  wo_same : forall y, y < next_loc m -> y ∉ footprint m l ->
    bytes_of m' !! y = bytes_of m !! y /\ maps_of m' !! y = maps_of m !! y /\
    msgs_of m' !! y = msgs_of m !! y }.

Lemma writes_only_refl l m : mem_wf m -> writes_only l m m.
Proof. by split; auto. Qed.

Lemma writes_only_trans l m1 m2 m3 :
  writes_only l m1 m2 -> writes_only l m2 m3 -> writes_only l m1 m3.
Proof.
  intros [W1 N1 U1 C1 R1 S1] [W2 N2 U2 C2 R2 S2]. split; [done|lia|lia| | |].
  - intros y Hy. rewrite C2, C1; [done|lia..].
  - intros y [Hy|Hy]%R2; [by apply R1|right; lia].
  - intros y Hlt Hy. destruct (S1 y Hlt Hy) as (<- & <- & <-). apply S2; [lia|].
    intros [?|?]%R1; [done|lia].
Qed.

Lemma writes_only_content l m m' k :
  mem_wf m -> writes_only l m m' -> is_Some (msgs_of m !! k) ->
  (forall y, y ∈ footprint m k -> y ∉ footprint m l) -> content_of m' k = content_of m k.
Proof.
  intros Hwf [_ _ _ _ _ Hsame] Hk Hdis. apply content_agrees. intros y Hy.
  apply Hsame; [by eapply footprint_lt|auto].
Qed.

(** Writing to a new message adds objects only. *)
Lemma writes_only_new l m0 m m' :
  mem_extends m0 m -> writes_only l m m' ->
  (forall y, y ∈ footprint m l -> next_loc m0 <= y) -> mem_extends m0 m'.
Proof.
  intros [N U B P M C] [_ N' U' C' _ S] Hnew.
  assert (forall y, y < next_loc m0 -> y ∉ footprint m l) as Hold by (intros y Hy ?%Hnew; lia).
  split; [lia|lia|..]; intros y Hy; rewrite <- ?B, <- ?P, <- ?M, <- ?C by done;
    first [by apply C'; lia|by apply S; [lia|auto]].
Qed.

(** Objects that are only added. *)
Lemma writes_only_extends l m m' :
  mem_wf m -> mem_wf m' -> mem_extends m m' -> is_Some (msgs_of m !! l) -> writes_only l m m'.
Proof.
  intros Hwf Hwf' Hext Hl. split; [done|apply Hext..| |].
  - intros y. rewrite (footprint_extends m m' Hwf Hext l Hl). by left.
  - intros y Hy _. split_and!; apply Hext; done.
Qed.

(** ** What an assignment does *)

Definition assigned (c : content) (a : assignment) : content :=
  match a with
  | AID s => mkContent s (c_topic c) (c_key c) (c_value c) (c_headers c) (c_time c)
  | ATopic s => mkContent (c_id c) s (c_key c) (c_value c) (c_headers c) (c_time c)
  | AKey v => mkContent (c_id c) (c_topic c) v (c_value c) (c_headers c) (c_time c)
  | AValue v => mkContent (c_id c) (c_topic c) (c_key c) v (c_headers c) (c_time c)
  | AHeaders h => mkContent (c_id c) (c_topic c) (c_key c) (c_value c)
      ((fun kvs => assign_all kvs (default ∅ (c_headers c))) <$> h) (c_time c)
  | ATimestamp t => mkContent (c_id c) (c_topic c) (c_key c) (c_value c) (c_headers c) t
  end.

(** A message reached through [x] instead. *)
Lemma put_msg_footprint l x m : footprint (put_msg l x m) l =
  l :: from_option (fun s => [sl_arr s]) [] (msg_Key x) ++
    from_option (fun s => [sl_arr s]) [] (msg_Value x) ++
    from_option (fun h => [h]) [] (msg_Headers x).
Proof. unfold footprint. simpl. by rewrite lookup_insert_eq. Qed.

(** A field assignment, in a store [m1] that extends [m] by new objects. *)
Lemma update_writes_only l f x m m1 :
  mem_wf m -> mem_wf m1 -> mem_extends m m1 -> msgs_of m !! l = Some x -> message_ok m1 (f x) ->
  (forall y, y ∈ footprint (put_msg l (f x) m1) l -> y ∈ footprint m l \/ next_loc m <= y) ->
  wp (update_msg (Some l) f) (fun _ m' => m' = put_msg l (f x) m1 /\ writes_only l m m') m1.
Proof.
  intros Hwf Hwf1 Hext Hx Hok Hreach. pose proof (msgs_extends m m1 Hwf Hext _ _ Hx) as Hx1.
  unfold wp, update_msg. rewrite Hx1. split; [done|]. split; [|apply Hext..|exact Hreach|].
  - apply put_msg_wf; [done| |done]. by destruct (wf_msgs _ Hwf1 _ _ Hx1).
  - intros y Hy Hnin. assert (y <> l) as Hne.
    { intros ->. apply Hnin. unfold footprint. by left. }
    simpl. rewrite lookup_insert_ne by done. split_and!; by apply Hext.
Qed.

Lemma reach_headers x l m y :
  msgs_of m !! l = Some x ->
  y ∈ footprint m l <-> y = l \/
    y ∈ from_option (fun s => [sl_arr s]) [] (msg_Key x) \/
    y ∈ from_option (fun s => [sl_arr s]) [] (msg_Value x) \/
    y ∈ from_option (fun h => [h]) [] (msg_Headers x).
Proof. intros Hx. unfold footprint. rewrite Hx. by rewrite elem_of_cons, !elem_of_app. Qed.

(** The content after the assignment [a], and the frame. *)
Definition assigns (l : loc) (c : content) (m m' : mem) : Prop :=
  writes_only l m m' /\ content_of m' l = Some c.

Lemma put_msg_content l x m k v h :
  slice_content m (msg_Key x) = Some k -> slice_content m (msg_Value x) = Some v ->
  headers_content m (msg_Headers x) = Some h ->
  content_of (put_msg l x m) l =
    Some (mkContent (msg_ID x) (msg_Topic x) k v h (msg_Timestamp x)).
Proof.
  intros Hk Hv Hh. unfold content_of. simpl. rewrite lookup_insert_eq. simpl.
  change (slice_content (put_msg l x m)) with (slice_content m).
  change (headers_content (put_msg l x m)) with (headers_content m).
  by rewrite Hk, Hv, Hh.
Qed.

(** A reference that is kept, dropped, or new since [m]. *)
Definition new_ref {A} (ok : A -> Prop) (at_ : A -> loc) (m : mem) (old r : option A) : Prop :=
  r = old \/ r = None \/ exists a, r = Some a /\ ok a /\ next_loc m <= at_ a.

Lemma new_ref_reach {A} (ok : A -> Prop) (at_ : A -> loc) m old r y :
  new_ref ok at_ m old r -> y ∈ from_option (fun a => [at_ a]) [] r ->
  y ∈ from_option (fun a => [at_ a]) [] old \/ next_loc m <= y.
Proof.
  intros [->|[->|(a & -> & _ & Ha)]]; simpl; [by left|by intros ?%elem_of_nil|].
  intros ->%list_elem_of_singleton. by right.
Qed.

(** An assignment to fields of the message, in a store [m1] with new objects. *)
Lemma assign_update l f x m m1 c :
  mem_wf m -> mem_wf m1 -> mem_extends m m1 -> msgs_of m !! l = Some x ->
  new_ref (slice_ok m1) sl_arr m (msg_Key x) (msg_Key (f x)) ->
  new_ref (slice_ok m1) sl_arr m (msg_Value x) (msg_Value (f x)) ->
  new_ref (fun h => is_Some (maps_of m1 !! h)) id m (msg_Headers x) (msg_Headers (f x)) ->
  content_of (put_msg l (f x) m1) l = Some c ->
  wp (update_msg (Some l) f) (fun _ m' => m' = put_msg l (f x) m1 /\ assigns l c m m') m1.
Proof.
  intros Hwf Hwf1 Hext Hx Hk Hv Hh Hc.
  destruct (wf_msgs _ Hwf _ _ Hx) as [_ Hok].
  apply (message_ok_extends m m1 Hwf Hext) in Hok as (Hok & Hov & Hoh).
  eapply wp_mono; [apply (update_writes_only l f x m m1); try done|].
  - split_and!; [destruct Hk as [->|[->|(? & -> & ? & _)]]|destruct Hv as [->|[->|(? & -> & ? & _)]]
      |destruct Hh as [->|[->|(? & -> & ? & _)]]]; done.
  - intros y. rewrite put_msg_footprint, (reach_headers x l m y Hx).
    rewrite elem_of_cons, !elem_of_app. intros [->|[Hy|[Hy|Hy]]]; [by auto|..].
    + destruct (new_ref_reach _ _ _ _ _ _ Hk Hy); auto.
    + destruct (new_ref_reach _ _ _ _ _ _ Hv Hy); auto.
    + destruct (new_ref_reach _ _ _ _ _ _ Hh Hy); auto.
  - intros _ m' [-> Hw]. by split.
Qed.

(** ** Header maps *)

(** The map of the message, made if it is nil. *)
Lemma own_headers_spec l x c m :
  mem_wf m -> msgs_of m !! l = Some x -> content_of m l = Some c ->
  wp (match msg_Headers x with
      | Some h => ret h
      | None =>
        let! h := make_map in
        update_msg (Some l) (with_Headers (Some h)) ;;;
        ret h
      end) (fun h m1 => exists x1, writes_only l m m1 /\ msgs_of m1 !! l = Some x1 /\
        msg_Headers x1 = Some h /\ maps_of m1 !! h = Some (default ∅ (c_headers c)) /\
        content_of m1 l = Some (mkContent (c_id c) (c_topic c) (c_key c) (c_value c)
          (Some (default ∅ (c_headers c))) (c_time c))) m.
Proof.
  intros Hwf Hx Hc. destruct (content_fields _ _ _ Hc) as (x' & Hx' & Hid & Htp & Hts & Hk & Hv & Hh).
  rewrite Hx in Hx'. injection Hx' as <-.
  destruct (wf_msgs _ Hwf _ _ Hx) as [_ (Hok & Hov & _)].
  destruct (msg_Headers x) as [h|] eqn:Hhx.
  - apply wp_ret. exists x. simpl in Hh. destruct (maps_of m !! h) as [hs|]; [|done].
    injection Hh as Hh. split_and!; [by apply writes_only_refl|done..|by rewrite <- Hh|].
    rewrite Hc. destruct c; simpl in *; by subst.
  - wp_step. eapply wp_mono; [by apply (make_map_spec m m)|].
    intros h m1 (Hwf1 & _ & Hext & _ & -> & ->). injection Hh as Hh.
    wp_step. eapply wp_mono; [apply (assign_update l _ x m); try done|].
    + by left.
    + by left.
    + right. right. exists (next_loc m). split; [done|]. simpl. by rewrite lookup_insert_eq.
    + erewrite put_msg_content; [done|by rewrite (slice_content_extends m)..|].
      simpl. by rewrite lookup_insert_eq.
    + intros _ m' [-> [Hw Hc']]. apply wp_ret. simpl in Hc'. eexists. split; [exact Hw|].
      simpl. rewrite !lookup_insert_eq, <- Hh. simpl. split_and!; [done..|]. congruence.
Qed.

Lemma empty_mem_extends m : mem_extends empty_mem m.
Proof. split; simpl; lia. Qed.

Lemma assign_headers_spec l kvs c m :
  mem_wf m -> content_of m l = Some c ->
  wp (assign l (AHeaders (Some kvs)))
    (fun _ m' => assigns l (assigned c (AHeaders (Some kvs))) m m') m.
Proof.
  intros Hwf Hc. destruct (content_fields _ _ _ Hc) as (x & Hx & _). simpl.
  wp_step. unfold wp at 1, load_msg. rewrite Hx.
  wp_step. eapply wp_mono; [by apply (own_headers_spec l x c m)|].
  intros h m1 (x1 & Hw1 & Hx1 & Hh1 & Hm1 & Hc1).
  eapply wp_mono.
  { apply (assign_all_spec kvs h (default ∅ (c_headers c)) empty_mem m1 (wo_wf _ _ _ Hw1)); [|simpl; lia|done].
    apply empty_mem_extends. }
  intros _ m' (Hwf' & _ & ->). set (hs := assign_all kvs _) in *. split.
  - eapply writes_only_trans; [exact Hw1|]. split; [done..|by left|].
    intros y _ Hy. assert (y <> h) as Hne.
    { intros ->. apply Hy, (reach_headers x1 l m1); [done|]. rewrite Hh1. simpl. set_solver. }
    simpl. by rewrite lookup_insert_ne.
  - destruct (content_fields _ _ _ Hc1) as (x' & Hx' & Hid & Htp & Hts & Hk & Hv & _).
    rewrite Hx1 in Hx'. injection Hx' as <-. cbn [c_id c_topic c_key c_value c_time] in *.
    unfold content_of. simpl. rewrite Hx1. simpl.
    change (slice_content (put_map h hs m1)) with (slice_content m1).
    rewrite Hk, Hv, Hh1. simpl. rewrite lookup_insert_eq. simpl. congruence.
Qed.

Lemma assign_spec l a c m :
  mem_wf m -> content_of m l = Some c ->
  wp (assign l a) (fun _ m' => assigns l (assigned c a) m m') m.
Proof.
  intros Hwf Hc. destruct (content_fields _ _ _ Hc) as (x & Hx & Hid & Htp & Hts & Hk & Hv & Hh).
  assert (forall f, msg_Key (f x) = msg_Key x \/ msg_Key (f x) = None ->
    msg_Value (f x) = msg_Value x \/ msg_Value (f x) = None ->
    msg_Headers (f x) = msg_Headers x \/ msg_Headers (f x) = None ->
    forall c', content_of (put_msg l (f x) m) l = Some c' ->
    wp (update_msg (Some l) f) (fun _ m' => assigns l c' m m') m) as Hscalar.
  { intros f Ek Ev Eh c' Hc'.
    eapply wp_mono; [apply (assign_update l f x m m c'); try done; unfold new_ref; tauto|].
    by intros ? ? [_ ?]. }
  destruct (wf_msgs _ Hwf _ _ Hx) as [_ (Hok & Hov & Hoh)].
  assert (forall bs, wp (new_array bs) (fun s m1 => mem_wf m1 /\ mem_extends m m1 /\
    slice_ok m1 s /\ next_loc m <= sl_arr s /\ slice_content m1 (Some s) = Some (Some bs) /\
    slice_content m1 (msg_Key x) = Some (c_key c) /\
    slice_content m1 (msg_Value x) = Some (c_value c) /\
    headers_content m1 (msg_Headers x) = Some (c_headers c)) m) as Hnew.
  { intros bs. eapply wp_mono; [by apply (new_array_spec bs m m)|].
    intros s m1 (Hwf1 & _ & Hext & _ & -> & Hbs & Hs). split_and!; try done.
    - unfold slice_content. simpl. rewrite Hbs. simpl. by rewrite firstn_all.
    - by rewrite (slice_content_extends m m1).
    - by rewrite (slice_content_extends m m1).
    - by rewrite (headers_content_extends m m1). }
  destruct a as [s|s|[bs|]|[bs|]|[kvs|]|t]; simpl.
  - apply Hscalar; [by auto..|]. erewrite put_msg_content by done. simpl. congruence.
  - apply Hscalar; [by auto..|]. erewrite put_msg_content by done. simpl. congruence.
  - wp_step. eapply wp_mono; [apply (Hnew bs)|].
    intros s m1 (Hwf1 & Hext & Hs & Hlt & Hsc & Hkc & Hvc & Hhc).
    eapply wp_mono; [apply (assign_update l (with_Key (Some s)) x m m1); try done|].
    + right. right. by exists s.
    + by left.
    + by left.
    + by erewrite put_msg_content by done.
    + intros _ m' [_ Ha]. simpl in Ha. by rewrite <- Hid, <- Htp, <- Hts.
  - apply Hscalar; [by auto..|]. erewrite put_msg_content by done. simpl. congruence.
  - wp_step. eapply wp_mono; [apply (Hnew bs)|].
    intros s m1 (Hwf1 & Hext & Hs & Hlt & Hsc & Hkc & Hvc & Hhc).
    eapply wp_mono; [apply (assign_update l (with_Value (Some s)) x m m1); try done|].
    + by left.
    + right. right. by exists s.
    + by left.
    + by erewrite put_msg_content by done.
    + intros _ m' [_ Ha]. simpl in Ha. by rewrite <- Hid, <- Htp, <- Hts.
  - apply Hscalar; [by auto..|]. erewrite put_msg_content by done. simpl. congruence.
  - by apply (assign_headers_spec l kvs c m).
  - apply Hscalar; [by auto..|]. erewrite put_msg_content by done. simpl. congruence.
  - apply Hscalar; [by auto..|]. erewrite put_msg_content by done. simpl. congruence.
Qed.


Lemma assigns_spec l fields c m :
  mem_wf m -> content_of m l = Some c ->
  wp (for_range fields (assign l)) (fun _ m' => assigns l (foldl assigned c fields) m m') m.
Proof.
  intros Hwf Hc.
  apply (wp_for_range _ (fun pre m' => assigns l (foldl assigned c pre) m m')).
  { split; [by apply writes_only_refl|done]. }
  intros pre a rest m1 _ [Hw Hc1]. rewrite foldl_app.
  eapply wp_mono; [by apply (assign_spec l a (foldl assigned c pre) m1 (wo_wf _ _ _ Hw))|].
  intros _ m2 [Hw2 Hc2]. split; [by eapply writes_only_trans|done].
Qed.

(** ** The methods *)

Section Methods_spec.
Context {AJ : AliasJSON}.

Lemma MarshalJSON_spec l c bs m :
  mem_wf m -> content_of m l = Some c -> alias_Marshal c = inl bs ->
  wp (MarshalJSON (Some l)) (fun r m' => exists data, r = (Some data, None) /\
    mem_wf m' /\ mem_extends m m' /\ slice_ok m' data /\ read_slice m' (Some data) = Some bs) m.
Proof.
  intros Hwf Hc Hbs. simpl. wp_step. unfold wp at 1, load_content. rewrite Hc, Hbs.
  wp_step. eapply wp_mono; [by apply (new_array_spec bs m m)|].
  intros s m1 (Hwf1 & _ & Hext & _ & -> & Harr & Hok). apply wp_ret.
  eexists. split_and!; [done..|]. simpl. rewrite Harr. simpl. by rewrite firstn_all.
Qed.

Lemma UnmarshalJSON_spec l c data bs fields err m :
  mem_wf m -> content_of m l = Some c -> read_slice m data = Some bs ->
  json_checkValid bs = None -> alias_decode bs = (fields, err) ->
  wp (UnmarshalJSON (Some l) data) (fun r m' =>
    r = err /\ assigns l (foldl assigned c fields) m m') m.
Proof.
  intros Hwf Hc Hbs Hvalid Hdec. unfold UnmarshalJSON. wp_step.
  unfold wp at 1, load_bytes. rewrite Hbs, Hvalid, Hdec.
  wp_step. eapply wp_mono; [by apply assigns_spec|]. intros [] m' Ha. by apply wp_ret.
Qed.

(** What decoding the encoding of [c] into a message of content [d] gives. *)
Definition json_merge (c d : content) : content := {|
  c_id := c_id c; c_topic := c_topic c;
  c_key := match default [] (c_key c) with [] => c_key d | k => Some k end;
  c_value := c_value c;
  c_headers := if decide (default ∅ (c_headers c) = ∅) then c_headers d
               else Some (default ∅ (c_headers c) ∪ default ∅ (c_headers d));
  c_time := c_time c |}.

(** All strings of the content are valid UTF-8. *)
Record utf8_content (c : content) : Prop := {
  utf8_id : utf8_valid (c_id c) = true;
  utf8_topic : utf8_valid (c_topic c) = true;
  utf8_headers : map_Forall (fun k v => utf8_valid k = true /\ utf8_valid v = true)
    (default ∅ (c_headers c)) }.

Lemma alias_fields_merge {AJS : AliasJSONSpec} kvs c d :
  utf8_content c -> kvs ≡ₚ map_to_list (default ∅ (c_headers c)) ->
  foldl assigned d (alias_fields kvs c) = json_merge c d.
Proof.
  intros [Hid Htp Hhs] Hkvs. unfold alias_fields, json_merge.
  rewrite !json_clean_valid by done. set (hs := default ∅ (c_headers c)) in *.
  assert (prod_map json_clean json_clean <$> kvs = kvs) as ->.
  { transitivity (id <$> kvs); [|apply list_fmap_id]. apply list_fmap_ext. intros i [k v] Hkv.
    apply list_elem_of_lookup_2 in Hkv. rewrite Hkvs in Hkv. apply elem_of_map_to_list in Hkv.
    destruct (Hhs k v Hkv). simpl. by rewrite !json_clean_valid. }
  assert (list_to_map kvs = hs) as Hmap.
  { rewrite <- (list_to_map_to_list hs). apply list_to_map_proper; [|done].
    rewrite Hkvs. apply NoDup_fst_map_to_list. }
  assert (NoDup kvs.*1) as Hnd by (rewrite Hkvs; apply NoDup_fst_map_to_list).
  destruct kvs as [|kv kvs].
  - simpl in Hmap. rewrite decide_True by done. by destruct (default [] (c_key c)).
  - rewrite decide_False.
    + rewrite <- Hmap, <- assign_all_union by done. by destruct (default [] (c_key c)).
    + intros Hempty. rewrite Hempty, map_to_list_empty in Hkvs.
      by apply Permutation_nil_r in Hkvs.
Qed.

(** A value always comes back. *)
Lemma alias_fields_value kvs c d :
  c_value (foldl assigned d (alias_fields kvs c)) = c_value c.
Proof. unfold alias_fields. by destruct (default [] (c_key c)), kvs. Qed.

(** What [UnmarshalJSON] does to a zero message made for it. *)
Lemma UnmarshalJSON_zero data bs m :
  mem_wf m -> slice_ok_opt m data -> read_slice m data = Some bs -> exists k m1 e m2 c,
    new_msg zero_Message m = (Ok k, m1) /\ UnmarshalJSON (Some k) data m1 = (Ok e, m2) /\
    mem_wf m2 /\ mem_extends m m2 /\ content_of m2 k = Some c /\
    (json_checkValid bs = None ->
     e = (alias_decode bs).2 /\ c = foldl assigned zero_content (alias_decode bs).1).
Proof.
  intros Hwf Hok Hbs.
  destruct (wp_run _ _ _ (new_msg_spec zero_Message m m Hwf ltac:(done) ltac:(by split_and!)))
    as (k & m1 & Hnew & Hwf1 & Hext1 & _ & _ & -> & Hm1).
  assert (msgs_of m1 !! next_loc m = Some zero_Message) as Hk.
  { rewrite Hm1. simpl. by rewrite lookup_insert_eq. }
  assert (content_of m1 (next_loc m) = Some zero_content) as Hc.
  { unfold content_of. by rewrite Hk. }
  assert (read_slice m1 data = Some bs) as Hbs1 by (by rewrite (read_slice_extends m m1)).
  destruct (json_checkValid bs) as [err|] eqn:Hv.
  - exists (next_loc m), m1, (Some err), m1, zero_content. split_and!; [done| |done..].
    unfold UnmarshalJSON, bind, load_bytes. by rewrite Hbs1, Hv.
  - destruct (alias_decode bs) as [fields err] eqn:Hdec.
    destruct (wp_run _ _ _ (UnmarshalJSON_spec (next_loc m) zero_content data bs fields err m1
      Hwf1 Hc Hbs1 Hv Hdec)) as (e & m2 & Hun & -> & Hw & Hc2).
    eexists _, m1, _, m2, _. split_and!; [done|done|apply Hw| |done|done].
    eapply writes_only_new; [done|done|]. intros y. unfold footprint. rewrite Hk. simpl.
    intros ->%list_elem_of_singleton. done.
Qed.
End Methods_spec.

(** ** A demonstration codec: the bits of an injective coding, one per byte *)

#[export] Instance byte_eq_dec : EqDecision Byte.byte := Byte.byte_eq_dec.
#[export] Instance byte_countable : Countable Byte.byte.
Proof. exact (inj_countable Byte.to_N Byte.of_N Byte.of_to_N). Defined.

#[export] Instance Time_eq_dec : EqDecision Time.
Proof. solve_decision. Defined.
#[export] Instance content_eq_dec : EqDecision content.
Proof. solve_decision. Defined.
#[export] Instance content_countable : Countable content.
Proof.
  refine (inj_countable'
    (fun c => (c_id c, c_topic c, c_key c, c_value c, c_headers c,
               (t_nanos (c_time c), t_offset (c_time c))))
    (fun '(i, t, k, v, h, (n, o)) => mkContent i t k v h (mkTime n o)) _).
  by intros [? ? ? ? ? []].
Defined.

Fixpoint bits_of (p : positive) : bytes :=
  match p with
  | xH => []
  | xO p => Byte.x30 :: bits_of p
  | xI p => Byte.x31 :: bits_of p
  end.

Fixpoint of_bits (bs : bytes) : positive :=
  match bs with
  | [] => xH
  | Byte.x30 :: bs => xO (of_bits bs)
  | _ :: bs => xI (of_bits bs)
  end.

Lemma of_bits_of p : of_bits (bits_of p) = p.
Proof. induction p; simpl; congruence. Qed.

#[local] Instance demo_alias : AliasJSON := {|
  alias_Marshal := fun c => inl (bits_of (encode c));
  json_checkValid := fun _ => None;
  alias_decode := fun bs =>
    match decode (of_bits bs) with
    | Some c =>
      ([AID (c_id c); ATopic (c_topic c)] ++
       match default [] (c_key c) with [] => [] | k => [AKey (Some k)] end ++
       [AValue (c_value c)] ++
       match map_to_list (default ∅ (c_headers c)) with [] => [] | kvs => [AHeaders (Some kvs)] end ++
       [ATimestamp (c_time c)], None)
    | None => ([], Some (ErrString 0 "json: invalid document"))
    end;
  json_clean := id |}.

#[local] Instance demo_alias_spec : AliasJSONSpec.
Proof.
  split; [by intros c _; eexists| |done]. intros c bs _ [= <-]. split; [done|].
  exists (map_to_list (default ∅ (c_headers c))). split; [done|].
  simpl. rewrite of_bits_of, decode_encode. unfold alias_fields. simpl.
  destruct (map_to_list _) as [|kv kvs]; [done|].
  assert (prod_map id id <$> (kv :: kvs) = kv :: kvs) as ->; [|done].
  transitivity (id <$> (kv :: kvs)); [|apply list_fmap_id].
  apply list_fmap_ext. by intros i [].
Qed.

(** ** Properties *)

(** C14: a message survives JSON.  What [MarshalJSON] writes of a message (of
    valid UTF-8 and a year of four digits), [UnmarshalJSON] reads back into
    another message without error: identifier, topic, value and time are
    those of the first; its key too, unless it is empty, when the old key
    stays; its headers are added to those that were there; and the first
    message is unchanged. *)
Theorem UnmarshalJSON_MarshalJSON `{AliasJSONSpec} l k c d (m : mem) :
  mem_wf m -> content_of m l = Some c -> content_of m k = Some d ->
  (forall y, y ∈ footprint m l -> y ∉ footprint m k) ->
  json_time (c_time c) -> utf8_content c ->
  exists data m1 m2,
    MarshalJSON (Some l) m = (Ok (Some data, None), m1) /\
    UnmarshalJSON (Some k) (Some data) m1 = (Ok None, m2) /\
    content_of m2 k = Some (json_merge c d) /\ content_of m2 l = Some c.
Proof.
  intros Hwf Hc Hd Hdis Ht Hu.
  destruct (alias_Marshal_ok c Ht) as [bs Hbs].
  destruct (alias_roundtrip c bs Ht Hbs) as (Hvalid & kvs & Hkvs & Hdec).
  destruct (wp_run _ _ _ (MarshalJSON_spec l c bs m Hwf Hc Hbs))
    as (r & m1 & Hm & data & -> & Hwf1 & Hext & _ & Hrd).
  assert (forall i, is_Some (msgs_of m !! i) -> content_of m1 i = content_of m i /\
    footprint m1 i = footprint m i) as Hsame.
  { intros i Hi. by rewrite (content_of_extends m m1), (footprint_extends m m1). }
  destruct (Hsame l) as [Hc1 Hfl]; [by eapply content_live|].
  destruct (Hsame k) as [Hd1 Hfk]; [by eapply content_live|].
  rewrite Hc in Hc1. rewrite Hd in Hd1.
  destruct (wp_run _ _ _ (UnmarshalJSON_spec k d (Some data) bs _ _ m1 Hwf1 Hd1 Hrd Hvalid Hdec))
    as (e & m2 & Hun & -> & Hw & Hd2).
  exists data, m1, m2. split_and!; [done..| |].
  - by rewrite Hd2, (alias_fields_merge kvs c d).
  - rewrite (writes_only_content k m1 m2 l); [done..|by eapply content_live|].
    by rewrite Hfl, Hfk.
Qed.

(** The demonstration message, read into the zero message beside it. *)
Definition demo_mem_zero : mem :=
  put_msg 4 zero_Message (bump demo_mem).

Lemma UnmarshalJSON_MarshalJSON_witness :
  exists data m1 m2,
    MarshalJSON (Some demo_msg) demo_mem_zero = (Ok (Some data, None), m1) /\
    UnmarshalJSON (Some 4) (Some data) m1 = (Ok None, m2) /\
    content_of m2 4 = Some demo_content.
Proof.
  destruct (UnmarshalJSON_MarshalJSON demo_msg 4 demo_content
    zero_content demo_mem_zero)
    as (data & m1 & m2 & Hm & Hu & Hc & _).
  - apply (bool_decide_unpack _). vm_compute. exact I.
  - vm_compute. reflexivity.
  - vm_compute. reflexivity.
  - intros y Hy Hy'. assert (y = 4) as -> by (vm_compute in Hy'; by apply list_elem_of_singleton in Hy').
    vm_compute in Hy. set_solver.
  - split; [simpl; lia|done].
  - split; [done..|]. apply (bool_decide_unpack _). vm_compute. exact I.
  - exists data, m1, m2. split_and!; [exact Hm|exact Hu|]. rewrite Hc. vm_compute. reflexivity.
Defined.
