(* ===== verification/Broker.v ===== *)
(** * The broker interface (pkg/broker/broker.go, options.go, metrics.go)

    [MessageBroker] is the interface the producer and consumer packages are
    written against, as a type class over the broker's state; its laws, which
    an implementation discharges, are [MessageBrokerSpec]. *)

From Stdlib Require Import ZArith Lia.
From stdpp Require Import base gmap strings list fin_maps.
From S2P Require Import Prelude Store Errors Message.

(** ** Options: both structs are empty *)

Inductive PublishOptions := mkPublishOptions.
Inductive SubscribeOptions := mkSubscribeOptions.
Definition PublishOption := PublishOptions -> PublishOptions.
Definition SubscribeOption := SubscribeOptions -> SubscribeOptions.

(** ** Metrics *)

Record BrokerMetrics := mkBrokerMetrics {
  ConnectionAttempts : Z;
  ConnectionSuccesses : Z;
  ConnectionFailures : Z;
  CurrentConnections : Z;
  MessagesPublished : Z;
  PublishSuccesses : Z;
  PublishFailures : Z;
  BytesPublished : Z;
  MessagesReceived : Z;
  MessagesProcessed : Z;
  MessagesFailed : Z;
  BytesReceived : Z;
  ActiveSubscriptions : Z;
  StartTime : Time;
  LastPublishTime : option Time;       (* [None] is the zero time *)
  LastReceiveTime : option Time;
  LastErrorTime : option Time }.

Definition zero_metrics (start : Time) : BrokerMetrics :=
  {| ConnectionAttempts := 0; ConnectionSuccesses := 0; ConnectionFailures := 0;
     CurrentConnections := 0; MessagesPublished := 0; PublishSuccesses := 0;
     PublishFailures := 0; BytesPublished := 0; MessagesReceived := 0;
     MessagesProcessed := 0; MessagesFailed := 0; BytesReceived := 0;
     ActiveSubscriptions := 0; StartTime := start; LastPublishTime := None;
     LastReceiveTime := None; LastErrorTime := None |}.

Definition NewBrokerMetrics `{Env} : GoM mem BrokerMetrics :=
  let! t := time_Now_UTC in
  ret (zero_metrics t).

(** ** The interface *)

(** A non-nil [Subscription]: a reference the broker gave out. *)
Abbreviation subref := nat (only parsing).

(** A [Handler] called on a context and a message pointer. *)
Definition HandlerSem (W : Type) : Type := Ctx -> option loc -> GoM W (option error).

Class MessageBroker (B : Type) := {
  Connect : Ctx -> GoM (World B) (option error);
  Close : Ctx -> GoM (World B) (option error);
  HealthCheck : Ctx -> GoM (World B) (option error);
  IsConnected : GoM (World B) bool;
  Publish : Ctx -> string -> option loc -> list PublishOption -> GoM (World B) (option error);
  PublishBatch :
    Ctx -> string -> list (option loc) -> list PublishOption -> GoM (World B) (option error);
  Subscribe : Ctx -> string -> option handler -> list SubscribeOption ->
    GoM (World B) (option subref * option error);
  Unsubscribe : string -> GoM (World B) (option error);
  Type_ : GoM (World B) BrokerType;
  GetMetrics : GoM (World B) BrokerMetrics;
  sub_Unsubscribe : subref -> GoM (World B) (option error);
  sub_IsActive : subref -> GoM (World B) bool;
  sub_Topic : subref -> GoM (World B) string;
  sub_ID : subref -> GoM (World B) string }.

(** What clients rely on.  [broker_inv] is the implementation's invariant and
    [sub_live w s] says that subscription [s] of [w] is active. *)
Class MessageBrokerSpec (B : Type) `{MessageBroker B} := {
  broker_inv : World B -> Prop;
  sub_live : World B -> subref -> Prop;

  broker_inv_wf : forall w, broker_inv w -> mem_wf (w_mem w);

  (* the broker does not depend on what the fields of messages, their topic
     excepted, are assigned *)
  broker_inv_mem : forall w m, broker_inv w -> mem_wf m -> mem_keeps (w_mem w) m ->
    broker_inv (set_mem w m);
  sub_live_mem : forall w m s, sub_live (set_mem w m) s <-> sub_live w s;

  (* publishing never panics, and changes no object that existed before *)
  Publish_law : forall ctx topic msg opts w,
    broker_inv w -> is_Some (msgs_of (w_mem w) !! msg) ->
    wp (Publish ctx topic (Some msg) opts) (fun _ w' =>
      broker_inv w' /\ mem_extends (w_mem w) (w_mem w') /\
      forall s, sub_live w' s <-> sub_live w s) w;

  (* a successful subscription is new and active; a failed one gives nil *)
  Subscribe_law : forall ctx topic h opts w,
    broker_inv w ->
    wp (Subscribe ctx topic h opts) (fun r w' =>
      broker_inv w' /\ mem_extends (w_mem w) (w_mem w') /\
      match r with
      | (Some s, None) => ~ sub_live w s /\ forall s', sub_live w' s' <-> s' = s \/ sub_live w s'
      | (None, Some _) => forall s', sub_live w' s' <-> sub_live w s'
      | _ => False
      end) w;

  (* unsubscribing without error ends this subscription and no other *)
  sub_Unsubscribe_law : forall s w,
    broker_inv w -> sub_live w s ->
    wp (sub_Unsubscribe s) (fun r w' =>
      broker_inv w' /\ mem_extends (w_mem w) (w_mem w') /\
      forall s', sub_live w' s' <-> sub_live w s' /\ (s' = s -> r <> None)) w }.

(** A broker whose subscriptions always unsubscribe without error. *)
Class ReliableUnsubscribe (B : Type) `{MessageBrokerSpec B} : Prop := {
  unsubscribe_ok : forall s w, broker_inv w -> sub_live w s ->
    wp (sub_Unsubscribe s) (fun r _ => r = None) w }.
