(* ===== verification/Float64.v ===== *)
(** * The float64 arithmetic of RetryPolicy.Delay

    Go's [float64] is IEEE 754 binary64; its values and rounded operations are
    those of the Standard Library's [SpecFloat].  The file gives what
    [RetryPolicy.Delay] uses of them: the conversions from and to [int64],
    [math.Frexp], [math.Ldexp] and [math.Pow], the last one written as the
    [math] package writes it, for the whole exponents the code passes. *)

From Stdlib Require Import ZArith Lia Floats.SpecFloat.
From stdpp Require Import base numbers list list_numbers.
From S2P Require Import Prelude.

Abbreviation float64 := spec_float (only parsing).
Abbreviation prec64 := 53%Z (only parsing).
Abbreviation emax64 := 1024%Z (only parsing).

#[global] Instance spec_float_eq_dec : EqDecision spec_float.
Proof. solve_decision. Defined.

Definition f64_mul : float64 -> float64 -> float64 := SFmul prec64 emax64.
Definition f64_add : float64 -> float64 -> float64 := SFadd prec64 emax64.
Definition f64_gtb (x y : float64) : bool := SFltb y x.

(** [float64(z)] of an integer *)
Definition f64_of_int (z : Z) : float64 := binary_normalize prec64 emax64 z 0 false.

Definition f64_one : float64 := f64_of_int 1.
Definition f64_half : float64 := SFldexp prec64 emax64 f64_one (-1).

(** The integer part of a finite float, rounded towards zero. *)
Definition f64_trunc (x : float64) : Z :=
  match x with
  | S754_finite s m e => cond_Zopp s (Z.shiftl (Zpos m) e)
  | _ => 0
  end.

Definition f64_finite (x : float64) : bool :=
  match x with S754_zero _ | S754_finite _ _ _ => true | _ => false end.

(** [int64(x)]: the result for a value that is not representable depends on
    the platform. *)
Class Platform := { int64_out_of_range : float64 -> Z }.

Definition f64_to_int64 `{Platform} (x : float64) : Z :=
  if f64_finite x && (int64_min <=? f64_trunc x)%Z && (f64_trunc x <=? int64_max)%Z
  then f64_trunc x
  else int64_out_of_range x.

(** What the supported platforms share: NaN and the negative values below the
    range convert to a value that is not positive (amd64 gives the smallest
    int64; arm64 saturates and gives 0 for NaN). *)
Class PlatformSpec `{Platform} : Prop := {
  out_of_range_nan : (int64_out_of_range S754_nan <= 0)%Z;
  out_of_range_neg_inf : (int64_out_of_range (S754_infinity true) <= 0)%Z;
  out_of_range_neg : forall m e, (int64_out_of_range (S754_finite true m e) <= 0)%Z }.

Definition amd64 : Platform := {| int64_out_of_range := fun _ => int64_min |}.

Lemma amd64_spec : @PlatformSpec amd64.
Proof. by constructor. Qed.

(** ** math.Pow(x, y) for a whole y of at least 1 *)

Definition f64_abs_lt_one (x : float64) : bool := f64_gtb f64_one (SFabs x).

(** [isOddInt(y)], for a whole y *)
Definition isOddInt (yi : Z) : bool := (yi <? 2 ^ 53)%Z && Z.odd yi.

(** The square-and-multiply loop: [a1 * 2**ae] is the answer so far and
    [x1 * 2**xe] the current power of x.  64 steps empty an int64. *)
Fixpoint pow_loop (fuel : nat) (i : Z) (a1 : float64) (ae : Z) (x1 : float64) (xe : Z) :
    float64 * Z :=
  match fuel with
  | 0 => (a1, ae)
  | S fuel =>
    if (i =? 0)%Z then (a1, ae) else
    if (xe <? - 2 ^ 12)%Z || (2 ^ 12 <? xe)%Z then (a1, (ae + xe)%Z) else
    let '(a1, ae) := if Z.odd i then (f64_mul a1 x1, (ae + xe)%Z) else (a1, ae) in
    let x1 := f64_mul x1 x1 in
    let xe := Z.shiftl xe 1 in
    let '(x1, xe) :=
      if f64_gtb f64_half x1 then (f64_add x1 x1, (xe - 1)%Z) else (x1, xe) in
    pow_loop fuel (Z.shiftr i 1) a1 ae x1 xe
  end.

Definition Pow (x y : float64) : float64 :=
  let yi := f64_trunc y in
  if SFeqb x f64_one then f64_one else
  if (yi =? 1)%Z then x else
  match x with
  | S754_nan => S754_nan
  | S754_zero s => if s && isOddInt yi then x else S754_zero false
  | S754_infinity s => S754_infinity (s && isOddInt yi)
  | S754_finite _ _ _ =>
    if (2 ^ 63 <=? yi)%Z then
      if SFeqb x (SFopp f64_one) then f64_one
      else if f64_abs_lt_one x then S754_zero false
      else S754_infinity false
    else
      let '(x1, xe) := SFfrexp prec64 emax64 x in
      let '(a1, ae) := pow_loop 64 yi f64_one 0 x1 xe in
      SFldexp prec64 emax64 a1 ae
  end.

(** ** Exact conversions and the size of a mantissa *)

Lemma digits2_pos_bounds p :
  (2 ^ (Zpos (digits2_pos p) - 1) <= Zpos p < 2 ^ Zpos (digits2_pos p))%Z.
Proof.
  induction p as [p IH|p IH|]; [| |simpl; lia]; simpl digits2_pos; rewrite Pos2Z.inj_succ.
  all: replace (Z.succ (Zpos (digits2_pos p)) - 1)%Z with (Zpos (digits2_pos p)) by lia.
  all: rewrite Z.pow_succ_r by lia.
  all: replace (2 ^ Zpos (digits2_pos p))%Z with (2 * 2 ^ (Zpos (digits2_pos p) - 1))%Z in *
    by (rewrite <- Z.pow_succ_r by lia; f_equal; lia).
  all: lia.
Qed.

Lemma iter_pos_nat {A} (f : A -> A) p x : SpecFloat.iter_pos f p x = Nat.iter (Pos.to_nat p) f x.
Proof.
  revert x. induction p as [p IH|p IH|]; intros x;
    cbn [SpecFloat.iter_pos]; [..|done].
  - rewrite !IH, Pos2Nat.inj_xI, <- Nat.iter_add, <- Nat.iter_succ_r. f_equal. lia.
  - rewrite !IH, Pos2Nat.inj_xO, <- Nat.iter_add. f_equal. lia.
Qed.

Lemma shr_1_m r : (0 <= shr_m r)%Z -> shr_m (shr_1 r) = (shr_m r / 2)%Z.
Proof.
  destruct r as [[|[p|p|]|p] r s]; simpl; intros Hm; try lia; try done.
  - rewrite <- Z.div2_div. done.
  - rewrite <- Z.div2_div. done.
Qed.

Lemma shr_iter_m n r :
  (0 <= shr_m r)%Z -> shr_m (Nat.iter n shr_1 r) = (shr_m r / 2 ^ Z.of_nat n)%Z.
Proof.
  intros Hr. induction n as [|n IH]; [simpl; by rewrite Z.div_1_r|].
  rewrite Nat.iter_succ, shr_1_m, IH by (rewrite IH; apply Z.div_pos; lia).
  rewrite Z.div_div by lia. f_equal. rewrite Nat2Z.inj_succ, Z.pow_succ_r by lia. lia.
Qed.

(** A shift to the format leaves a mantissa of at most 53 bits. *)
Lemma shr_fexp_bound m e l r e' :
  (0 <= m)%Z -> shr_fexp prec64 emax64 m e l = (r, e') -> (0 <= shr_m r < 2 ^ 53)%Z.
Proof.
  intros Hm. unfold shr_fexp.
  assert (shr_m (shr_record_of_loc m l) = m) as Hrec by (by destruct l as [|[| |]]).
  assert (m < 2 ^ Zdigits2 m)%Z as Hd.
  { destruct m as [|p|p]; [simpl; lia| |lia]. apply digits2_pos_bounds. }
  set (n := (fexp _ _ _ - e)%Z).
  assert (Zdigits2 m - 53 <= n)%Z as Hn by (unfold n, fexp; lia).
  unfold shr. destruct n as [|p|p] eqn:En; intros Heq; injection Heq as <- <-.
  - rewrite Hrec. split; [done|]. eapply Z.lt_le_trans; [done|]. apply Z.pow_le_mono_r; lia.
  - rewrite iter_pos_nat, shr_iter_m, Hrec by (by rewrite Hrec).
    rewrite positive_nat_Z. split; [apply Z.div_pos; lia|].
    apply Z.div_lt_upper_bound; [lia|]. rewrite <- Z.pow_add_r by lia.
    eapply Z.lt_le_trans; [done|]. apply Z.pow_le_mono_r; lia.
  - rewrite Hrec. split; [done|]. eapply Z.lt_le_trans; [done|]. apply Z.pow_le_mono_r; lia.
Qed.

Lemma round_nearest_even_nonneg m l : (0 <= m)%Z -> (0 <= round_nearest_even m l)%Z.
Proof. destruct l as [|[| |]]; simpl; [lia..|destruct (Z.even m); lia|lia|lia]. Qed.

Lemma binary_round_aux_bound s m e l s' m' e' :
  (0 <= m)%Z -> binary_round_aux prec64 emax64 s m e l = S754_finite s' m' e' ->
  s' = s /\ (Zpos m' < 2 ^ 53)%Z.
Proof.
  intros Hm. unfold binary_round_aux.
  destruct (shr_fexp _ _ m e l) as [r1 e1] eqn:E1.
  apply shr_fexp_bound in E1; [|done].
  destruct (shr_fexp _ _ (round_nearest_even _ _) e1 _) as [r2 e2] eqn:E2.
  apply shr_fexp_bound in E2; [|apply round_nearest_even_nonneg; lia].
  destruct (shr_m r2) as [|p|p]; [done| |done]. destruct (_ <=? _)%Z; [|done].
  intros Heq. injection Heq as <- <- <-. split; [done|lia].
Qed.

Lemma iter_xO p n : Zpos (Pos.iter xO p n) = (Zpos p * 2 ^ Zpos n)%Z.
Proof.
  induction n as [|n IH] using Pos.peano_ind; [simpl; lia|].
  rewrite Pos.iter_succ, Pos2Z.inj_xO, IH, Pos2Z.inj_succ, Z.pow_succ_r; lia.
Qed.

Lemma digits2_pos_iff p d :
  (2 ^ (Zpos d - 1) <= Zpos p < 2 ^ Zpos d)%Z -> digits2_pos p = d.
Proof.
  intros [H1 H2]. pose proof (digits2_pos_bounds p) as [H3 H4].
  assert (~ (Zpos d <= Zpos (digits2_pos p) - 1))%Z.
  { intros H. apply (Z.pow_le_mono_r 2) in H; lia. }
  assert (~ (Zpos (digits2_pos p) <= Zpos d - 1))%Z.
  { intros H'. apply (Z.pow_le_mono_r 2) in H'; lia. }
  lia.
Qed.

(** Rounding a mantissa of exactly 53 bits in range changes nothing. *)
Lemma binary_round_aux_exact s p e :
  digits2_pos p = 53%positive -> (-1074 <= e <= 971)%Z ->
  binary_round_aux prec64 emax64 s (Zpos p) e loc_Exact = S754_finite s p e.
Proof.
  intros Hd He. unfold binary_round_aux.
  assert (shr_fexp prec64 emax64 (Zpos p) e loc_Exact = (Build_shr_record (Zpos p) false false, e))
    as Hsh.
  { unfold shr_fexp. simpl Zdigits2. rewrite Hd.
    replace (fexp prec64 emax64 (53 + e) - e)%Z with 0%Z; [done|].
    unfold fexp, emin. lia. }
  rewrite Hsh. simpl round_nearest_even. rewrite Hsh. simpl shr_m. cbv iota.
  by rewrite (proj2 (Z.leb_le _ _)) by lia.
Qed.

(** Integers below [2^53] convert exactly, to a mantissa of 53 bits. *)
Lemma f64_of_int_exact p :
  (Zpos p < 2 ^ 53)%Z -> exists m e, f64_of_int (Zpos p) = S754_finite false m e /\
    (-1074 <= e <= 0)%Z /\ (2 ^ 52 <= Zpos m < 2 ^ 53)%Z /\ (Zpos m = Zpos p * 2 ^ (- e))%Z.
Proof.
  intros Hp. pose proof (digits2_pos_bounds p) as Hd.
  remember (digits2_pos p) as d eqn:Ed.
  assert (Zpos d <= 53)%Z as Hd53.
  { destruct (decide (53 < Zpos d)%Z); [|lia].
    assert (2 ^ 53 <= 2 ^ (Zpos d - 1))%Z by (apply Z.pow_le_mono_r; lia). lia. }
  assert (forall m e, (-1074 <= e <= 0)%Z -> (Zpos m = Zpos p * 2 ^ (- e))%Z ->
    (e = Zpos d - 53)%Z -> binary_round_aux prec64 emax64 false (Zpos m) e loc_Exact =
      S754_finite false m e /\ (2 ^ 52 <= Zpos m < 2 ^ 53)%Z) as Haux.
  { intros m e He Hm ->.
    assert (2 ^ 52 <= Zpos m < 2 ^ 53)%Z as Hb.
    { replace (- (Zpos d - 53))%Z with (53 - Zpos d)%Z in Hm by lia. rewrite Hm.
      assert (2 ^ 52 = 2 ^ (Zpos d - 1) * 2 ^ (53 - Zpos d))%Z as ->
        by (rewrite <- Z.pow_add_r by lia; f_equal; lia).
      assert (2 ^ 53 = 2 ^ Zpos d * 2 ^ (53 - Zpos d))%Z as ->
        by (rewrite <- Z.pow_add_r by lia; f_equal; lia).
      assert (0 < 2 ^ (53 - Zpos d))%Z by (apply Z.pow_pos_nonneg; lia). nia. }
    split; [|done]. apply binary_round_aux_exact; [|lia]. by apply digits2_pos_iff. }
  unfold f64_of_int, binary_normalize, binary_round, shl_align. rewrite <- Ed.
  replace (fexp prec64 emax64 (Zpos d + 0) - 0)%Z with (Zpos d - 53)%Z by (unfold fexp, emin; lia).
  replace (fexp prec64 emax64 (Zpos d + 0))%Z with (Zpos d - 53)%Z by (unfold fexp, emin; lia).
  destruct (Zpos d - 53)%Z as [|k|k] eqn:Ek; [|lia|].
  - destruct (Haux p 0%Z) as [-> Hb]; [lia|lia|lia|]. exists p, 0%Z. split_and!; [done|lia..].
  - destruct (Haux (Pos.iter xO p k) (Zneg k)) as [-> Hb]; [lia|by rewrite iter_xO|lia|].
    eexists _, _. split_and!; [done|lia..|]. by rewrite iter_xO.
Qed.

(** The integer part of a product that is not above [float64(z)] is at most [z]. *)
Lemma f64_trunc_le_of_int x y z :
  (0 <= z < 2 ^ 53)%Z -> f64_gtb (f64_mul x y) (f64_of_int z) = false ->
  f64_finite (f64_mul x y) = true -> (f64_trunc (f64_mul x y) <= z)%Z.
Proof.
  intros Hz Hle Hfin. destruct (f64_mul x y) as [s|s| |s m e] eqn:Exy; try done.
  { simpl. lia. }
  assert (Zpos m < 2 ^ 53)%Z as Hm.
  { unfold f64_mul, SFmul in Exy. destruct x, y; try done.
    apply binary_round_aux_bound in Exy as [_ ?]; lia. }
  unfold f64_trunc. destruct s.
  { simpl. assert (0 <= Z.shiftl (Zpos m) e)%Z by (apply Z.shiftl_nonneg; lia). lia. }
  destruct z as [|p|p]; [done| |lia].
  destruct (f64_of_int_exact p) as (mz & ez & Hof & Hez & Hmz & Heq); [lia|].
  unfold f64_gtb, SFltb, SFcompare in Hle. rewrite Hof in Hle. simpl cond_Zopp.
  assert (e <= 0 /\ Zpos m <= Zpos p * 2 ^ (- e))%Z as [He Hme].
  { destruct (ez ?= e)%Z eqn:Hc; [|done|].
    - apply Z.compare_eq in Hc as <-. split; [lia|]. rewrite <- Heq.
      fold (Pos.compare mz m) in Hle. destruct (Pos.compare mz m) eqn:Hcm; [|done|].
      + apply Pos.compare_eq in Hcm as ->. lia.
      + apply Pos.compare_gt_iff in Hcm. lia.
    - apply Z.compare_gt_iff in Hc. split; [lia|].
      assert (2 * 2 ^ (- ez) <= 2 ^ (- e))%Z as Hp.
      { rewrite <- Z.pow_succ_r by lia. apply Z.pow_le_mono_r; lia. }
      nia. }
  rewrite <- (Z.opp_involutive e), Z.shiftl_opp_r, Z.shiftr_div_pow2 by lia.
  apply Z.div_le_upper_bound; [lia|]. lia.
Qed.

(** ** Powers of two *)

(** [2^-k] *)
Definition f64_half_pow (k : Z) : float64 := S754_finite false (2 ^ 52) (- 52 - k).

Lemma f64_half_pow_mul k :
  (0 <= k <= 12)%Z -> f64_mul (f64_half_pow k) f64_half = f64_half_pow (k + 1).
Proof.
  intros Hk. assert (forallb (fun k => bool_decide (f64_mul (f64_half_pow k) f64_half =
    f64_half_pow (k + 1))) (seqZ 0 13) = true) as Hall by (vm_compute; reflexivity).
  rewrite forallb_forall in Hall. eapply bool_decide_eq_true_1, Hall, list_elem_of_In, elem_of_seqZ. lia.
Qed.

(** The loop on [x1 = 1/2] keeps an exact power of two, until the exponent is
    large enough for the answer to overflow. *)
Lemma pow_loop_half fuel i k ae j :
  (0 <= i < 2 ^ Z.of_nat fuel)%Z -> (0 <= k <= j)%Z -> (j <= 12)%Z ->
  exists k' ae', pow_loop fuel i (f64_half_pow k) ae f64_half (2 ^ j + 1) =
      (f64_half_pow k', ae') /\
    ((ae' - k' = ae - k + 2 ^ j * i)%Z \/
     (2 ^ 12 <= 2 ^ j * i /\ ae - k + 2 ^ 12 <= ae' - k')%Z).
Proof.
  revert i k ae j. induction fuel as [|fuel IH]; intros i k ae j Hi Hk Hj.
  { simpl. exists k, ae. split; [done|left]. assert (i = 0)%Z as -> by (simpl in Hi; lia). lia. }
  cbn [pow_loop]. destruct (Z.eqb_spec i 0) as [->|Hi0].
  { exists k, ae. split; [done|left]. lia. }
  assert (0 < 2 ^ j)%Z as Hj0 by (apply Z.pow_pos_nonneg; lia).
  destruct (decide (j = 12)%Z) as [->|Hne].
  { exists k, (ae + (2 ^ 12 + 1))%Z. split; [done|right]. lia. }
  assert (2 ^ j <= 2 ^ 11)%Z as Hj11 by (apply Z.pow_le_mono_r; lia).
  rewrite (proj2 (Z.ltb_ge _ _)), (proj2 (Z.ltb_ge (2 ^ 12) _)) by lia. cbn [orb].
  change (f64_gtb f64_half (f64_mul f64_half f64_half)) with true.
  change (f64_add (f64_mul f64_half f64_half) (f64_mul f64_half f64_half)) with f64_half.
  rewrite Z.shiftl_mul_pow2, Z.shiftr_div_pow2 by lia. change (2 ^ 1)%Z with 2%Z.
  replace ((2 ^ j + 1) * 2 - 1)%Z with (2 ^ (j + 1) + 1)%Z
    by (rewrite Z.pow_add_r by lia; lia).
  assert (0 <= i / 2 < 2 ^ Z.of_nat fuel)%Z as Hi2.
  { rewrite Nat2Z.inj_succ, Z.pow_succ_r in Hi by lia.
    split; [apply Z.div_pos; lia|apply Z.div_lt_upper_bound; lia]. }
  assert (2 ^ (j + 1) = 2 * 2 ^ j)%Z as Hjs by (rewrite Z.pow_add_r by lia; lia).
  pose proof (Z.div_mod i 2 ltac:(lia)) as Hdm. rewrite Zmod_odd in Hdm.
  destruct (Z.odd i).
  - rewrite f64_half_pow_mul by lia.
    destruct (IH (i / 2)%Z (k + 1)%Z (ae + (2 ^ j + 1))%Z (j + 1)%Z)
      as (k' & ae' & -> & H); [lia..|].
    exists k', ae'. split; [done|]. destruct H as [H|H]; [left|right]; nia.
  - destruct (IH (i / 2)%Z k ae (j + 1)%Z) as (k' & ae' & -> & H); [lia..|].
    exists k', ae'. split; [done|]. destruct H as [H|H]; [left|right]; nia.
Qed.

Lemma f64_half_pow_ldexp k ae :
  (-1022 <= ae - k)%Z -> SFldexp prec64 emax64 (f64_half_pow k) ae =
    if (ae - k <=? 1023)%Z then S754_finite false (2 ^ 52) (ae - k - 52) else S754_infinity false.
Proof.
  intros Hae. unfold SFldexp, f64_half_pow, binary_round, shl_align.
  replace (fexp prec64 emax64 (Zpos (digits2_pos (2 ^ 52)) + (-52 - k + ae)))%Z
    with (-52 - k + ae)%Z by (unfold fexp, emin; simpl digits2_pos; lia).
  rewrite Z.sub_diag.
  replace (-52 - k + ae)%Z with (ae - k - 52)%Z by lia.
  destruct (Z.leb_spec (ae - k) 1023).
  { apply binary_round_aux_exact; [done|lia]. }
  unfold binary_round_aux.
  assert (shr_fexp prec64 emax64 (Zpos (2 ^ 52)) (ae - k - 52) loc_Exact =
    (Build_shr_record (Zpos (2 ^ 52)) false false, (ae - k - 52)%Z)) as Hsh.
  { unfold shr_fexp. change (Zdigits2 (Zpos (2 ^ 52))) with 53%Z.
    replace (fexp prec64 emax64 (53 + (ae - k - 52)) - (ae - k - 52))%Z with 0%Z; [done|].
    unfold fexp, emin. lia. }
  rewrite Hsh. cbn [shr_m loc_of_shr_record round_nearest_even]. rewrite Hsh. cbn [shr_m].
  by rewrite (proj2 (Z.leb_gt _ _)) by lia.
Qed.

Lemma f64_trunc_of_int n : (0 < n < 2 ^ 53)%Z -> f64_trunc (f64_of_int n) = n.
Proof.
  intros Hn. destruct n as [|p|p]; [lia| |lia].
  destruct (f64_of_int_exact p) as (m & e & -> & He & _ & Hm); [lia|].
  unfold f64_trunc, cond_Zopp.
  rewrite <- (Z.opp_involutive e), Z.shiftl_opp_r, Z.shiftr_div_pow2, Hm by lia.
  apply Z.div_mul. apply Z.pow_nonzero; lia.
Qed.

(** [math.Pow(2, n)] is exact up to 2^1023, then infinite. *)
Lemma Pow_two n :
  (1 <= n < 2 ^ 53)%Z -> Pow (f64_of_int 2) (f64_of_int n) =
    if (n <=? 1023)%Z then S754_finite false (2 ^ 52) (n - 52) else S754_infinity false.
Proof.
  intros Hn. unfold Pow. rewrite f64_trunc_of_int by lia.
  change (SFeqb (f64_of_int 2) f64_one) with false. cbv iota.
  destruct (Z.eqb_spec n 1) as [->|Hn1]; [reflexivity|].
  change (f64_of_int 2) with (S754_finite false (2 ^ 52) (-51)). cbv iota.
  rewrite (proj2 (Z.leb_gt _ _)) by lia.
  change (SFfrexp prec64 emax64 (S754_finite false (2 ^ 52) (-51))) with (f64_half, 2 ^ 0 + 1)%Z.
  cbv iota. change f64_one with (f64_half_pow 0).
  destruct (pow_loop_half 64 n 0 0 0) as (k' & ae' & -> & H); [simpl Z.of_nat; lia|lia|lia|].
  rewrite f64_half_pow_ldexp by lia.
  destruct (Z.leb_spec (ae' - k') 1023), (Z.leb_spec n 1023); try lia; [|done].
  f_equal. lia.
Qed.
