(* ===== verification/Retry.v ===== *)
(** * Retry policies and the retrying handler (pkg/consumer/consumer.go)

    [RetryPolicy] with its backoff delays, and [WithRetry].  The loop of
    [WithRetry] may run [MaxRetries + 1] times, so it takes a fuel; [None] is
    the result of a run cut off by it. *)

From Stdlib Require Import ZArith Lia Floats.SpecFloat.
From stdpp Require Import base gmap strings list list_numbers.
From S2P Require Import Prelude Store Errors Broker Float64.

(** Durations are nanoseconds in an int64. *)
Definition Millisecond : Z := 1000000.
Definition Second : Z := 1000000000.

Record RetryPolicy := mkRetryPolicy {
  MaxRetries : Z;
  BackoffBase : Z;
  BackoffMax : Z;
  BackoffMultiplier : float64 }.

Definition DefaultRetryPolicy : RetryPolicy :=
  {| MaxRetries := 3; BackoffBase := 100 * Millisecond; BackoffMax := 30 * Second;
     BackoffMultiplier := f64_of_int 2 |}.

Definition Delay {Pf : Platform} (rp : RetryPolicy) (attempt : Z) : Z :=
  if (attempt <=? 0)%Z then BackoffBase rp else
  let delay := f64_mul (f64_of_int (BackoffBase rp))
                 (Pow (BackoffMultiplier rp) (f64_of_int attempt)) in
  if f64_gtb delay (f64_of_int (BackoffMax rp)) then BackoffMax rp
  else f64_to_int64 delay.

Definition ShouldRetry (rp : RetryPolicy) (attempt : Z) : bool :=
  (attempt <? MaxRetries rp)%Z.

(** ** Waiting

    [wait ctx d] is [select] on [ctx.Done()] and [time.After(d)]: the other
    goroutines run meanwhile; the result is the context's error when that
    case was chosen. *)
Class Waiting (W : Type) := {
  ctx_done : W -> Ctx -> option ctx_error;
  now : W -> Z;
  wait : Ctx -> Z -> GoM W (option ctx_error) }.

(** What [select], [context] and [time] document. *)
Class WaitingSpec (W : Type) `{Waiting W} : Prop := {
  wait_law : forall ctx d w, wp (wait ctx d) (fun r w' =>
    match r with
    | Some e => ctx_done w' ctx = Some e
    | None => (now w + d <= now w')%Z
    end) w }.

Section WithRetry.
Context {W : Type} {Wt : Waiting W} {Pf : Platform}.

(** A call of a handler value; nil panics. *)
Definition call_handler (h : option (HandlerSem W)) : HandlerSem W := fun ctx msg =>
  match h with
  | Some f => f ctx msg
  | None => throw NilFuncCall
  end.

Fixpoint retry_loop (fuel : nat) (h : option (HandlerSem W)) (policy : RetryPolicy)
    (ctx : Ctx) (msg : option loc) (attempt : Z) (lastErr : option error) :
    GoM W (option (option error)) :=
  match fuel with
  | 0 => ret None
  | S fuel =>
    if negb (attempt <=? MaxRetries policy)%Z then ret (Some lastErr) else
    let! cancelled :=
      (if (0 <? attempt)%Z then wait ctx (Delay policy (wrap64 (attempt - 1))) else ret None) in
    match cancelled with
    | Some e => ret (Some (Some (ErrCtx e)))
    | None =>
      let! err := call_handler h ctx msg in
      match err with
      | None => ret (Some None)
      | Some _ =>
        if negb (IsRetryableError err) && negb (ShouldRetry policy (wrap64 (attempt + 1)))
        then ret (Some err)
        else retry_loop fuel h policy ctx msg (wrap64 (attempt + 1)) err
      end
    end
  end.

Definition WithRetry (fuel : nat) (h : option (HandlerSem W)) (policy : option RetryPolicy)
    (ctx : Ctx) (msg : option loc) : GoM W (option (option error)) :=
  retry_loop fuel h (default DefaultRetryPolicy policy) ctx msg 0 None.

(** ** What a run did: the calls of the handler and the waits, in order *)

Inductive event :=
| EvCall (r : option error)
| EvWait (d : Z) (r : option ctx_error).

(** [performs h ctx msg w tr w']: doing the events [tr] leads from [w] to [w']. *)
Inductive performs (h : HandlerSem W) (ctx : Ctx) (msg : option loc) :
    W -> list event -> W -> Prop :=
| performs_nil w : performs h ctx msg w [] w
| performs_call w r w1 tr w2 :
    h ctx msg w = (Ok r, w1) -> performs h ctx msg w1 tr w2 ->
    performs h ctx msg w (EvCall r :: tr) w2
| performs_wait w d r w1 tr w2 :
    wait ctx d w = (Ok r, w1) -> performs h ctx msg w1 tr w2 ->
    performs h ctx msg w (EvWait d r :: tr) w2.

Definition calls (tr : list event) : list (option error) :=
  omap (fun e => match e with EvCall r => Some r | _ => None end) tr.

Definition is_call (e : event) : bool := match e with EvCall _ => true | _ => false end.

(** The [i]-th event of a run, counting from [k]: calls and waits alternate,
    and the wait before the call of attempt [n] lasts [Delay (n - 1)]. *)
Definition scheduled (policy : RetryPolicy) (k : nat) (tr : list event) : Prop :=
  forall i e, tr !! i = Some e ->
    match e with
    | EvCall _ => Nat.even (k + i) = true
    | EvWait d _ => Nat.even (k + i) = false /\ d = Delay policy (Z.of_nat ((k + i) / 2))
    end.

(** The event makes the loop go on. *)
Definition goes_on (e : event) : Prop :=
  match e with EvCall r => r <> None | EvWait _ r => r = None end.

(** What a run that starts at attempt [a], after [k] events and the error
    [lastErr], did, and what it returned. *)
Record retry_outcome (policy : RetryPolicy) (a k : nat) (lastErr : option error)
    (tr : list event) (r : option error) : Prop := {
  ro_bound : (Z.of_nat (a + length (calls tr)) <= Z.max (Z.of_nat a) (MaxRetries policy + 1))%Z;
  ro_scheduled : scheduled policy k tr;
  ro_goes_on : forall i e, S i < length tr -> tr !! i = Some e -> goes_on e;
  ro_result :
    match last tr with
    | None => (MaxRetries policy < Z.of_nat a)%Z /\ r = lastErr
    | Some (EvCall None) => r = None
    | Some (EvCall (Some e)) => r = Some e /\
        (Z.of_nat (a + length (calls tr)) = MaxRetries policy + 1 \/
         Z.of_nat (a + length (calls tr)) = MaxRetries policy /\
           IsRetryableError (Some e) = false)%Z
    | Some (EvWait _ (Some c)) => r = Some (ErrCtx c)
    | Some (EvWait _ None) => False
    end }.

Lemma scheduled_cons policy k e tr :
  match e with
  | EvCall _ => Nat.even k = true
  | EvWait d _ => Nat.even k = false /\ d = Delay policy (Z.of_nat (k / 2))
  end -> scheduled policy (S k) tr -> scheduled policy k (e :: tr).
Proof.
  intros He Htr [|i] x; simpl.
  - intros [= <-]. by rewrite Nat.add_0_r.
  - rewrite <- Nat.add_succ_comm. apply Htr.
Qed.

Lemma goes_on_cons e tr :
  (tr <> [] -> goes_on e) ->
  (forall i e, S i < length tr -> tr !! i = Some e -> goes_on e) ->
  forall i x, S i < length (e :: tr) -> (e :: tr) !! i = Some x -> goes_on x.
Proof.
  intros He Htr [|i] x; simpl; intros Hlt.
  - intros [= <-]. apply He. intros ->. simpl in Hlt. lia.
  - apply Htr. lia.
Qed.

Lemma outcome_end policy a k lastErr :
  (MaxRetries policy < Z.of_nat a)%Z -> retry_outcome policy a k lastErr [] lastErr.
Proof. intros Ha. split; simpl; [lia|by intros i e|intros; lia|done]. Qed.

Lemma outcome_cancelled policy a k lastErr d c :
  (Z.of_nat a <= MaxRetries policy)%Z ->
  Nat.even k = false -> d = Delay policy (Z.of_nat (k / 2)) ->
  retry_outcome policy a k lastErr [EvWait d (Some c)] (Some (ErrCtx c)).
Proof.
  intros Ha Hk ->. split; simpl; [lia| |intros; lia|done].
  by apply scheduled_cons.
Qed.

Lemma outcome_last policy a k lastErr err :
  (Z.of_nat a <= MaxRetries policy)%Z -> Nat.even k = true ->
  (forall e, err = Some e -> Z.of_nat (S a) = MaxRetries policy /\ IsRetryableError err = false \/
             Z.of_nat (S a) = MaxRetries policy + 1)%Z ->
  retry_outcome policy a k lastErr [EvCall err] err.
Proof.
  intros Ha Hk He. split; simpl; [lia|by apply scheduled_cons|intros; lia|].
  destruct err as [e|]; [|done]. split; [done|].
  destruct (He e eq_refl) as [[H1 H2]|H1]; [right|left]; [split; [lia|done]|lia].
Qed.

Lemma outcome_call policy a k lastErr err tr r :
  (Z.of_nat a <= MaxRetries policy)%Z -> Nat.even k = true -> err <> None ->
  retry_outcome policy (S a) (S k) err tr r ->
  retry_outcome policy a k lastErr (EvCall err :: tr) r.
Proof.
  intros Ha Hk He [Hb Hs Hg Hr]. split; simpl.
  - change (omap _ tr) with (calls tr). lia.
  - by apply scheduled_cons.
  - by apply goes_on_cons.
  - change (omap _ tr) with (calls tr). rewrite last_cons.
    replace (a + S (length (calls tr))) with (S a + length (calls tr)) by lia.
    destruct (last tr) as [x|] eqn:Hl; [done|]. apply last_None in Hl as ->.
    destruct Hr as [Hm ->]. destruct err as [e|]; [|done]. split; [done|left; simpl; lia].
Qed.

Lemma outcome_wait policy a k lastErr d tr r :
  Nat.even k = false -> d = Delay policy (Z.of_nat (k / 2)) -> tr <> [] ->
  retry_outcome policy a (S k) lastErr tr r ->
  retry_outcome policy a k lastErr (EvWait d None :: tr) r.
Proof.
  intros Hk -> Htr [Hb Hs Hg Hr]. split; simpl.
  - done.
  - by apply scheduled_cons.
  - by apply goes_on_cons.
  - rewrite last_cons. destruct (last tr) as [x|] eqn:Hl; [done|].
    by apply last_None in Hl.
Qed.

(** One turn of the loop is a wait (except at attempt 0) and a call. *)
Definition attempt_body (fuel : nat) h policy ctx msg attempt :
    GoM W (option (option error)) :=
  let! err := call_handler h ctx msg in
  match err with
  | None => ret (Some None)
  | Some _ =>
    if negb (IsRetryableError err) && negb (ShouldRetry policy (wrap64 (attempt + 1)))
    then ret (Some err)
    else retry_loop fuel h policy ctx msg (wrap64 (attempt + 1)) err
  end.

Lemma retry_loop_S fuel h policy ctx msg attempt lastErr :
  retry_loop (S fuel) h policy ctx msg attempt lastErr =
    if negb (attempt <=? MaxRetries policy)%Z then ret (Some lastErr) else
    let! cancelled :=
      (if (0 <? attempt)%Z then wait ctx (Delay policy (wrap64 (attempt - 1))) else ret None) in
    match cancelled with
    | Some e => ret (Some (Some (ErrCtx e)))
    | None => attempt_body fuel h policy ctx msg attempt
    end.
Proof. reflexivity. Qed.

Context {Ws : WaitingSpec W}.
Context (h : HandlerSem W) (policy : RetryPolicy) (ctx : Ctx) (msg : option loc).
Context (Hh : forall w, wp (h ctx msg) (fun _ _ => True) w).
Context (Hmax : (MaxRetries policy < int64_max)%Z).

Definition runs_to (m : GoM W (option (option error))) (a k : nat) (lastErr : option error)
    (P : list event -> Prop) (w : W) : Prop :=
  exists tr r w', m w = (Ok (Some r), w') /\ performs h ctx msg w tr w' /\
    retry_outcome policy a k lastErr tr r /\ P tr.

Lemma attempt_body_spec fuel a lastErr w :
  (Z.of_nat a <= MaxRetries policy)%Z ->
  (forall err w1, err <> None -> runs_to (retry_loop fuel (Some h) policy ctx msg
     (Z.of_nat (S a)) err) (S a) (S (2 * a)) err (fun _ => True) w1) ->
  runs_to (attempt_body fuel (Some h) policy ctx msg (Z.of_nat a)) a (2 * a) lastErr
    (fun tr => tr <> []) w.
Proof.
  intros Ha IH. unfold runs_to, attempt_body, call_handler.
  assert (wrap64 (Z.of_nat a + 1) = Z.of_nat (S a)) as ->.
  { rewrite wrap64_id; [lia|]. unfold in_int64, int64_min, int64_max in *. lia. }
  assert (Nat.even (2 * a) = true) as Hev by (rewrite Nat.even_spec; by exists a).
  destruct (wp_run _ _ _ (Hh w)) as (err & w1 & Hrun & _). rewrite (bind_ok _ _ _ _ _ Hrun).
  assert (performs h ctx msg w [EvCall err] w1) as Hp by (econstructor; [done|constructor]).
  destruct err as [e|]; [|exists [EvCall None], None, w1; split_and!; [done..| |done];
    by apply outcome_last].
  destruct (negb _ && negb _) eqn:Hstop.
  - exists [EvCall (Some e)], (Some e), w1. split_and!; [done..| |done].
    apply outcome_last; [done..|]. intros e' _. apply andb_true_iff in Hstop as [Hre Hsh].
    apply negb_true_iff in Hre, Hsh. unfold ShouldRetry in Hsh. apply Z.ltb_ge in Hsh.
    rewrite Hre. lia.
  - destruct (IH (Some e) w1) as (tr & r & w' & -> & Hp' & Ho & _); [done|].
    exists (EvCall (Some e) :: tr), r, w'. split_and!; [done|by econstructor| |done].
    by apply outcome_call.
Qed.

Lemma retry_loop_spec fuel a lastErr w :
  a = 0 \/ (Z.of_nat a <= MaxRetries policy + 1)%Z ->
  (MaxRetries policy + 1 < Z.of_nat a + Z.of_nat fuel)%Z -> 0 < fuel ->
  runs_to (retry_loop fuel (Some h) policy ctx msg (Z.of_nat a) lastErr) a (2 * a - 1) lastErr
    (fun _ => True) w.
Proof.
  revert a lastErr w. induction fuel as [|fuel IH]; intros a lastErr w Ha Hfuel Hpos; [lia|].
  rewrite retry_loop_S. destruct (Z.leb_spec (Z.of_nat a) (MaxRetries policy)) as [Hle|Hgt];
    cbn [negb]; cbv iota.
  2:{ exists [], lastErr, w. split_and!; [done|constructor| |done]. by apply outcome_end. }
  assert (forall w1 lastErr, runs_to (attempt_body fuel (Some h) policy ctx msg (Z.of_nat a)) a
    (2 * a) lastErr (fun tr => tr <> []) w1) as Hbody.
  { intros w1 le. apply attempt_body_spec; [done|]. intros err w2 _.
    replace (S (2 * a)) with (2 * S a - 1) by lia. apply IH; lia. }
  destruct a as [|a'].
  { destruct (Hbody w lastErr) as (tr & r & w' & Hrun & Hp & Ho & _).
    exists tr, r, w'. split_and!; [|done..]. exact Hrun. }
  rewrite (proj2 (Z.ltb_lt 0 _)) by lia.
  replace (wrap64 (Z.of_nat (S a') - 1)) with (Z.of_nat a')
    by (rewrite wrap64_id; [lia|unfold in_int64, int64_min, int64_max in *; lia]).
  replace (2 * S a' - 1) with (S (2 * a')) by lia.
  assert (Nat.even (S (2 * a')) = false) as Hodd by (by rewrite Nat.even_succ, Nat.odd_mul).
  assert (Delay policy (Z.of_nat a') = Delay policy (Z.of_nat (S (2 * a') / 2))) as Hd.
  { do 2 f_equal. apply (Nat.div_unique _ 2 a' 1); lia. }
  destruct (wp_run _ _ _ (wait_law ctx (Delay policy (Z.of_nat a')) w)) as (c & w1 & Hw & _).
  unfold runs_to. rewrite (bind_ok _ _ _ _ _ Hw). destruct c as [c|].
  - eexists [EvWait _ (Some c)], _, w1. split_and!; [done| | |done].
    + econstructor; [done|constructor].
    + by apply outcome_cancelled.
  - destruct (Hbody w1 lastErr) as (tr & r & w' & -> & Hp & Ho & Hne).
    eexists (EvWait _ None :: tr), r, w'. split_and!; [done|by econstructor| |done].
    apply outcome_wait; [done..|]. by replace (S (S (2 * a'))) with (2 * S a') by lia.
Qed.
End WithRetry.

(** ** A demonstration handler

    It fails with a retryable error twice, then succeeds; waiting advances a
    clock and is never cancelled. *)

Record demo_state := mkDemoState { ds_calls : nat; ds_clock : Z }.

#[export] Instance demo_waiting : Waiting demo_state := {|
  ctx_done := fun _ _ => None;
  now := ds_clock;
  wait := fun _ d w => (Ok None, mkDemoState (ds_calls w) (ds_clock w + Z.max 0 d)) |}.

#[export] Instance demo_waiting_spec : WaitingSpec demo_state.
Proof. constructor. intros ctx d w. unfold wp. simpl. lia. Qed.

Definition demo_timeout : error :=
  ErrBroker 0 (NewBrokerError ErrCodePublishTimeout "timeout" None).

Definition demo_flaky (n : nat) : HandlerSem demo_state := fun _ _ w =>
  (Ok (if bool_decide (ds_calls w < n) then Some demo_timeout else None),
   mkDemoState (S (ds_calls w)) (ds_clock w)).

Lemma demo_flaky_total n ctx msg w : wp (demo_flaky n ctx msg) (fun _ _ => True) w.
Proof. done. Qed.

(** ** Properties *)



(** C40: with [MaxRetries] the largest int, the attempt counter wraps around
    below every limit: a handler that always fails with a retryable error is
    called for ever, unless a wait is cancelled. *)
Theorem WithRetry_max_int_never_ends {W} {Wt : Waiting W} {Pf : Platform} (h : HandlerSem W)
    policy ctx msg :
  MaxRetries policy = int64_max ->
  (forall d w, wp (wait ctx d) (fun r _ => r = None) w) ->
  (forall w, wp (h ctx msg) (fun r _ => IsRetryableError r = true) w) ->
  forall fuel w, exists w', WithRetry fuel (Some h) (Some policy) ctx msg w = (Ok None, w').
Proof.
  intros Hmax Hwait Hh fuel. unfold WithRetry. simpl default.
  cut (forall a le w, in_int64 a -> exists w',
    retry_loop fuel (Some h) policy ctx msg a le w = (Ok None, w')).
  { intros Hcut w. apply Hcut. unfold in_int64, int64_min, int64_max. lia. }
  induction fuel as [|fuel IH]; intros a le w Ha; [by eexists|].
  rewrite retry_loop_S, Hmax. rewrite (proj2 (Z.leb_le _ _)) by apply Ha. cbn [negb]. cbv iota.
  assert (exists w1, (if (0 <? a)%Z then wait ctx (Delay policy (wrap64 (a - 1))) else ret None) w
    = (Ok None, w1)) as [w1 Hw].
  { destruct (0 <? a)%Z; [|by eexists].
    destruct (wp_run _ _ _ (Hwait (Delay policy (wrap64 (a - 1))) w)) as (r & w1 & Hr & ->).
    by exists w1. }
  rewrite (bind_ok _ _ _ _ _ Hw). unfold attempt_body, call_handler.
  destruct (wp_run _ _ _ (Hh w1)) as (err & w2 & Hrun & Hre).
  rewrite (bind_ok _ _ _ _ _ Hrun). destruct err as [e|]; [|done]. rewrite Hre. simpl.
  apply IH, wrap64_range.
Qed.

Lemma WithRetry_max_int_never_ends_witness :
  exists w', WithRetry (Pf := amd64) 1000
    (Some (fun _ _ w => (Ok (Some demo_timeout), w)))
    (Some (mkRetryPolicy int64_max 1 1 f64_one)) Background None (mkDemoState 0 0)
    = (Ok None, w').
Proof.
  apply (WithRetry_max_int_never_ends (Pf := amd64)
    (fun _ _ w => (Ok (Some demo_timeout), w) : outcome _ * demo_state)
    (mkRetryPolicy int64_max 1 1 f64_one) Background None);
    [reflexivity|reflexivity|reflexivity].
Defined.

(** The float64 values that convert to int64 as the platform likes, although no
    limit from above is exceeded: NaN and what is below the range. *)
Definition nan_or_below (y : float64) : Prop :=
  match y with
  | S754_nan | S754_infinity true => True
  | S754_finite true _ _ => (f64_trunc y < int64_min)%Z
  | _ => False
  end.

(** The delay before it is limited and converted. *)
Definition raw_delay (rp : RetryPolicy) (attempt : Z) : float64 :=
  f64_mul (f64_of_int (BackoffBase rp)) (Pow (BackoffMultiplier rp) (f64_of_int attempt)).

(** A value that is not above [BackoffMax] converts to at most [BackoffMax], or
    it has no int64 value. *)
Lemma limited_delay {Pf : Platform} x y z :
  (0 <= z < 2 ^ 53)%Z -> f64_gtb (f64_mul x y) (f64_of_int z) = false ->
  (f64_to_int64 (f64_mul x y) <= z)%Z \/
  nan_or_below (f64_mul x y) /\ f64_to_int64 (f64_mul x y) = int64_out_of_range (f64_mul x y).
Proof.
  intros Hz Hgt. pose proof (f64_trunc_le_of_int _ _ _ Hz Hgt) as Hle.
  unfold f64_to_int64. destruct (f64_mul x y) as [s|s| |s m e] eqn:Hm; cbn [f64_finite andb] in *.
  - left. simpl. lia.
  - destruct s; [by right|]. exfalso. revert Hgt.
    unfold f64_gtb, SFltb, SFcompare, f64_of_int, binary_normalize.
    destruct z as [|p|p]; [done| |lia].
    destruct (f64_of_int_exact p) as (mz & ez & Hof & _); [lia|].
    unfold f64_of_int, binary_normalize in Hof. by rewrite Hof.
  - by right.
  - specialize (Hle eq_refl).
    rewrite (proj2 (Z.leb_le _ int64_max)) by (unfold int64_max; lia). rewrite andb_true_r.
    destruct (Z.leb_spec int64_min (f64_trunc (S754_finite s m e))) as [Hmin|Hmin]; [by left|].
    right. split; [|done]. destruct s; [exact Hmin|]. exfalso.
    unfold f64_trunc, cond_Zopp, int64_min in Hmin.
    assert (0 <= Z.shiftl (Zpos m) e)%Z by (apply Z.shiftl_nonneg; lia). lia.
Qed.

(** C25: for a [BackoffMax] that float64 represents (below 2^53 ns, 104 days)
    and a base not above it, a delay never exceeds [BackoffMax], whatever the
    base, the multiplier and the attempt, overflow to infinity included, unless
    the product of base and power is NaN or below the int64 range: then the
    delay is what the platform converts that product to, which Go leaves open.
    On platforms that make such values negative or zero (amd64 and arm64 do)
    the bound has no exception. *)
Theorem Delay_at_most_BackoffMax {Pf : Platform} (rp : RetryPolicy) (attempt : Z) :
  (0 <= BackoffMax rp < 2 ^ 53)%Z -> (BackoffBase rp <= BackoffMax rp)%Z ->
  ((Delay rp attempt <= BackoffMax rp)%Z \/
   nan_or_below (raw_delay rp attempt) /\
   Delay rp attempt = int64_out_of_range (raw_delay rp attempt)) /\
  (PlatformSpec -> (Delay rp attempt <= BackoffMax rp)%Z).
Proof.
  intros Hmax Hbase.
  assert ((Delay rp attempt <= BackoffMax rp)%Z \/ nan_or_below (raw_delay rp attempt) /\
    Delay rp attempt = int64_out_of_range (raw_delay rp attempt)) as Hd.
  { unfold Delay. destruct (attempt <=? 0)%Z; [by left|].
    destruct (f64_gtb _ _) eqn:Hgt; [by left|]. by apply limited_delay. }
  split; [exact Hd|]. intros Hpf. destruct Hd as [?|[Hn ->]]; [done|].
  destruct (raw_delay rp attempt) as [s|[]| |[] m e]; simpl in Hn; try done.
  - pose proof out_of_range_neg_inf. lia.
  - pose proof out_of_range_nan. lia.
  - pose proof (out_of_range_neg m e). lia.
Qed.

Lemma Delay_at_most_BackoffMax_witness :
  (Delay (Pf := amd64) DefaultRetryPolicy 1000000 <= 30 * Second)%Z.
Proof.
  apply (Delay_at_most_BackoffMax (Pf := amd64) DefaultRetryPolicy 1000000);
    [vm_compute; split; congruence|vm_compute; congruence|exact amd64_spec].
Defined.

(** The default policy doubles 100ms at each attempt up to attempt 8, and
    waits 30s from attempt 9 on. *)
Theorem DefaultRetryPolicy_delays {Pf : Platform} (attempt : Z) :
  (0 <= attempt < 2 ^ 53)%Z ->
  Delay DefaultRetryPolicy attempt =
    if (attempt <=? 8)%Z then (100 * Millisecond * 2 ^ attempt)%Z else (30 * Second)%Z.
Proof.
  intros Ha. unfold Delay. destruct (Z.leb_spec attempt 0).
  { by replace attempt with 0%Z by lia. }
  unfold DefaultRetryPolicy, BackoffMultiplier. rewrite Pow_two by lia.
  destruct (Z.leb_spec attempt 8).
  { assert (Forall (fun n => Delay DefaultRetryPolicy n = 100 * Millisecond * 2 ^ n)%Z (seqZ 1 8))
      as Hall by (repeat constructor).
    rewrite Forall_forall in Hall. specialize (Hall attempt ltac:(apply elem_of_seqZ; lia)).
    unfold Delay, DefaultRetryPolicy, BackoffMultiplier in Hall.
    rewrite Pow_two, (proj2 (Z.leb_gt _ _)) in Hall by lia. exact Hall. }
  destruct (Z.leb_spec attempt 1023); [|done].
  assert (Forall (fun n => f64_gtb (f64_mul (f64_of_int (100 * Millisecond))
    (S754_finite false (2 ^ 52) (n - 52))) (f64_of_int (30 * Second)) = true)
    (seqZ 9 1015)) as Hall.
  { apply Forall_forall. intros n Hn%list_elem_of_In. revert n Hn. apply forallb_forall.
    vm_compute. reflexivity. }
  rewrite Forall_forall in Hall. simpl BackoffBase. simpl BackoffMax.
  by rewrite Hall by (apply elem_of_seqZ; lia).
Qed.

Lemma DefaultRetryPolicy_delays_witness :
  Delay (Pf := amd64) DefaultRetryPolicy 4096 = 30000000000%Z.
Proof. apply (DefaultRetryPolicy_delays (Pf := amd64) 4096). split; lia. Defined.
