(* ===== verification/InMemory.v ===== *)
(** * The in-memory broker (pkg/broker/inmemory.go)

    Every method holds the broker's mutex from its first to its last access
    of the state, so each is one atomic step.  A delivery is a goroutine:
    [Publish] adds it to the world's run queue and returns. *)

From Stdlib Require Import ZArith Lia.
From stdpp Require Import base gmap strings list fin_maps.
From S2P Require Import Prelude Store Errors Message Broker.

Record subscriberInfo := mkSubscriberInfo {
  si_id : string;
  si_handler : option handler;
  si_active : bool }.

(** An [inMemorySub]: the subscription handed to the caller. *)
Record inMemorySub := mkInMemorySub {
  ims_id : string;
  ims_topic : string;
  ims_active : bool }.

Record InMemoryBroker := mkInMemoryBroker {
  queues : gmap string (list loc);
  subscribers : gmap string (list subscriberInfo);
  connected : bool;
  stopCh_closed : bool;
  metrics : BrokerMetrics;
  inmem_subs : gmap loc inMemorySub }.   (* the inMemorySub objects *)

(** [m[k]] of a map of slices: nil when absent *)
Definition slice_at {A} (m : gmap string (list A)) (k : string) : list A :=
  default [] (m !! k).

Section Updates.
Context (b : InMemoryBroker).
Definition set_queues q : InMemoryBroker :=
  mkInMemoryBroker q (subscribers b) (connected b) (stopCh_closed b) (metrics b) (inmem_subs b).
Definition set_subscribers s : InMemoryBroker :=
  mkInMemoryBroker (queues b) s (connected b) (stopCh_closed b) (metrics b) (inmem_subs b).
Definition set_connected c : InMemoryBroker :=
  mkInMemoryBroker (queues b) (subscribers b) c (stopCh_closed b) (metrics b) (inmem_subs b).
Definition set_stopCh c : InMemoryBroker :=
  mkInMemoryBroker (queues b) (subscribers b) (connected b) c (metrics b) (inmem_subs b).
Definition set_subs s : InMemoryBroker :=
  mkInMemoryBroker (queues b) (subscribers b) (connected b) (stopCh_closed b) (metrics b) s.
End Updates.

Module Ops.
Section Ops.
Context `{Env}.

Definition NewInMemoryBroker : GoM mem InMemoryBroker :=
  let! mt := NewBrokerMetrics in
  ret {| queues := ∅; subscribers := ∅; connected := false; stopCh_closed := false;
         metrics := mt; inmem_subs := ∅ |}.

Definition Connect (_ : Ctx) : GoM (World InMemoryBroker) (option error) :=
  let! b := get_br in
  put_br (set_connected b true) ;;;
  ret None.

(** [close(b.stopCh)] panics on a channel that is closed already. *)
Definition Close (_ : Ctx) : GoM (World InMemoryBroker) (option error) :=
  let! b := get_br in
  if negb (connected b) then ret None else
  (if stopCh_closed b then throw CloseOfClosedChannel else put_br (set_stopCh b true)) ;;;
  let! b := get_br in
  put_br (set_connected b false) ;;;
  let! b := get_br in
  put_br (set_queues b ∅) ;;;
  let! b := get_br in
  put_br (set_subscribers b ∅) ;;;
  ret None.

Definition HealthCheck (_ : Ctx) : GoM (World InMemoryBroker) (option error) :=
  let! b := get_br in
  if negb (connected b) then ret (Some (ErrSentinel ErrNotConnected)) else ret None.

Definition IsConnected : GoM (World InMemoryBroker) bool :=
  let! b := get_br in ret (connected b).

(** The loop body of [Publish]: [go func(h, m) { _ = h(ctx, m) }(handler, clone.Clone())]. *)
Definition deliver (ctx : Ctx) (clone : loc) (sub : subscriberInfo) :
    GoM (World InMemoryBroker) unit :=
  if si_active sub then
    let! m := on_mem (Clone (Some clone)) in
    go (mkTask (si_handler sub) ctx m)
  else ret tt.

Definition Publish (ctx : Ctx) (topic : string) (msg : option loc)
    (opts : list PublishOption) : GoM (World InMemoryBroker) (option error) :=
  let! b := get_br in
  if negb (connected b) then ret (Some (ErrSentinel ErrNotConnected)) else
  let! clone := on_mem (Clone msg) in
  on_mem (update_msg (Some clone) (with_Topic topic)) ;;;
  let! now := on_mem time_Now_UTC in
  on_mem (update_msg (Some clone) (with_Timestamp now)) ;;;
  let! b := get_br in
  put_br (set_queues b (<[topic := slice_at (queues b) topic ++ [clone]]> (queues b))) ;;;
  let! b := get_br in
  for_range (slice_at (subscribers b) topic) (deliver ctx clone) ;;;
  ret None.

Fixpoint PublishBatch (ctx : Ctx) (topic : string) (messages : list (option loc))
    (opts : list PublishOption) : GoM (World InMemoryBroker) (option error) :=
  match messages with
  | [] => ret None
  | msg :: messages' =>
    let! err := Publish ctx topic msg opts in
    match err with
    | Some e => ret (Some e)
    | None => PublishBatch ctx topic messages' opts
    end
  end.

Definition Subscribe (_ : Ctx) (topic : string) (h : option handler)
    (opts : list SubscribeOption) :
    GoM (World InMemoryBroker) (option subref * option error) :=
  let! b := get_br in
  if negb (connected b) then ret (None, Some (ErrSentinel ErrNotConnected)) else
  let! subID := on_mem uuid_New_String in
  let! b := get_br in
  put_br (set_subscribers b (<[topic := slice_at (subscribers b) topic ++
    [mkSubscriberInfo subID h true]]> (subscribers b))) ;;;
  let! l := on_mem alloc_loc in
  let! b := get_br in
  put_br (set_subs b (<[l := mkInMemorySub subID topic true]> (inmem_subs b))) ;;;
  ret (Some l, None).

Definition deactivate (s : subscriberInfo) : subscriberInfo :=
  mkSubscriberInfo (si_id s) (si_handler s) false.

(** The entries of the topic are marked inactive, then the topic is deleted. *)
Definition Unsubscribe (topic : string) : GoM (World InMemoryBroker) (option error) :=
  let! b := get_br in
  put_br (set_subscribers b (alter (fmap deactivate) topic (subscribers b))) ;;;
  let! b := get_br in
  put_br (set_subscribers b (delete topic (subscribers b))) ;;;
  ret None.

Definition Type_ : GoM (World InMemoryBroker) BrokerType := ret BrokerTypeInMemory.

Definition GetMetrics : GoM (World InMemoryBroker) BrokerMetrics :=
  let! b := get_br in ret (metrics b).

(** [for i, sub := range subs { if sub.id == s.id { subs[i].active = false; break } }] *)
Fixpoint deactivate_id (id : string) (subs : list subscriberInfo) : list subscriberInfo :=
  match subs with
  | [] => []
  | sub :: subs' =>
    if bool_decide (si_id sub = id) then deactivate sub :: subs'
    else sub :: deactivate_id id subs'
  end.

Definition load_sub (s : subref) : GoM (World InMemoryBroker) inMemorySub := fun w =>
  match inmem_subs (w_br w) !! s with
  | Some x => (Ok x, w)
  | None => (Panic DanglingReference, w)
  end.

Definition sub_Unsubscribe (s : subref) : GoM (World InMemoryBroker) (option error) :=
  let! x := load_sub s in
  if negb (ims_active x) then ret None else
  let! b := get_br in
  put_br (set_subs b (<[s := mkInMemorySub (ims_id x) (ims_topic x) false]> (inmem_subs b))) ;;;
  let! b := get_br in
  put_br (set_subscribers b (alter (deactivate_id (ims_id x)) (ims_topic x) (subscribers b))) ;;;
  ret None.

Definition sub_IsActive (s : subref) : GoM (World InMemoryBroker) bool :=
  let! x := load_sub s in ret (ims_active x).

Definition sub_Topic (s : subref) : GoM (World InMemoryBroker) string :=
  let! x := load_sub s in ret (ims_topic x).

Definition sub_ID (s : subref) : GoM (World InMemoryBroker) string :=
  let! x := load_sub s in ret (ims_id x).
End Ops.
End Ops.

#[export] Instance InMemory_MessageBroker `{Env} : MessageBroker InMemoryBroker := {|
  Broker.Connect := Ops.Connect;
  Broker.Close := Ops.Close;
  Broker.HealthCheck := Ops.HealthCheck;
  Broker.IsConnected := Ops.IsConnected;
  Broker.Publish := Ops.Publish;
  Broker.PublishBatch := Ops.PublishBatch;
  Broker.Subscribe := Ops.Subscribe;
  Broker.Unsubscribe := Ops.Unsubscribe;
  Broker.Type_ := Ops.Type_;
  Broker.GetMetrics := Ops.GetMetrics;
  Broker.sub_Unsubscribe := Ops.sub_Unsubscribe;
  Broker.sub_IsActive := Ops.sub_IsActive;
  Broker.sub_Topic := Ops.sub_Topic;
  Broker.sub_ID := Ops.sub_ID |}.

(** ** Lemmas *)

(** Messages of a list reach disjoint parts of the store. *)
Definition separate (m : mem) (ls : list loc) : Prop :=
  forall i j a b x, ls !! i = Some a -> ls !! j = Some b ->
    x ∈ footprint m a -> x ∈ footprint m b -> i = j.

Definition live_msgs (m : mem) (ls : list loc) : Prop :=
  forall l, l ∈ ls -> is_Some (msgs_of m !! l).

Lemma live_msgs_extends m m' ls :
  mem_wf m -> mem_extends m m' -> live_msgs m ls -> live_msgs m' ls.
Proof.
  intros Hwf Hext Hls l Hl. destruct (Hls l Hl) as [x Hx]. exists x. by eapply msgs_extends.
Qed.

Lemma separate_snoc m m' ls c :
  mem_wf m -> mem_extends m m' -> live_msgs m ls -> separate m ls ->
  all_fresh m m' c -> separate m' (ls ++ [c]).
Proof.
  intros Hwf Hext Hlive Hsep Hfr i j a b x Ha Hb Hxa Hxb.
  assert (forall k d, ls !! k = Some d -> x ∈ footprint m' d -> x ∈ footprint m d /\ x < next_loc m)
    as Hold.
  { intros k d Hd Hx. assert (is_Some (msgs_of m !! d)) as Hsome.
    { apply Hlive. apply list_elem_of_lookup. eauto. }
    rewrite (footprint_extends m m') in Hx by done. split; [done|]. by eapply footprint_lt. }
  rewrite lookup_app in Ha, Hb.
  destruct (ls !! i) as [a'|] eqn:Hi, (ls !! j) as [b'|] eqn:Hj; simplify_eq.
  - destruct (Hold _ _ Hi Hxa), (Hold _ _ Hj Hxb). eauto.
  - apply list_lookup_singleton_Some in Hb as [_ <-].
    destruct (Hold _ _ Hi Hxa). apply Hfr in Hxb. lia.
  - apply list_lookup_singleton_Some in Ha as [_ <-].
    destruct (Hold _ _ Hj Hxb). apply Hfr in Hxa. lia.
  - apply list_lookup_singleton_Some in Ha as [? _], Hb as [? _].
    apply lookup_ge_None in Hi, Hj. lia.
Qed.

(** The content a message gets when it is published. *)
Definition published (topic : string) (now : Time) (c : content) : content :=
  {| c_id := c_id c; c_topic := topic; c_key := Some (default [] (c_key c));
     c_value := Some (default [] (c_value c)); c_headers := c_headers c; c_time := now |}.

Lemma clone_published topic now c : clone_content (published topic now c) = published topic now c.
Proof. done. Qed.

Lemma update_fresh_msg c f m0 m :
  mem_wf m -> mem_extends m0 m -> is_Some (msgs_of m !! c) -> all_fresh m0 m c ->
  (forall x, msg_Key (f x) = msg_Key x /\ msg_Value (f x) = msg_Value x /\
             msg_Headers (f x) = msg_Headers x) ->
  wp (update_msg (Some c) f) (fun _ m' =>
    mem_wf m' /\ mem_extends m0 m' /\ is_Some (msgs_of m' !! c) /\ all_fresh m0 m' c /\
    forall x, msgs_of m !! c = Some x -> content_of m' c =
      (fun ct => {| c_id := msg_ID (f x); c_topic := msg_Topic (f x); c_key := c_key ct;
                    c_value := c_value ct; c_headers := c_headers ct;
                    c_time := msg_Timestamp (f x) |}) <$> content_of m c) m.
Proof.
  intros Hwf Hext [x Hx] Hfr Hf. destruct (Hf x) as (Hk & Hv & Hh).
  destruct (wf_msgs _ Hwf _ _ Hx) as [Hc Hok].
  eapply wp_mono.
  { apply (update_msg_spec c x f m0); [done..| |done|].
    - apply Hfr. unfold footprint. set_solver.
    - unfold message_ok. by rewrite Hk, Hv, Hh. }
  intros _ m' (Hwf' & Hext' & ->). split_and!; [done|done|simpl; by rewrite lookup_insert_eq| |].
  - intros y. specialize (Hfr y). revert Hfr. unfold footprint. simpl.
    by rewrite lookup_insert_eq, Hx, Hk, Hv, Hh.
  - intros y Hy. simplify_eq. unfold content_of. simpl. rewrite lookup_insert_eq, Hx. simpl.
    rewrite Hk, Hv, Hh. unfold slice_content, headers_content, read_slice. simpl.
    destruct (msg_Key x); simpl; [destruct (bytes_of m !! _); simpl; [|done]|];
    (destruct (msg_Value x); simpl; [destruct (bytes_of m !! _); simpl; [|done]|]);
    (destruct (msg_Headers x); simpl; [destruct (maps_of m !! _); simpl; done|done]).
Qed.

Definition active_subs (b : InMemoryBroker) (topic : string) : list subscriberInfo :=
  filter (fun s => si_active s = true) (slice_at (subscribers b) topic).

Definition task_for (ctx : Ctx) (s : subscriberInfo) (m : loc) : task :=
  mkTask (si_handler s) ctx m.

(** [ms] are deliveries of [ct]: fresh since [m0], apart from each other and
    from [clone]. *)
Record delivered (m0 m : mem) (clone : loc) (ct : content) (ms : list loc) : Prop := {
  dl_live : live_msgs m (clone :: ms);
  dl_separate : separate m (clone :: ms);
  dl_fresh : forall l, l ∈ clone :: ms -> all_fresh m0 m l;
  dl_content : forall l, l ∈ clone :: ms -> content_of m l = Some ct }.

Lemma delivered_snoc m0 m m' clone ct ms c :
  mem_wf m -> mem_extends m0 m -> mem_extends m m' ->
  delivered m0 m clone ct ms -> is_Some (msgs_of m' !! c) -> all_fresh m m' c ->
  content_of m' c = Some ct -> delivered m0 m' clone ct (ms ++ [c]).
Proof.
  intros Hwf Hext0 Hext [Hlive Hsep Hfr Hct] Hc Hcf Hcc.
  pose proof (ext_next _ _ Hext0).
  split; rewrite app_comm_cons.
  - intros l Hl. apply elem_of_app in Hl as [Hl| ->%list_elem_of_singleton]; [|done].
    by eapply live_msgs_extends.
  - by eapply separate_snoc.
  - intros l Hl. apply elem_of_app in Hl as [Hl| ->%list_elem_of_singleton].
    + intros x. rewrite (footprint_extends m m') by auto. by apply Hfr.
    + intros x Hx. apply Hcf in Hx. lia.
  - intros l Hl. apply elem_of_app in Hl as [Hl| ->%list_elem_of_singleton]; [|done].
    rewrite (content_of_extends m m') by auto. by apply Hct.
Qed.

Lemma deliver_clock `{Env} ctx clone s :
  leaves (fun w : World InMemoryBroker => clock_ctr (w_mem w)) (Ops.deliver ctx clone s).
Proof.
  unfold Ops.deliver. destruct (si_active s); [|apply leaves_ret].
  apply leaves_bind; [apply on_mem_clock, Clone_clock|by intros m w].
Qed.

Lemma deliver_loop_spec `{Env} ctx clone topic now c0 m0 w subs :
  let ct := published topic now c0 in
  mem_wf (w_mem w) -> mem_extends m0 (w_mem w) -> delivered m0 (w_mem w) clone ct [] ->
  wp (for_range subs (Ops.deliver ctx clone)) (fun _ w' => exists ms,
    w_br w' = w_br w /\ mem_wf (w_mem w') /\ mem_extends m0 (w_mem w') /\
    mem_extends (w_mem w) (w_mem w') /\
    length ms = length (filter (fun s => si_active s = true) subs) /\
    w_go w' = w_go w ++ zip_with (task_for ctx) (filter (fun s => si_active s = true) subs) ms /\
    delivered m0 (w_mem w') clone ct ms) w.
Proof.
  intros ct Hwf Hext Hdel.
  apply (wp_for_range _ (fun pre w' => exists ms,
    w_br w' = w_br w /\ mem_wf (w_mem w') /\ mem_extends m0 (w_mem w') /\
    mem_extends (w_mem w) (w_mem w') /\
    length ms = length (filter (fun s => si_active s = true) pre) /\
    w_go w' = w_go w ++ zip_with (task_for ctx) (filter (fun s => si_active s = true) pre) ms /\
    delivered m0 (w_mem w') clone ct ms)).
  { exists []. rewrite app_nil_r. by split_and!. }
  intros pre s rest w1 _ (ms & Hbr & Hwf1 & Hext1 & Hext01 & Hlen & Hgo & Hdel1).
  unfold Ops.deliver. destruct (si_active s) eqn:Hs.
  - wp_step. apply wp_on_mem. eapply wp_mono.
    { apply Clone_spec; [done|]. apply (dl_live _ _ _ _ _ Hdel1). set_solver. }
    intros c m2 (Hwf2 & Hext2 & Hc & Hfr & Hct). unfold go. apply wp_modify.
    rewrite (dl_content _ _ _ _ _ Hdel1) in Hct by set_solver.
    exists (ms ++ [c]). simpl. rewrite filter_app, filter_cons_True by done.
    rewrite filter_nil. split_and!; [done|done|by etrans|by etrans| | |].
    + rewrite !length_app. simpl. lia.
    + rewrite zip_with_app by done. simpl. by rewrite Hgo, app_assoc.
    + by apply (delivered_snoc m0 (w_mem w1)).
  - apply wp_ret. exists ms. rewrite filter_app, filter_cons_False by (by rewrite Hs).
    rewrite filter_nil, app_nil_r. by split_and!.
Qed.

(** The broker's invariant: the store is well formed, queued messages exist
    and carry the topic they are queued under, goroutines refer to existing
    messages, subscriptions to existing objects, and a broker that is not
    connected holds no message and no subscriber. *)
Record inmem_inv (w : World InMemoryBroker) : Prop := {
  inv_mem : mem_wf (w_mem w);
  inv_queues : forall t q l, queues (w_br w) !! t = Some q -> l ∈ q ->
    exists x, msgs_of (w_mem w) !! l = Some x /\ msg_Topic x = t;
  inv_tasks : forall tk, tk ∈ w_go w -> is_Some (msgs_of (w_mem w) !! task_msg tk);
  inv_subs : forall s, is_Some (inmem_subs (w_br w) !! s) -> s < next_loc (w_mem w);
  inv_idle : connected (w_br w) = false ->
    queues (w_br w) = ∅ /\ subscribers (w_br w) = ∅ }.

Lemma inmem_inv_mem w m :
  inmem_inv w -> mem_wf m -> mem_keeps (w_mem w) m -> inmem_inv (set_mem w m).
Proof.
  intros [Hm Hq Ht Hs Hi] Hwf [Hnext _ _ Hkeep]. split; simpl; [done|..].
  - intros t q l Hq' Hl. destruct (Hq _ _ _ Hq' Hl) as (x & Hx & Htx).
    destruct (Hkeep _ _ Hx) as (x' & Hx' & Htx'). exists x'. split; [done|congruence].
  - intros tk Htk. destruct (Ht _ Htk) as [x Hx]. destruct (Hkeep _ _ Hx) as (x' & Hx' & _). eauto.
  - intros s Hs'. apply Hs in Hs'. lia.
  - done.
Qed.

Lemma elem_of_zip_task ctx subs ms tk :
  tk ∈ zip_with (task_for ctx) subs ms -> task_msg tk ∈ ms.
Proof.
  intros Htk. apply elem_of_lookup_zip_with in Htk as (i & s & l & -> & _ & Hl).
  simpl. apply list_elem_of_lookup. by exists i.
Qed.

(** The clone [Publish] queues: content, topic and time in place. *)
Lemma publish_clone_spec `{Env} topic l c0 (w : World InMemoryBroker) :
  mem_wf (w_mem w) -> content_of (w_mem w) l = Some c0 ->
  forall {A} (K : loc -> GoM (World InMemoryBroker) A) Q,
  (forall clone m' x, mem_wf m' -> mem_extends (w_mem w) m' ->
     clock_ctr m' = S (clock_ctr (w_mem w)) ->
     delivered (w_mem w) m' clone (published topic (now_at w) c0) [] ->
     msgs_of m' !! clone = Some x -> msg_Topic x = topic ->
     wp (K clone) Q (set_mem w m')) ->
  wp (let! clone := on_mem (Clone (Some l)) in
      on_mem (update_msg (Some clone) (with_Topic topic)) ;;;
      let! now := on_mem time_Now_UTC in
      on_mem (update_msg (Some clone) (with_Timestamp now)) ;;;
      K clone) Q w.
Proof.
  intros Hwf Hc0 A K Q HQ.
  destruct (content_fields _ _ _ Hc0) as (x0 & Hx0 & _).
  wp_step. apply wp_on_mem, (wp_leaves clock_ctr), (wp_mono _ _ _ _ (Clone_spec _ _ Hwf ltac:(by eexists)));
    [apply Clone_clock|].
  intros c m1 (Hwf1 & Hext1 & Hc1 & Hfr1 & Hct1) Hck1. rewrite Hc0 in Hct1. simpl in Hct1.
  wp_step. apply wp_on_mem, (wp_leaves clock_ctr); [apply update_msg_clock|]. eapply wp_mono.
  { by apply (update_fresh_msg c (with_Topic topic) (w_mem w)). }
  intros _ m2 (Hwf2 & Hext2 & Hc2 & Hfr2 & Hct2) Hck2.
  destruct (content_fields _ _ _ Hct1) as (x1 & Hx1 & Hid1 & _ & Hts1 & _).
  specialize (Hct2 _ Hx1). simpl in Hct2. rewrite Hct1 in Hct2. simpl in Hct2.
  wp_step. apply wp_on_mem. unfold wp at 1, time_Now_UTC. simpl.
  wp_step. apply wp_on_mem. simpl. apply (wp_leaves clock_ctr); [apply update_msg_clock|]. eapply wp_mono.
  { apply (update_fresh_msg c (with_Timestamp _) (w_mem w) (tick m2));
      [by apply tick_wf|by apply tick_extends|done|done|done]. }
  intros _ m3 (Hwf3 & Hext3 & Hc3 & Hfr3 & Hct3) Hck3. simpl in Hck3.
  destruct (content_fields _ _ _ Hct2) as (x2 & Hx2 & Hid2 & Htp2 & _).
  specialize (Hct3 _ Hx2).
  assert (content_of (tick m2) c = content_of m2 c) as Heq by done.
  rewrite Heq, Hct2 in Hct3. simpl in *. rewrite Hid2, Htp2, Hid1 in Hct3.
  destruct (content_fields _ _ _ Hct3) as (x3 & Hx3 & _ & Htp3 & _).
  eapply HQ; [done|done|congruence| |done|done]. split.
  - by intros l' ->%list_elem_of_singleton.
  - intros i j a b y Ha Hb. apply list_lookup_singleton_Some in Ha as [-> _], Hb as [-> _]. done.
  - by intros l' ->%list_elem_of_singleton.
  - intros l' ->%list_elem_of_singleton. unfold now_at. rewrite <- Hck1, <- Hck2. exact Hct3.
Qed.

Lemma bind_ret_r {S A} (m : GoM S A) s : bind m ret s = m s.
Proof. unfold bind. by destruct (m s) as [[a|p] s']. Qed.

(** The state of the world after a publication, in terms of the spec. *)
Definition published_world (ctx : Ctx) (topic : string) (clone : loc) (ms : list loc)
    (w w' : World InMemoryBroker) : Prop :=
  w_br w' = set_queues (w_br w)
    (<[topic := slice_at (queues (w_br w)) topic ++ [clone]]> (queues (w_br w))) /\
  length ms = length (active_subs (w_br w) topic) /\
  w_go w' = w_go w ++ zip_with (task_for ctx) (active_subs (w_br w) topic) ms.

Lemma published_inv ctx topic clone ms ct w w' x :
  inmem_inv w -> connected (w_br w) = true ->
  mem_wf (w_mem w') -> mem_extends (w_mem w) (w_mem w') ->
  delivered (w_mem w) (w_mem w') clone ct ms ->
  msgs_of (w_mem w') !! clone = Some x -> msg_Topic x = topic ->
  published_world ctx topic clone ms w w' -> inmem_inv w'.
Proof.
  intros [Hm Hq Ht Hs Hi] Hcon Hwf Hext Hdel Hx Htx (Hbr & Hlen & Hgo).
  pose proof (ext_next _ _ Hext). split; [done|rewrite Hbr; simpl|..].
  - intros t q l. rewrite lookup_insert. case_decide as Hd; [subst t|].
    + intros [= <-] Hl. apply elem_of_app in Hl as [Hl| ->%list_elem_of_singleton]; [|eauto].
      unfold slice_at in Hl. destruct (queues (w_br w) !! topic) as [q|] eqn:Hqt;
        [|by apply elem_of_nil in Hl].
      destruct (Hq _ _ _ Hqt Hl) as (y & Hy & Hty).
      exists y. split; [|done]. by eapply (msgs_extends (w_mem w)).
    + intros Hq' Hl. destruct (Hq _ _ _ Hq' Hl) as (y & Hy & Hty).
      exists y. split; [|done]. by eapply (msgs_extends (w_mem w)).
  - intros tk. rewrite Hgo. intros [Htk|Htk]%elem_of_app.
    + destruct (Ht _ Htk) as [y Hy]. exists y. by eapply (msgs_extends (w_mem w)).
    + apply elem_of_zip_task in Htk. apply (dl_live _ _ _ _ _ Hdel). by right.
  - intros s. rewrite Hbr. intros Hs'%Hs. lia.
  - rewrite Hbr. simpl. by rewrite Hcon.
Qed.

Lemma Publish_exact `{Env} ctx topic l c0 opts w :
  inmem_inv w -> connected (w_br w) = true -> content_of (w_mem w) l = Some c0 ->
  wp (Ops.Publish ctx topic (Some l) opts) (fun r w' => exists clone ms,
    r = None /\ inmem_inv w' /\ mem_extends (w_mem w) (w_mem w') /\
    clock_ctr (w_mem w') = S (clock_ctr (w_mem w)) /\
    published_world ctx topic clone ms w w' /\
    delivered (w_mem w) (w_mem w') clone (published topic (now_at w) c0) ms) w.
Proof.
  intros Hinv Hcon Hc0. unfold Ops.Publish. wp_step. apply wp_gets. rewrite Hcon. simpl.
  eapply publish_clone_spec; [by apply inv_mem|done|].
  intros clone m1 x Hwf1 Hext1 Hck1 Hdel1 Hx Htx.
  wp_step. apply wp_gets. wp_step. apply wp_modify. wp_step. apply wp_gets.
  wp_step. apply (wp_leaves (fun w => clock_ctr (w_mem w))).
  { apply leaves_for_range. intros s. apply deliver_clock. }
  eapply wp_mono; [by eapply (deliver_loop_spec ctx clone topic (now_at w) c0 (w_mem w))|].
  intros _ w' (ms & Hbr & Hwf' & Hext' & Hext1' & Hlen & Hgo & Hdel) Hck. apply wp_ret.
  simpl in *. assert (published_world ctx topic clone ms w w') as Hpub by (by split_and!).
  exists clone, ms. split_and!; [done| |done|by rewrite Hck|done|done].
  eapply published_inv; [done..| |by apply Htx|done].
  by eapply (msgs_extends m1).
Qed.

(** The same, for clients to which the time does not matter. *)
Lemma Publish_spec `{Env} ctx topic l c0 opts w :
  inmem_inv w -> connected (w_br w) = true -> content_of (w_mem w) l = Some c0 ->
  wp (Ops.Publish ctx topic (Some l) opts) (fun r w' => exists clone ms now,
    r = None /\ inmem_inv w' /\ mem_extends (w_mem w) (w_mem w') /\
    published_world ctx topic clone ms w w' /\
    delivered (w_mem w) (w_mem w') clone (published topic (clock_time now) c0) ms) w.
Proof.
  intros Hinv Hcon Hc0. eapply wp_mono; [by apply Publish_exact|].
  intros r w' (clone & ms & Hr & Hinv' & Hext & _ & ?). by exists clone, ms, (clock_ctr (w_mem w)).
Qed.

(** Publishing nil panics (after the connection check, so a disconnected
    broker still returns its error). *)
Lemma Publish_nil `{Env} ctx topic opts w :
  connected (w_br w) = true -> panics (Ops.Publish ctx topic None opts) NilDereference w.
Proof. intros Hc. unfold panics, Ops.Publish, bind, get_br, gets. by rewrite Hc. Qed.

Lemma Publish_disconnected `{Env} ctx topic msg opts w :
  connected (w_br w) = false ->
  Ops.Publish ctx topic msg opts w = (Ok (Some (ErrSentinel ErrNotConnected)), w).
Proof. intros Hc. unfold Ops.Publish, bind, get_br, gets. by rewrite Hc. Qed.

(** ** The other operations keep the invariant *)

Definition inmem_live (w : World InMemoryBroker) (s : subref) : Prop :=
  exists x, inmem_subs (w_br w) !! s = Some x /\ ims_active x = true.

(** A change of the broker's record that leaves the queues and the set of
    subscription objects alone. *)
Lemma inmem_inv_br w b :
  inmem_inv w -> queues b = queues (w_br w) ->
  (forall s, is_Some (inmem_subs b !! s) -> is_Some (inmem_subs (w_br w) !! s)) ->
  (connected b = false -> queues b = ∅ /\ subscribers b = ∅) ->
  inmem_inv (set_br w b).
Proof.
  intros [Hm Hq Ht Hs Hi] Hqb Hsb Hib. split; simpl; [done| |done| |done].
  - rewrite Hqb. apply Hq.
  - auto.
Qed.

Lemma inv_idle_alter w (f : list subscriberInfo -> list subscriberInfo) t :
  inmem_inv w -> connected (w_br w) = false -> alter f t (subscribers (w_br w)) = ∅.
Proof. intros Hinv [_ ->]%(inv_idle _ Hinv). apply map_eq. intros i. by simplify_map_eq. Qed.

Lemma Connect_spec `{Env} ctx w :
  inmem_inv w ->
  Ops.Connect ctx w = (Ok None, set_br w (set_connected (w_br w) true)) /\
  inmem_inv (set_br w (set_connected (w_br w) true)).
Proof. intros Hinv. split; [done|]. by apply inmem_inv_br. Qed.

Lemma Close_spec `{Env} ctx w :
  inmem_inv w ->
  match connected (w_br w), stopCh_closed (w_br w) with
  | false, _ => Ops.Close ctx w = (Ok None, w)
  | true, true => Ops.Close ctx w = (Panic CloseOfClosedChannel, w)
  | true, false => exists b, Ops.Close ctx w = (Ok None, set_br w b) /\ inmem_inv (set_br w b) /\
      connected b = false /\ stopCh_closed b = true /\ queues b = ∅ /\ subscribers b = ∅ /\
      inmem_subs b = inmem_subs (w_br w) /\ metrics b = metrics (w_br w)
  end.
Proof.
  intros Hinv. unfold Ops.Close, bind, get_br, gets, put_br, modify, throw, ret.
  destruct (connected (w_br w)) eqn:Hc; simpl; [|done].
  destruct (stopCh_closed (w_br w)) eqn:Hs; simpl; [done|].
  eexists. split; [done|]. split_and!; try done. destruct Hinv as [Hm Hq Ht Hsb Hi].
  split; simpl; [done| |done|done|done]. intros t q l. by rewrite lookup_empty.
Qed.

Lemma Close_panics `{Env} ctx w :
  connected (w_br w) = true -> stopCh_closed (w_br w) = true ->
  Ops.Close ctx w = (Panic CloseOfClosedChannel, w).
Proof. intros Hc Hs. unfold Ops.Close, bind, get_br, gets. by rewrite Hc, Hs. Qed.

Lemma Subscribe_spec `{Env} ctx topic h opts w :
  inmem_inv w ->
  match connected (w_br w) with
  | false => Ops.Subscribe ctx topic h opts w =
      (Ok (None, Some (ErrSentinel ErrNotConnected)), w)
  | true =>
    let id := uuid_String (uuid_ctr (w_mem w)) in
    let s := next_loc (w_mem w) in
    let b := w_br w in
    let b' := set_subs (set_subscribers b (<[topic := slice_at (subscribers b) topic ++
        [mkSubscriberInfo id h true]]> (subscribers b)))
        (<[s := mkInMemorySub id topic true]> (inmem_subs b)) in
    let w' := mkWorld (bump (draw (w_mem w))) (w_go w) b' in
    Ops.Subscribe ctx topic h opts w = (Ok (Some s, None), w') /\ inmem_inv w'
  end.
Proof.
  intros Hinv. unfold Ops.Subscribe. destruct (connected (w_br w)) eqn:Hc.
  - split; [unfold bind, get_br, gets; by rewrite Hc|].
    destruct Hinv as [Hm Hq Ht Hs Hi]. split; simpl; [by auto using bump_wf, draw_wf|done|done| |].
    + intros s. rewrite lookup_insert. case_decide; [subst; intros; lia|]. intros Hs'%Hs. lia.
    + by rewrite Hc.
  - unfold bind, get_br, gets. by rewrite Hc.
Qed.

Lemma delete_alter_same {A} (f : A -> A) t (m : gmap string A) :
  delete t (alter f t m) = delete t m.
Proof.
  apply map_eq. intros i. rewrite !lookup_delete. case_decide; [done|].
  by rewrite lookup_alter_ne.
Qed.

Lemma Unsubscribe_spec `{Env} topic w :
  inmem_inv w ->
  let b := set_subscribers (w_br w) (delete topic (subscribers (w_br w))) in
  Ops.Unsubscribe topic w = (Ok None, set_br w b) /\ inmem_inv (set_br w b).
Proof.
  intros Hinv b. split.
  - unfold Ops.Unsubscribe, bind, get_br, gets, put_br, modify, ret, set_br, set_subscribers.
    simpl. by rewrite delete_alter_same.
  - apply inmem_inv_br; [done|done|by auto|]. simpl. intros Hc.
    destruct (inv_idle _ Hinv Hc) as [-> ->]. by rewrite delete_empty.
Qed.

Lemma sub_Unsubscribe_spec `{Env} s x w :
  inmem_inv w -> inmem_subs (w_br w) !! s = Some x ->
  let b := w_br w in
  let b' := if ims_active x then
      set_subscribers
        (set_subs b (<[s := mkInMemorySub (ims_id x) (ims_topic x) false]> (inmem_subs b)))
        (alter (Ops.deactivate_id (ims_id x)) (ims_topic x) (subscribers b))
    else b in
  Ops.sub_Unsubscribe s w = (Ok None, set_br w b') /\ inmem_inv (set_br w b').
Proof.
  intros Hinv Hx b b'. split.
  - unfold Ops.sub_Unsubscribe, Ops.load_sub, bind. rewrite Hx. unfold b'.
    destruct (ims_active x); [done|]. by destruct w.
  - unfold b'. destruct (ims_active x); [|by destruct w].
    apply inmem_inv_br; [done|done|..]; simpl.
    + intros s'. rewrite lookup_insert. case_decide; [subst; by rewrite Hx|done].
    + intros Hc. split; [by apply (inv_idle _ Hinv)|by apply inv_idle_alter].
Qed.

Lemma NewInMemoryBroker_inv `{Env} m :
  mem_wf m -> exists b m', Ops.NewInMemoryBroker m = (Ok b, m') /\ inmem_inv (mkWorld m' [] b).
Proof.
  intros Hwf. eexists _, _. split; [done|]. split; simpl.
  - by apply tick_wf.
  - intros t q l. by rewrite lookup_empty.
  - intros tk. by rewrite elem_of_nil.
  - intros s. rewrite lookup_empty. by intros [].
  - done.
Qed.

Lemma Publish_frame `{Env} ctx topic msg opts w :
  inmem_inv w -> is_Some (msgs_of (w_mem w) !! msg) ->
  wp (Ops.Publish ctx topic (Some msg) opts) (fun _ w' =>
    inmem_inv w' /\ mem_extends (w_mem w) (w_mem w') /\
    forall s, inmem_live w' s <-> inmem_live w s) w.
Proof.
  intros Hinv Hmsg. destruct (connected (w_br w)) eqn:Hc.
  - destruct (content_of_is_Some _ _ (inv_mem _ Hinv) Hmsg) as [c0 Hc0].
    eapply wp_mono; [by eapply Publish_spec|].
    intros r w' (clone & ms & now & _ & Hinv' & Hext & (Hbr & _) & _).
    split_and!; [done|done|]. intros s. unfold inmem_live. by rewrite Hbr.
  - eapply wp_intro; [by apply Publish_disconnected|]. by split_and!.
Qed.

Lemma Subscribe_frame `{Env} ctx topic h opts w :
  inmem_inv w ->
  wp (Ops.Subscribe ctx topic h opts) (fun r w' =>
    inmem_inv w' /\ mem_extends (w_mem w) (w_mem w') /\
    match r with
    | (Some s, None) =>
      ~ inmem_live w s /\ forall s', inmem_live w' s' <-> s' = s \/ inmem_live w s'
    | (None, Some _) => forall s', inmem_live w' s' <-> inmem_live w s'
    | _ => False
    end) w.
Proof.
  intros Hinv. pose proof (Subscribe_spec ctx topic h opts w Hinv) as Hspec.
  destruct (connected (w_br w)) eqn:Hc.
  - destruct Hspec as [Hrun Hinv']. eapply wp_intro; [exact Hrun|].
    assert (~ inmem_live w (next_loc (w_mem w))) as Hnew.
    { intros (x & Hx & _). assert (next_loc (w_mem w) < next_loc (w_mem w)); [|lia].
      apply (inv_subs _ Hinv). by rewrite Hx. }
    split_and!; [done|by apply bump_extends, draw_extends|done|].
    intros s'. unfold inmem_live. simpl. rewrite lookup_insert. case_decide as Hd.
    + subst s'. split; [by left|]. intros _. eexists; split; [done|done].
    + naive_solver.
  - eapply wp_intro; [exact Hspec|]. by split_and!.
Qed.

Lemma sub_Unsubscribe_frame `{Env} s w :
  inmem_inv w -> inmem_live w s ->
  wp (Ops.sub_Unsubscribe s) (fun r w' =>
    inmem_inv w' /\ mem_extends (w_mem w) (w_mem w') /\
    forall s', inmem_live w' s' <-> inmem_live w s' /\ (s' = s -> r <> None)) w.
Proof.
  intros Hinv (x & Hx & Ha). destruct (sub_Unsubscribe_spec s x w Hinv Hx) as [Hrun Hinv'].
  eapply wp_intro; [exact Hrun|]. rewrite Ha in *. split_and!; [done|done|].
  intros s'. unfold inmem_live. simpl. rewrite lookup_insert. case_decide as Hd.
  - subst s'. split.
    + intros (y & [= <-] & Hy). done.
    + intros [_ Hf]. by destruct Hf.
  - naive_solver.
Qed.

(** The in-memory broker satisfies the interface the clients rely on. *)
#[export] Instance InMemory_MessageBrokerSpec `{Env} : MessageBrokerSpec InMemoryBroker := {|
  broker_inv := inmem_inv;
  sub_live := inmem_live;
  broker_inv_wf := inv_mem;
  broker_inv_mem := inmem_inv_mem;
  sub_live_mem := fun w m s => iff_refl _;
  Publish_law := Publish_frame;
  Subscribe_law := Subscribe_frame;
  sub_Unsubscribe_law := sub_Unsubscribe_frame |}.

#[export] Instance InMemory_ReliableUnsubscribe `{Env} : ReliableUnsubscribe InMemoryBroker.
Proof.
  constructor. intros s w Hinv (x & Hx & _).
  destruct (sub_Unsubscribe_spec s x w Hinv Hx) as [Hrun _]. by eapply wp_intro.
Qed.
