(* ===== verification/InMemorySubs.v ===== *)
(** * Subscriptions of the in-memory broker, over whole runs

    The subscriber entries of the broker and the subscription objects its
    clients hold are linked by an identifier only.  Here is the invariant that
    makes the link sound, the step relation of a broker used by any number of
    clients, and what follows for deliveries. *)

From Stdlib Require Import ZArith Lia.
From stdpp Require Import base gmap strings list fin_maps.
From S2P Require Import Prelude Store Errors Message Broker InMemory.

Section Subs.
Context `{Env}.

Record subs_inv (w : World InMemoryBroker) : Prop := {
  (* identifiers are UUIDs drawn earlier *)
  si_drawn : forall s x, inmem_subs (w_br w) !! s = Some x ->
    exists k, k < uuid_ctr (w_mem w) /\ ims_id x = uuid_String k;
  (* two objects have two identifiers *)
  si_inj : forall s1 x1 s2 x2,
    inmem_subs (w_br w) !! s1 = Some x1 -> inmem_subs (w_br w) !! s2 = Some x2 ->
    ims_id x1 = ims_id x2 -> s1 = s2;
  (* an entry belongs to an object of the same topic, active if the entry is *)
  si_owner : forall t es e, subscribers (w_br w) !! t = Some es -> e ∈ es ->
    exists s x, inmem_subs (w_br w) !! s = Some x /\ ims_id x = si_id e /\
      ims_topic x = t /\ (si_active e = true -> ims_active x = true);
  (* the entries of a topic have distinct identifiers *)
  si_nodup : forall t es, subscribers (w_br w) !! t = Some es -> NoDup (si_id <$> es) }.

Lemma deactivate_id_ids id es : si_id <$> Ops.deactivate_id id es = si_id <$> es.
Proof.
  induction es as [|e es IH]; [done|]. simpl Ops.deactivate_id.
  case_bool_decide; rewrite !fmap_cons; [done|by rewrite IH].
Qed.

Lemma deactivate_id_elem id es e' :
  NoDup (si_id <$> es) -> e' ∈ Ops.deactivate_id id es ->
  exists e, e ∈ es /\ si_id e' = si_id e /\
    (si_active e' = true -> si_active e = true /\ si_id e <> id).
Proof.
  induction es as [|e es IH]; [by intros _ ?%elem_of_nil|].
  rewrite fmap_cons. simpl Ops.deactivate_id. intros [Hni Hnd]%NoDup_cons. case_bool_decide as Hid.
  - intros [->|He']%elem_of_cons.
    + exists e. split_and!; [by left|done|done].
    + exists e'. split_and!; [by right|done|]. intros Ha. split; [done|].
      intros <-. apply Hni. rewrite Hid. by apply list_elem_of_fmap_2.
  - intros [->|He']%elem_of_cons.
    + exists e. split_and!; [by left|done|done].
    + destruct (IH Hnd He') as (e0 & ? & ? & ?). exists e0. split_and!; [by right|done|done].
Qed.

Lemma subs_inv_mem w m :
  subs_inv w -> uuid_ctr (w_mem w) <= uuid_ctr m -> subs_inv (set_mem w m).
Proof.
  intros [Hd Hi Ho Hn] Hle. split; simpl; [|done..].
  intros s x Hs. destruct (Hd _ _ Hs) as (k & ? & ?). exists k. split; [lia|done].
Qed.

(** Only the subscriber map and the objects matter. *)
Lemma subs_inv_same w w' :
  subs_inv w -> uuid_ctr (w_mem w) <= uuid_ctr (w_mem w') ->
  subscribers (w_br w') ⊆ subscribers (w_br w) ->
  inmem_subs (w_br w') = inmem_subs (w_br w) -> subs_inv w'.
Proof.
  intros [Hd Hi Ho Hn] Hle Hsub Heq. split; rewrite ?Heq.
  - intros s x Hs. destruct (Hd _ _ Hs) as (k & ? & ?). exists k. split; [lia|done].
  - done.
  - intros t es e Hes. apply Ho. by eapply lookup_weaken.
  - intros t es Hes. eapply Hn. by eapply lookup_weaken.
Qed.

Lemma subs_inv_subscribe N `{!UuidSpec N} w topic h :
  subs_inv w -> inmem_inv w -> uuid_ctr (w_mem w) < N ->
  let id := uuid_String (uuid_ctr (w_mem w)) in
  let s := next_loc (w_mem w) in
  let b := w_br w in
  subs_inv (mkWorld (bump (draw (w_mem w))) (w_go w)
    (set_subs (set_subscribers b (<[topic := slice_at (subscribers b) topic ++
      [mkSubscriberInfo id h true]]> (subscribers b)))
      (<[s := mkInMemorySub id topic true]> (inmem_subs b)))).
Proof.
  intros [Hd Hi Ho Hn] Hinv Hlt id s b.
  assert (forall s' x, inmem_subs b !! s' = Some x -> s' <> s /\ ims_id x <> id) as Hnew.
  { intros s' x Hx. split.
    - assert (s' < s); [|lia]. apply (inv_subs _ Hinv). by exists x.
    - destruct (Hd _ _ Hx) as (k & Hk & ->). by apply (uuid_distinct (N := N)). }
  assert (forall e, e ∈ slice_at (subscribers b) topic ->
    exists s' x, inmem_subs b !! s' = Some x /\ ims_id x = si_id e /\
      ims_topic x = topic /\ (si_active e = true -> ims_active x = true)) as Hold.
  { intros e. unfold slice_at. destruct (subscribers b !! topic) as [es|] eqn:Hes;
      [by apply Ho|by intros ?%elem_of_nil]. }
  split; simpl.
  - intros s' x. rewrite lookup_insert. case_decide; [|intros Hx].
    + intros [= <-]. exists (uuid_ctr (w_mem w)). simpl. split; [lia|done].
    + destruct (Hd _ _ Hx) as (k & ? & ?). exists k. split; [lia|done].
  - intros s1 x1 s2 x2. rewrite !lookup_insert.
    repeat case_decide; intros; simplify_eq/=; [done|..].
    + by destruct (Hnew s2 x2).
    + by destruct (Hnew s1 x1).
    + by eapply Hi.
  - intros t es e. rewrite lookup_insert. case_decide as Ht; [subst t; intros [= <-] He|].
    + apply elem_of_app in He as [He| ->%list_elem_of_singleton].
      * destruct (Hold _ He) as (s' & x & Hx & ?). exists s', x.
        rewrite lookup_insert_ne; [done|]. by destruct (Hnew _ _ Hx) as [? _].
      * eexists s, _. rewrite lookup_insert_eq. by split_and!.
    + intros Hes He. destruct (Ho _ _ _ Hes He) as (s' & x & Hx & ?). exists s', x.
      rewrite lookup_insert_ne; [done|]. by destruct (Hnew _ _ Hx) as [? _].
  - intros t es. rewrite lookup_insert. case_decide as Ht; [intros [= <-]|apply Hn].
    rewrite fmap_app. apply NoDup_app. split_and!.
    + unfold slice_at. destruct (subscribers b !! topic) as [es0|] eqn:Hes; [by eapply Hn|constructor].
    + intros i Hin ->%list_elem_of_singleton.
      apply list_elem_of_fmap in Hin as (e & Hid & He). destruct (Hold _ He) as (s' & x & Hx & Hxid & _).
      destruct (Hnew _ _ Hx) as [_ Hne]. apply Hne. by rewrite Hxid, <- Hid.
    + apply NoDup_singleton.
Qed.

Lemma subs_inv_sub_Unsubscribe w s x :
  subs_inv w -> inmem_subs (w_br w) !! s = Some x ->
  let b := w_br w in
  subs_inv (set_br w (set_subscribers
    (set_subs b (<[s := mkInMemorySub (ims_id x) (ims_topic x) false]> (inmem_subs b)))
    (alter (Ops.deactivate_id (ims_id x)) (ims_topic x) (subscribers b)))).
Proof.
  intros [Hd Hi Ho Hn] Hx b.
  assert (forall s' x', inmem_subs (w_br (set_br w (set_subs b
    (<[s := mkInMemorySub (ims_id x) (ims_topic x) false]> (inmem_subs b))))) !! s' = Some x' ->
    exists x0, inmem_subs b !! s' = Some x0 /\ ims_id x' = ims_id x0 /\ ims_topic x' = ims_topic x0)
    as Hback.
  { intros s' x'. simpl. rewrite lookup_insert. case_decide; [|eauto].
    subst. intros [= <-]. eauto. }
  simpl in Hback. split; simpl.
  - intros s' x' (x0 & Hx0 & -> & _)%Hback. eauto.
  - intros s1 x1 s2 x2 (y1 & Hy1 & -> & _)%Hback (y2 & Hy2 & -> & _)%Hback. eauto.
  - intros t es' e' Hes' He'.
    assert (exists es e, subscribers b !! t = Some es /\ e ∈ es /\ si_id e' = si_id e /\
      (si_active e' = true -> si_active e = true /\ (t = ims_topic x -> si_id e <> ims_id x)))
      as (es & e & Hes & He & Hid & Hact).
    { rewrite lookup_alter in Hes'. case_decide as Ht.
      - subst t. apply fmap_Some in Hes' as (es & Hes & ->).
        destruct (deactivate_id_elem _ _ _ (Hn _ _ Hes) He') as (e & He & Hid & Hact).
        exists es, e. split_and!; [done..|]. naive_solver.
      - exists es', e'. split_and!; [done..|]. intros Ha. split; [done|]. congruence. }
    destruct (Ho _ _ _ Hes He) as (s' & x' & Hx' & Hxid & Hxt & Hxa).
    destruct (decide (s' = s)) as [->|Hne].
    + simplify_eq. eexists s, _. rewrite lookup_insert_eq. split; [done|].
      split_and!; simpl; [by rewrite Hid|done|]. intros Ha. destruct (Hact Ha) as [_ Hf].
      exfalso. apply Hf; [done|]. by rewrite Hxid.
    + exists s', x'. rewrite lookup_insert_ne by done.
      split_and!; [done|by rewrite Hid|done|]. intros Ha. apply Hxa. by destruct (Hact Ha).
  - intros t es. rewrite lookup_alter. case_decide; [|apply Hn].
    intros (es0 & Hes & ->)%fmap_Some. rewrite deactivate_id_ids. by eapply Hn.
Qed.

(** ** Runs *)

(** One atomic action of a client or of the runtime.  [PublishBatch] is a
    sequence of [APublish] actions, each locking on its own; [AClient] is
    any change clients make to their own objects; [ARun i] starts the i-th
    waiting goroutine, whose handler's effects are further actions. *)
Inductive action :=
| AConnect (ctx : Ctx)
| AClose (ctx : Ctx)
| APublish (ctx : Ctx) (topic : string) (msg : option loc) (opts : list PublishOption)
| ASubscribe (ctx : Ctx) (topic : string) (h : option handler) (opts : list SubscribeOption)
| AUnsubscribe (topic : string)
| ASubUnsubscribe (s : subref)
| AClient (m : mem)
| ARun (i : nat).

(** What clients can do to the store: they cannot reach queued messages, which
    are the broker's own clones, nor what these refer to. *)
Record client_change (w : World InMemoryBroker) (m : mem) : Prop := {
  cc_wf : mem_wf m;
  cc_next : next_loc (w_mem w) <= next_loc m;
  cc_uuid : uuid_ctr (w_mem w) <= uuid_ctr m;
  cc_msgs : forall l, is_Some (msgs_of (w_mem w) !! l) -> is_Some (msgs_of m !! l);
  cc_queued : forall t q l, queues (w_br w) !! t = Some q -> l ∈ q ->
    msgs_of m !! l = msgs_of (w_mem w) !! l /\ content_of m l = content_of (w_mem w) l }.

Definition enabled (a : action) (w : World InMemoryBroker) : Prop :=
  match a with
  | APublish _ _ (Some l) _ => is_Some (msgs_of (w_mem w) !! l)
  | ASubUnsubscribe s => is_Some (inmem_subs (w_br w) !! s)
  | AClient m => client_change w m
  | _ => True
  end.

(** The world after the action, also when the call panicked. *)
Definition exec (a : action) (w : World InMemoryBroker) : World InMemoryBroker :=
  match a with
  | AConnect ctx => (Ops.Connect ctx w).2
  | AClose ctx => (Ops.Close ctx w).2
  | APublish ctx t l opts => (Ops.Publish ctx t l opts w).2
  | ASubscribe ctx t h opts => (Ops.Subscribe ctx t h opts w).2
  | AUnsubscribe t => (Ops.Unsubscribe t w).2
  | ASubUnsubscribe s => (Ops.sub_Unsubscribe s w).2
  | AClient m => set_mem w m
  | ARun i => mkWorld (w_mem w) (delete i (w_go w)) (w_br w)
  end.

Fixpoint run (acts : list action) (w : World InMemoryBroker) : World InMemoryBroker :=
  match acts with [] => w | a :: acts => run acts (exec a w) end.

Fixpoint runnable (acts : list action) (w : World InMemoryBroker) : Prop :=
  match acts with [] => True | a :: acts => enabled a w /\ runnable acts (exec a w) end.

Lemma exec_publish w ctx t l opts :
  inmem_inv w -> enabled (APublish ctx t l opts) w ->
  inmem_inv (exec (APublish ctx t l opts) w) /\
  mem_extends (w_mem w) (w_mem (exec (APublish ctx t l opts) w)) /\
  subscribers (w_br (exec (APublish ctx t l opts) w)) = subscribers (w_br w) /\
  inmem_subs (w_br (exec (APublish ctx t l opts) w)) = inmem_subs (w_br w) /\
  metrics (w_br (exec (APublish ctx t l opts) w)) = metrics (w_br w) /\
  stopCh_closed (w_br (exec (APublish ctx t l opts) w)) = stopCh_closed (w_br w).
Proof.
  intros Hinv Hen. simpl. destruct (connected (w_br w)) eqn:Hc.
  - destruct l as [l|]; simpl in Hen.
    + destruct (content_of_is_Some _ _ (inv_mem _ Hinv) Hen) as [c0 Hc0].
      destruct (wp_run _ _ _ (Publish_spec ctx t l c0 opts w Hinv Hc Hc0))
        as (r & w' & -> & clone & ms & now & _ & Hinv' & Hext & (Hbr & _) & _).
      simpl. by rewrite Hbr.
    + assert ((Ops.Publish ctx t None opts w).2 = w) as ->; [|done].
      unfold Ops.Publish, bind, get_br, gets. rewrite Hc. by destruct w.
  - rewrite (Publish_disconnected ctx t l opts w Hc). done.
Qed.

Lemma exec_inv a w : inmem_inv w -> enabled a w -> inmem_inv (exec a w).
Proof.
  intros Hinv Hen. destruct a as [ctx|ctx|ctx t l opts|ctx t h opts|t|s|m|i].
  - simpl. by apply Connect_spec.
  - unfold exec. pose proof (Close_spec ctx w Hinv) as Hsp.
    destruct (connected (w_br w)); [|by rewrite Hsp].
    destruct (stopCh_closed (w_br w)); [by rewrite Hsp|].
    by destruct Hsp as (b & -> & ? & _).
  - by apply exec_publish.
  - unfold exec. pose proof (Subscribe_spec ctx t h opts w Hinv) as Hsp.
    destruct (connected (w_br w)); [|by rewrite Hsp]. by destruct Hsp as [-> ?].
  - unfold exec. by destruct (Unsubscribe_spec t w Hinv) as [-> ?].
  - destruct Hen as [x Hx]. unfold exec. by destruct (sub_Unsubscribe_spec s x w Hinv Hx) as [-> ?].
  - destruct Hen as [Hwf Hn Hu Hm Hq]. destruct Hinv as [Hmem Hqs Ht Hs Hi].
    split; simpl; [done| | | |done].
    + intros t q l Hq' Hl. destruct (Hq _ _ _ Hq' Hl) as [-> _]. eauto.
    + intros tk Htk. apply Hm, Ht, Htk.
    + intros s Hs'%Hs. lia.
  - destruct Hinv as [Hmem Hqs Ht Hs Hi]. split; simpl; try done.
    intros tk Htk. apply Ht. apply list_elem_of_lookup in Htk as [j Hj].
    destruct (decide (j < i)); apply list_elem_of_lookup.
    + exists j. by rewrite list_lookup_delete_lt in Hj.
    + exists (S j). rewrite list_lookup_delete_ge in Hj by lia. done.
Qed.

(** An action draws no UUID or more of them, and keeps the link of entries
    and objects as long as no UUID repeats. *)
Lemma exec_uuid a w :
  inmem_inv w -> enabled a w -> uuid_ctr (w_mem w) <= uuid_ctr (w_mem (exec a w)).
Proof.
  intros Hinv Hen. destruct a as [ctx|ctx|ctx t l opts|ctx t h opts|t|s|m|i].
  - done.
  - unfold exec. pose proof (Close_spec ctx w Hinv) as Hsp.
    destruct (connected (w_br w)); [|by rewrite Hsp].
    destruct (stopCh_closed (w_br w)); [by rewrite Hsp|].
    by destruct Hsp as (b & -> & _).
  - apply exec_publish; done.
  - unfold exec. pose proof (Subscribe_spec ctx t h opts w Hinv) as Hsp.
    destruct (connected (w_br w)); [|by rewrite Hsp]. destruct Hsp as [-> _]. simpl. lia.
  - unfold exec. by destruct (Unsubscribe_spec t w Hinv) as [-> _].
  - destruct Hen as [x Hx]. unfold exec. by destruct (sub_Unsubscribe_spec s x w Hinv Hx) as [-> _].
  - apply (cc_uuid _ _ Hen).
  - done.
Qed.

Lemma exec_subs N `{!UuidSpec N} a w :
  inmem_inv w -> subs_inv w -> enabled a w -> uuid_ctr (w_mem (exec a w)) <= N ->
  subs_inv (exec a w).
Proof.
  intros Hinv Hsubs Hen HN. pose proof (exec_uuid a w Hinv Hen) as Hmono.
  destruct a as [ctx|ctx|ctx t l opts|ctx t h opts|t|s|m|i].
  - by apply (subs_inv_same w).
  - unfold exec. pose proof (Close_spec ctx w Hinv) as Hsp.
    destruct (connected (w_br w)); [|by rewrite Hsp].
    destruct (stopCh_closed (w_br w)); [by rewrite Hsp|].
    destruct Hsp as (b & -> & _ & _ & _ & _ & Hsb & Hib & _).
    apply (subs_inv_same w); [done|done| |done]. simpl. rewrite Hsb. apply map_empty_subseteq.
  - destruct (exec_publish w ctx t l opts Hinv Hen) as (_ & Hext & Hs & Hi & _).
    apply (subs_inv_same w); [done|by apply ext_uuid|by rewrite Hs|done].
  - unfold exec in *. pose proof (Subscribe_spec ctx t h opts w Hinv) as Hsp.
    destruct (connected (w_br w)); [|by rewrite Hsp]. destruct Hsp as [Hrun _].
    rewrite Hrun in *. simpl in *. by apply (subs_inv_subscribe N).
  - unfold exec. destruct (Unsubscribe_spec t w Hinv) as [-> _].
    apply (subs_inv_same w); [done|done| |done]. apply delete_subseteq.
  - destruct Hen as [x Hx]. unfold exec. destruct (sub_Unsubscribe_spec s x w Hinv Hx) as [-> _].
    destruct (ims_active x); [by apply subs_inv_sub_Unsubscribe|]. by destruct w.
  - by apply subs_inv_mem.
  - by apply (subs_inv_same w).
Qed.

Lemma exec_metrics a w :
  inmem_inv w -> enabled a w -> metrics (w_br (exec a w)) = metrics (w_br w).
Proof.
  intros Hinv Hen. destruct a as [ctx|ctx|ctx t l opts|ctx t h opts|t|s|m|i]; try done.
  - unfold exec. pose proof (Close_spec ctx w Hinv) as Hsp.
    destruct (connected (w_br w)); [|by rewrite Hsp].
    destruct (stopCh_closed (w_br w)); [by rewrite Hsp|].
    destruct Hsp as (b & -> & Hsp). apply Hsp.
  - by apply exec_publish.
  - unfold exec. pose proof (Subscribe_spec ctx t h opts w Hinv) as Hsp.
    destruct (connected (w_br w)); [|by rewrite Hsp]. by destruct Hsp as [-> _].
  - destruct Hen as [x Hx]. unfold exec.
    destruct (sub_Unsubscribe_spec s x w Hinv Hx) as [-> _]. by destruct (ims_active x).
Qed.

(** The stop channel stays closed. *)
Lemma exec_stopCh a w :
  inmem_inv w -> enabled a w -> stopCh_closed (w_br w) = true ->
  stopCh_closed (w_br (exec a w)) = true.
Proof.
  intros Hinv Hen Hst. destruct a as [ctx|ctx|ctx t l opts|ctx t h opts|t|s|m|i]; try done.
  - unfold exec. pose proof (Close_spec ctx w Hinv) as Hsp. rewrite Hst in Hsp.
    by destruct (connected (w_br w)); rewrite Hsp.
  - destruct (exec_publish w ctx t l opts Hinv Hen) as (_ & _ & _ & _ & _ & ->). done.
  - unfold exec. pose proof (Subscribe_spec ctx t h opts w Hinv) as Hsp.
    destruct (connected (w_br w)); [|by rewrite Hsp]. by destruct Hsp as [-> _].
  - destruct Hen as [x Hx]. unfold exec.
    destruct (sub_Unsubscribe_spec s x w Hinv Hx) as [-> _]. by destruct (ims_active x).
Qed.

Lemma run_app acts1 acts2 w : run (acts1 ++ acts2) w = run acts2 (run acts1 w).
Proof. revert w. induction acts1 as [|a acts1 IH]; intros w; simpl; auto. Qed.

Lemma runnable_app acts1 acts2 w :
  runnable (acts1 ++ acts2) w <-> runnable acts1 w /\ runnable acts2 (run acts1 w).
Proof.
  revert w. induction acts1 as [|a acts1 IH]; intros w; simpl; [tauto|].
  rewrite IH. tauto.
Qed.

Lemma run_inmem acts w : inmem_inv w -> runnable acts w -> inmem_inv (run acts w).
Proof.
  revert w. induction acts as [|a acts IH]; intros w Hinv; [done|]. intros [Hen Hrun].
  apply IH; [by apply exec_inv|done].
Qed.

Lemma run_stopCh acts w :
  inmem_inv w -> runnable acts w -> stopCh_closed (w_br w) = true ->
  stopCh_closed (w_br (run acts w)) = true.
Proof.
  revert w. induction acts as [|a acts IH]; intros w Hinv; [done|]. intros [Hen Hrun] Hst.
  apply IH; [by apply exec_inv|done|by apply exec_stopCh].
Qed.

Lemma run_uuid acts w :
  inmem_inv w -> runnable acts w -> uuid_ctr (w_mem w) <= uuid_ctr (w_mem (run acts w)).
Proof.
  revert w. induction acts as [|a acts IH]; intros w Hinv; [done|]. intros [Hen Hrun].
  etrans; [by eapply exec_uuid|]. apply IH; [by apply exec_inv|done].
Qed.

Lemma run_inv N `{!UuidSpec N} acts w :
  inmem_inv w -> subs_inv w -> runnable acts w -> uuid_ctr (w_mem (run acts w)) <= N ->
  inmem_inv (run acts w) /\ subs_inv (run acts w).
Proof.
  revert w. induction acts as [|a acts IH]; intros w Hinv Hsubs; [done|].
  intros [Hen Hrun] HN. pose proof (exec_inv a w Hinv Hen) as Hinv'.
  pose proof (run_uuid acts (exec a w) Hinv' Hrun). simpl in HN.
  apply IH; [done| |done|done]. apply (exec_subs N); [done..|lia].
Qed.

(** A subscription object keeps its identifier and topic; once inactive it
    stays so. *)
Lemma exec_object a w s x :
  inmem_inv w -> enabled a w -> inmem_subs (w_br w) !! s = Some x ->
  exists x', inmem_subs (w_br (exec a w)) !! s = Some x' /\ ims_id x' = ims_id x /\
    ims_topic x' = ims_topic x /\ (ims_active x' = true -> ims_active x = true).
Proof.
  intros Hinv Hen Hx. destruct a as [ctx|ctx|ctx t l opts|ctx t h opts|t|s'|m|i].
  - by exists x.
  - unfold exec. pose proof (Close_spec ctx w Hinv) as Hsp.
    destruct (connected (w_br w)); [|rewrite Hsp; by exists x].
    destruct (stopCh_closed (w_br w)); [rewrite Hsp; by exists x|].
    destruct Hsp as (b & -> & _ & _ & _ & _ & _ & Hi & _). simpl. rewrite Hi. by exists x.
  - destruct (exec_publish w ctx t l opts Hinv Hen) as (_ & _ & _ & -> & _). by exists x.
  - unfold exec. pose proof (Subscribe_spec ctx t h opts w Hinv) as Hsp.
    destruct (connected (w_br w)); [|rewrite Hsp; by exists x]. destruct Hsp as [-> _].
    simpl. rewrite lookup_insert_ne; [by exists x|]. intros <-.
    assert (next_loc (w_mem w) < next_loc (w_mem w)); [|lia].
    apply (inv_subs _ Hinv). by rewrite Hx.
  - unfold exec. destruct (Unsubscribe_spec t w Hinv) as [-> _]. by exists x.
  - destruct Hen as [x' Hx']. unfold exec.
    destruct (sub_Unsubscribe_spec s' x' w Hinv Hx') as [-> _].
    destruct (ims_active x') eqn:Ha; simpl; [|by exists x].
    rewrite lookup_insert. case_decide; [simplify_eq; by eexists|by exists x].
  - by exists x.
  - by exists x.
Qed.

Lemma run_object acts w s x :
  inmem_inv w -> runnable acts w -> inmem_subs (w_br w) !! s = Some x ->
  exists x', inmem_subs (w_br (run acts w)) !! s = Some x' /\ ims_id x' = ims_id x /\
    ims_topic x' = ims_topic x /\ (ims_active x' = true -> ims_active x = true).
Proof.
  revert w x. induction acts as [|a acts IH]; intros w x Hinv; [intros; by exists x|].
  intros [Hen Hrun] Hx.
  destruct (exec_object a w s x Hinv Hen Hx) as (x1 & Hx1 & Hid1 & Ht1 & Ha1).
  destruct (IH _ x1 (exec_inv a w Hinv Hen) Hrun Hx1) as (x2 & Hx2 & Hid2 & Ht2 & Ha2).
  exists x2. split_and!; [done|congruence|congruence|auto].
Qed.

(** An active entry survives everything but a close of the broker, an
    unsubscription of its topic and its own unsubscription. *)
Definition keeps (s : subref) (topic : string) (a : action) : Prop :=
  match a with
  | AClose _ => False
  | AUnsubscribe t => t <> topic
  | ASubUnsubscribe s' => s' <> s
  | _ => True
  end.

Lemma deactivate_id_other id es e :
  e ∈ es -> si_id e <> id -> e ∈ Ops.deactivate_id id es.
Proof.
  induction es as [|e0 es IH]; [done|]. simpl. intros [->|He]%elem_of_cons Hne.
  - case_bool_decide; [done|]. by left.
  - case_bool_decide; right; auto.
Qed.

Lemma slice_at_insert {A} (m : gmap string (list A)) t l t' :
  slice_at (<[t := l]> m) t' = if decide (t = t') then l else slice_at m t'.
Proof. unfold slice_at. rewrite lookup_insert. by case_decide. Qed.

Lemma exec_entry a w s x topic e :
  inmem_inv w -> subs_inv w -> enabled a w -> keeps s topic a ->
  inmem_subs (w_br w) !! s = Some x -> ims_id x = si_id e ->
  e ∈ slice_at (subscribers (w_br w)) topic ->
  e ∈ slice_at (subscribers (w_br (exec a w))) topic.
Proof.
  intros Hinv Hsubs Hen Hk Hx Hid He.
  destruct a as [ctx|ctx|ctx t l opts|ctx t h opts|t|s'|m|i]; try done.
  - by destruct (exec_publish w ctx t l opts Hinv Hen) as (_ & _ & -> & _).
  - unfold exec. pose proof (Subscribe_spec ctx t h opts w Hinv) as Hsp.
    destruct (connected (w_br w)); [|by rewrite Hsp]. destruct Hsp as [-> _].
    simpl. rewrite slice_at_insert. case_decide; [subst t|done].
    apply elem_of_app. by left.
  - unfold exec. destruct (Unsubscribe_spec t w Hinv) as [-> _]. simpl.
    unfold slice_at. by rewrite lookup_delete_ne.
  - destruct Hen as [x' Hx']. unfold exec.
    destruct (sub_Unsubscribe_spec s' x' w Hinv Hx') as [-> _].
    destruct (ims_active x'); [|done]. simpl. unfold slice_at in *.
    rewrite lookup_alter. case_decide as Ht; [|done]. rewrite Ht.
    destruct (subscribers (w_br w) !! topic) as [es|]; [|done]. simpl in *.
    apply deactivate_id_other; [done|]. intros Heq. apply Hk.
    apply (si_inj _ Hsubs s' x' s x Hx' Hx). congruence.
Qed.

Lemma run_entry N `{!UuidSpec N} acts w s x topic e :
  inmem_inv w -> subs_inv w -> runnable acts w -> Forall (keeps s topic) acts ->
  uuid_ctr (w_mem (run acts w)) <= N ->
  inmem_subs (w_br w) !! s = Some x -> ims_id x = si_id e ->
  e ∈ slice_at (subscribers (w_br w)) topic ->
  e ∈ slice_at (subscribers (w_br (run acts w))) topic.
Proof.
  revert w x. induction acts as [|a acts IH]; intros w x Hinv Hsubs; [done|].
  intros [Hen Hrun] [Hk Hks]%Forall_cons HN Hx Hid He.
  pose proof (exec_inv a w Hinv Hen) as Hinv'.
  pose proof (run_uuid acts (exec a w) Hinv' Hrun). simpl in HN.
  destruct (exec_object a w s x Hinv Hen Hx) as (x1 & Hx1 & Hid1 & _).
  eapply IH; [done| |done|done|done|exact Hx1|congruence|].
  - apply (exec_subs N); [done..|lia].
  - by eapply exec_entry.
Qed.
End Subs.
