(* ===== verification/InMemoryProps.v ===== *)
(** * Properties of the in-memory broker *)

From Stdlib Require Import ZArith Lia.
From stdpp Require Import base gmap strings list fin_maps.
From S2P Require Import Prelude Store Demo Errors Message Broker InMemory InMemorySubs.

(** The world of a broker just made by [NewInMemoryBroker] in some store. *)
Definition fresh_broker `{Env} (m : mem) : World InMemoryBroker :=
  mkWorld (tick m) [] (mkInMemoryBroker ∅ ∅ false false
    (zero_metrics (clock_time (clock_ctr m))) ∅).

Lemma fresh_broker_eq `{Env} m :
  Ops.NewInMemoryBroker m = (Ok (w_br (fresh_broker m)), w_mem (fresh_broker m)).
Proof. reflexivity. Qed.

Lemma fresh_broker_inv `{Env} m : mem_wf m -> inmem_inv (fresh_broker m).
Proof.
  intros Hwf. destruct (NewInMemoryBroker_inv m Hwf) as (b & m' & Hrun & Hinv).
  rewrite fresh_broker_eq in Hrun. by simplify_eq/=.
Qed.

Lemma fresh_broker_subs `{Env} m : subs_inv (fresh_broker m).
Proof.
  split; simpl.
  - intros s x. by rewrite lookup_empty.
  - intros s1 x1 s2 x2. by rewrite lookup_empty.
  - intros t es e. by rewrite lookup_empty.
  - intros t es. by rewrite lookup_empty.
Qed.

Lemma delivered_forall m0 m clone ct ms :
  delivered m0 m clone ct ms -> Forall (fun l => content_of m l = Some ct) (clone :: ms).
Proof. intros Hdel. apply Forall_forall. apply (dl_content _ _ _ _ _ Hdel). Qed.

(** The delivered messages are distinct: a message is among its own objects. *)
Lemma delivered_NoDup m0 m clone ct ms : delivered m0 m clone ct ms -> NoDup (clone :: ms).
Proof.
  intros Hdel. apply NoDup_alt. intros i j l Hi Hj.
  eapply (dl_separate _ _ _ _ _ Hdel i j l l l); [done|done|..];
    by left.
Qed.

(** A message published to a connected broker is delivered: the clone queued
    under the topic and one goroutine per active subscriber carry its content. *)
Definition queued_and_delivered `{Env} (ctx : Ctx) (topic : string) (c : content)
    (w w' : World InMemoryBroker) : Prop :=
  exists clone ms,
    queues (w_br w') = <[topic := slice_at (queues (w_br w)) topic ++ [clone]]> (queues (w_br w)) /\
    w_go w' = w_go w ++ zip_with (task_for ctx) (active_subs (w_br w) topic) ms /\
    length ms = length (active_subs (w_br w) topic) /\
    Forall (fun m => content_of (w_mem w') m = Some c) (clone :: ms).

Lemma Publish_queued `{Env} ctx topic l c opts (w : World InMemoryBroker) :
  inmem_inv w -> connected (w_br w) = true -> content_of (w_mem w) l = Some c ->
  exists w', Ops.Publish ctx topic (Some l) opts w = (Ok None, w') /\
    mem_extends (w_mem w) (w_mem w') /\ inmem_inv w' /\
    queued_and_delivered ctx topic (published topic (now_at w) c) w w'.
Proof.
  intros Hinv Hcon Hc.
  destruct (wp_run _ _ _ (Publish_exact ctx topic l c opts w Hinv Hcon Hc))
    as (r & w' & Hrun & clone & ms & -> & Hinv' & Hext & _ & (Hbr & Hlen & Hgo) & Hdel).
  exists w'. split_and!; [done..|]. exists clone, ms. rewrite Hbr. split_and!; [done..|].
  by eapply delivered_forall.
Qed.

(** A demonstration world: connected, two subscribers to [orders], one of
    them unsubscribed again. *)
Definition demo_acts : list action :=
  [AConnect Background; ASubscribe Background "orders" (Some 7) [];
   ASubscribe Background "orders" (Some 8) []; ASubscribe Background "orders" (Some 9) [];
   ASubUnsubscribe 5].
Definition demo_world : World InMemoryBroker := run demo_acts (fresh_broker demo_mem).

Lemma demo_runnable : runnable demo_acts (fresh_broker demo_mem).
Proof. vm_compute. repeat split; eauto. Qed.

Lemma demo_world_inv : inmem_inv demo_world /\ subs_inv demo_world.
Proof.
  apply (run_inv 16); [apply fresh_broker_inv, demo_mem_wf|apply fresh_broker_subs|
    apply demo_runnable|]. vm_compute. lia.
Qed.

Lemma demo_world_msg : content_of (w_mem demo_world) demo_msg = Some demo_content.
Proof. vm_compute. reflexivity. Qed.

(** C1: publishing to a connected broker returns nil; the topic's queue grows
    by one message, and exactly one goroutine is started per active subscriber
    of the topic, in subscription order, with the subscriber's handler, the
    publisher's context and a message of its own.  The queued message and the
    delivered ones are pairwise distinct, made of objects that did not exist
    before, none of which two of them share, and each has the published
    content under the topic and stamped with the time the clock showed at the
    call.  The published message, the other queues and the subscribers are
    unchanged. *)
Theorem Publish_delivers `{Env} ctx topic l c opts (w : World InMemoryBroker) :
  inmem_inv w -> connected (w_br w) = true -> content_of (w_mem w) l = Some c ->
  exists w' clone ms,
    Ops.Publish ctx topic (Some l) opts w = (Ok None, w') /\
    queues (w_br w') =
      <[topic := slice_at (queues (w_br w)) topic ++ [clone]]> (queues (w_br w)) /\
    subscribers (w_br w') = subscribers (w_br w) /\
    w_go w' = w_go w ++ zip_with (task_for ctx) (active_subs (w_br w) topic) ms /\
    length ms = length (active_subs (w_br w) topic) /\
    NoDup (clone :: ms) /\ separate (w_mem w') (clone :: ms) /\
    Forall (all_fresh (w_mem w) (w_mem w')) (clone :: ms) /\
    Forall (fun m => content_of (w_mem w') m = Some (published topic (now_at w) c)) (clone :: ms) /\
    content_of (w_mem w') l = Some c.
Proof.
  intros Hinv Hcon Hc.
  destruct (wp_run _ _ _ (Publish_exact ctx topic l c opts w Hinv Hcon Hc))
    as (r & w' & Hrun & clone & ms & -> & _ & Hext & _ & (Hbr & Hlen & Hgo) & Hdel).
  exists w', clone, ms. rewrite Hbr. split_and!; [done..|by eapply delivered_NoDup| | | |].
  - apply (dl_separate _ _ _ _ _ Hdel).
  - apply Forall_forall, (dl_fresh _ _ _ _ _ Hdel).
  - by eapply delivered_forall.
  - rewrite (content_of_extends (w_mem w)); [done|by apply inv_mem|done|by eapply content_live].
Qed.

Lemma Publish_delivers_witness :
  exists w' clone m7 m9,
    Ops.Publish Background "orders" (Some demo_msg) [] demo_world = (Ok None, w') /\
    slice_at (queues (w_br w')) "orders" = [clone] /\
    w_go w' = [mkTask (Some 7) Background m7; mkTask (Some 9) Background m9] /\
    NoDup [clone; m7; m9].
Proof.
  destruct (Publish_delivers Background "orders" demo_msg demo_content [] demo_world
    (proj1 demo_world_inv) ltac:(reflexivity) demo_world_msg)
    as (w' & clone & ms & Hrun & Hq & _ & Hgo & Hlen & Hnd & _).
  assert (active_subs (w_br demo_world) "orders" =
    [mkSubscriberInfo (demo_uuid 0) (Some 7) true; mkSubscriberInfo (demo_uuid 2) (Some 9) true])
    as Hact by (vm_compute; reflexivity).
  rewrite Hact in Hgo, Hlen. destruct ms as [|m7 [|m9 [|? ?]]]; try discriminate Hlen.
  exists w', clone, m7, m9. split_and!; [exact Hrun| |exact Hgo|exact Hnd].
  rewrite Hq. unfold slice_at. rewrite lookup_insert_eq. reflexivity.
Defined.

(** C12: the published message, the queued one and every delivered one are
    independent: whatever is written to the objects one of them reaches, the
    content of the others does not change. *)
Theorem Publish_isolates `{Env} ctx topic l c opts (w : World InMemoryBroker) :
  inmem_inv w -> connected (w_br w) = true -> content_of (w_mem w) l = Some c ->
  exists w' clone ms,
    Ops.Publish ctx topic (Some l) opts w = (Ok None, w') /\
    w_go w' = w_go w ++ zip_with (task_for ctx) (active_subs (w_br w) topic) ms /\
    slice_at (queues (w_br w')) topic = slice_at (queues (w_br w)) topic ++ [clone] /\
    forall i j a b m'',
      (l :: clone :: ms) !! i = Some a -> (l :: clone :: ms) !! j = Some b -> i <> j ->
      differs_only_at (footprint (w_mem w') a) (w_mem w') m'' ->
      content_of m'' b = content_of (w_mem w') b.
Proof.
  intros Hinv Hcon Hc.
  destruct (wp_run _ _ _ (Publish_spec ctx topic l c opts w Hinv Hcon Hc))
    as (r & w' & Hrun & clone & ms & now & -> & Hinv' & Hext & (Hbr & Hlen & Hgo) & Hdel).
  exists w', clone, ms. split_and!; [done|done| |].
  { rewrite Hbr. simpl. by rewrite slice_at_insert, decide_True. }
  assert (separate (w_mem w') (l :: clone :: ms)) as Hsep.
  { intros i j a b x Ha Hb Hxa Hxb.
    assert (forall y, y ∈ footprint (w_mem w') l -> y < next_loc (w_mem w)) as Hl.
    { intros y. rewrite (footprint_extends (w_mem w));
        [|by apply inv_mem|done|by eapply content_live].
      apply footprint_lt; [by apply inv_mem|by eapply content_live]. }
    assert (forall k d, (clone :: ms) !! k = Some d -> x ∈ footprint (w_mem w') d ->
      next_loc (w_mem w) <= x) as Hd.
    { intros k d Hk Hx. eapply (dl_fresh _ _ _ _ _ Hdel); [|done].
      apply list_elem_of_lookup. by exists k. }
    destruct i as [|i], j as [|j]; simplify_eq/=; [done|..].
    - specialize (Hl _ Hxa). specialize (Hd _ _ Hb Hxb). lia.
    - specialize (Hl _ Hxb). specialize (Hd _ _ Ha Hxa). lia.
    - f_equal. by eapply (dl_separate _ _ _ _ _ Hdel). }
  intros i j a b m'' Ha Hb Hne Hdif. eapply differs_content; [done|].
  intros y Hyb Hya. apply Hne. by eapply Hsep.
Qed.

Lemma Publish_isolates_witness :
  exists w' clone, Ops.Publish Background "orders" (Some demo_msg) [] demo_world = (Ok None, w') /\
    slice_at (queues (w_br w')) "orders" = [clone].
Proof.
  destruct (Publish_isolates Background "orders" demo_msg demo_content [] demo_world
    (proj1 demo_world_inv) ltac:(reflexivity) demo_world_msg)
    as (w' & clone & ms & Hrun & _ & Hq & _).
  exists w', clone. split; [exact Hrun|exact Hq].
Defined.

(** C13: whatever clients do with a fresh broker (calls in any order and
    interleaving, goroutines started at any time), no reference ever dangles,
    each queued message carries the topic of its queue, and a broker that is
    not connected holds no message and no subscriber. *)
Theorem broker_run_invariant `{Env} (m : mem) (acts : list action) :
  mem_wf m -> runnable acts (fresh_broker m) ->
  let w := run acts (fresh_broker m) in
  mem_wf (w_mem w) /\
  (forall t l, l ∈ slice_at (queues (w_br w)) t ->
     exists c, content_of (w_mem w) l = Some c /\ c_topic c = t) /\
  (forall tk, tk ∈ w_go w -> is_Some (content_of (w_mem w) (task_msg tk))) /\
  (connected (w_br w) = false -> queues (w_br w) = ∅ /\ subscribers (w_br w) = ∅).
Proof.
  intros Hwf Hrun w.
  assert (inmem_inv w) as [Hm Hq Ht Hs Hi].
  { by apply run_inmem; [apply fresh_broker_inv|]. }
  split_and!; [done| | |done].
  - intros t l. unfold slice_at. destruct (queues (w_br w) !! t) as [q|] eqn:Hqt;
      [|by intros ?%elem_of_nil]. intros Hl.
    destruct (Hq _ _ _ Hqt Hl) as (x & Hx & <-).
    destruct (content_of_is_Some _ l Hm ltac:(by exists x)) as [c Hc].
    exists c. split; [done|]. destruct (content_fields _ _ _ Hc) as (y & Hy & _ & Hty & _).
    congruence.
  - intros tk Htk. by apply content_of_is_Some, Ht.
Qed.

Lemma broker_run_invariant_witness :
  mem_wf (w_mem (run demo_acts (fresh_broker demo_mem))).
Proof.
  destruct (broker_run_invariant demo_mem demo_acts demo_mem_wf demo_runnable) as [Hwf _].
  exact Hwf.
Defined.

(** C15: once the handle of a subscription has been unsubscribed, its handler
    never gets a delivery again: in no later state of the run is an entry with
    its identifier active, whatever topic is published to.  (UUIDs are assumed
    distinct.) *)
Theorem unsubscribed_is_silent `{Env} (N : nat) `{!UuidSpec N} m acts1 acts2 s x :
  mem_wf m ->
  let w1 := run acts1 (fresh_broker m) in
  let w2 := run (acts1 ++ ASubUnsubscribe s :: acts2) (fresh_broker m) in
  runnable (acts1 ++ ASubUnsubscribe s :: acts2) (fresh_broker m) ->
  inmem_subs (w_br w1) !! s = Some x -> uuid_ctr (w_mem w2) <= N ->
  forall topic e, e ∈ active_subs (w_br w2) topic -> si_id e <> ims_id x.
Proof.
  intros Hwf w1 w2 Hrun Hx HN topic e He Heq.
  pose proof (fresh_broker_inv m Hwf) as Hinv0.
  destruct (run_inv N _ _ Hinv0 (fresh_broker_subs m) Hrun HN) as [Hinv2 Hsub2].
  apply runnable_app in Hrun as [Hr1 [Hen Hr2]].
  pose proof (run_inmem _ _ Hinv0 Hr1) as Hinv1.
  assert (exists x', inmem_subs (w_br (exec (ASubUnsubscribe s) w1)) !! s = Some x' /\
    ims_id x' = ims_id x /\ ims_active x' = false) as (x' & Hx' & Hid' & Ha').
  { unfold exec. destruct (sub_Unsubscribe_spec s x w1 Hinv1 Hx) as [-> _].
    destruct (ims_active x) eqn:Ha; [|by exists x]. simpl. rewrite lookup_insert_eq. by eexists. }
  destruct (run_object acts2 _ s x' (exec_inv _ w1 Hinv1 Hen) Hr2 Hx')
    as (x2 & Hx2 & Hid2 & _ & Ha2).
  unfold active_subs, slice_at in He.
  destruct (subscribers (w_br w2) !! topic) as [es|] eqn:Hes; [|by apply elem_of_nil in He].
  apply list_elem_of_filter in He as [Hact He].
  destruct (si_owner _ Hsub2 _ _ _ Hes He) as (s3 & x3 & Hx3 & Hid3 & _ & Ha3).
  unfold w2 in Hx3. rewrite run_app in Hx3. cbn [run] in Hx3. fold w1 in Hx3.
  assert (s3 = s) as ->.
  { eapply (si_inj _ Hsub2); [unfold w2; rewrite run_app; exact Hx3|
      unfold w2; rewrite run_app; exact Hx2|congruence]. }
  rewrite Hx2 in Hx3. injection Hx3 as <-. rewrite (Ha2 (Ha3 Hact)) in Ha'. done.
Qed.

Lemma demo_acts_split : take 4 demo_acts ++ ASubUnsubscribe 5 :: [] = demo_acts.
Proof. reflexivity. Qed.

Lemma demo_world_split :
  demo_world = run (take 4 demo_acts ++ ASubUnsubscribe 5 :: []) (fresh_broker demo_mem).
Proof. rewrite demo_acts_split. reflexivity. Qed.

Lemma demo_unsubscribed :
  runnable (take 4 demo_acts ++ ASubUnsubscribe 5 :: []) (fresh_broker demo_mem) /\
  inmem_subs (w_br (run (take 4 demo_acts) (fresh_broker demo_mem))) !! 5 =
    Some (mkInMemorySub (demo_uuid 1) "orders" true) /\
  uuid_ctr (w_mem (run (take 4 demo_acts ++ ASubUnsubscribe 5 :: []) (fresh_broker demo_mem))) <= 16.
Proof.
  rewrite demo_acts_split. split; [exact demo_runnable|]. split; [vm_compute; reflexivity|].
  vm_compute. lia.
Qed.

Lemma unsubscribed_is_silent_witness :
  Forall (fun e => si_id e <> demo_uuid 1) (active_subs (w_br demo_world) "orders").
Proof.
  destruct demo_unsubscribed as (Hrun & Hsub & Hids).
  apply Forall_forall. intros e He. rewrite demo_world_split in He.
  exact (unsubscribed_is_silent 16 demo_mem (take 4 demo_acts) [] 5
    (mkInMemorySub (demo_uuid 1) "orders" true) demo_mem_wf Hrun Hsub Hids "orders" e He).
Defined.

(** In a list of entries with distinct identifiers, an active entry is the
    only one with its identifier. *)
Lemma filter_unique_id e es :
  e ∈ es -> si_active e = true -> NoDup (si_id <$> es) ->
  filter (fun e' => si_id e' = si_id e) (filter (fun e' => si_active e' = true) es) = [e].
Proof.
  intros He Ha Hnd. apply filter_key_unique; [|by apply list_elem_of_filter].
  eapply sublist_NoDup; [done|]. apply fmap_sublist, sublist_filter.
Qed.

(** C16: a subscription keeps its share of the deliveries: after [Subscribe]
    returned it, and as long as the broker is not closed, its topic not
    unsubscribed and its handle not unsubscribed, exactly one active entry of
    the topic is its own, so every publication starts its handler once. *)
Theorem subscription_kept `{Env} (N : nat) `{!UuidSpec N} m acts1 acts2 ctx topic h opts s id :
  mem_wf m ->
  let w1 := run acts1 (fresh_broker m) in
  let w2 := run (acts1 ++ ASubscribe ctx topic h opts :: acts2) (fresh_broker m) in
  runnable (acts1 ++ ASubscribe ctx topic h opts :: acts2) (fresh_broker m) ->
  (Ops.Subscribe ctx topic h opts w1).1 = Ok (Some s, None) ->
  id = uuid_String (uuid_ctr (w_mem w1)) ->
  Forall (keeps s topic) acts2 -> uuid_ctr (w_mem w2) <= N ->
  filter (fun e => si_id e = id) (active_subs (w_br w2) topic) = [mkSubscriberInfo id h true].
Proof.
  intros Hwf w1 w2 Hrun Hsub -> Hk HN.
  pose proof (fresh_broker_inv m Hwf) as Hinv0.
  destruct (run_inv N _ _ Hinv0 (fresh_broker_subs m) Hrun HN) as [Hinv2 Hsub2].
  apply runnable_app in Hrun as [Hr1 [Hen Hr2]].
  pose proof (run_inmem _ _ Hinv0 Hr1) as Hinv1.
  unfold w2 in *. rewrite run_app in *. cbn [run] in *. fold w1 in Hinv1, Hinv2, Hsub2, HN, Hr2 |- *.
  set (w3 := exec (ASubscribe ctx topic h opts) w1) in *.
  pose proof (exec_inv (ASubscribe ctx topic h opts) w1 Hinv1 Hen : inmem_inv w3) as Hinv3.
  pose proof (run_uuid acts2 w3 Hinv3 Hr2) as Hu3.
  assert (subs_inv w3) as Hsub3.
  { apply (run_inv N (acts1 ++ [ASubscribe ctx topic h opts]) (fresh_broker m)) in Hinv0 as [_ Hs];
      rewrite ?run_app in *; [exact Hs|apply fresh_broker_subs|by apply runnable_app|].
    cbn [run]. fold w1 w3. lia. }
  set (id := uuid_String (uuid_ctr (w_mem w1))) in *.
  pose proof (Subscribe_spec ctx topic h opts w1 Hinv1) as Hsp.
  destruct (connected (w_br w1)); [|by rewrite Hsp in Hsub]. destruct Hsp as [Heq _].
  rewrite Heq in Hsub. injection Hsub as Hs.
  assert (inmem_subs (w_br w3) !! s = Some (mkInMemorySub id topic true)) as Hx3.
  { unfold w3, exec. rewrite Heq. simpl. by rewrite Hs, lookup_insert_eq. }
  assert (mkSubscriberInfo id h true ∈ slice_at (subscribers (w_br w3)) topic) as He3.
  { unfold w3, exec. rewrite Heq. simpl. rewrite slice_at_insert, decide_True by done.
    apply elem_of_app. right. by apply list_elem_of_singleton. }
  pose proof (run_entry N acts2 w3 s _ topic (mkSubscriberInfo id h true) Hinv3 Hsub3 Hr2 Hk HN
    Hx3 eq_refl He3) as He.
  unfold active_subs, slice_at in *.
  destruct (subscribers (w_br (run acts2 w3)) !! topic) as [es|] eqn:Hes;
    [|by apply elem_of_nil in He].
  by apply (filter_unique_id (mkSubscriberInfo id h true)), (si_nodup _ Hsub2 _ _ Hes).
Qed.

Lemma subscription_kept_witness :
  filter (fun e => si_id e = demo_uuid 0) (active_subs (w_br demo_world) "orders") =
    [mkSubscriberInfo (demo_uuid 0) (Some 7) true].
Proof.
  apply (subscription_kept 16 demo_mem (take 1 demo_acts) (drop 2 demo_acts)
    Background "orders" (Some 7) [] 4 (demo_uuid 0) demo_mem_wf demo_runnable);
    [vm_compute; reflexivity|vm_compute; reflexivity|repeat constructor; discriminate
    |vm_compute; lia].
Defined.

(** C39: once a connected broker was closed, whatever clients did before and do
    afterwards, a [Close] that finds it connected again panics, closing the
    stop channel twice, and changes nothing: the broker stays connected, with
    its queues and its subscribers. *)
Theorem Close_after_reconnect_panics `{Env} c1 c2 (m : mem) (acts1 acts2 : list action) :
  mem_wf m -> runnable (acts1 ++ AClose c1 :: acts2) (fresh_broker m) ->
  let w1 := run acts1 (fresh_broker m) in
  let w2 := run (acts1 ++ AClose c1 :: acts2) (fresh_broker m) in
  connected (w_br w1) = true -> connected (w_br w2) = true ->
  Ops.Close c2 w2 = (Panic CloseOfClosedChannel, w2).
Proof.
  intros Hwf Hrun w1 w2 Hc1 Hc2. pose proof (fresh_broker_inv m Hwf) as Hinv0.
  apply runnable_app in Hrun as [Hr1 [Hen Hr2]].
  pose proof (run_inmem _ _ Hinv0 Hr1 : inmem_inv w1) as Hinv1.
  apply Close_panics; [done|]. unfold w2. rewrite run_app. cbn [run]. fold w1 in Hr2 |- *.
  apply run_stopCh; [by apply exec_inv|done|].
  unfold exec. pose proof (Close_spec c1 w1 Hinv1) as Hsp. rewrite Hc1 in Hsp.
  destruct (stopCh_closed (w_br w1)) eqn:Hst; [by rewrite Hsp|].
  by destruct Hsp as (b & -> & _ & _ & Hb & _).
Qed.

(** The demonstration broker closed, connected again and used. *)
Definition reconnect_acts : list action :=
  demo_acts ++ AClose Background :: [AConnect Background;
    ASubscribe Background "orders" (Some 7) []; APublish Background "orders" (Some demo_msg) []].

Lemma reconnect_runnable : runnable reconnect_acts (fresh_broker demo_mem).
Proof. apply runnable_app. split; [apply demo_runnable|]. vm_compute. repeat split; eauto. Qed.

Lemma Close_after_reconnect_panics_witness :
  Ops.Close Background (run reconnect_acts (fresh_broker demo_mem)) =
    (Panic CloseOfClosedChannel, run reconnect_acts (fresh_broker demo_mem)).
Proof.
  apply (Close_after_reconnect_panics Background Background demo_mem demo_acts
    [AConnect Background; ASubscribe Background "orders" (Some 7) [];
     APublish Background "orders" (Some demo_msg) []] demo_mem_wf reconnect_runnable);
    vm_compute; reflexivity.
Defined.

(** ** Batches *)

(** The goroutines of a batch, given the copies delivered of each message. *)
Definition batch_tasks (ctx : Ctx) (subs : list subscriberInfo) (mss : list (list loc)) :
    list task :=
  concat (zip_with (task_for ctx) subs <$> mss).

(** What is made of the messages of a batch: [rs] has, per message, the copy
    queued and the copies delivered, one per active subscriber. *)
Record batch_delivered `{Env} (m0 m : mem) (topic : string) (n : nat) (cs : list content)
    (rs : list (loc * list loc)) : Prop := {
  bd_messages : Forall2 (fun c r => length r.2 = n /\
    exists i, clock_ctr m0 <= i < clock_ctr m /\
    Forall (fun l => content_of m l = Some (published topic (clock_time i) c)) (r.1 :: r.2)) cs rs;
  bd_fresh : Forall (all_fresh m0 m) (concat ((fun r => r.1 :: r.2) <$> rs));
  bd_NoDup : NoDup (concat ((fun r => r.1 :: r.2) <$> rs)) }.

Lemma all_fresh_extends m0 m m' l :
  mem_wf m -> mem_extends m m' -> is_Some (msgs_of m !! l) -> all_fresh m0 m l ->
  all_fresh m0 m' l.
Proof. intros Hwf Hext Hl Hf x. rewrite (footprint_extends m m') by done. apply Hf. Qed.

Lemma all_fresh_mono m0 m1 m l : next_loc m0 <= next_loc m1 -> all_fresh m1 m l -> all_fresh m0 m l.
Proof. intros Hle Hf x Hx. specialize (Hf x Hx). lia. Qed.

(** One more message in front of a batch. *)
Lemma batch_cons `{Env} m0 m1 m topic n c clone ms cs rs :
  mem_wf m1 -> mem_extends m0 m1 -> mem_extends m1 m -> clock_ctr m0 < clock_ctr m1 ->
  clock_ctr m1 <= clock_ctr m -> length ms = n ->
  delivered m0 m1 clone (published topic (clock_time (clock_ctr m0)) c) ms ->
  batch_delivered m1 m topic n cs rs -> batch_delivered m0 m topic n (c :: cs) ((clone, ms) :: rs).
Proof.
  intros Hwf Hext Hext' Hck Hck' Hlen Hdel [Hm Hf Hn].
  assert (forall l, l ∈ clone :: ms -> is_Some (msgs_of m1 !! l)) as Hlive
    by apply (dl_live _ _ _ _ _ Hdel).
  split.
  - constructor.
    + split; [done|]. exists (clock_ctr m0). split; [lia|]. apply Forall_forall. intros l Hl.
      rewrite (content_of_extends m1) by auto. by apply (dl_content _ _ _ _ _ Hdel).
    + eapply Forall2_impl; [exact Hm|]. intros c' r (? & i & ? & ?). split; [done|].
      exists i. split; [lia|done].
  - rewrite fmap_cons. cbn [concat]. apply Forall_app. split.
    + apply Forall_forall. intros l Hl. apply (all_fresh_extends m0 m1); auto.
      by apply (dl_fresh _ _ _ _ _ Hdel).
    + eapply Forall_impl; [exact Hf|]. intros l. apply all_fresh_mono, (ext_next _ _ Hext).
  - rewrite fmap_cons. cbn [concat]. apply NoDup_app. split_and!; [by eapply delivered_NoDup| |done].
    intros l Hl Hl'. rewrite Forall_forall in Hf. specialize (Hf l Hl' l ltac:(by left)).
    pose proof (footprint_lt m1 l l Hwf (Hlive l Hl) ltac:(by left)). lia.
Qed.

(** A batch, message after message. *)
Lemma PublishBatch_spec `{Env} ctx topic opts ls cs (w : World InMemoryBroker) :
  inmem_inv w -> connected (w_br w) = true ->
  Forall2 (fun l c => content_of (w_mem w) l = Some c) ls cs ->
  exists w' rs,
    Ops.PublishBatch ctx topic (Some <$> ls) opts w = (Ok None, w') /\
    inmem_inv w' /\ mem_extends (w_mem w) (w_mem w') /\
    clock_ctr (w_mem w) <= clock_ctr (w_mem w') /\
    slice_at (queues (w_br w')) topic = slice_at (queues (w_br w)) topic ++ rs.*1 /\
    w_go w' = w_go w ++ batch_tasks ctx (active_subs (w_br w) topic) rs.*2 /\
    batch_delivered (w_mem w) (w_mem w') topic (length (active_subs (w_br w) topic)) cs rs /\
    (forall t, t <> topic -> queues (w_br w') !! t = queues (w_br w) !! t) /\
    subscribers (w_br w') = subscribers (w_br w).
Proof.
  intros Hinv Hcon Hcs. revert w Hinv Hcon Hcs.
  revert cs. induction ls as [|l ls IH]; intros cs w Hinv Hcon Hcs.
  - apply Forall2_nil_inv_l in Hcs as ->. exists w, [].
    unfold batch_tasks. rewrite !app_nil_r. split_and!; try done. split; constructor.
  - apply Forall2_cons_inv_l in Hcs as (c & cs' & Hc & Hcs & ->).
    destruct (wp_run _ _ _ (Publish_exact ctx topic l c opts w Hinv Hcon Hc))
      as (r & w1 & Hrun & clone & ms & -> & Hinv1 & Hext & Hck & (Hbr & Hlen & Hgo) & Hdel).
    assert (connected (w_br w1) = true) as Hcon1 by (by rewrite Hbr).
    assert (active_subs (w_br w1) topic = active_subs (w_br w) topic) as Hact by (by rewrite Hbr).
    destruct (IH cs' w1 Hinv1 Hcon1) as (w' & rs & Hrun' & Hinv' & Hext' & Hck' & Hq & Hgo' & Hb & Hoth & Hs).
    { eapply Forall2_impl; [exact Hcs|]. simpl. intros l' c' Hc'.
      rewrite (content_of_extends (w_mem w)); [done|by apply inv_mem|done|by eapply content_live]. }
    rewrite Hact in Hgo', Hb. exists w', ((clone, ms) :: rs). split_and!.
    + change (Some <$> l :: ls) with (Some l :: (Some <$> ls)). simpl.
      by rewrite (bind_ok _ _ _ _ _ Hrun).
    + done.
    + by etrans.
    + lia.
    + rewrite Hq, Hbr. simpl. by rewrite slice_at_insert, decide_True, <- app_assoc by done.
    + rewrite Hgo', Hgo, <- app_assoc. done.
    + apply (batch_cons (w_mem w) (w_mem w1)); [by apply inv_mem|done|done|lia|done|done|done|done].
    + intros t Ht. rewrite Hoth by done. rewrite Hbr. simpl. by rewrite lookup_insert_ne.
    + by rewrite Hs, Hbr.
Qed.

(** C28: [PublishBatch] on a connected broker returns nil.  It appends a copy
    of each message of the batch to the topic's queue, in their order, after
    what was there, and starts the goroutines of the messages in the same
    order: for each message one goroutine per active subscriber, in
    subscription order, each with its own copy.  Every copy has the content of
    its message under the topic and a time read during the call; the copies
    are new and pairwise distinct; the other queues, the subscribers and the
    messages of the batch are unchanged. *)
Theorem PublishBatch_in_order `{Env} ctx topic ls cs opts (w : World InMemoryBroker) :
  inmem_inv w -> connected (w_br w) = true ->
  Forall2 (fun l c => content_of (w_mem w) l = Some c) ls cs ->
  exists w' rs,
    Ops.PublishBatch ctx topic (Some <$> ls) opts w = (Ok None, w') /\
    slice_at (queues (w_br w')) topic = slice_at (queues (w_br w)) topic ++ rs.*1 /\
    w_go w' = w_go w ++ batch_tasks ctx (active_subs (w_br w) topic) rs.*2 /\
    batch_delivered (w_mem w) (w_mem w') topic (length (active_subs (w_br w) topic)) cs rs /\
    (forall t, t <> topic -> queues (w_br w') !! t = queues (w_br w) !! t) /\
    subscribers (w_br w') = subscribers (w_br w) /\
    Forall2 (fun l c => content_of (w_mem w') l = Some c) ls cs.
Proof.
  intros Hinv Hcon Hcs.
  destruct (PublishBatch_spec ctx topic opts ls cs w Hinv Hcon Hcs)
    as (w' & rs & Hrun & _ & Hext & _ & Hq & Hgo & Hb & Hoth & Hsub).
  exists w', rs. split_and!; [done..|]. eapply Forall2_impl; [exact Hcs|]. simpl. intros l c Hc.
  rewrite (content_of_extends (w_mem w)); [done|by apply inv_mem|done|by eapply content_live].
Qed.

Lemma PublishBatch_in_order_witness :
  exists w' q1 q2 a7 a9 b7 b9,
    Ops.PublishBatch Background "orders" [Some demo_msg; Some demo_msg] [] demo_world = (Ok None, w')
    /\ slice_at (queues (w_br w')) "orders" = [q1; q2] /\
    w_go w' = [mkTask (Some 7) Background a7; mkTask (Some 9) Background a9;
               mkTask (Some 7) Background b7; mkTask (Some 9) Background b9] /\
    NoDup [q1; a7; a9; q2; b7; b9].
Proof.
  destruct (PublishBatch_in_order Background "orders" [demo_msg; demo_msg]
    [demo_content; demo_content] [] demo_world (proj1 demo_world_inv) ltac:(reflexivity)
    ltac:(repeat constructor; apply demo_world_msg))
    as (w' & rs & Hrun & Hq & Hgo & [Hms _ Hnd] & _).
  assert (active_subs (w_br demo_world) "orders" =
    [mkSubscriberInfo (demo_uuid 0) (Some 7) true; mkSubscriberInfo (demo_uuid 2) (Some 9) true])
    as Hact by (vm_compute; reflexivity).
  assert (slice_at (queues (w_br demo_world)) "orders" = []) as Hq0 by (vm_compute; reflexivity).
  assert (w_go demo_world = []) as Hgo0 by (vm_compute; reflexivity).
  rewrite Hact in Hgo, Hms. rewrite Hq0 in Hq. rewrite Hgo0 in Hgo.
  destruct rs as [|[q1 ms1] [|[q2 ms2] [|? rs]]];
    [by inversion Hms| |  |]; inversion Hms as [|? ? ? ? [Hl1 _] Hms2]; subst;
    inversion Hms2 as [|? ? ? ? [Hl2 _] Hms3]; subst; [|by inversion Hms3].
  destruct ms1 as [|a7 [|a9 [|? ?]]]; try discriminate Hl1.
  destruct ms2 as [|b7 [|b9 [|? ?]]]; try discriminate Hl2.
  exists w', q1, q2, a7, a9, b7, b9. split_and!; [exact Hrun|exact Hq|exact Hgo|exact Hnd].
Defined.

(** The metrics of an in-memory broker never change: whatever is called,
    [GetMetrics] returns the counters [NewInMemoryBroker] made, all zero. *)
Theorem metrics_never_updated `{Env} (m : mem) (acts : list action) :
  mem_wf m -> runnable acts (fresh_broker m) ->
  let w := run acts (fresh_broker m) in
  Ops.GetMetrics w = (Ok (zero_metrics (clock_time (clock_ctr m))), w).
Proof.
  intros Hwf Hrun w.
  assert (metrics (w_br w) = metrics (w_br (fresh_broker m))) as Heq;
    [|unfold Ops.GetMetrics, bind, get_br, gets, ret; by rewrite Heq].
  unfold w. clear w. pose proof (fresh_broker_inv m Hwf) as Hinv. revert Hrun Hinv.
  generalize (fresh_broker m). induction acts as [|a acts IH]; intros w; [done|].
  intros [Hen Hrun] Hinv. simpl. rewrite IH by (first [by apply exec_inv|done]).
  by apply exec_metrics.
Qed.

Definition metrics_acts : list action :=
  demo_acts ++ [APublish Background "orders" (Some demo_msg) []].

Lemma metrics_acts_runnable : runnable metrics_acts (fresh_broker demo_mem).
Proof. apply runnable_app. split; [apply demo_runnable|]. vm_compute. eauto. Qed.

Lemma metrics_never_updated_witness :
  (Ops.GetMetrics (run metrics_acts (fresh_broker demo_mem))).1 =
    Ok (zero_metrics (clock_time (clock_ctr demo_mem))).
Proof.
  exact (f_equal fst (metrics_never_updated demo_mem metrics_acts demo_mem_wf
    metrics_acts_runnable)).
Defined.
