(* ===== verification/PubSub.v ===== *)
(** * The in-memory broker as an abstract publish/subscribe service

    [PubSub] is what a user of the broker has in mind: per topic, the list of
    published contents and the list of active subscriptions; no store, no
    references, no inactive entries, no subscription objects.  [pb_step] says
    what every action returns, which handlers it starts on which content, and
    how it changes the state.  The broker's model refines it: [abs] maps every
    reachable world to a [PubSub], and every action to a step. *)

From Stdlib Require Import ZArith Lia.
From stdpp Require Import base gmap strings list fin_maps.
From S2P Require Import Prelude Store Demo Errors Message Broker InMemory InMemorySubs InMemoryProps.

(** ** The specification *)

Record PubSub := mkPubSub {
  pb_connected : bool;
  pb_stopped : bool;                    (* closed once *)
  pb_queues : gmap string (list (option content));
  pb_subs : gmap string (list (string * option handler)) }.   (* identifier and handler *)

Inductive pb_result :=
| PsNil                                 (* returned nil *)
| PsError (e : error)
| PsSubscribed (id : string)
| PsPanic (p : panic).

(** A handler started on a context and a content. *)
Definition delivery : Type := option handler * Ctx * option content.

(** Actions on contents; the time of a publication and the identifier of a
    subscription are chosen by the service. *)
Inductive pb_action :=
| PsConnect
| PsClose
| PsPublish (ctx : Ctx) (topic : string) (c : content) (now : Time)
| PsPublishNil (topic : string)
| PsSubscribe (topic : string) (h : option handler) (id : string)
| PsUnsubscribe (topic : string)
| PsEnd (id : string)
| PsIdle.

Definition pb_step (a : pb_action) (g : PubSub) : pb_result * list delivery * PubSub :=
  let 'mkPubSub conn stopped qs ss := g in
  match a with
  | PsConnect => (PsNil, [], mkPubSub true stopped qs ss)
  | PsClose =>
    if negb conn then (PsNil, [], g)
    else if stopped then (PsPanic CloseOfClosedChannel, [], g)
    else (PsNil, [], mkPubSub false true ∅ ∅)
  | PsPublish ctx topic c now =>
    if negb conn then (PsError (ErrSentinel ErrNotConnected), [], g)
    else
      let c' := published topic now c in
      (PsNil, (fun s => (s.2, ctx, Some c')) <$> slice_at ss topic,
       mkPubSub conn stopped (<[topic := slice_at qs topic ++ [Some c']]> qs) ss)
  | PsPublishNil topic =>
    if negb conn then (PsError (ErrSentinel ErrNotConnected), [], g)
    else (PsPanic NilDereference, [], g)
  | PsSubscribe topic h id =>
    if negb conn then (PsError (ErrSentinel ErrNotConnected), [], g)
    else (PsSubscribed id, [], mkPubSub conn stopped qs (<[topic := slice_at ss topic ++ [(id, h)]]> ss))
  | PsUnsubscribe topic => (PsNil, [], mkPubSub conn stopped qs (delete topic ss))
  | PsEnd id =>
    (PsNil, [], mkPubSub conn stopped qs ((fun l => filter (fun s => s.1 <> id) l) <$> ss))
  | PsIdle => (PsNil, [], g)
  end.

Definition pb_new : PubSub := mkPubSub false false ∅ ∅.

(** ** The abstraction *)

Definition entry_view (e : subscriberInfo) : string * option handler := (si_id e, si_handler e).

Definition abs_subs (es : list subscriberInfo) : list (string * option handler) :=
  entry_view <$> filter (fun e => si_active e = true) es.

Definition abs_queue (m : mem) (q : list loc) : list (option content) := content_of m <$> q.

Definition abs (w : World InMemoryBroker) : PubSub :=
  {| pb_connected := connected (w_br w);
     pb_stopped := stopCh_closed (w_br w);
     pb_queues := abs_queue (w_mem w) <$> queues (w_br w);
     pb_subs := abs_subs <$> subscribers (w_br w) |}.

(** The action of the specification an action of the broker stands for. *)
Inductive abstracts (w : World InMemoryBroker) : action -> pb_action -> Prop :=
| abs_Connect ctx : abstracts w (AConnect ctx) PsConnect
| abs_Close ctx : abstracts w (AClose ctx) PsClose
| abs_Publish ctx topic l opts c now :
    content_of (w_mem w) l = Some c ->
    abstracts w (APublish ctx topic (Some l) opts) (PsPublish ctx topic c now)
| abs_PublishNil ctx topic opts :
    abstracts w (APublish ctx topic None opts) (PsPublishNil topic)
| abs_Subscribe ctx topic h opts id :
    abstracts w (ASubscribe ctx topic h opts) (PsSubscribe topic h id)
| abs_Unsubscribe topic : abstracts w (AUnsubscribe topic) (PsUnsubscribe topic)
| abs_End s x :
    inmem_subs (w_br w) !! s = Some x -> abstracts w (ASubUnsubscribe s) (PsEnd (ims_id x))
| abs_Client m : abstracts w (AClient m) PsIdle
| abs_Run i : abstracts w (ARun i) PsIdle.

Definition result_of (o : outcome (option error)) : pb_result :=
  match o with
  | Ok None => PsNil
  | Ok (Some e) => PsError e
  | Panic p => PsPanic p
  end.

(** What an action returned: [Subscribe] a subscription with an identifier. *)
Definition observed `{Env} (a : action) (w : World InMemoryBroker) : pb_result :=
  match a with
  | AConnect ctx => result_of (Ops.Connect ctx w).1
  | AClose ctx => result_of (Ops.Close ctx w).1
  | APublish ctx t l opts => result_of (Ops.Publish ctx t l opts w).1
  | ASubscribe ctx t h opts =>
    match Ops.Subscribe ctx t h opts w with
    | (Ok (Some s, None), w') =>
      match (Ops.sub_ID s w').1 with Ok id => PsSubscribed id | Panic p => PsPanic p end
    | (Ok (_, Some e), _) => PsError e
    | (Ok (None, None), _) => PsNil
    | (Panic p, _) => PsPanic p
    end
  | AUnsubscribe t => result_of (Ops.Unsubscribe t w).1
  | ASubUnsubscribe s => result_of (Ops.sub_Unsubscribe s w).1
  | AClient _ | ARun _ => PsNil
  end.

(** The goroutines an action started, with the content they are handed. *)
Definition deliveries (w w' : World InMemoryBroker) : list delivery :=
  (fun tk => (task_handler tk, task_ctx tk, content_of (w_mem w') (task_msg tk))) <$>
    drop (length (w_go w)) (w_go w').

(** ** Lemmas *)

Section Refinement.
Context `{Env}.

Lemma abs_fresh m : abs (fresh_broker m) = pb_new.
Proof. unfold abs, pb_new, fresh_broker. simpl. by rewrite !fmap_empty. Qed.

Lemma slice_at_fmap {A B} (f : list A -> list B) (m : gmap string (list A)) t :
  f [] = [] -> slice_at (f <$> m) t = f (slice_at m t).
Proof. intros Hf. unfold slice_at. rewrite lookup_fmap. by destruct (m !! t). Qed.

Lemma deliveries_none w w' : w_go w' = w_go w -> deliveries w w' = [].
Proof. intros Hgo. unfold deliveries. by rewrite Hgo, drop_all. Qed.

(** The world has not changed. *)
Ltac unchanged := rewrite deliveries_none by done; unfold abs; simpl; repeat match goal with
  | Hc : ?x = _ |- context [?x] => rewrite Hc end; done.

(** Ending a subscription removes it, and only it. *)
Lemma abs_subs_deactivate id es :
  NoDup (si_id <$> es) ->
  abs_subs (Ops.deactivate_id id es) = filter (fun s => s.1 <> id) (abs_subs es).
Proof.
  unfold abs_subs. induction es as [|e es IH]; [done|]. rewrite fmap_cons.
  intros [Hni Hnd]%NoDup_cons. simpl. case_bool_decide as Hid.
  - rewrite filter_cons_False by done.
    assert (filter (fun s => s.1 <> id) (entry_view <$> filter (fun e => si_active e = true) es)
      = entry_view <$> filter (fun e => si_active e = true) es) as Hall.
    { apply filter_every. intros s (e' & -> & [_ He']%list_elem_of_filter)%list_elem_of_fmap.
      intros Heq. apply Hni. rewrite Hid, <- Heq. apply (list_elem_of_fmap_2 si_id _ _ He'). }
    rewrite filter_cons. case_decide; [|by rewrite Hall].
    rewrite fmap_cons, filter_cons_False, Hall; [done|]. simpl. naive_solver.
  - rewrite !filter_cons. case_decide; [|by apply IH].
    rewrite !fmap_cons, filter_cons_True by done. by rewrite IH.
Qed.

(** No active entry carries the identifier of an inactive object, nor is it
    found under another topic. *)
Lemma abs_subs_other w s x t es :
  subs_inv w -> inmem_subs (w_br w) !! s = Some x ->
  subscribers (w_br w) !! t = Some es -> (ims_active x = false \/ t <> ims_topic x) ->
  filter (fun y => y.1 <> ims_id x) (abs_subs es) = abs_subs es.
Proof.
  intros Hsub Hx Hes Hor. apply filter_every.
  intros y (e & -> & [Hact He]%list_elem_of_filter)%list_elem_of_fmap Heq. simpl in Heq.
  destruct (si_owner _ Hsub _ _ _ Hes He) as (s' & x' & Hx' & Hid' & Ht' & Ha').
  assert (s' = s) as -> by (apply (si_inj _ Hsub _ _ _ _ Hx' Hx); congruence).
  rewrite Hx in Hx'. simplify_eq. destruct Hor as [Hf|Hf]; [|done].
  by rewrite (Ha' Hact) in Hf.
Qed.

Lemma abs_end w s x :
  subs_inv w -> inmem_subs (w_br w) !! s = Some x ->
  (fun l => filter (fun y => y.1 <> ims_id x) l) <$> (abs_subs <$> subscribers (w_br w)) =
  abs_subs <$> (if ims_active x then alter (Ops.deactivate_id (ims_id x)) (ims_topic x)
                  (subscribers (w_br w)) else subscribers (w_br w)).
Proof.
  intros Hsub Hx. apply map_eq. intros t. rewrite !lookup_fmap.
  destruct (ims_active x) eqn:Ha.
  - rewrite lookup_alter. case_decide as Ht.
    + subst t. destruct (subscribers (w_br w) !! ims_topic x) as [es|] eqn:Hes; [|done]. simpl.
      by rewrite abs_subs_deactivate by by eapply si_nodup.
    + destruct (subscribers (w_br w) !! t) as [es|] eqn:Hes; [|done]. simpl.
      f_equal. eapply abs_subs_other; eauto.
  - destruct (subscribers (w_br w) !! t) as [es|] eqn:Hes; [|done]. simpl.
    f_equal. eapply abs_subs_other; eauto.
Qed.

(** Contents of queued messages survive an extension of the store. *)
Lemma abs_queues_extends w m :
  inmem_inv w -> mem_extends (w_mem w) m ->
  abs_queue m <$> queues (w_br w) =
  abs_queue (w_mem w) <$> queues (w_br w).
Proof.
  intros Hinv Hext. apply map_eq. intros t. rewrite !lookup_fmap.
  destruct (queues (w_br w) !! t) as [q|] eqn:Hq; [|done]. simpl. f_equal.
  apply list_fmap_ext. intros i l Hl. apply content_of_extends; [apply Hinv|done|].
  destruct (inv_queues _ Hinv _ _ l Hq) as (y & Hy & _); [|by eexists].
  by eapply list_elem_of_lookup_2.
Qed.

Lemma deliver_view ctx (es : list subscriberInfo) ms m c :
  length ms = length es -> (forall l, l ∈ ms -> content_of m l = Some c) ->
  (fun tk => (task_handler tk, task_ctx tk, content_of m (task_msg tk))) <$>
    zip_with (task_for ctx) es ms =
  (fun s => (s.2, ctx, Some c)) <$> (entry_view <$> es).
Proof.
  revert ms. induction es as [|e es IH]; intros [|l ms] Hlen Hc; simplify_eq/=; [done|].
  f_equal; [by rewrite Hc by left|]. apply IH; [done|]. intros l' Hl'. apply Hc. by right.
Qed.

Lemma refine_publish ctx topic l opts c w :
  inmem_inv w -> content_of (w_mem w) l = Some c ->
  let a := APublish ctx topic (Some l) opts in
  exists now, pb_step (PsPublish ctx topic c now) (abs w) =
    (observed a w, deliveries w (exec a w), abs (exec a w)).
Proof.
  intros Hinv Hc a. unfold abs at 1, observed, a, exec, pb_step.
  destruct (connected (w_br w)) eqn:Hcon; simpl.
  - destruct (wp_run _ _ _ (Publish_spec ctx topic l c opts w Hinv Hcon Hc))
      as (r & w' & -> & clone & ms & now & -> & Hinv' & Hext & (Hbr & Hlen & Hgo) & Hdel).
    exists (clock_time now). cbn [fst snd result_of].
    assert (deliveries w w' = (fun s => (s.2, ctx, Some (published topic (clock_time now) c))) <$>
      abs_subs (slice_at (subscribers (w_br w)) topic)) as ->.
    { unfold deliveries. rewrite Hgo, drop_app_length. apply deliver_view; [done|].
      intros l' Hl'. apply (dl_content _ _ _ _ _ Hdel). by right. }
    rewrite slice_at_fmap by done. f_equal.
    unfold abs. rewrite Hbr. simpl. rewrite Hcon. f_equal.
    rewrite fmap_insert, slice_at_fmap by done. unfold abs_queue at 3. rewrite fmap_app. simpl.
    rewrite (abs_queues_extends w (w_mem w')) by done.
    rewrite (dl_content _ _ _ _ _ Hdel clone) by by left.
    f_equal. f_equal. unfold slice_at. destruct (queues (w_br w) !! topic) as [q|] eqn:Hq; [|done].
    simpl. apply list_fmap_ext. intros i k Hk. symmetry. apply content_of_extends; [apply Hinv|done|].
    destruct (inv_queues _ Hinv _ _ k Hq) as (y & Hy & _); [|by eexists].
    by eapply list_elem_of_lookup_2.
  - exists (mkTime 0 0). rewrite (Publish_disconnected ctx topic (Some l) opts w Hcon). simpl.
    unchanged.
Qed.

(** Every action of a reachable world is a step of the specification. *)
Lemma refine_step N `{!UuidSpec N} a w :
  inmem_inv w -> subs_inv w -> enabled a w ->
  exists pa, abstracts w a pa /\
    pb_step pa (abs w) = (observed a w, deliveries w (exec a w), abs (exec a w)).
Proof.
  intros Hinv Hsub Hen. destruct a as [ctx|ctx|ctx t [l|] opts|ctx t h opts|t|s|m|i].
  - exists PsConnect. split; [constructor|]. by rewrite deliveries_none.
  - exists PsClose. split; [constructor|]. unfold abs at 1, observed, exec. simpl.
    pose proof (Close_spec ctx w Hinv) as Hsp.
    destruct (connected (w_br w)) eqn:Hcon; simpl; [|rewrite Hsp; unchanged].
    destruct (stopCh_closed (w_br w)) eqn:Hst; [rewrite Hsp; unchanged|].
    destruct Hsp as (b & -> & _ & Hb1 & Hb2 & Hb3 & Hb4 & _). simpl.
    rewrite deliveries_none by done. unfold abs. simpl.
    by rewrite Hb1, Hb2, Hb3, Hb4, !fmap_empty.
  - destruct (content_of_is_Some _ _ (inv_mem _ Hinv) Hen) as [c Hc].
    destruct (refine_publish ctx t l opts c w Hinv Hc) as [now Hst].
    exists (PsPublish ctx t c now). split; [by constructor|done].
  - exists (PsPublishNil t). split; [constructor|]. unfold abs at 1, observed, exec. simpl.
    destruct (connected (w_br w)) eqn:Hcon; simpl.
    + assert (Ops.Publish ctx t None opts w = (Panic NilDereference, w)) as ->.
      { unfold Ops.Publish, bind, get_br, gets. rewrite Hcon. by destruct w. }
      unchanged.
    + rewrite (Publish_disconnected ctx t None opts w Hcon). unchanged.
  - exists (PsSubscribe t h (uuid_String (uuid_ctr (w_mem w)))). split; [constructor|].
    unfold abs at 1, observed, exec. simpl. pose proof (Subscribe_spec ctx t h opts w Hinv) as Hsp.
    destruct (connected (w_br w)) eqn:Hcon; simpl; [|rewrite Hsp; unchanged].
    destruct Hsp as [-> _]. simpl. unfold Ops.sub_ID, bind, Ops.load_sub. simpl.
    rewrite lookup_insert_eq, deliveries_none by done. unfold abs. simpl.
    rewrite Hcon, fmap_insert, slice_at_fmap by done. unfold abs_subs at 3.
    by rewrite filter_app, fmap_app.
  - exists (PsUnsubscribe t). split; [constructor|]. unfold observed, exec.
    destruct (Unsubscribe_spec t w Hinv) as [-> _]. rewrite deliveries_none by done.
    unfold abs. simpl. by rewrite fmap_delete.
  - destruct Hen as [x Hx]. exists (PsEnd (ims_id x)). split; [by constructor|].
    unfold observed, exec. destruct (sub_Unsubscribe_spec s x w Hinv Hx) as [-> _].
    rewrite deliveries_none by done. unfold abs. simpl. rewrite (abs_end w s x Hsub Hx).
    by destruct (ims_active x).
  - exists PsIdle. split; [constructor|]. unfold observed, exec.
    rewrite deliveries_none by done. unfold abs. simpl. do 2 f_equal.
    apply map_eq. intros t. rewrite !lookup_fmap.
    destruct (queues (w_br w) !! t) as [q|] eqn:Hq; [|done]. simpl. f_equal.
    apply list_fmap_ext. intros i l Hl. destruct (cc_queued _ _ Hen _ _ l Hq) as [_ ->]; [|done].
    by eapply list_elem_of_lookup_2.
  - exists PsIdle. split; [constructor|]. unfold observed, exec, deliveries. simpl.
    rewrite drop_ge; [done|]. apply sublist_length, sublist_delete.
Qed.
End Refinement.

(** ** Properties *)

(** C2: the in-memory broker refines the publish/subscribe service.  A fresh
    broker represents the empty service; and in every world clients can bring
    it to, each action returns what the service returns, starts the handlers
    the service starts, in its order and on its contents, and leads to a world
    that represents the service's new state.  (UUIDs are assumed distinct.) *)
Theorem InMemory_refines_PubSub `{Env} (N : nat) `{!UuidSpec N} m acts a :
  mem_wf m -> runnable (acts ++ [a]) (fresh_broker m) ->
  uuid_ctr (w_mem (run acts (fresh_broker m))) <= N ->
  let w := run acts (fresh_broker m) in
  abs (fresh_broker m) = pb_new /\
  exists pa, abstracts w a pa /\
    pb_step pa (abs w) = (observed a w, deliveries w (exec a w), abs (exec a w)).
Proof.
  intros Hwf [Hr1 [Hen _]]%runnable_app HN w. split; [apply abs_fresh|].
  destruct (run_inv N _ _ (fresh_broker_inv m Hwf) (fresh_broker_subs m) Hr1 HN) as [Hinv Hsub].
  by apply (refine_step N).
Qed.

(** What the service does on the demonstration world. *)
Lemma demo_pb_step now :
  (pb_step (PsPublish Background "orders" demo_content now)
     (abs (run demo_acts (fresh_broker demo_mem)))).1.2 =
  [(Some 7, Background, Some (published "orders" now demo_content));
   (Some 9, Background, Some (published "orders" now demo_content))].
Proof. vm_compute. reflexivity. Qed.

Lemma triple_second {A B C} (p : A * B * C) a b c : p = (a, b, c) -> p.1.2 = b.
Proof. by intros ->. Qed.

Lemma InMemory_refines_PubSub_witness :
  let w := run demo_acts (fresh_broker demo_mem) in
  exists now, deliveries w (exec (APublish Background "orders" (Some demo_msg) []) w) =
    [(Some 7, Background, Some (published "orders" now demo_content));
     (Some 9, Background, Some (published "orders" now demo_content))].
Proof.
  intros w. destruct (InMemory_refines_PubSub 16 demo_mem demo_acts
    (APublish Background "orders" (Some demo_msg) []) demo_mem_wf) as [_ (pa & Habs & Hst)].
  - apply runnable_app. split; [exact demo_runnable|]. split; [|exact I]. vm_compute. by eexists.
  - vm_compute. lia.
  - inversion Habs as [| |ctx topic l opts c now Hc| | | | | |]; subst. clear Habs.
    exists now. pose proof (eq_trans (eq_sym demo_world_msg) Hc) as Heq. injection Heq as <-.
    exact (eq_trans (eq_sym (triple_second _ _ _ _ Hst)) (demo_pb_step now)).
Defined.
