(* ===== verification/ConsumerGroup.v ===== *)
(** * Consumer groups (pkg/consumer/consumer.go, pkg/consumer/i18n_messages.go)

    A [ConsumerGroup] subscribes its handlers through any [MessageBroker].
    Its state is paired with the world of that broker.  The order in which Go
    ranges over a map is a parameter ([MapRange] of Prelude.v). *)

From Stdlib Require Import ZArith Lia.
From stdpp Require Import base gmap strings list fin_maps.
From S2P Require Import Prelude Store Demo I18n Errors Message Broker InMemory InMemorySubs InMemoryProps.

(** ** The messages of the consumer package *)

(** [translatorProvider], as the package sets it *)
Definition translatorProvider : Translator any := NoopTranslator.

Definition already_running_key : string := "messaging_broker_consumer_group_already_running".
Definition subscribe_failed_key : string := "messaging_broker_subscribe_failed".

Definition renderAlreadyRunning (id : string) : string :=
  let rendered := T translatorProvider already_running_key {["id" := AnyString id]} in
  if bool_decide (rendered = already_running_key)
  then "consumer group " +:+ id +:+ " is already running"
  else rendered.

Definition renderSubscribeFailure (topic : string) : string :=
  let rendered := T translatorProvider subscribe_failed_key {["topic" := AnyString topic]} in
  if bool_decide (rendered = subscribe_failed_key)
  then "failed to subscribe to " +:+ topic
  else rendered.

(** ** The group *)

Record ConsumerGroup := mkConsumerGroup {
  cg_id : string;
  subscriptions : gmap string (option subref);
  handlers : gmap string (option handler);
  running : bool }.

Definition cg_set_subscriptions s (cg : ConsumerGroup) : ConsumerGroup :=
  mkConsumerGroup (cg_id cg) s (handlers cg) (running cg).
Definition cg_set_handlers h (cg : ConsumerGroup) : ConsumerGroup :=
  mkConsumerGroup (cg_id cg) (subscriptions cg) h (running cg).
Definition cg_set_running r (cg : ConsumerGroup) : ConsumerGroup :=
  mkConsumerGroup (cg_id cg) (subscriptions cg) (handlers cg) r.

Definition NewConsumerGroup `{Env} (id : string) : GoM mem ConsumerGroup :=
  let! id :=
    (if bool_decide (id = "") then
       let! u := uuid_New_String in ret ("cg-" +:+ String.substring 0 8 u)
     else ret id) in
  ret (mkConsumerGroup id ∅ ∅ false).

Section Group.
Context {B : Type} {MB : MessageBroker B} {MR : MapRange}.
Context (tr : Translator any).       (* the translator error strings go through *)

Abbreviation State := (ConsumerGroup * World B)%type (only parsing).

Definition the_group : GoM State ConsumerGroup := gets fst.
Definition set_group (f : ConsumerGroup -> ConsumerGroup) : GoM State unit :=
  modify (fun st => (f st.1, st.2)).
Definition new_address : GoM State loc := on_snd (on_mem alloc_loc).

Definition ID : GoM State string := let! cg := the_group in ret (cg_id cg).

Definition Add (topic : string) (h : option handler) : GoM State unit :=
  set_group (fun cg => cg_set_handlers (<[topic := h]> (handlers cg)) cg).

(** [s.Unsubscribe()] of an interface value *)
Definition iface_Unsubscribe (s : option subref) : GoM State (option error) :=
  match s with
  | None => throw NilDereference
  | Some s => on_snd (sub_Unsubscribe s)
  end.

(** [for _, s := range cg.subscriptions { _ = s.Unsubscribe() }] *)
Definition cleanup (subs : list (string * option subref)) : GoM State unit :=
  for_range subs (fun e => let! _ := iface_Unsubscribe e.2 in ret tt).

(** The subscribe loop of [Start]; [n] numbers the cleanup's range. *)
Fixpoint start_loop (n : nat) (ctx : Ctx) (hs : list (string * option handler)) :
    GoM State (option error) :=
  match hs with
  | [] => ret None
  | (topic, h) :: hs' =>
    let! r := on_snd (Subscribe ctx topic h []) in
    match r with
    | (_, Some err) =>
      let! cg := the_group in
      cleanup (map_range n (subscriptions cg)) ;;;
      set_group (cg_set_subscriptions ∅) ;;;
      let! l := new_address in
      ret (Some (Errorf_wrap tr l (renderSubscribeFailure topic) err))
    | (sub, None) =>
      set_group (fun cg => cg_set_subscriptions (<[topic := sub]> (subscriptions cg)) cg) ;;;
      start_loop n ctx hs'
    end
  end.

(** [Start] reads [running] before it takes the mutex: two steps. *)
Definition Start_check : GoM State (option error) :=
  let! cg := the_group in
  if running cg then
    let! l := new_address in
    ret (Some (ErrString l (renderAlreadyRunning (cg_id cg))))
  else ret None.

Definition Start_locked (n1 n2 : nat) (ctx : Ctx) : GoM State (option error) :=
  let! cg := the_group in
  let! err := start_loop n2 ctx (map_range n1 (handlers cg)) in
  match err with
  | Some e => ret (Some e)
  | None => set_group (cg_set_running true) ;;; ret None
  end.

Definition Start (n1 n2 : nat) (ctx : Ctx) : GoM State (option error) :=
  let! err := Start_check in
  match err with
  | Some e => ret (Some e)
  | None => Start_locked n1 n2 ctx
  end.

(** The loop of [Stop]. *)
Fixpoint stop_loop (subs : list (string * option subref)) (errs : MultiError) :
    GoM State MultiError :=
  match subs with
  | [] => ret errs
  | (topic, sub) :: subs' =>
    let! err := iface_Unsubscribe sub in
    match err with
    | Some e =>
      let! l := new_address in
      stop_loop subs'
        (MultiError_Add errs (Some (Errorf_wrap tr l ("failed to unsubscribe from " +:+ topic) e)))
    | None => stop_loop subs' errs
    end
  end.

Definition Stop (n : nat) : GoM State (option error) :=
  let! cg := the_group in
  if negb (running cg) then ret None else
  set_group (cg_set_running false) ;;;
  let! l := new_address in
  let! cg := the_group in
  let! errs := stop_loop (map_range n (subscriptions cg)) (mkMultiError []) in
  set_group (cg_set_subscriptions ∅) ;;;
  ret (ErrorOrNil l errs).

Definition IsRunning : GoM State bool := let! cg := the_group in ret (running cg).

Definition Topics (n : nat) : GoM State (list string) :=
  let! cg := the_group in ret (fst <$> map_range n (handlers cg)).
End Group.

(** ** Lemmas *)

Section Laws.
Context {B : Type} {MB : MessageBroker B} {MBS : MessageBrokerSpec B}.
Context {MR : MapRange} {MRS : MapRangeSpec}.
Context (tr : Translator any).
Abbreviation State := (ConsumerGroup * World B)%type (only parsing).

(** The group holds [subs], all active; the broker's other active
    subscriptions are [others]. *)
Record owns (others : subref -> Prop) (w : World B) (subs : gmap string subref) : Prop := {
  ow_inj : forall t1 t2 s, subs !! t1 = Some s -> subs !! t2 = Some s -> t1 = t2;
  ow_new : forall t s, subs !! t = Some s -> ~ others s;
  ow_live : forall s, sub_live w s <-> others s \/ exists t, subs !! t = Some s }.

Lemma owns_refl w : owns (sub_live w) w ∅.
Proof. split; intros *; rewrite ?lookup_empty; try done. setoid_rewrite lookup_empty. naive_solver. Qed.

Lemma owns_insert others w w' subs t s :
  owns others w subs -> subs !! t = None -> ~ sub_live w s ->
  (forall s', sub_live w' s' <-> s' = s \/ sub_live w s') ->
  owns others w' (<[t := s]> subs).
Proof.
  intros [Hi Hn Hl] Ht Hs Hl'. split.
  - intros t1 t2 s'. rewrite !lookup_insert. repeat case_decide; subst; try done; intros E1 E2;
      simplify_eq; [..|by eapply Hi]; exfalso; apply Hs, Hl; eauto.
  - intros t' s'. rewrite lookup_insert. case_decide; subst; [|by apply Hn].
    intros [= <-] H0. apply Hs, Hl. by left.
  - intros s'. rewrite Hl', Hl. setoid_rewrite lookup_insert. split.
    + intros [->|[H0|[t' Ht']]]; [right; exists t; by rewrite decide_True|by left|].
      right. exists t'. rewrite decide_False; [done|congruence].
    + intros [H0|[t' Ht']]; [auto|]. case_decide; simplify_eq; eauto.
Qed.

Lemma new_address_spec (st : State) (Q : loc -> State -> Prop) :
  (forall l w', broker_inv st.2 -> broker_inv w' -> mem_extends (w_mem st.2) (w_mem w') ->
     (forall s, sub_live w' s <-> sub_live st.2 s) -> Q l (st.1, w')) ->
  broker_inv st.2 -> wp new_address Q st.
Proof.
  intros HQ Hinv. unfold new_address. apply wp_on_snd, wp_on_mem.
  apply HQ; [done| | |intros s; by apply sub_live_mem].
  - apply broker_inv_mem; [done|apply bump_wf, broker_inv_wf, Hinv|].
    apply mem_extends_keeps; [apply broker_inv_wf, Hinv|apply bump_extends; reflexivity].
  - simpl. apply bump_extends. reflexivity.
Qed.

(** Unsubscribing the entries of a map of active subscriptions one by one:
    the subscriptions of [failed] kept because of an error. *)
Definition unsubscribed (w w' : World B) (pre : list subref) (failed : list subref) : Prop :=
  broker_inv w' /\ mem_extends (w_mem w) (w_mem w') /\
  (forall s, s ∈ failed -> s ∈ pre) /\
  forall s, sub_live w' s <-> sub_live w s /\ (s ∈ pre -> s ∈ failed).

Lemma unsubscribed_nil w : broker_inv w -> unsubscribed w w [] [].
Proof. intros Hinv. split_and!; [done..|]. intros s. rewrite !elem_of_nil. naive_solver. Qed.

Lemma unsubscribed_step w w1 w2 pre failed s (r : option error) :
  unsubscribed w w1 pre failed -> s ∉ pre ->
  broker_inv w2 -> mem_extends (w_mem w1) (w_mem w2) ->
  (forall s', sub_live w2 s' <-> sub_live w1 s' /\ (s' = s -> r <> None)) ->
  unsubscribed w w2 (pre ++ [s]) (failed ++ match r with Some _ => [s] | None => [] end).
Proof.
  intros (Hinv & Hext & Hsub & Hl) Hs Hinv2 Hext2 Hl2. split_and!; [done|by etrans|..].
  { intros s'. rewrite !elem_of_app. intros [Hf|Hf]; [auto|]. destruct r; [auto|].
    by apply elem_of_nil in Hf. }
  intros s'. rewrite Hl2, Hl, !elem_of_app, !list_elem_of_singleton.
  destruct (decide (s' = s)) as [->|Hne].
  - destruct r as [e|]; rewrite ?list_elem_of_singleton, ?elem_of_nil.
    + split; [intros [[? ?] ?]|intros [? ?]]; split_and!; auto; done.
    + split; [intros [[? ?] Hf]; by destruct Hf|].
      intros [? Hf]. destruct Hf as [Hf|[]]; [by right|]. by apply Hsub in Hf.
  - assert (s' ∈ match r with Some _ => [s] | None => [] end <-> False) as ->.
    { destruct r; rewrite ?list_elem_of_singleton, ?elem_of_nil; tauto. }
    tauto.
Qed.

Lemma unsubscribed_live w w1 pre failed s :
  unsubscribed w w1 pre failed -> s ∉ pre -> sub_live w s -> sub_live w1 s.
Proof. intros (_ & _ & _ & Hl) Hs Hlive. apply Hl. split; [done|]. by intros ?%Hs. Qed.
Lemma iface_Unsubscribe_spec cg w w1 pre failed s :
  unsubscribed w w1 pre failed -> s ∉ pre -> sub_live w s ->
  wp (iface_Unsubscribe (Some s)) (fun r (st : State) => st.1 = cg /\
    unsubscribed w st.2 (pre ++ [s])
      (failed ++ match r with Some _ => [s] | None => [] end)) (cg, w1).
Proof.
  intros Hu Hs Hlive. simpl. apply wp_on_snd. simpl.
  eapply wp_mono; [apply sub_Unsubscribe_law; [apply Hu|by eapply unsubscribed_live]|].
  intros r w2 (Hinv2 & Hext2 & Hl2). split; [done|]. by eapply unsubscribed_step.
Qed.

(** The entries of a map of subscriptions, as the loops see them. *)
Definition entries (ps : list (string * subref)) : list (string * option subref) :=
  (fun p => (p.1, Some p.2)) <$> ps.

Lemma cleanup_spec {RU : ReliableUnsubscribe B} cg w ps :
  broker_inv w -> NoDup ps.*2 -> (forall s, s ∈ ps.*2 -> sub_live w s) ->
  wp (cleanup (entries ps)) (fun _ (st : State) => st.1 = cg /\ unsubscribed w st.2 ps.*2 [])
    (cg, w).
Proof.
  intros Hinv Hnd Hlive.
  cut (forall rest pre w1, ps.*2 = pre ++ rest.*2 -> unsubscribed w w1 pre [] ->
    wp (cleanup (entries rest)) (fun _ (st : State) => st.1 = cg /\
      unsubscribed w st.2 ps.*2 []) (cg, w1)).
  { intros Hcut. apply (Hcut ps []); [done|by apply unsubscribed_nil]. }
  induction rest as [|[t s] rest IH]; intros pre w1 Heq Hu.
  - apply wp_ret. rewrite Heq, app_nil_r. done.
  - unfold cleanup, entries. simpl. wp_step. wp_step.
    assert (s ∉ pre) as Hs.
    { intros Hs. rewrite Heq in Hnd. apply NoDup_app in Hnd as (_ & Hd & _).
      eapply Hd; [done|]. by left. }
    assert (sub_live w s) as Hl.
    { apply Hlive. rewrite Heq. apply elem_of_app. right. by left. }
    eapply wp_mono.
    { apply wp_and; [by eapply iface_Unsubscribe_spec|].
      apply (wp_on_snd _ (fun r _ => r = None)), unsubscribe_ok;
        [apply Hu|by eapply unsubscribed_live]. }
    intros r [cg' w2] [[Hcg Hu2] Hr]. simpl in *. subst r cg'.
    apply wp_ret. apply (IH (pre ++ [s])); [by rewrite <- app_assoc|done].
Qed.

(** The errors [Stop] collects: one per subscription that is still active. *)
Lemma stop_loop_spec cg w ps :
  broker_inv w -> NoDup ps.*2 -> (forall s, s ∈ ps.*2 -> sub_live w s) ->
  wp (stop_loop tr (entries ps) (mkMultiError [])) (fun errs (st : State) =>
    exists failed, st.1 = cg /\ unsubscribed w st.2 ps.*2 failed /\
    length failed = length (me_Errors errs)) (cg, w).
Proof.
  intros Hinv Hnd Hlive.
  cut (forall rest pre failed errs w1, ps.*2 = pre ++ rest.*2 -> unsubscribed w w1 pre failed ->
    length failed = length (me_Errors errs) ->
    wp (stop_loop tr (entries rest) errs) (fun errs (st : State) => exists failed, st.1 = cg /\
      unsubscribed w st.2 ps.*2 failed /\ length failed = length (me_Errors errs)) (cg, w1)).
  { intros Hcut. apply (Hcut ps [] []); [done|by apply unsubscribed_nil|done]. }
  induction rest as [|[t s] rest IH]; intros pre failed errs w1 Heq Hu Hlen.
  - apply wp_ret. exists failed. rewrite Heq, app_nil_r. done.
  - unfold entries. cbn [fmap list_fmap stop_loop]. cbn [fst snd]. wp_step.
    assert (s ∉ pre) as Hs.
    { intros Hs. rewrite Heq in Hnd. apply NoDup_app in Hnd as (_ & Hd & _).
      eapply Hd; [done|]. by left. }
    assert (sub_live w s) as Hl.
    { apply Hlive. rewrite Heq. apply elem_of_app. right. by left. }
    assert (ps.*2 = (pre ++ [s]) ++ rest.*2) as Heq' by (by rewrite <- app_assoc).
    eapply wp_mono; [by eapply iface_Unsubscribe_spec|].
    intros [e|] [cg' w2] [Hcg Hu2]; simpl in *; subst cg'.
    + wp_step. apply new_address_spec; [|apply Hu2]. simpl.
      intros l w3 _ Hinv3 Hext3 Hl3.
      apply (IH (pre ++ [s]) (failed ++ [s]) _ w3 Heq');
        [|cbn [MultiError_Add me_Errors]; rewrite !length_app; simpl; lia].
      destruct Hu2 as (Hi2 & He2 & Hsub2 & Hl2). split_and!; [done|by etrans|done|].
      intros s'. rewrite Hl3. apply Hl2.
    + rewrite app_nil_r in Hu2. exact (IH (pre ++ [s]) failed errs w2 Heq' Hu2 Hlen).
Qed.
Lemma range_entries n (subs : gmap string subref) :
  exists ps, map_range n (Some <$> subs) = entries ps /\ ps ≡ₚ map_to_list subs.
Proof.
  pose proof (map_range_perm n _ (Some <$> subs)) as Hp. rewrite map_to_list_fmap in Hp.
  apply Permutation_map_inv in Hp as (ps & Heq & Hps). exists ps. split; [|done].
  rewrite Heq. unfold entries. apply list_fmap_ext. by intros i [t s].
Qed.

Lemma owns_entries others w subs ps :
  owns others w subs -> ps ≡ₚ map_to_list subs ->
  NoDup ps.*2 /\ (forall s, s ∈ ps.*2 <-> exists t, subs !! t = Some s).
Proof.
  intros [Hi Hn Hl] Hps. split.
  - apply NoDup_fmap_2_strong.
    + intros [t1 s1] [t2 s2] H1 H2 Heq. simpl in Heq. subst s2.
      rewrite Hps, elem_of_map_to_list in H1, H2. f_equal. by eapply Hi.
    + rewrite Hps. apply NoDup_map_to_list.
  - intros s. rewrite list_elem_of_fmap. split.
    + intros ([t s'] & -> & Hin). rewrite Hps, elem_of_map_to_list in Hin. by exists t.
    + intros [t Ht]. exists (t, s). split; [done|]. by rewrite Hps, elem_of_map_to_list.
Qed.

(** Once every held subscription is gone, only the others are left. *)
Lemma owns_released others w w' subs ps :
  owns others w subs -> ps ≡ₚ map_to_list subs -> unsubscribed w w' ps.*2 [] ->
  forall s, sub_live w' s <-> others s.
Proof.
  intros Ho Hps (_ & _ & _ & Hl) s. destruct (owns_entries _ _ _ _ Ho Hps) as [_ Hin].
  rewrite Hl, (ow_live _ _ _ Ho), Hin, elem_of_nil. split.
  - intros [[?|Hs] Hf]; [done|by apply Hf in Hs].
  - intros H0. split; [by left|]. intros [t Ht]. by eapply (ow_new _ _ _ Ho).
Qed.

(** Subscribing to the topics of [hs] in order succeeds, from [w] to [w']. *)
Fixpoint subscribed (ctx : Ctx) (hs : list (string * option handler)) (w w' : World B) : Prop :=
  match hs with
  | [] => w' = w
  | (t, h) :: hs => exists s w1, Subscribe ctx t h [] w = (Ok (Some s, None), w1) /\
      subscribed ctx hs w1 w'
  end.

(** [e] reports that the broker refused one of the handlers [hs], after the
    ones before it; it wraps the error that the broker returned. *)
Definition subscribe_failure (ctx : Ctx) (hs : list (string * option handler)) (w : World B)
    (e : error) : Prop :=
  exists pre topic h rest w1 err w2 l, hs = pre ++ (topic, h) :: rest /\
    subscribed ctx pre w w1 /\ Subscribe ctx topic h [] w1 = (Ok (None, Some err), w2) /\
    e = Errorf_wrap tr l (renderSubscribeFailure topic) err.

Lemma start_loop_spec {RU : ReliableUnsubscribe B} n ctx hs cg others w subs :
  broker_inv w -> owns others w subs -> subscriptions cg = Some <$> subs ->
  NoDup hs.*1 -> (forall t, t ∈ hs.*1 -> subs !! t = None) ->
  wp (start_loop tr n ctx hs) (fun r (st : State) =>
    broker_inv st.2 /\ mem_extends (w_mem w) (w_mem st.2) /\
    match r with
    | None => exists subs', st.1 = cg_set_subscriptions (Some <$> subs') cg /\
        owns others st.2 subs' /\
        forall t, is_Some (subs' !! t) <-> is_Some (subs !! t) \/ t ∈ hs.*1
    | Some e => st.1 = cg_set_subscriptions ∅ cg /\
        (forall s, sub_live st.2 s <-> others s) /\ subscribe_failure ctx hs w e
    end) (cg, w).
Proof.
  revert cg w subs. induction hs as [|[topic h] hs IH]; intros cg w subs Hinv Ho Hcg Hnd Hnew.
  { apply wp_ret. split_and!; [done|done|]. exists subs. split_and!; [|done|].
    - destruct cg; simpl in *; by subst.
    - intros t. rewrite elem_of_nil. naive_solver. }
  cbn [fmap list_fmap fst] in Hnd, Hnew. apply NoDup_cons in Hnd as [Ht Hnd].
  destruct (wp_run _ _ _ (Subscribe_law ctx topic h [] w Hinv))
    as ([sub oerr] & w1 & Hcall & Hinv1 & Hext1 & Hsub).
  simpl. wp_step. apply wp_on_snd. simpl. eapply wp_intro; [exact Hcall|].
  destruct oerr as [err|]; [clear IH|].
  - assert (forall s, sub_live w1 s <-> sub_live w s) as Hl1 by (by destruct sub).
    assert (owns others w1 subs) as Ho1.
    { destruct Ho as [Hi Hn Hl]. split; [done|done|]. intros s. by rewrite Hl1. }
    wp_step. apply wp_gets. simpl. rewrite Hcg.
    destruct (range_entries n subs) as (ps & -> & Hps).
    destruct (owns_entries _ _ _ _ Ho1 Hps) as [Hndp Hin].
    wp_step. eapply wp_mono.
    { apply cleanup_spec; [done|done|]. intros s Hs. apply Ho1. right. by apply Hin. }
    intros _ [cg' w2] [Hcg' Hu]. simpl in Hcg', Hu. subst cg'.
    wp_step. apply wp_modify. wp_step. apply new_address_spec; [|apply Hu].
    simpl. intros l w3 _ Hinv3 Hext3 Hl3. apply wp_ret. split_and!.
    + done.
    + etrans; [done|]. etrans; [apply Hu|done].
    + done.
    + simpl. intros s. rewrite Hl3. by eapply owns_released.
    + destruct sub; [done|]. by exists [], topic, h, hs, w, err, w1, l.
  - destruct sub as [sub|]; [|done]. destruct Hsub as [Hfresh Hlive].
    wp_step. apply wp_modify. simpl. eapply wp_mono.
    { apply (IH _ w1 (<[topic := sub]> subs)); [done| | |done|].
      - eapply owns_insert; [done|apply Hnew; by left|done|done].
      - simpl. by rewrite Hcg, fmap_insert.
      - intros t Hin. rewrite lookup_insert_ne by (intros ->; done). apply Hnew. by right. }
    intros r [cg' w2] (Hinv2 & Hext2 & Hr). simpl in *. split_and!; [done|by etrans|].
    destruct r as [e|].
    + destruct Hr as (-> & Hl & (pre & t & h' & rest & w3 & err & w4 & l & -> & Hpre & Hf & ->)).
      split_and!; [done|done|]. exists ((topic, h) :: pre), t, h', rest, w3, err, w4, l.
      split_and!; [done| |done|done]. by exists sub, w1.
    + destruct Hr as (subs' & -> & Ho' & Hdom). exists subs'. split_and!; [done|done|].
      intros t. rewrite Hdom, elem_of_cons, lookup_insert. case_decide as Hd; [subst|].
      * split; [by right; left|]. intros _. left. done.
      * naive_solver.
Qed.
End Laws.

Section States.
Context {B : Type} {MB : MessageBroker B} {MBS : MessageBrokerSpec B}.
Context {MR : MapRange} {MRS : MapRangeSpec}.

(** A group that is not running holds no subscription. *)
Definition cg_idle (cg : ConsumerGroup) : Prop := running cg = false /\ subscriptions cg = ∅.

(** The group runs: it holds one active subscription per topic of its
    handlers, and the other active subscriptions are [others]. *)
Definition cg_started (others : subref -> Prop) (w : World B) (cg : ConsumerGroup) : Prop :=
  running cg = true /\ exists subs, subscriptions cg = Some <$> subs /\ owns others w subs /\
    forall t, is_Some (subs !! t) <-> is_Some (handlers cg !! t).

(** [e] is the error of a [Start] that failed: taking the handlers in the order
    of the map's range, the broker accepted those of [pre] and then refused
    the one of [topic] with [err]; [e] names the topic and wraps [err]. *)
Definition start_failure (tr : Translator any) (n : nat) (ctx : Ctx) (cg : ConsumerGroup)
    (w : World B) (e : error) : Prop :=
  exists pre topic h rest w1 err w2 l,
    map_range n (handlers cg) = pre ++ (topic, h) :: rest /\
    subscribed ctx pre w w1 /\ Subscribe ctx topic h [] w1 = (Ok (None, Some err), w2) /\
    e = Errorf_wrap tr l ("failed to subscribe to " +:+ topic) err.
End States.

(** The outcome of a run, put together from its parts. *)
Lemma outcome_pair {A S} (p : outcome A * S) o : p.1 = o -> p = (o, p.2).
Proof. destruct p. by intros <-. Qed.

Lemma outcome_pair2 {A S T} (p : outcome A * (S * T)) o : p.1 = o -> p = (o, (p.2.1, p.2.2)).
Proof. destruct p as [? []]. by intros <-. Qed.

(** A demonstration: two handlers on a connected in-memory broker. *)
Definition demo_broker : World InMemoryBroker := run [AConnect Background] (fresh_broker demo_mem).

Lemma demo_broker_inv : broker_inv demo_broker.
Proof. apply run_inmem; [apply fresh_broker_inv, demo_mem_wf|vm_compute; repeat split; eauto]. Qed.

Definition demo_group : ConsumerGroup :=
  mkConsumerGroup "g" ∅ {["orders" := Some 7; "bills" := Some 8]} false.

Definition demo_started : ConsumerGroup * World InMemoryBroker :=
  (Start NoopTranslator 0 1 Background (demo_group, demo_broker)).2.

(** The topics of a range over the handlers. *)
Lemma range_topics {A} {MR : MapRange} {MRS : MapRangeSpec} n (hs : gmap string A) t :
  t ∈ (map_range n hs).*1 <-> is_Some (hs !! t).
Proof.
  rewrite map_range_perm, list_elem_of_fmap. split.
  - intros ([t' h] & -> & Hin%elem_of_map_to_list). by exists h.
  - intros [h Hh]. exists (t, h). by rewrite elem_of_map_to_list.
Qed.

Lemma map_union_absorb {A} (m old : gmap string A) :
  (forall t, is_Some (old !! t) -> is_Some (m !! t)) -> m ∪ old = m.
Proof.
  intros Hsub. apply map_eq. intros t. rewrite lookup_union.
  destruct (m !! t) as [x|] eqn:Hm; [by destruct (old !! t)|].
  destruct (old !! t) as [y|] eqn:Ho; [|done].
  destruct (Hsub t ltac:(by rewrite Ho)) as [x Hx]. congruence.
Qed.

Lemma Start_spec {B} {MB : MessageBroker B} {MBS : MessageBrokerSpec B}
    {RU : ReliableUnsubscribe B} {MR : MapRange} {MRS : MapRangeSpec}
    tr n1 n2 ctx cg (w : World B) :
  cg_idle cg -> broker_inv w ->
  wp (Start tr n1 n2 ctx) (fun r st => broker_inv st.2 /\ handlers st.1 = handlers cg /\
    match r with
    | None => cg_started (sub_live w) st.2 st.1
    | Some e => cg_idle st.1 /\ (forall s, sub_live st.2 s <-> sub_live w s) /\
        start_failure tr n1 ctx cg w e
    end) (cg, w).
Proof.
  intros [Hrun Hsubs] Hinv. unfold Start, Start_check. wp_step. wp_step. apply wp_gets.
  simpl. rewrite Hrun. apply wp_ret. unfold Start_locked. wp_step. apply wp_gets. simpl. wp_step.
  pose proof (map_range_perm n1 _ (handlers cg)) as Hperm.
  eapply wp_mono.
  { apply (start_loop_spec tr n2 ctx _ cg (sub_live w) w ∅); [done|apply owns_refl| | |].
    - by rewrite Hsubs, fmap_empty.
    - rewrite Hperm. apply NoDup_fst_map_to_list.
    - intros t _. apply lookup_empty. }
  intros [e|] [cg' w'] (Hinv' & _ & Hr); simpl in *.
  - destruct Hr as (-> & Hl & Hf). apply wp_ret. simpl. by split_and!.
  - destruct Hr as (subs & -> & Ho & Hd). wp_step. apply wp_modify, wp_ret. simpl.
    split_and!; [done|done|]. split; [done|]. exists subs. split_and!; [done|done|].
    intros t. rewrite Hd, range_topics, lookup_empty. split; [intros [[? ?]|?]; done|by right].
Qed.

(** A further [Start_locked] that succeeds, on a group that holds [old]: it
    subscribes to every topic again and forgets the subscriptions it held. *)
Lemma start_loop_again {B} {MB : MessageBroker B} {MBS : MessageBrokerSpec B} {MR : MapRange}
    tr n ctx hs cg others (w : World B) acc old st :
  broker_inv w -> owns others w acc -> subscriptions cg = Some <$> (acc ∪ old) ->
  NoDup hs.*1 -> (forall t, t ∈ hs.*1 -> acc !! t = None) ->
  start_loop tr n ctx hs (cg, w) = (Ok None, st) ->
  broker_inv st.2 /\ exists acc', st.1 = cg_set_subscriptions (Some <$> (acc' ∪ old)) cg /\
    owns others st.2 acc' /\ forall t, is_Some (acc' !! t) <-> is_Some (acc !! t) \/ t ∈ hs.*1.
Proof.
  revert cg w acc. induction hs as [|[topic h] hs IH]; intros cg w acc Hinv Ho Hcg Hnd Hnew Hrun.
  { injection Hrun as <-. split; [done|]. exists acc. split_and!; [|done|].
    - destruct cg; simpl in *; by subst.
    - intros t. rewrite elem_of_nil. naive_solver. }
  rewrite fmap_cons in Hnd, Hnew. apply NoDup_cons in Hnd as [Ht Hnd].
  destruct (wp_run _ _ _ (Subscribe_law ctx topic h [] w Hinv))
    as ([sub oerr] & w1 & Hcall & Hinv1 & _ & Hsub).
  cbn [start_loop] in Hrun. rewrite (on_snd_ok _ _ _ _ _ _ Hcall) in Hrun.
  destruct oerr as [err|].
  { destruct sub; [done|]. apply bind_inv in Hrun as (c & s1 & _ & Hrun).
    apply bind_inv in Hrun as ([] & s2 & _ & Hrun). apply bind_inv in Hrun as ([] & s3 & _ & Hrun).
    apply bind_inv in Hrun as (l & s4 & _ & Hrun). done. }
  destruct sub as [sub|]; [|done]. destruct Hsub as [Hfresh Hlive].
  apply (IH _ w1 (<[topic := sub]> acc)) in Hrun as (Hinv' & acc' & Hst & Ho' & Hdom);
    [|done| | |done|].
  - split; [done|]. exists acc'. split_and!; [done|done|].
    intros t. rewrite Hdom, fmap_cons, elem_of_cons, lookup_insert. case_decide as Hd; [subst|].
    + split; [by right; left|]. intros _. left. done.
    + naive_solver.
  - eapply owns_insert; [done|apply Hnew; by left|done|done].
  - simpl. by rewrite Hcg, <- insert_union_l, fmap_insert.
  - intros t Hin. rewrite lookup_insert_ne by (intros ->; done). apply Hnew. by right.
Qed.

Lemma Start_locked_again {B} {MB : MessageBroker B} {MBS : MessageBrokerSpec B} {MR : MapRange}
    {MRS : MapRangeSpec} tr n1 n2 ctx cg (w : World B) old st :
  broker_inv w -> subscriptions cg = Some <$> old ->
  (forall t, is_Some (old !! t) -> is_Some (handlers cg !! t)) ->
  Start_locked tr n1 n2 ctx (cg, w) = (Ok None, st) ->
  broker_inv st.2 /\ handlers st.1 = handlers cg /\ cg_started (sub_live w) st.2 st.1.
Proof.
  intros Hinv Hold Hsub Hrun. unfold Start_locked in Hrun.
  rewrite (bind_ok _ _ _ cg (cg, w)) in Hrun by done.
  apply bind_inv in Hrun as (r & st1 & Hloop & Hrun). destruct r as [e|]; [done|].
  apply (start_loop_again tr n2 ctx _ cg (sub_live w) w ∅ old) in Hloop
    as (Hinv1 & subs & Hcg1 & Ho & Hdom); [|done|apply owns_refl| | |].
  - assert (forall t, is_Some (subs !! t) <-> is_Some (handlers cg !! t)) as Hdom'.
    { intros t. rewrite Hdom, range_topics, lookup_empty. split; [intros [[? ?]|?]; done|by right]. }
    rewrite (map_union_absorb subs old) in Hcg1 by (intros t Ht; by apply Hdom', Hsub).
    destruct st1 as [cg1 w1]. simpl in *. subst cg1. injection Hrun as <-. simpl.
    split_and!; [done|done|]. split; [done|]. exists subs. by split_and!.
  - by rewrite Hold, (left_id_L ∅ (∪)).
  - rewrite map_range_perm. apply NoDup_fst_map_to_list.
  - intros t _. apply lookup_empty.
Qed.

Lemma Stop_spec {B} {MB : MessageBroker B} {MBS : MessageBrokerSpec B}
    {MR : MapRange} {MRS : MapRangeSpec} tr n cg others (w : World B) :
  broker_inv w -> cg_started others w cg ->
  wp (Stop tr n) (fun r st => exists failed, broker_inv st.2 /\ cg_idle st.1 /\
    handlers st.1 = handlers cg /\ (forall s, sub_live st.2 s <-> others s \/ s ∈ failed) /\
    match r with
    | None => failed = []
    | Some e => exists l errs, e = ErrMulti l errs /\ length (me_Errors errs) = length failed /\
        failed <> []
    end) (cg, w).
Proof.
  intros Hinv (Hrun & subs & Hsubs & Ho & Hdom).
  unfold Stop. wp_step. apply wp_gets. simpl. rewrite Hrun. simpl. wp_step. apply wp_modify.
  wp_step. apply new_address_spec; [|done]. simpl. intros l w1 _ Hinv1 Hext1 Hl1.
  assert (owns others w1 subs) as Ho1.
  { destruct Ho as [Hi Hn Hl]. split; [done|done|]. intros s. by rewrite Hl1. }
  wp_step. apply wp_gets. simpl. rewrite Hsubs.
  destruct (range_entries n subs) as (ps & -> & Hps).
  destruct (owns_entries _ _ _ _ Ho1 Hps) as [Hnd Hin].
  wp_step. eapply wp_mono.
  { apply stop_loop_spec; [done|done|]. intros s Hs. apply Ho1. right. by apply Hin. }
  intros [errs] [cg2 w2] (failed & Hcg & (Hinv2 & Hext2 & Hsub & Hl2) & Hlen). simpl in *.
  subst cg2. wp_step. apply wp_modify, wp_ret. simpl. exists failed. split; [done|].
  split; [by split|]. split; [done|]. split.
  - intros s. rewrite Hl2, (ow_live _ _ _ Ho1), Hin. split.
    + intros [[?|[t Ht]] Hf]; [by left|right; eauto].
    + intros [H0|Hf].
      * split; [by left|]. intros [t Ht]. by destruct (ow_new _ _ _ Ho1 t s Ht).
      * split; [right; apply Hin; auto|auto].
  - unfold ErrorOrNil, HasErrors. simpl. destruct errs as [|e errs]; simpl in *.
    + by apply length_zero_iff_nil in Hlen.
    + eexists _, _. split_and!; [done|simpl; lia|]. by intros ->.
Qed.

Lemma demo_started_ok :
  broker_inv demo_started.2 /\ cg_started (sub_live demo_broker) demo_started.2 demo_started.1.
Proof.
  destruct (wp_run _ _ _ (Start_spec NoopTranslator 0 1 Background demo_group demo_broker
    ltac:(split; reflexivity) demo_broker_inv)) as (r & st & Heq & Hinv & _ & Hr).
  assert ((Start NoopTranslator 0 1 Background (demo_group, demo_broker)).1 = Ok None) as Hok
    by (vm_compute; reflexivity).
  rewrite Heq in Hok. cbn [fst] in Hok. injection Hok as ->.
  assert (demo_started = st) as -> by exact (f_equal snd Heq). exact (conj Hinv Hr).
Qed.

(** ** Properties *)

(** C11: on a broker whose subscriptions unsubscribe without error ([Start]
    ignores such errors while it cleans up), [Start] of an idle group
    subscribes all its topics or none.  When it returns nil the group runs
    with exactly one new active subscription per topic; when it returns an
    error the group is idle again, the broker's active subscriptions are those
    it had before, and the error names the first topic, in the order of the
    range over the handlers, that the broker refused, and wraps the error that
    the broker returned for it. *)
Theorem Start_all_or_nothing {B} {MB : MessageBroker B} {MBS : MessageBrokerSpec B}
    {RU : ReliableUnsubscribe B} {MR : MapRange} {MRS : MapRangeSpec}
    tr n1 n2 ctx cg (w : World B) :
  cg_idle cg -> broker_inv w ->
  exists r cg' w', Start tr n1 n2 ctx (cg, w) = (Ok r, (cg', w')) /\ broker_inv w' /\
    handlers cg' = handlers cg /\
    match r with
    | None => cg_started (sub_live w) w' cg'
    | Some e => cg_idle cg' /\ (forall s, sub_live w' s <-> sub_live w s) /\
        start_failure tr n1 ctx cg w e
    end.
Proof.
  intros Hidle Hinv.
  destruct (wp_run _ _ _ (Start_spec tr n1 n2 ctx cg w Hidle Hinv)) as (r & [cg' w'] & Heq & Hpost).
  exists r, cg', w'. by split.
Qed.

Lemma Start_all_or_nothing_witness :
  exists cg' w', Start NoopTranslator 0 1 Background (demo_group, demo_broker) =
    (Ok None, (cg', w')) /\ cg_started (sub_live demo_broker) w' cg' /\ handlers cg' = handlers demo_group.
Proof.
  destruct (Start_all_or_nothing NoopTranslator 0 1 Background demo_group demo_broker
    ltac:(split; reflexivity) demo_broker_inv) as (r & cg' & w' & Heq & _ & Hh & Hr).
  assert ((Start NoopTranslator 0 1 Background (demo_group, demo_broker)).1 = Ok None) as Hok
    by (vm_compute; reflexivity).
  rewrite Heq in Hok. cbn [fst] in Hok. injection Hok as ->.
  exists cg', w'. split; [exact Heq|]. split; [exact Hr|exact Hh].
Defined.



(** Two goroutines call [Start] on the same idle group: both read [running]
    before either takes the mutex. *)
Definition two_starts {B} {MB : MessageBroker B} {MR : MapRange} tr ctx :
    GoM (ConsumerGroup * World B) (option error * option error) :=
  let! c1 := Start_check in
  let! c2 := Start_check in
  let! r1 := match c1 with Some e => ret (Some e) | None => Start_locked tr 0 1 ctx end in
  let! r2 := match c2 with Some e => ret (Some e) | None => Start_locked tr 2 3 ctx end in
  ret (r1, r2).


(** The demonstration group, started twice and stopped. *)
Definition demo_twice : outcome (option error) * (ConsumerGroup * World InMemoryBroker) :=
  Stop NoopTranslator 4 (two_starts NoopTranslator Background (demo_group, demo_broker)).2.

Lemma demo_twice_ok :
  (two_starts NoopTranslator Background (demo_group, demo_broker)).1 = Ok (None, None) /\
  demo_twice.1 = Ok None.
Proof. split; vm_compute; reflexivity. Qed.

