(* ===== verification/BatchConsumer.v ===== *)
(** * The batch consumer (pkg/consumer/consumer.go)

    A [BatchConsumer] is shared by the goroutines that add messages, those
    that flush, and its background loop.  Each critical section, channel
    operation and handler call is one atomic step; the goroutines' positions
    between steps are the threads of the state. *)

From Stdlib Require Import ZArith Lia.
From stdpp Require Import base gmap strings list.
From S2P Require Import Prelude Store Errors Broker Retry.

Abbreviation message := (option loc) (only parsing).

Record BatchConsumer := mkBatchConsumer {
  batchSize : Z;
  flushAfter : Z;
  buffer : list message;
  flushCh : bool;           (* a value waits in the channel, whose capacity is 1 *)
  stopCh_closed : bool;
  bc_running : bool }.

(** ** The code between two scheduling points *)

Definition NewBatchConsumer (size after : Z) : BatchConsumer :=
  {| batchSize := if (size <? 1)%Z then 100 else size;
     flushAfter := if (after <=? 0)%Z then (5 * Second)%Z else after;
     buffer := []; flushCh := false; stopCh_closed := false; bc_running := false |}.

Section Steps.
Context (bc : BatchConsumer).
Definition set_buffer x : BatchConsumer :=
  mkBatchConsumer (batchSize bc) (flushAfter bc) x (flushCh bc) (stopCh_closed bc) (bc_running bc).
Definition set_flushCh x : BatchConsumer :=
  mkBatchConsumer (batchSize bc) (flushAfter bc) (buffer bc) x (stopCh_closed bc) (bc_running bc).
Definition set_stopCh x : BatchConsumer :=
  mkBatchConsumer (batchSize bc) (flushAfter bc) (buffer bc) (flushCh bc) x (bc_running bc).
Definition set_bc_running x : BatchConsumer :=
  mkBatchConsumer (batchSize bc) (flushAfter bc) (buffer bc) (flushCh bc) (stopCh_closed bc) x.

(** [Add] under the mutex: the new state and [shouldFlush]. *)
Definition Add_locked (msg : message) : BatchConsumer * bool :=
  let buf := buffer bc ++ [msg] in
  (set_buffer buf, (batchSize bc <=? Z.of_nat (length buf))%Z).

(** the non-blocking send on [flushCh] *)
Definition Add_send : BatchConsumer := set_flushCh true.

(** [Flush] under the mutex: the batch taken, if the buffer is not empty. *)
Definition Flush_locked : BatchConsumer * option (list message) :=
  match buffer bc with
  | [] => (bc, None)
  | batch => (set_buffer [], Some batch)
  end.

(** [bc.running.Swap(b)]: the new state and the old value. *)
Definition running_Swap (b : bool) : BatchConsumer * bool := (set_bc_running b, bc_running bc).

(** [close(bc.stopCh)] *)
Definition Stop_close : outcome BatchConsumer :=
  if stopCh_closed bc then Panic CloseOfClosedChannel else Ok (set_stopCh true).

Definition BufferLen : nat := length (buffer bc).
Definition BatchSize : Z := batchSize bc.
End Steps.

(** The handler of [AsHandler], around the [Add] of its batch consumer. *)
Definition AsHandler {W} (add : message -> GoM W unit) : HandlerSem W := fun _ msg =>
  add msg ;;; ret None.

(** ** Goroutines *)

(** What a goroutine does when its [Flush] returns. *)
Inductive after_flush :=
| ReturnToCaller                (* [Flush], and [Stop] *)
| LoopAgain (ctx : Ctx)         (* the background loop *)
| LoopReturn.                   (* the last flush of the background loop *)

Inductive thread :=
| TAddSend                                                    (* [Add], unlocked, to send *)
| TFlush (ctx : Ctx) (k : after_flush)                        (* [Flush], to lock *)
| THandle (ctx : Ctx) (batch : list message) (k : after_flush)  (* to call the handler *)
| TLoop (ctx : Ctx)                                           (* the loop, at its select *)
| TStop (ctx : Ctx).                                          (* [Stop], to close stopCh *)

Definition resume (k : after_flush) : list thread :=
  match k with LoopAgain ctx => [TLoop ctx] | _ => [] end.

Record state := mkState {
  st_bc : BatchConsumer;
  st_threads : list thread;
  st_done : list Ctx }.         (* the contexts that are done *)

(** What the outside sees of a step. *)
Inductive label :=
| LAdd (msg : message)                     (* a message enters the buffer *)
| LTake (batch : list message)             (* a flush takes the buffer *)
| LHandle (ctx : Ctx) (batch : list message)   (* the handler is called *)
| LOther.

Definition TFlush_of (ctx : Ctx) (st : state) (pre post : list thread) k : state :=
  mkState (st_bc st) (pre ++ TFlush ctx k :: post) (st_done st).

(** Steps of clients ([Add], [Flush], [Start], [Stop] called, a context
    cancelled) and of the goroutines already running. *)
Inductive client_step : state -> label -> state -> Prop :=
| step_Add st msg bc' sf :
    Add_locked (st_bc st) msg = (bc', sf) ->
    client_step st (LAdd msg)
      (mkState bc' (st_threads st ++ (if sf then [TAddSend] else [])) (st_done st))
| step_Flush st ctx :
    client_step st LOther
      (mkState (st_bc st) (st_threads st ++ [TFlush ctx ReturnToCaller]) (st_done st))
| step_Start st ctx bc' old :
    running_Swap (st_bc st) true = (bc', old) ->
    client_step st LOther
      (mkState bc' (st_threads st ++ (if old then [] else [TLoop ctx])) (st_done st))
| step_Stop st ctx bc' old :
    running_Swap (st_bc st) false = (bc', old) ->
    client_step st LOther
      (mkState bc' (st_threads st ++ (if old then [TStop ctx] else [])) (st_done st))
| step_cancel st ctx :
    client_step st LOther (mkState (st_bc st) (st_threads st) (ctx :: st_done st)).

Inductive thread_step : state -> label -> state -> Prop :=
| step_send bc pre post dn :
    thread_step (mkState bc (pre ++ TAddSend :: post) dn) LOther
      (mkState (Add_send bc) (pre ++ post) dn)
| step_take bc pre ctx k post dn bc' batch :
    Flush_locked bc = (bc', Some batch) ->
    thread_step (mkState bc (pre ++ TFlush ctx k :: post) dn) (LTake batch)
      (mkState bc' (pre ++ THandle ctx batch k :: post) dn)
| step_empty bc pre ctx k post dn bc' :
    Flush_locked bc = (bc', None) ->
    thread_step (mkState bc (pre ++ TFlush ctx k :: post) dn) LOther
      (mkState bc' (pre ++ resume k ++ post) dn)
| step_handle bc pre ctx batch k post dn :
    thread_step (mkState bc (pre ++ THandle ctx batch k :: post) dn) (LHandle ctx batch)
      (mkState bc (pre ++ resume k ++ post) dn)
| step_loop_flush bc pre ctx post dn :
    flushCh bc = true ->
    thread_step (mkState bc (pre ++ TLoop ctx :: post) dn) LOther
      (mkState (set_flushCh bc false) (pre ++ TFlush ctx (LoopAgain ctx) :: post) dn)
| step_loop_stop bc pre ctx post dn :
    stopCh_closed bc = true ->
    thread_step (mkState bc (pre ++ TLoop ctx :: post) dn) LOther
      (mkState bc (pre ++ TFlush ctx LoopReturn :: post) dn)
| step_loop_done bc pre ctx post dn :
    ctx ∈ dn ->
    thread_step (mkState bc (pre ++ TLoop ctx :: post) dn) LOther
      (mkState bc (pre ++ TFlush Background LoopReturn :: post) dn)
| step_close bc pre ctx post dn bc' :
    Stop_close bc = Ok bc' ->
    thread_step (mkState bc (pre ++ TStop ctx :: post) dn) LOther
      (mkState bc' (pre ++ TFlush ctx ReturnToCaller :: post) dn).

(** The ticker of the background loop fires. *)
Inductive tick_step : state -> label -> state -> Prop :=
| step_loop_tick bc pre ctx post dn :
    tick_step (mkState bc (pre ++ TLoop ctx :: post) dn) LOther
      (mkState bc (pre ++ TFlush ctx (LoopAgain ctx) :: post) dn).

Definition step (st : state) (l : label) (st' : state) : Prop :=
  client_step st l st' \/ thread_step st l st' \/ tick_step st l st'.

(** The program panics: [Stop] is about to close a closed channel. *)
Definition about_to_panic (st : state) : Prop :=
  exists ctx, TStop ctx ∈ st_threads st /\ Stop_close (st_bc st) = Panic CloseOfClosedChannel.

Definition initial (size after : Z) : state := mkState (NewBatchConsumer size after) [] [].

(** What a run did *)
Definition added (tr : list label) : list message :=
  omap (fun l => match l with LAdd m => Some m | _ => None end) tr.
Definition taken (tr : list label) : list (list message) :=
  omap (fun l => match l with LTake b => Some b | _ => None end) tr.
Definition handled (tr : list label) : list (list message) :=
  omap (fun l => match l with LHandle _ b => Some b | _ => None end) tr.
Definition in_flight (ts : list thread) : list (list message) :=
  omap (fun t => match t with THandle _ b _ => Some b | _ => None end) ts.

(** ** Invariants *)

Record inv (tr : list label) (st : state) : Prop := {
  inv_order : added tr = concat (taken tr) ++ buffer (st_bc st);
  inv_nonempty : Forall (fun b => b <> []) (taken tr);
  inv_handled : taken tr ≡ₚ handled tr ++ in_flight (st_threads st);
  inv_size : (1 <= batchSize (st_bc st))%Z;
  inv_signal : (batchSize (st_bc st) <= Z.of_nat (length (buffer (st_bc st))))%Z ->
    flushCh (st_bc st) = true \/ TAddSend ∈ st_threads st \/
    exists ctx k, TFlush ctx k ∈ st_threads st }.

Lemma in_flight_resume k : in_flight (resume k) = [].
Proof. by destruct k. Qed.

Lemma NewBatchConsumer_size size after : (1 <= batchSize (NewBatchConsumer size after))%Z.
Proof. simpl. destruct (Z.ltb_spec size 1); lia. Qed.

Lemma initial_inv size after : inv [] (initial size after).
Proof.
  split; simpl; [done..| |].
  - apply (NewBatchConsumer_size size after).
  - pose proof (NewBatchConsumer_size size after). simpl in *. lia.
Qed.

Lemma added_snoc tr l : added (tr ++ [l]) = added tr ++ added [l].
Proof. apply omap_app. Qed.
Lemma taken_snoc tr l : taken (tr ++ [l]) = taken tr ++ taken [l].
Proof. apply omap_app. Qed.
Lemma handled_snoc tr l : handled (tr ++ [l]) = handled tr ++ handled [l].
Proof. apply omap_app. Qed.
Lemma in_flight_app ts1 ts2 : in_flight (ts1 ++ ts2) = in_flight ts1 ++ in_flight ts2.
Proof. apply omap_app. Qed.

(** A step that neither adds, takes nor handles messages. *)
Lemma inv_other tr st st' :
  inv tr st -> buffer (st_bc st') = buffer (st_bc st) ->
  batchSize (st_bc st') = batchSize (st_bc st) ->
  in_flight (st_threads st') ≡ₚ in_flight (st_threads st) ->
  (flushCh (st_bc st) = true \/ TAddSend ∈ st_threads st \/
     (exists ctx k, TFlush ctx k ∈ st_threads st) ->
   flushCh (st_bc st') = true \/ TAddSend ∈ st_threads st' \/
     exists ctx k, TFlush ctx k ∈ st_threads st') ->
  inv (tr ++ [LOther]) st'.
Proof.
  intros [Ho Hn Hh Hs Hg] Hb Hsz Hf Hsig.
  split; rewrite ?added_snoc, ?taken_snoc, ?handled_snoc, ?app_nil_r, ?Hb, ?Hsz; auto.
  by rewrite Hf.
Qed.

Lemma client_step_inv tr st l st' : inv tr st -> client_step st l st' -> inv (tr ++ [l]) st'.
Proof.
  intros Hinv Hstep. destruct Hstep as [st msg bc' sf Hadd|st ctx|st ctx bc' old Hsw|
    st ctx bc' old Hsw|st ctx].
  - unfold Add_locked in Hadd. injection Hadd as <- <-. destruct Hinv as [Ho Hn Hh Hs Hg].
    split; rewrite ?added_snoc, ?taken_snoc, ?handled_snoc, ?app_nil_r; simpl; [..|done|].
    + by rewrite Ho, app_assoc.
    + done.
    + rewrite in_flight_app. by destruct (_ <=? _)%Z; simpl; rewrite app_nil_r.
    + intros Hle. right. left. rewrite (proj2 (Z.leb_le _ _)) by done.
      apply elem_of_app. right. by left.
  - eapply inv_other; [done|done|done|simpl; rewrite in_flight_app; simpl; by rewrite app_nil_r|].
    simpl. setoid_rewrite elem_of_app. naive_solver.
  - injection Hsw as <- <-. eapply inv_other; [done|done|done| |].
    + simpl. rewrite in_flight_app. by destruct (bc_running _); simpl; rewrite app_nil_r.
    + simpl. setoid_rewrite elem_of_app. naive_solver.
  - injection Hsw as <- <-. eapply inv_other; [done|done|done| |].
    + simpl. rewrite in_flight_app. by destruct (bc_running _); simpl; rewrite app_nil_r.
    + simpl. setoid_rewrite elem_of_app. naive_solver.
  - by eapply inv_other.
Qed.

Lemma Flush_locked_Some bc bc' batch :
  Flush_locked bc = (bc', Some batch) ->
  batch = buffer bc /\ batch <> [] /\ bc' = set_buffer bc [].
Proof. unfold Flush_locked. destruct (buffer bc); intros H; by simplify_eq. Qed.

Lemma Flush_locked_None bc bc' :
  Flush_locked bc = (bc', None) -> bc' = bc /\ buffer bc = [].
Proof. unfold Flush_locked. destruct (buffer bc); intros H; by simplify_eq. Qed.

(** A thread about to flush makes the signal condition true. *)
Lemma flush_signals pre ctx k post :
  exists ctx' k', TFlush ctx' k' ∈ pre ++ TFlush ctx k :: post.
Proof. exists ctx, k. apply elem_of_app. right. by left. Qed.

Lemma thread_step_inv tr st l st' : inv tr st -> thread_step st l st' -> inv (tr ++ [l]) st'.
Proof.
  intros Hinv Hstep. destruct Hstep as [bc pre post dn|bc pre ctx k post dn bc' batch Hf
    |bc pre ctx k post dn bc' Hf|bc pre ctx batch k post dn
    |bc pre ctx post dn Hf|bc pre ctx post dn Hf|bc pre ctx post dn Hf|bc pre ctx post dn bc' Hc].
  - eapply inv_other; [done|done|done|simpl; by rewrite !in_flight_app|]. simpl. by left.
  - apply Flush_locked_Some in Hf as (-> & Hne & ->). destruct Hinv as [Ho Hn Hh Hs Hg].
    simpl in *. split; rewrite ?added_snoc, ?taken_snoc, ?handled_snoc, ?app_nil_r; simpl.
    + rewrite concat_app. simpl. by rewrite !app_nil_r.
    + apply Forall_app. split; [done|by constructor].
    + rewrite Hh, !in_flight_app. simpl. rewrite <- !app_assoc. f_equiv.
      rewrite (Permutation_app_comm (in_flight pre)). simpl. 
      rewrite Permutation_app_comm. simpl. f_equiv. apply Permutation_app_comm.
    + done.
    + lia.
  - apply Flush_locked_None in Hf as [-> Hb]. destruct Hinv as [Ho Hn Hh Hs Hg].
    simpl in *. split; rewrite ?added_snoc, ?taken_snoc, ?handled_snoc, ?app_nil_r; simpl;
      [done|done| |done|rewrite Hb; simpl; lia].
    by rewrite Hh, !in_flight_app, in_flight_resume.
  - destruct Hinv as [Ho Hn Hh Hs Hg]. simpl in *.
    split; rewrite ?added_snoc, ?taken_snoc, ?handled_snoc, ?app_nil_r; simpl; [done|done| |done|].
    + rewrite Hh, !in_flight_app, in_flight_resume. simpl. rewrite <- !app_assoc. f_equiv.
      simpl. by rewrite Permutation_middle.
    + intros Hle. destruct (Hg Hle) as [?|[Hin|(ctx' & k' & Hin)]]; [by left|right; left|
        right; right; exists ctx', k']; rewrite !elem_of_app in *; rewrite elem_of_cons in Hin;
        naive_solver.
  - eapply inv_other; [done|done|done|simpl; by rewrite !in_flight_app|].
    intros _. right. right. apply flush_signals.
  - eapply inv_other; [done|done|done|simpl; by rewrite !in_flight_app|].
    intros _. right. right. apply flush_signals.
  - eapply inv_other; [done|done|done|simpl; by rewrite !in_flight_app|].
    intros _. right. right. apply flush_signals.
  - unfold Stop_close in Hc. destruct (stopCh_closed bc); [done|]. injection Hc as <-.
    eapply inv_other; [done|done|done|simpl; by rewrite !in_flight_app|].
    intros _. right. right. apply flush_signals.
Qed.

Lemma tick_step_inv tr st l st' : inv tr st -> tick_step st l st' -> inv (tr ++ [l]) st'.
Proof.
  intros Hinv Hstep. destruct Hstep as [bc pre ctx post dn].
  eapply inv_other; [done|done|done|simpl; by rewrite !in_flight_app|].
  intros _. right. right. apply flush_signals.
Qed.

Lemma runs_inv size after tr st : runs step (initial size after) tr st -> inv tr st.
Proof.
  apply (runs_invariant step inv); [|apply initial_inv].
  intros tr' st' l st2 Hi [?|[?|?]]; eauto using client_step_inv, thread_step_inv, tick_step_inv.
Qed.

(** ** A full buffer reaches the handler *)

(** Goes to the handler without a timer or a client. *)
Definition reaches_handler (st : state) (batch : list message) : Prop :=
  exists tr st', runs thread_step st tr st' /\ handled tr = [batch].

Lemma flush_reaches bc pre ctx k post dn :
  buffer bc <> [] -> reaches_handler (mkState bc (pre ++ TFlush ctx k :: post) dn) (buffer bc).
Proof.
  intros Hne.
  assert (Flush_locked bc = (set_buffer bc [], Some (buffer bc))) as Hf.
  { unfold Flush_locked. by destruct (buffer bc). }
  eexists _, _.
  split; [eapply runs_cons; [by apply step_take|apply runs_one, step_handle]|done].
Qed.

Lemma signal_reaches bc pre ctx post dn :
  buffer bc <> [] -> flushCh bc = true ->
  reaches_handler (mkState bc (pre ++ TLoop ctx :: post) dn) (buffer bc).
Proof.
  intros Hne Hf. pose proof (flush_reaches (set_flushCh bc false) pre ctx (LoopAgain ctx) post dn Hne)
    as (tr & st' & Hr & Hh).
  exists (LOther :: tr), st'. split; [|done]. eapply runs_cons; [by apply step_loop_flush|done].
Qed.

Lemma send_reaches bc ts dn ctx :
  buffer bc <> [] -> TAddSend ∈ ts -> TLoop ctx ∈ ts ->
  reaches_handler (mkState bc ts dn) (buffer bc).
Proof.
  intros Hne Hs Hl. apply list_elem_of_split in Hs as (pre & post & ->).
  assert (TLoop ctx ∈ pre ++ post) as Hl'.
  { rewrite elem_of_app in *. rewrite elem_of_cons in Hl. naive_solver. }
  apply list_elem_of_split in Hl' as (pre' & post' & Heq).
  destruct (signal_reaches (Add_send bc) pre' ctx post' dn Hne eq_refl) as (tr & st' & Hr & Hh).
  exists (LOther :: tr), st'. split; [|done]. eapply runs_cons; [apply step_send|]. by rewrite Heq.
Qed.

(** ** Stopping *)

(** A goroutine is going to flush: what it finds in the buffer will be taken. *)
Definition flushing (st : state) : Prop :=
  exists t, t ∈ st_threads st /\ match t with TFlush _ _ | TStop _ => True | _ => False end.

(** The buffer is empty, or going to be flushed. *)
Definition buffer_claimed (st : state) : Prop := buffer (st_bc st) <> [] -> flushing st.

(** A thread that does not flush is replaced by others; or one that does, by
    another one. *)
Lemma claimed_replace bc bc' pre t ts post dn dn' :
  buffer_claimed (mkState bc (pre ++ t :: post) dn) -> buffer bc' = buffer bc ->
  match t with TFlush _ _ | TStop _ => flushing (mkState bc' ts dn') | _ => True end ->
  buffer_claimed (mkState bc' (pre ++ ts ++ post) dn').
Proof.
  intros Hc Hb Ht Hne. simpl in *. rewrite Hb in Hne.
  assert (forall x, x ∈ ts \/ x ∈ pre ++ post -> x ∈ pre ++ ts ++ post) as Hin.
  { intros x. rewrite !elem_of_app. tauto. }
  destruct (Hc Hne) as (x & [->|Hx]%elem_middle & Hfl).
  - assert (flushing (mkState bc' ts dn')) as (y & Hy & ?) by by destruct t. exists y. auto.
  - exists x. auto.
Qed.

Lemma claimed_step st l st' :
  buffer_claimed st -> added [l] = [] -> step st l st' -> buffer_claimed st'.
Proof.
  intros Hc Hl [Hstep|[Hstep|Hstep]].
  - destruct Hstep as [st msg bc' sf Hadd|st ctx|st ctx bc' old Hsw|st ctx bc' old Hsw|st ctx];
      [done|..]; try (injection Hsw as <- <-); intros Hne; destruct (Hc Hne) as (t & Ht & Hfl);
      exists t; simpl; rewrite ?elem_of_app; auto.
  - destruct Hstep as [bc pre post dn|bc pre ctx k post dn bc' batch Hf
      |bc pre ctx k post dn bc' Hf|bc pre ctx batch k post dn
      |bc pre ctx post dn Hf|bc pre ctx post dn Hf|bc pre ctx post dn Hf|bc pre ctx post dn bc' Hs].
    + by apply (claimed_replace bc (Add_send bc) pre TAddSend [] post dn dn).
    + apply Flush_locked_Some in Hf as (_ & _ & ->). by intros [].
    + apply Flush_locked_None in Hf as [-> Hb]. by intros [].
    + by apply (claimed_replace bc bc pre (THandle ctx batch k) (resume k) post dn dn).
    + by apply (claimed_replace bc _ pre (TLoop ctx) [TFlush ctx (LoopAgain ctx)] post dn dn).
    + by apply (claimed_replace bc bc pre (TLoop ctx) [TFlush ctx LoopReturn] post dn dn).
    + by apply (claimed_replace bc bc pre (TLoop ctx) [TFlush Background LoopReturn] post dn dn).
    + unfold Stop_close in Hs. destruct (stopCh_closed bc); [done|]. injection Hs as <-.
      apply (claimed_replace bc _ pre (TStop ctx) [TFlush ctx ReturnToCaller] post dn dn); [done..|].
      eexists. by split; [left|].
  - destruct Hstep as [bc pre ctx post dn].
    by apply (claimed_replace bc bc pre (TLoop ctx) [TFlush ctx (LoopAgain ctx)] post dn dn).
Qed.

(** ** Coming to rest *)

(** The steps a goroutine has before it, at most: a loop has the flush of its
    return, a signal in [flushCh] or about to be sent one more round. *)
Definition resume_work (k : after_flush) : nat :=
  match k with LoopAgain _ => 3 | _ => 0 end.

Definition thread_work (t : thread) : nat :=
  match t with
  | TAddSend => 4
  | TFlush _ k => 2 + resume_work k
  | THandle _ _ k => 1 + resume_work k
  | TLoop _ => 3
  | TStop _ => 3
  end.

Definition work (st : state) : nat :=
  sum_list (map thread_work (st_threads st)) + (if flushCh (st_bc st) then 3 else 0).

Lemma resume_work_eq k : sum_list (map thread_work (resume k)) = resume_work k.
Proof. by destruct k. Qed.

Lemma thread_step_work st l st' : thread_step st l st' -> work st' < work st.
Proof.
  destruct 1 as [bc pre post dn|bc pre ctx k post dn bc' batch Hf
    |bc pre ctx k post dn bc' Hf|bc pre ctx batch k post dn
    |bc pre ctx post dn Hf|bc pre ctx post dn Hf|bc pre ctx post dn Hf|bc pre ctx post dn bc' Hs];
    unfold work; simpl; rewrite !sum_map_app; simpl; rewrite ?sum_map_app, ?resume_work_eq.
  - unfold Add_send. destruct (flushCh bc) eqn:Hf; simpl; rewrite ?Hf; lia.
  - apply Flush_locked_Some in Hf as (_ & _ & ->). simpl. lia.
  - apply Flush_locked_None in Hf as [-> _]. lia.
  - lia.
  - rewrite Hf. lia.
  - lia.
  - lia.
  - unfold Stop_close in Hs. destruct (stopCh_closed bc); [done|]. injection Hs as <-. simpl. lia.
Qed.

(** No goroutine can take a step. *)
Definition stuck (st : state) : Prop := forall l st', ~ thread_step st l st'.

(** A goroutine that cannot take a step is a loop with nothing to do, or is
    about to panic. *)
Lemma stuck_thread st t :
  stuck st -> t ∈ st_threads st ->
  match t with
  | TLoop ctx => flushCh (st_bc st) = false /\ stopCh_closed (st_bc st) = false /\ ctx ∉ st_done st
  | TStop _ => stopCh_closed (st_bc st) = true
  | _ => False
  end.
Proof.
  destruct st as [bc ts dn]. simpl. intros Hs (pre & post & ->)%list_elem_of_split.
  destruct t as [|ctx k|ctx batch k|ctx|ctx].
  - eapply Hs, step_send.
  - destruct (Flush_locked bc) as [bc' [batch|]] eqn:Hf; eapply Hs.
    + by eapply step_take.
    + by eapply step_empty.
  - eapply Hs, step_handle.
  - split_and!.
    + apply not_true_is_false. intros Hf. by eapply Hs, step_loop_flush.
    + apply not_true_is_false. intros Hf. by eapply Hs, step_loop_stop.
    + intros Hd. by eapply Hs, step_loop_done.
  - destruct (stopCh_closed bc) eqn:Hc; [done|]. exfalso. eapply Hs, step_close.
    unfold Stop_close. by rewrite Hc.
Qed.

(** ** Properties *)

(** C5: no message is lost, duplicated or reordered.  In every run of a batch
    consumer, with any number of goroutines adding, flushing, starting and
    stopping, the messages added are, in their order, those of the batches
    taken followed by the buffer; no batch is empty; the batches taken are
    those the handler was called with and those about to be; and when a flush
    takes a batch, every message added so far is in a taken batch. *)
Theorem batches_conserve size after tr st :
  runs step (initial size after) tr st ->
  added tr = concat (taken tr) ++ buffer (st_bc st) /\
  Forall (fun b => b <> []) (taken tr) /\
  taken tr ≡ₚ handled tr ++ in_flight (st_threads st) /\
  (forall b st', thread_step st (LTake b) st' -> added tr = concat (taken (tr ++ [LTake b]))).
Proof.
  intros Hr. pose proof (runs_inv _ _ _ _ Hr) as [Ho Hn Hh Hs Hg]. split_and!; [done..|].
  intros b st' Hstep. rewrite taken_snoc, concat_app, Ho. simpl. rewrite app_nil_r. f_equal.
  inversion Hstep; subst. simpl.
  by match goal with H : Flush_locked _ = _ |- _ => apply Flush_locked_Some in H as (-> & _) end.
Qed.

(** A consumer of batches of two, started, with two messages added. *)
Definition demo_run_state : state :=
  mkState (mkBatchConsumer 2 Second [Some 1; Some 2] false false true)
    [TLoop Background; TAddSend] [].

Lemma demo_run : runs step (initial 2 Second) [LOther; LAdd (Some 1); LAdd (Some 2)] demo_run_state.
Proof.
  eapply runs_cons; [left; by apply (step_Start _ Background)|]. simpl.
  eapply runs_cons; [left; by apply step_Add|]. simpl.
  eapply runs_cons; [left; by apply step_Add|]. apply runs_nil.
Qed.

Lemma batches_conserve_witness :
  added [LOther; LAdd (Some 1); LAdd (Some 2)] = [Some 1; Some 2].
Proof. apply (batches_conserve 2 Second _ _ demo_run). Defined.

(** C26: a full buffer is flushed without waiting for the ticker (no wake-up is
    lost): in every reachable state whose background loop is at its select
    and whose buffer holds [batchSize] messages or more, the goroutines
    already running can go on to call the handler with the whole buffer. *)
Theorem full_buffer_is_flushed size after tr st ctx :
  runs step (initial size after) tr st -> TLoop ctx ∈ st_threads st ->
  (batchSize (st_bc st) <= Z.of_nat (length (buffer (st_bc st))))%Z ->
  reaches_handler st (buffer (st_bc st)).
Proof.
  intros Hr Hl Hfull. pose proof (runs_inv _ _ _ _ Hr) as [_ _ _ Hs Hg].
  assert (buffer (st_bc st) <> []) as Hne by (intros Hb; rewrite Hb in Hfull; simpl in Hfull; lia).
  destruct st as [bc ts dn]. simpl in *.
  destruct (Hg Hfull) as [Hsig|[Hsend|(ctx' & k & Hf)]].
  - apply list_elem_of_split in Hl as (pre & post & ->). by apply signal_reaches.
  - by eapply send_reaches.
  - apply list_elem_of_split in Hf as (pre & post & ->). by apply flush_reaches.
Qed.

Lemma full_buffer_is_flushed_witness : reaches_handler demo_run_state [Some 1; Some 2].
Proof.
  apply (full_buffer_is_flushed 2 Second _ demo_run_state Background demo_run);
    [by left|simpl; lia].
Defined.


(** C7: the goroutines of a batch consumer come to rest (none waits for
    another): left to themselves, without clients and ticker, they take a
    bounded number of steps, and where they can take no more and none is
    about to panic, no flush or handler call is under way; what is left are
    background loops, waiting at their select with nothing to receive; and
    none at all when the consumer has been stopped. *)
Theorem goroutines_come_to_rest st tr st' :
  runs thread_step st tr st' ->
  length tr <= work st /\
  (stuck st' -> ~ about_to_panic st' ->
   ~ flushing st' /\ in_flight (st_threads st') = [] /\
   (forall t, t ∈ st_threads st' -> exists ctx, t = TLoop ctx /\ (ctx ∉ st_done st') /\
      flushCh (st_bc st') = false) /\
   (stopCh_closed (st_bc st') = true -> st_threads st' = [])).
Proof.
  intros Hr. split.
  - pose proof (runs_measure thread_step work st tr st' thread_step_work Hr). lia.
  - intros Hs Hp.
    assert (forall t, t ∈ st_threads st' -> exists ctx, t = TLoop ctx /\ (ctx ∉ st_done st') /\
      flushCh (st_bc st') = false /\ stopCh_closed (st_bc st') = false) as Hall.
    { intros t Ht. pose proof (stuck_thread st' t Hs Ht) as Hst.
      destruct t as [|ctx k|ctx b k|ctx|ctx]; try done; [by exists ctx; destruct Hst as (?&?&?)|].
      destruct Hp. exists ctx. split; [done|]. unfold Stop_close. by rewrite Hst. }
    split_and!.
    + intros (t & (ctx & -> & _)%Hall & []).
    + clear Hr Hs Hp. induction (st_threads st') as [|t ts IH]; [done|].
      destruct (Hall t) as (ctx & -> & _); [by left|]. apply IH. intros; apply Hall. by right.
    + intros t (ctx & ? & ? & ? & _)%Hall. by exists ctx.
    + intros Hc. destruct (st_threads st') as [|t ts]; [done|].
      destruct (Hall t) as (ctx & _ & _ & _ & Ho); [by left|]. congruence.
Qed.

(** The consumer of [demo_run], stopped. *)
Definition demo_stopping : state :=
  mkState (mkBatchConsumer 2 Second [Some 1; Some 2] false false false)
    [TLoop Background; TAddSend; TStop Background] [].

Definition demo_stopped : state :=
  mkState (mkBatchConsumer 2 Second [] false true false) [TLoop Background; TAddSend] [].

Lemma batch_run_stopping :
  runs step (initial 2 Second) [LOther; LAdd (Some 1); LAdd (Some 2); LOther] demo_stopping.
Proof.
  apply (runs_app step _ _ _ [LOther] _ demo_run).
  eapply runs_cons; [left; by apply (step_Stop _ Background)|]. apply runs_nil.
Qed.

Lemma batch_run_stopped :
  runs thread_step demo_stopping
    [LOther; LTake [Some 1; Some 2]; LHandle Background [Some 1; Some 2]] demo_stopped.
Proof.
  eapply runs_cons;
    [by apply (step_close _ [TLoop Background; TAddSend] Background [])|]. simpl.
  eapply runs_cons;
    [by apply (step_take _ [TLoop Background; TAddSend] _ ReturnToCaller [])|]. simpl.
  eapply runs_cons;
    [apply (step_handle _ [TLoop Background; TAddSend] _ _ ReturnToCaller [])|].
  apply runs_nil.
Qed.

(** Its goroutines at rest. *)
Definition demo_rest : state := mkState (mkBatchConsumer 2 Second [] true true false) [] [].

Lemma batch_run_rest : runs thread_step demo_stopped [LOther; LOther; LOther] demo_rest.
Proof.
  eapply runs_cons; [apply (step_send _ [TLoop Background] [])|]. simpl.
  eapply runs_cons; [by apply (step_loop_stop _ [] Background [])|]. simpl.
  eapply runs_cons; [by apply (step_empty _ [] Background LoopReturn [])|]. apply runs_nil.
Qed.

Lemma demo_rest_stuck : stuck demo_rest.
Proof.
  intros l st' Hstep. remember demo_rest as st eqn:Hst. unfold demo_rest in Hst.
  destruct Hstep; injection Hst as _ Hts _; by destruct pre.
Qed.


Lemma goroutines_come_to_rest_witness :
  work demo_stopping = 10 /\ ~ flushing demo_rest.
Proof.
  split; [reflexivity|].
  refine (proj1 (proj2 (goroutines_come_to_rest demo_stopping _ demo_rest
    (runs_app _ _ _ _ _ _ batch_run_stopped batch_run_rest)) demo_rest_stuck _)).
  intros (ctx & Hc & _). by apply elem_of_nil in Hc.
Defined.

(** [Start], [Stop], [Start], [Stop] panics: [Start] does not make a new
    stop channel, so whatever happens in between, the [Stop] of a consumer
    restarted after its channel was closed is about to close it again. *)
Theorem Stop_after_restart_panics size after (ctx : Ctx) :
  exists tr st, runs step (initial size after) tr st /\ about_to_panic st /\ taken tr = [].
Proof.
  eexists _, _. split; [|split].
  - eapply runs_cons; [left; by apply (step_Start _ ctx)|]. simpl.
    eapply runs_cons; [left; by apply (step_Stop _ ctx)|]. simpl.
    eapply runs_cons; [right; left; by apply (step_close _ [TLoop ctx] ctx [])|]. simpl.
    eapply runs_cons; [right; left; by apply (step_empty _ [TLoop ctx] ctx ReturnToCaller [])|]. simpl.
    eapply runs_cons; [left; by apply (step_Start _ ctx)|]. simpl.
    apply runs_one. left. by apply (step_Stop _ ctx).
  - exists ctx. split; [|done]. simpl. set_solver.
  - done.
Qed.
