(* ===== verification/DeadLetter.v ===== *)
(** * The dead letter handler (pkg/consumer/consumer.go)

    [DeadLetterHandler.Handle] works through any [MessageBroker]; its state is
    paired with the world of that broker.  The failure callback is a function
    value: a number, with its behaviour given by [run_callback]. *)

From Stdlib Require Import ZArith Lia.
From stdpp Require Import base gmap strings pretty list fin_maps.
From S2P Require Import Prelude Store Demo I18n Errors Message Broker InMemory InMemorySubs.
From S2P Require Import InMemoryProps ConsumerGroup.

(** ** time.RFC3339 of a UTC time *)

(** A number in decimal, padded with zeros to [width] digits. *)
Definition zero_pad (width : nat) (n : Z) : string :=
  let s := pretty (Z.to_N n) in
  String.concat "" (repeat "0" (width - String.length s)) +:+ s.

(** Year, month and day of a number of days since 1970-01-01 (proleptic
    Gregorian calendar, in eras of 400 years that start in March). *)
Definition civil_from_days (days : Z) : Z * Z * Z :=
  let z := (days + 719468)%Z in
  let era := (z / 146097)%Z in
  let doe := (z - era * 146097)%Z in
  let yoe := ((doe - doe / 1460 + doe / 36524 - doe / 146096) / 365)%Z in
  let doy := (doe - (365 * yoe + yoe / 4 - yoe / 100))%Z in
  let mp := ((5 * doy + 2) / 153)%Z in
  let d := (doy - (153 * mp + 2) / 5 + 1)%Z in
  let m := (if mp <? 10 then mp + 3 else mp - 9)%Z in
  ((yoe + era * 400 + (if m <=? 2 then 1 else 0))%Z, m, d).

Definition Format_RFC3339_UTC (t : Time) : string :=
  let secs := (t_nanos t / 1000000000)%Z in
  let '(y, m, d) := civil_from_days (secs / 86400) in
  let sod := (secs mod 86400)%Z in
  (if (y <? 0)%Z then "-" else "") +:+ zero_pad 4 (Z.abs y) +:+ "-" +:+ zero_pad 2 m +:+ "-" +:+
  zero_pad 2 d +:+ "T" +:+ zero_pad 2 (sod / 3600) +:+ ":" +:+
  zero_pad 2 (sod / 60 mod 60) +:+ ":" +:+ zero_pad 2 (sod mod 60) +:+ "Z".

Example format_example :
  Format_RFC3339_UTC (mkTime 1709210096000000000 0) = "2024-02-29T12:34:56Z".
Proof. vm_compute. reflexivity. Qed.

(** ** The handler *)

Record DeadLetterHandler := mkDeadLetterHandler {
  dlqTopic : string;
  onFailure : option nat;
  dlq_count : Z }.

Definition NewDeadLetterHandler (topic : string) : DeadLetterHandler :=
  mkDeadLetterHandler topic None 0.

(** The behaviour of the callbacks, which may use the handler and the broker. *)
Class Callbacks (B : Type) := {
  run_callback : nat -> Ctx -> option loc -> option error ->
    GoM (DeadLetterHandler * World B) unit }.

Section Handler.
Context {En : Env} {B : Type} {MB : MessageBroker B} {CB : Callbacks B}.
Context (tr : Translator any).

Abbreviation State := (DeadLetterHandler * World B)%type (only parsing).

Definition SetOnFailure (fn : option nat) : GoM State unit :=
  modify (fun st => (mkDeadLetterHandler (dlqTopic st.1) fn (dlq_count st.1), st.2)).

(** [originalErr.Error()] *)
Definition error_text (err : option error) : GoM State string :=
  match err with
  | Some e => match Error tr e with
              | Some s => ret s
              | None => throw NilDereference
              end
  | None => throw NilDereference
  end.

Definition in_mem {A} (c : GoM mem A) : GoM State A := on_snd (on_mem c).

(** [Handle] once the dead letter [d] is made: publish, count, call back. *)
Definition Handle_publish (ctx : Ctx) (msg : option loc) (originalErr : option error) (d : loc) :
    GoM State (option error) :=
  let! dlh := gets fst in
  let! err := on_snd (Publish ctx (dlqTopic dlh) (Some d) []) in
  match err with
  | Some e =>
    let! l := in_mem alloc_loc in
    ret (Some (Errorf_wrap tr l ("failed to publish to DLQ " +:+ dlqTopic dlh) e))
  | None =>
    modify (fun st => (mkDeadLetterHandler (dlqTopic st.1) (onFailure st.1)
      (wrap64 (dlq_count st.1 + 1)), st.2)) ;;;
    let! dlh := gets fst in
    match onFailure dlh with
    | Some fn => run_callback fn ctx msg originalErr
    | None => ret tt
    end ;;;
    ret None
  end.

Definition Handle (ctx : Ctx) (msg : option loc) (originalErr : option error) :
    GoM State (option error) :=
  let! dlqMsg := in_mem (Clone msg) in
  let! reason := error_text originalErr in
  let! _ := in_mem (SetHeader (Some dlqMsg) "x-dlq-reason" reason) in
  let! m := in_mem (load_msg msg) in
  let! _ := in_mem (SetHeader (Some dlqMsg) "x-dlq-original-topic" (msg_Topic m)) in
  let! now := in_mem time_Now_UTC in
  let! _ := in_mem (SetHeader (Some dlqMsg) "x-dlq-timestamp" (Format_RFC3339_UTC now)) in
  Handle_publish ctx msg originalErr dlqMsg.

Definition Count : GoM State Z := let! dlh := gets fst in ret (dlq_count dlh).

Definition DLQTopic : GoM State string := let! dlh := gets fst in ret (dlqTopic dlh).

(** ** The message sent to the dead letter queue *)

Definition dead_letter (reason : string) (now : Time) (c : content) : content :=
  set_header_content "x-dlq-timestamp" (Format_RFC3339_UTC now)
    (set_header_content "x-dlq-original-topic" (c_topic c)
      (set_header_content "x-dlq-reason" reason (clone_content c))).

Lemma in_mem_ok {A C} (c : GoM mem A) (k : A -> GoM State C) (st : State) a m :
  c (w_mem st.2) = (Ok a, m) -> bind (in_mem c) k st = k a (st.1, set_mem st.2 m).
Proof. intros Hc. unfold bind, in_mem, on_snd, on_mem. by rewrite Hc. Qed.

(** A header of the fresh dead letter. *)
Lemma dead_letter_header d k v m0 m :
  mem_wf m -> mem_extends m0 m -> is_Some (msgs_of m !! d) -> all_fresh m0 m d ->
  exists m', SetHeader (Some d) k v m = (Ok (Some d), m') /\ mem_wf m' /\ mem_extends m0 m' /\
    is_Some (msgs_of m' !! d) /\ all_fresh m0 m' d /\
    content_of m' d = set_header_content k v <$> content_of m d.
Proof.
  intros Hwf Hext Hd Hfr.
  destruct (wp_run _ _ _ (SetHeader_spec d k v m Hwf Hd))
    as (r & m' & Hrun & -> & Hwf' & Hd' & Hct & Hkeep).
  destruct (Hkeep m0 Hext Hfr). by exists m'.
Qed.

Lemma Handle_eq ctx l err reason dlh (w : World B) c :
  mem_wf (w_mem w) -> content_of (w_mem w) l = Some c -> Error tr err = Some reason ->
  exists d m,
    Handle ctx (Some l) (Some err) (dlh, w) =
      Handle_publish ctx (Some l) (Some err) d (dlh, set_mem w m) /\
    mem_wf m /\ mem_extends (w_mem w) m /\ all_fresh (w_mem w) m d /\
    content_of m d = Some (dead_letter reason (now_at w) c) /\
    clock_ctr m = S (clock_ctr (w_mem w)).
Proof.
  intros Hwf Hc Hr. destruct (content_fields _ _ _ Hc) as (x & Hx & _ & Htx & _).
  destruct (wp_run _ _ _ (Clone_spec l (w_mem w) Hwf ltac:(by exists x)))
    as (d & m1 & Hclone & Hwf1 & Hext1 & Hd1 & Hfr1 & Hct1). rewrite Hc in Hct1. simpl in Hct1.
  destruct (dead_letter_header d "x-dlq-reason" reason (w_mem w) m1)
    as (m2 & Hs2 & Hwf2 & Hext2 & Hd2 & Hfr2 & Hct2); [done..|].
  destruct (dead_letter_header d "x-dlq-original-topic" (msg_Topic x) (w_mem w) m2)
    as (m3 & Hs3 & Hwf3 & Hext3 & Hd3 & Hfr3 & Hct3); [done..|].
  pose proof (leaves_ok _ _ _ _ _ (Clone_clock _) Hclone) as Hck1.
  pose proof (leaves_ok _ _ _ _ _ (SetHeader_clock _ _ _) Hs2) as Hck2.
  pose proof (leaves_ok _ _ _ _ _ (SetHeader_clock _ _ _) Hs3) as Hck3.
  assert (clock_ctr m3 = clock_ctr (w_mem w)) as Hck by congruence.
  destruct (dead_letter_header d "x-dlq-timestamp" (Format_RFC3339_UTC (now_at w)) (w_mem w) (tick m3))
    as (m4 & Hs4 & Hwf4 & Hext4 & Hd4 & Hfr4 & Hct4);
    [by apply tick_wf|by apply tick_extends|done|done|].
  pose proof (leaves_ok _ _ _ _ _ (SetHeader_clock _ _ _) Hs4) as Hck4.
  exists d, m4. split_and!; [|done|done|done| |by rewrite Hck4; simpl; rewrite Hck].
  - unfold Handle. erewrite in_mem_ok by exact Hclone. unfold error_text. rewrite Hr.
    erewrite bind_ok by done. erewrite in_mem_ok by exact Hs2.
    erewrite in_mem_ok.
    2:{ simpl. unfold load_msg. by rewrite (msgs_extends (w_mem w) m2 Hwf Hext2 _ _ Hx). }
    erewrite in_mem_ok by exact Hs3. erewrite in_mem_ok by done.
    change (clock_ctr _) with (clock_ctr m3). rewrite Hck. erewrite in_mem_ok by exact Hs4. done.
  - rewrite Hct4. assert (content_of (tick m3) d = content_of m3 d) as -> by done.
    rewrite Hct3, Hct2, Hct1. unfold dead_letter. by rewrite <- Htx.
Qed.
End Handler.

Definition callback `{Callbacks B} (fn : option nat) ctx msg err :
    GoM (DeadLetterHandler * World B) unit :=
  match fn with Some f => run_callback f ctx msg err | None => ret tt end.

Definition counted (dlh : DeadLetterHandler) : DeadLetterHandler :=
  mkDeadLetterHandler (dlqTopic dlh) (onFailure dlh) (wrap64 (dlq_count dlh + 1)).

(** [Handle] after a publication that succeeded. *)
Lemma Handle_publish_ok {En : Env} {B} {MB : MessageBroker B} {CB : Callbacks B}
    tr ctx msg err d dlh (w w' : World B) :
  Publish ctx (dlqTopic dlh) (Some d) [] w = (Ok None, w') ->
  Handle_publish tr ctx msg err d (dlh, w) =
    (callback (onFailure dlh) ctx msg err ;;; ret None) (counted dlh, w').
Proof.
  intros Hpub. unfold Handle_publish. erewrite bind_ok by done.
  by erewrite on_snd_ok by exact Hpub.
Qed.

(** The demonstration broker with a dead letter topic: the world of
    InMemoryProps after one more subscription. *)
Definition dlq_world : World InMemoryBroker :=
  run (demo_acts ++ [ASubscribe Background "dlq" (Some 5) []]) (fresh_broker demo_mem).

Lemma dlq_world_inv : inmem_inv dlq_world.
Proof.
  apply run_inmem; [apply fresh_broker_inv, demo_mem_wf|].
  apply runnable_app. split; [apply demo_runnable|]. vm_compute. eauto.
Qed.

#[export] Instance demo_callbacks : Callbacks InMemoryBroker := {|
  run_callback := fun _ _ _ _ => modify (fun st => (mkDeadLetterHandler "called" None 0, st.2)) |}.

(** ** Properties *)

(** C21: whatever the broker, [Handle] publishes to the dead letter topic a
    fresh copy of the failed message whose headers carry the error text, the
    original topic and the time the clock showed at the call.  When the
    publication fails, it returns an error that wraps the broker's and neither
    counts nor calls back; when it succeeds, it counts the message, then calls
    the failure callback, if there is one, with the original message and
    error, and returns nil if the callback returns.  The publication leaves
    the failed message unchanged. *)
Theorem Handle_outcome {En : Env} {B} {MB : MessageBroker B} {MBS : MessageBrokerSpec B}
    {CB : Callbacks B} tr ctx l err reason dlh (w : World B) c :
  broker_inv w -> content_of (w_mem w) l = Some c -> Error tr err = Some reason ->
  exists d m r w2,
    mem_wf m /\ mem_extends (w_mem w) m /\ all_fresh (w_mem w) m d /\
    content_of m d = Some (dead_letter reason (now_at w) c) /\
    Publish ctx (dlqTopic dlh) (Some d) [] (set_mem w m) = (Ok r, w2) /\
    content_of (w_mem w2) l = Some c /\
    match r with
    | Some e => exists a m3, Handle tr ctx (Some l) (Some err) (dlh, w) =
        (Ok (Some (Errorf_wrap tr a ("failed to publish to DLQ " +:+ dlqTopic dlh) e)),
         (dlh, set_mem w2 m3))
    | None => Handle tr ctx (Some l) (Some err) (dlh, w) =
        (callback (onFailure dlh) ctx (Some l) (Some err) ;;; ret None) (counted dlh, w2)
    end.
Proof.
  intros Hinv Hc Hr. pose proof (broker_inv_wf _ Hinv) as Hwf.
  destruct (Handle_eq tr ctx l err reason dlh w c Hwf Hc Hr)
    as (d & m & Heq & Hwfm & Hext & Hfr & Hd & _).
  destruct (wp_run _ _ _ (Publish_law ctx (dlqTopic dlh) d [] (set_mem w m)
    ltac:(by apply broker_inv_mem, mem_extends_keeps) (content_live _ _ _ Hd)))
    as (r & w2 & Hpub & Hinv2 & Hext2 & _).
  exists d, m, r, w2. split_and!; [done..| |].
  - pose proof (content_live _ _ _ Hc) as [x Hx].
    rewrite (content_of_extends m), (content_of_extends (w_mem w)); [done..|].
    exists x. by apply (msgs_extends (w_mem w)).
  - rewrite Heq. destruct r as [e|]; [|by apply Handle_publish_ok].
    unfold Handle_publish. erewrite bind_ok by done. erewrite on_snd_ok by exact Hpub.
    eexists _, _. by erewrite in_mem_ok by done.
Qed.

Lemma Handle_outcome_witness :
  exists d m r w2,
    Publish Background "dlq" (Some d) [] (set_mem dlq_world m) = (Ok r, w2) /\
    content_of m d = Some (dead_letter "publish timeout" (now_at dlq_world) demo_content).
Proof.
  destruct (Handle_outcome (MBS := InMemory_MessageBrokerSpec) NoopTranslator Background demo_msg (ErrSentinel ErrPublishTimeout)
    "publish timeout" (mkDeadLetterHandler "dlq" (Some 1) 0) dlq_world demo_content dlq_world_inv
    ltac:(vm_compute; reflexivity) ltac:(reflexivity))
    as (d & m & r & w2 & _ & _ & _ & Hd & Hpub & _ & _).
  exists d, m, r, w2. split; [exact Hpub|exact Hd].
Defined.

(** C30: on a connected in-memory broker [Handle] queues the dead letter under
    the dead letter topic, stamped with the reading of the clock after the one
    in its header, starts one goroutine with a copy of it per active
    subscriber of that topic, and adds one to the count; then it runs the
    failure callback, whose panic is the only way it can end without returning
    nil: with no callback set it returns nil at once. *)
Theorem Handle_dead_letters {En : Env} {CB : Callbacks InMemoryBroker} tr ctx l err reason dlh
    (w : World InMemoryBroker) c :
  inmem_inv w -> connected (w_br w) = true -> content_of (w_mem w) l = Some c ->
  Error tr err = Some reason ->
  exists w',
    queued_and_delivered ctx (dlqTopic dlh)
      (published (dlqTopic dlh) (clock_time (S (clock_ctr (w_mem w))))
        (dead_letter reason (now_at w) c)) w w' /\
    Handle tr ctx (Some l) (Some err) (dlh, w) =
      match onFailure dlh with
      | None => (Ok None, (counted dlh, w'))
      | Some fn =>
        match run_callback fn ctx (Some l) (Some err) (counted dlh, w') with
        | (Ok _, st) => (Ok None, st)
        | (Panic p, st) => (Panic p, st)
        end
      end.
Proof.
  intros Hinv Hcon Hc Hr. pose proof (inv_mem _ Hinv) as Hwf.
  destruct (Handle_eq tr ctx l err reason dlh w c Hwf Hc Hr)
    as (d & m & Heq & Hwfm & Hext & _ & Hd & Hck).
  destruct (Publish_queued ctx (dlqTopic dlh) d _ [] (set_mem w m)
    ltac:(by apply inmem_inv_mem, mem_extends_keeps) Hcon Hd) as (w' & Hpub & _ & _ & Hq).
  exists w'. unfold now_at in Hq. simpl in Hq. rewrite Hck in Hq. split; [exact Hq|].
  rewrite Heq. erewrite Handle_publish_ok by exact Hpub. unfold callback, bind.
  by destruct (onFailure dlh).
Qed.

Lemma Handle_dead_letters_witness :
  exists w', queued_and_delivered Background "dlq"
      (published "dlq" (clock_time (S (clock_ctr (w_mem dlq_world))))
        (dead_letter "publish timeout" (now_at dlq_world) demo_content)) dlq_world w' /\
    Handle NoopTranslator Background (Some demo_msg)
      (Some (ErrSentinel ErrPublishTimeout)) (mkDeadLetterHandler "dlq" None 6, dlq_world) =
      (Ok None, (mkDeadLetterHandler "dlq" None 7, w')).
Proof.
  apply (Handle_dead_letters NoopTranslator Background demo_msg (ErrSentinel ErrPublishTimeout)
    "publish timeout" (mkDeadLetterHandler "dlq" None 6) dlq_world demo_content dlq_world_inv);
    [vm_compute; reflexivity|vm_compute; reflexivity|reflexivity].
Defined.
