(* ===== verification/Codecs.v ===== *)
(** * Serializers and compressors (pkg/producer/producer.go)

    [Serializer] and [Compressor] are interfaces: records of operations.  The
    codecs themselves (encoding/json, compress/gzip, the injected protobuf,
    Avro, Snappy and LZ4 functions) are parameters; what the package adds
    around them is defined here. *)

From Stdlib Require Import ZArith Lia.
From stdpp Require Import base gmap strings pretty list fin_maps.
From S2P Require Import Prelude Store Demo I18n Errors Message.

Section Serializers.
Context {V : Type}.       (* the Go values that are serialized *)

Record Serializer := mkSerializer {
  Serialize : V -> GoM mem (option slice * option error);
  Deserialize : option slice -> GoM mem (V + error);
  ContentType : string }.

(** [json.Marshal] and [json.Unmarshal] *)
Class JSON := {
  json_Marshal : V -> bytes + error;
  json_Unmarshal : bytes -> V + error }.

Definition JSONSerializer `{JSON} : Serializer := {|
  Serialize := fun v =>
    match json_Marshal v with
    | inl bs => let! s := new_array bs in ret (Some s, None)
    | inr e => ret (None, Some e)
    end;
  Deserialize := fun data => let! bs := load_bytes data in ret (json_Unmarshal bs);
  ContentType := "application/json" |}.

(** The functions injected in a protobuf or Avro serializer; nil allowed. *)
Record SerializerFuncs := mkSerializerFuncs {
  MarshalFunc : option (V -> GoM mem (option slice * option error));
  UnmarshalFunc : option (option slice -> GoM mem (V + error)) }.

Definition ProtobufSerializer (s : SerializerFuncs) : Serializer := {|
  Serialize := fun v =>
    match MarshalFunc s with
    | None => let! e := fresh_error "protobuf marshal function not set" in ret (None, Some e)
    | Some f => f v
    end;
  Deserialize := fun data =>
    match UnmarshalFunc s with
    | None => let! e := fresh_error "protobuf unmarshal function not set" in ret (inr e)
    | Some f => f data
    end;
  ContentType := "application/x-protobuf" |}.

Definition AvroSerializer (s : SerializerFuncs) : Serializer := {|
  Serialize := fun v =>
    match MarshalFunc s with
    | None => let! e := fresh_error "avro marshal function not set" in ret (None, Some e)
    | Some f => f v
    end;
  Deserialize := fun data =>
    match UnmarshalFunc s with
    | None => let! e := fresh_error "avro unmarshal function not set" in ret (inr e)
    | Some f => f data
    end;
  ContentType := "application/avro" |}.
End Serializers.
Arguments Serializer : clear implicits.
Arguments JSON : clear implicits.
Arguments SerializerFuncs : clear implicits.

(** ** Compressors *)

Record Compressor := mkCompressor {
  Compress : option slice -> GoM mem (option slice * option error);
  Decompress : option slice -> GoM mem (option slice * option error);
  Algorithm : string }.

(** compress/gzip: the encoding of some bytes at a level, and its inverse,
    which fails when the header is bad, or later, with what it has read. *)
Inductive gunzip_result :=
| Gunzipped (bs : bytes)
| BadHeader (e : error)
| BadData (read : bytes) (e : error).

Class Gzip := {
  gzip_encode : Z -> bytes -> bytes;
  gzip_decode : bytes -> gunzip_result }.

(** Where [GzipCompressor.writerFactory] writes: a [bytes.Buffer] that may
    hold something already, or another writer, whose [Write] or whose last
    writes on [Close] may fail. *)
Inductive gzip_target :=
| BufferWriter (held : bytes)
| OtherWriter (write_err close_err : option error).

Record GzipCompressor := mkGzipCompressor {
  Level : Z;
  writerFactory : option gzip_target }.

Section Gzip.
Context {Gz : Gzip} (tr : Translator any).

(** [gzip.NewWriterLevel] accepts [HuffmanOnly] (-2) to [BestCompression] (9);
    [DefaultCompression] is -1. *)
Definition valid_level (level : Z) : bool := (-2 <=? level)%Z && (level <=? 9)%Z.

Definition gzip_level (c : GzipCompressor) : Z := if (Level c =? 0)%Z then (-1)%Z else Level c.

Definition gzip_Compress (c : GzipCompressor) (data : option slice) :
    GoM mem (option slice * option error) :=
  let level := gzip_level c in
  if negb (valid_level level) then
    let! e := fresh_error ("gzip: invalid compression level: " +:+ pretty level) in
    let! e := Errorf_fresh tr "gzip writer creation failed" e in
    ret (None, Some e)
  else
    let! bs := load_bytes data in
    match writerFactory c with
    | None => let! s := new_array (gzip_encode level bs) in ret (Some s, None)
    | Some (BufferWriter held) =>
      let! s := new_array (held ++ gzip_encode level bs) in ret (Some s, None)
    | Some (OtherWriter (Some e) _) =>
      let! e := Errorf_fresh tr "gzip write failed" e in ret (None, Some e)
    | Some (OtherWriter None (Some e)) =>
      let! e := Errorf_fresh tr "gzip close failed" e in ret (None, Some e)
    | Some (OtherWriter None None) => ret (None, None)   (* the unused buffer's bytes *)
    end.

Definition gzip_Decompress (data : option slice) : GoM mem (option slice * option error) :=
  let! bs := load_bytes data in
  match gzip_decode bs with
  | BadHeader e =>
    let! e := Errorf_fresh tr "gzip reader creation failed" e in ret (None, Some e)
  | BadData read e => let! s := new_array read in ret (Some s, Some e)
  | Gunzipped out => let! s := new_array out in ret (Some s, None)
  end.

Definition gzip_compressor (c : GzipCompressor) : Compressor :=
  mkCompressor (gzip_Compress c) gzip_Decompress "gzip".
End Gzip.

(** The functions injected in a Snappy or LZ4 compressor; nil allowed. *)
Record CompressorFuncs := mkCompressorFuncs {
  CompressFunc : option (option slice -> GoM mem (option slice * option error));
  DecompressFunc : option (option slice -> GoM mem (option slice * option error)) }.

Definition SnappyCompressor (c : CompressorFuncs) : Compressor := {|
  Compress := fun data =>
    match CompressFunc c with None => ret (data, None) | Some f => f data end;
  Decompress := fun data =>
    match DecompressFunc c with None => ret (data, None) | Some f => f data end;
  Algorithm := "snappy" |}.

Definition LZ4Compressor (c : CompressorFuncs) : Compressor := {|
  Compress := fun data =>
    match CompressFunc c with None => ret (data, None) | Some f => f data end;
  Decompress := fun data =>
    match DecompressFunc c with None => ret (data, None) | Some f => f data end;
  Algorithm := "lz4" |}.

(** ** What the producer relies on *)

(** [Compress c] makes [out] of the bytes [bs], wherever they are; it changes
    no existing object. *)
Definition compresses_to (c : Compressor) (bs out : bytes) : Prop :=
  forall s m, mem_wf m -> slice_ok m s -> read_slice m (Some s) = Some bs ->
    wp (Compress c (Some s)) (fun r m' => exists s',
      r = (Some s', None) /\ mem_wf m' /\ mem_extends m m' /\ slice_ok m' s' /\
      read_slice m' (Some s') = Some out) m.

(** [Compress c] of these bytes fails; it changes no existing object. *)
Definition compress_fails (c : Compressor) (bs : bytes) : Prop :=
  forall s m, mem_wf m -> slice_ok m s -> read_slice m (Some s) = Some bs ->
    wp (Compress c (Some s)) (fun r m' => mem_wf m' /\ mem_extends m m' /\
      exists v e, r = (v, Some e)) m.

(** It never fails and computes [f]. *)
Definition compresses (c : Compressor) (f : bytes -> bytes) : Prop :=
  forall bs, compresses_to c bs (f bs).

Definition decompresses (c : Compressor) (bs out : bytes) : Prop :=
  forall s m, mem_wf m -> slice_ok m s -> read_slice m (Some s) = Some bs ->
    wp (Decompress c (Some s)) (fun r m' => exists s',
      r = (Some s', None) /\ mem_wf m' /\ mem_extends m m' /\ slice_ok m' s' /\
      read_slice m' (Some s') = Some out) m.

Lemma new_array_read bs m :
  mem_wf m -> wp (new_array bs) (fun s m' => mem_wf m' /\ mem_extends m m' /\ slice_ok m' s /\
    read_slice m' (Some s) = Some bs) m.
Proof.
  intros Hwf. eapply wp_mono; [by apply (new_array_spec bs m)|].
  intros s m' (Hwf' & Hext & _ & _ & -> & Hbs & Hok). split_and!; [done..|].
  unfold read_slice. simpl. rewrite Hbs. simpl. by rewrite take_drop_all.
Qed.

Lemma gzip_compresses {Gz : Gzip} tr c :
  valid_level (gzip_level c) = true -> writerFactory c = None ->
  compresses (gzip_compressor tr c) (gzip_encode (gzip_level c)).
Proof.
  intros Hlv Hwr bs s m Hwf Hs Hbs. unfold gzip_compressor, gzip_Compress. simpl Compress.
  rewrite Hlv, Hwr. cbn [negb]. wp_step. unfold wp at 1, load_bytes. rewrite Hbs.
  wp_step. eapply wp_mono; [by apply new_array_read|].
  intros s' m' (Hwf' & Hext & Hs' & Hrd). apply wp_ret. by exists s'.
Qed.

(** A level that the library refuses, or a writer that fails. *)
Lemma gzip_fails {Gz : Gzip} tr c bs :
  valid_level (gzip_level c) = false \/
    (exists e k, writerFactory c = Some (OtherWriter (Some e) k)) \/
    (exists e, writerFactory c = Some (OtherWriter None (Some e))) ->
  compress_fails (gzip_compressor tr c) bs.
Proof.
  intros Hc s m Hwf Hs Hbs. unfold gzip_compressor, gzip_Compress. simpl Compress.
  destruct (valid_level (gzip_level c)) eqn:Hlv; cbn [negb].
  2:{ eapply wp_intro; [done|]. split_and!; [by repeat apply bump_wf|by repeat apply bump_extends|eauto]. }
  destruct Hc as [?|[(e & k & ->)|(e & ->)]]; [done|..];
    (wp_step; unfold wp at 1, load_bytes; rewrite Hbs; eapply wp_intro; [done|];
     split_and!; [by repeat apply bump_wf|by repeat apply bump_extends|eauto]).
Qed.

Lemma gzip_decompresses {Gz : Gzip} tr c level bs :
  gzip_decode (gzip_encode level bs) = Gunzipped bs ->
  decompresses (gzip_compressor tr c) (gzip_encode level bs) bs.
Proof.
  intros Hrt s m Hwf Hs Hbs. unfold gzip_compressor, gzip_Decompress. simpl Decompress.
  wp_step. unfold wp at 1, load_bytes. rewrite Hbs, Hrt.
  wp_step. eapply wp_mono; [by apply new_array_read|].
  intros s' m' (Hwf' & Hext & Hs' & Hrd). apply wp_ret. by exists s'.
Qed.

Lemma passthrough_compresses c :
  CompressFunc c = None -> compresses (SnappyCompressor c) id /\ compresses (LZ4Compressor c) id.
Proof.
  intros Hc. split; intros bs s m Hwf Hs Hbs; simpl; rewrite Hc; apply wp_ret; exists s;
    by split_and!.
Qed.

(** ** A concrete gzip: a header byte in front of the data *)

#[export] Instance demo_gzip : Gzip := {|
  gzip_encode := fun _ bs => Byte.x1f :: bs;
  gzip_decode := fun bs => match bs with
    | Byte.x1f :: bs => Gunzipped bs
    | _ => BadHeader (ErrString 0 "gzip: invalid header")
    end |}.
