(* ===== verification/SyncProducer.v ===== *)
(** * The synchronous producer (pkg/producer/producer.go)

    [SyncProducer] publishes through any [MessageBroker]; its state is paired
    with the world of that broker.  It assigns to the caller's message and
    cancels the context it publishes with when it returns. *)

From Stdlib Require Import ZArith Lia.
From stdpp Require Import base gmap strings pretty list fin_maps.
From S2P Require Import Prelude Store Contexts Demo I18n Errors Message Broker Retry InMemory.
From S2P Require Import InMemorySubs InMemoryProps Codecs.

Record SyncProducer (V : Type) := mkSyncProducer {
  sp_serializer : option (Serializer V);
  sp_compressor : option Compressor;
  sp_timeout : Z;
  sp_sent : Z;
  sp_failed : Z }.
Arguments mkSyncProducer {V}.
Arguments sp_serializer {V}.
Arguments sp_compressor {V}.
Arguments sp_timeout {V}.
Arguments sp_sent {V}.
Arguments sp_failed {V}.

(** [defer d] around a body: [d] runs when the body returns or panics. *)
Definition with_defer {S A} (body : GoM S A) (d : GoM S unit) : GoM S A := fun s =>
  let '(o, s1) := body s in
  match d s1 with
  | (Ok _, s2) => (o, s2)
  | (Panic p, s2) => (Panic p, s2)
  end.

Section Producer.
Context {V : Type} {J : JSON V} {En : Env} {B : Type} {MB : MessageBroker B}.
Context (tr : Translator any).

Abbreviation State := (SyncProducer V * World B)%type (only parsing).

Definition NewSyncProducer (timeout : Z) : SyncProducer V :=
  mkSyncProducer None None (if (timeout <=? 0)%Z then 30 * Second else timeout)%Z 0 0.

Definition SetSerializer (s : option (Serializer V)) (sp : SyncProducer V) : SyncProducer V :=
  mkSyncProducer s (sp_compressor sp) (sp_timeout sp) (sp_sent sp) (sp_failed sp).
Definition SetCompressor (c : option Compressor) (sp : SyncProducer V) : SyncProducer V :=
  mkSyncProducer (sp_serializer sp) c (sp_timeout sp) (sp_sent sp) (sp_failed sp).
Definition add_sent (sp : SyncProducer V) : SyncProducer V :=
  mkSyncProducer (sp_serializer sp) (sp_compressor sp) (sp_timeout sp)
    (wrap64 (sp_sent sp + 1)) (sp_failed sp).
Definition add_failed (sp : SyncProducer V) : SyncProducer V :=
  mkSyncProducer (sp_serializer sp) (sp_compressor sp) (sp_timeout sp)
    (sp_sent sp) (wrap64 (sp_failed sp + 1)).

Definition on_sp (f : SyncProducer V -> SyncProducer V) : GoM State unit :=
  modify (fun st => (f st.1, st.2)).
Definition in_mem {A} (c : GoM mem A) : GoM State A := on_snd (on_mem c).

(** [msg.Value != nil] *)
Definition has_value (msg : option loc) : GoM mem bool :=
  let! x := load_msg msg in ret (match msg_Value x with Some _ => true | None => false end).

(** The compression step of [Send]: the error it returns early with, if any. *)
Definition compress_value (c : Compressor) (msg : option loc) : GoM State (option error) :=
  let! x := in_mem (load_msg msg) in
  let! r := in_mem (Compress c (msg_Value x)) in
  match r with
  | (_, Some err) =>
    on_sp add_failed ;;;
    let! e := in_mem (Errorf_fresh tr "compression failed" err) in
    ret (Some e)
  | (compressed, None) =>
    in_mem (update_msg msg (with_Value compressed)) ;;;
    let! _ := in_mem (SetHeader msg "content-encoding" (Algorithm c)) in
    ret None
  end.

(** Serialization header and compression, before the message is published. *)
Definition prepare (msg : option loc) : GoM State (option error) :=
  let! sp := gets fst in
  match sp_serializer sp with
  | None => ret tt
  | Some s =>
    let! v := in_mem (has_value msg) in
    if v then let! _ := in_mem (SetHeader msg "content-type" (ContentType s)) in ret tt
    else ret tt
  end ;;;
  match sp_compressor sp with
  | None => ret None
  | Some c =>
    let! v := in_mem (has_value msg) in
    if v then compress_value c msg else ret None
  end.

(** [Send] under its own context. *)
Definition Send_body (ctx : Ctx) (topic : string) (msg : option loc) :
    GoM State (option error) :=
  let! early := prepare msg in
  match early with
  | Some e => ret (Some e)
  | None =>
    let! err := on_snd (Publish ctx topic msg []) in
    match err with
    | Some e => on_sp add_failed ;;; ret (Some e)
    | None => on_sp add_sent ;;; ret None
    end
  end.

Definition Send (ctx : Ctx) (topic : string) (msg : option loc) : GoM State (option error) :=
  let! sp := gets fst in
  let! ctx' := in_mem (context_WithTimeout ctx (sp_timeout sp)) in
  with_defer (Send_body ctx' topic msg) (in_mem (ctx_cancel ctx')).

Definition SendValue (ctx : Ctx) (topic : string) (value : V) : GoM State (option error) :=
  let! sp := gets fst in
  let s := default JSONSerializer (sp_serializer sp) in
  let! r := in_mem (Serialize s value) in
  match r with
  | (_, Some err) =>
    on_sp add_failed ;;;
    let! e := in_mem (Errorf_fresh tr "serialization failed" err) in
    ret (Some e)
  | (data, None) =>
    let! msg := in_mem (NewMessage topic data) in
    let! _ := in_mem (SetHeader (Some msg) "content-type" (ContentType s)) in
    Send ctx topic (Some msg)
  end.

Definition SentCount : GoM State Z := let! sp := gets fst in ret (sp_sent sp).
Definition FailedCount : GoM State Z := let! sp := gets fst in ret (sp_failed sp).
End Producer.

Lemma wp_with_defer {S A} (body : GoM S A) d Q s :
  wp body (fun a s1 => wp d (fun _ s2 => Q a s2) s1) s -> wp (with_defer body d) Q s.
Proof.
  unfold wp, with_defer. destruct (body s) as [[a|p] s1]; [|done].
  by destruct (d s1) as [[[]|p] s2].
Qed.

(** ** Assignments to the caller's message keep the store well formed *)

Lemma put_msg_keeps l x x' m :
  msgs_of m !! l = Some x -> msg_Topic x' = msg_Topic x -> mem_keeps m (put_msg l x' m).
Proof.
  intros Hx Ht. split; [done|done|done|]. intros l2 y Hy. simpl. rewrite lookup_insert.
  case_decide; [subst; simplify_eq; eauto|eauto].
Qed.

Lemma SetHeader_keeps l k v m r m' :
  mem_wf m -> is_Some (msgs_of m !! l) -> SetHeader (Some l) k v m = (Ok r, m') -> mem_keeps m m'.
Proof.
  intros Hwf [x Hx]. rewrite (SetHeader_eq l x k v m Hwf Hx). intros [= _ <-].
  destruct (msg_Headers x) as [h|]; [split; eauto|].
  destruct (put_msg_keeps l x (with_Headers (Some (next_loc m)) x) m Hx eq_refl) as [_ _ _ Hk].
  split; [simpl; lia|done|done|]. exact Hk.
Qed.

Lemma SetHeader_content l k v c m :
  mem_wf m -> content_of m l = Some c ->
  wp (SetHeader (Some l) k v) (fun _ m' => mem_wf m' /\ mem_keeps m m' /\
    content_of m' l = Some (set_header_content k v c)) m.
Proof.
  intros Hwf Hc. pose proof (content_live _ _ _ Hc) as Hl.
  destruct (wp_run _ _ _ (SetHeader_spec l k v m Hwf Hl)) as (r & m' & Hrun & _ & Hwf' & _ & Hct & _).
  eapply wp_intro; [exact Hrun|]. rewrite Hct, Hc. split_and!; [done| |done].
  by eapply SetHeader_keeps.
Qed.

Definition set_value_content (v : option bytes) (c : content) : content :=
  {| c_id := c_id c; c_topic := c_topic c; c_key := c_key c; c_value := v;
     c_headers := c_headers c; c_time := c_time c |}.

Lemma assign_value l s bs c m :
  mem_wf m -> content_of m l = Some c -> slice_ok m s -> read_slice m (Some s) = Some bs ->
  wp (update_msg (Some l) (with_Value (Some s))) (fun _ m' => mem_wf m' /\ mem_keeps m m' /\
    content_of m' l = Some (set_value_content (Some bs) c)) m.
Proof.
  intros Hwf Hc Hs Hbs. destruct (content_fields _ _ _ Hc) as (x & Hx & Hid & Ht & Hts & Hk & Hv & Hh).
  destruct (wf_msgs _ Hwf _ _ Hx) as [Hl (Hok & _ & Hh')].
  unfold wp, update_msg. rewrite Hx. split_and!.
  - apply put_msg_wf; [done|done|]. unfold message_ok. by split_and!.
  - by eapply put_msg_keeps.
  - assert (slice_content m (Some s) = Some (Some bs)) as Hv' by (unfold slice_content; by rewrite Hbs).
    unfold content_of, slice_content, read_slice, headers_content in *. simpl.
    rewrite lookup_insert_eq. simpl. rewrite Hk. simpl. rewrite Hv'. simpl. rewrite Hh. simpl.
    unfold set_value_content. by rewrite Hid, Ht, Hts.
Qed.

(** ** What [Send] makes of a message *)

Section SendSpec.
Context {V : Type} {En : Env} {B : Type} {MB : MessageBroker B} {MBS : MessageBrokerSpec B}.
Context (tr : Translator any).
Abbreviation State := (SyncProducer V * World B)%type (only parsing).

(** The content type is noted on a message with a value; then the value is
    replaced by its compressed form and the encoding is noted. *)
Definition typed (s : option (Serializer V)) (c : content) : content :=
  match s, c_value c with
  | Some s, Some _ => set_header_content "content-type" (ContentType s) c
  | _, _ => c
  end.

Definition compressed (k : option Compressor) (f : bytes -> bytes) (c : content) : content :=
  match k, c_value c with
  | Some k, Some bs =>
    set_header_content "content-encoding" (Algorithm k) (set_value_content (Some (f bs)) c)
  | _, _ => c
  end.

Definition prepared (sp : SyncProducer V) (f : bytes -> bytes) (c : content) : content :=
  compressed (sp_compressor sp) f (typed (sp_serializer sp) c).

(** The compressor, if any, computes [f] on the value, if any. *)
Definition compressor_ok (sp : SyncProducer V) (f : bytes -> bytes) (c : content) : Prop :=
  match sp_compressor sp, c_value c with
  | Some k, Some bs => compresses_to k bs (f bs)
  | _, _ => True
  end.

Lemma wp_in_mem {A} (c : GoM mem A) Q (sp : SyncProducer V) (w : World B) :
  wp c (fun a m => Q a (sp, set_mem w m)) (w_mem w) -> wp (in_mem c) Q (sp, w).
Proof. intros H. apply wp_on_snd, wp_on_mem. exact H. Qed.

(** A message with a value refers to a slice that holds it. *)
Lemma content_value l c bs m :
  mem_wf m -> content_of m l = Some c -> c_value c = Some bs ->
  exists x s, msgs_of m !! l = Some x /\ msg_Value x = Some s /\ slice_ok m s /\
    read_slice m (Some s) = Some bs.
Proof.
  intros Hwf Hc Hbs. destruct (content_fields _ _ _ Hc) as (x & Hx & _ & _ & _ & _ & Hv & _).
  destruct (wf_msgs _ Hwf _ _ Hx) as [_ (_ & Hok & _)]. rewrite Hbs in Hv.
  destruct (msg_Value x) as [s|] eqn:Hs; [|done]. exists x, s. split_and!; [done..|].
  unfold slice_content in Hv. destruct (read_slice m (Some s)); by simplify_eq/=.
Qed.

Lemma has_value_spec l c (Q : bool -> mem -> Prop) m :
  content_of m l = Some c ->
  Q (match c_value c with Some _ => true | None => false end) m ->
  wp (has_value (Some l)) Q m.
Proof.
  intros Hc HQ. destruct (content_fields _ _ _ Hc) as (x & Hx & _ & _ & _ & _ & Hv & _).
  unfold wp, has_value, bind, load_msg. rewrite Hx. simpl.
  destruct (msg_Value x) as [s|]; simpl in Hv.
  - destruct (bytes_of m !! sl_arr s); simplify_eq/=. by destruct (c_value c).
  - injection Hv as Hv. by rewrite <- Hv in HQ.
Qed.

Definition kept (m0 : mem) (l : loc) (c : content) (m : mem) : Prop :=
  mem_wf m /\ mem_keeps m0 m /\ content_of m l = Some c.

Lemma kept_mono m0 m l c c' (m' : mem) :
  kept m0 l c m -> mem_wf m' /\ mem_keeps m m' /\ content_of m' l = Some c' -> kept m0 l c' m'.
Proof. intros (_ & Hk & _) (Hwf & Hk' & Hc). split_and!; [done|by etrans|done]. Qed.

Lemma compress_value_spec k f l c bs sp (w : World B) :
  compresses_to k bs (f bs) -> mem_wf (w_mem w) -> content_of (w_mem w) l = Some c ->
  c_value c = Some bs ->
  wp (compress_value tr k (Some l)) (fun r (st : State) => r = None /\
    exists m, st = (sp, set_mem w m) /\
    kept (w_mem w) l (set_header_content "content-encoding" (Algorithm k)
      (set_value_content (Some (f bs)) c)) m) (sp, w).
Proof.
  intros Hf Hwf Hc Hbs. destruct (content_value _ _ _ _ Hwf Hc Hbs) as (x & s & Hx & Hs & Hok & Hrd).
  unfold compress_value. wp_step. apply wp_in_mem. unfold wp at 1, load_msg. rewrite Hx.
  wp_step. apply wp_in_mem. rewrite Hs. simpl.
  eapply wp_mono; [by eapply Hf|]. intros r m1 (s1 & -> & Hwf1 & Hext1 & Hs1 & Hrd1).
  assert (content_of m1 l = Some c) as Hc1.
  { rewrite (content_of_extends (w_mem w)); [done|done|done|by exists x]. }
  assert (kept (w_mem w) l c m1) as Hk1.
  { split_and!; [done|by apply mem_extends_keeps|done]. }
  wp_step. apply wp_in_mem. simpl. eapply wp_mono; [by apply (assign_value l s1 (f bs) c)|].
  intros [] m2 Hm2. pose proof (kept_mono _ _ _ _ _ _ Hk1 Hm2) as Hk2.
  wp_step. apply wp_in_mem. simpl. eapply wp_mono; [apply SetHeader_content; apply Hk2|].
  intros ? m3 Hm3. pose proof (kept_mono _ _ _ _ _ _ Hk2 Hm3) as Hk3.
  apply wp_ret. split; [done|]. by exists m3.
Qed.

(** The serializer's part of [prepare], in front of the rest of it. *)
Lemma prepare_typed {A} (K : unit -> GoM State A) Q l c (sp : SyncProducer V) (w : World B) :
  mem_wf (w_mem w) -> content_of (w_mem w) l = Some c ->
  (forall m, kept (w_mem w) l (typed (sp_serializer sp) c) m -> wp (K tt) Q (sp, set_mem w m)) ->
  wp (bind (match sp_serializer sp with
      | None => ret tt
      | Some s =>
        let! v := in_mem (has_value (Some l)) in
        if v then let! _ := in_mem (SetHeader (Some l) "content-type" (ContentType s)) in ret tt
        else ret tt
      end) K) Q (sp, w).
Proof.
  intros Hwf Hc HK. wp_step. eapply (wp_mono _ (fun _ st => exists m, st = (sp, set_mem w m) /\
    kept (w_mem w) l (typed (sp_serializer sp) c) m)).
  { assert (exists m, (sp, w) = (sp, set_mem w m) /\ kept (w_mem w) l c m) as Hnil.
    { exists (w_mem w). split; [by destruct w|]. by split_and!. }
    unfold typed. destruct (sp_serializer sp) as [s|]; [|by apply wp_ret].
    wp_step. apply wp_in_mem. eapply has_value_spec; [done|].
    destruct (c_value c) as [v|]; [|by apply wp_ret; destruct w].
    wp_step. apply wp_in_mem. simpl. eapply wp_mono; [by apply SetHeader_content|].
    intros ? m' Hm'. apply wp_ret. exists m'. split; [done|exact Hm']. }
  intros [] st (m & -> & Hk). by apply HK.
Qed.

Lemma typed_value s c : c_value (typed s c) = c_value c.
Proof. unfold typed. destruct s, (c_value c) eqn:?; by rewrite ?Heqo. Qed.

(** [prepare] with a compressor that fails on the message's value: the error
    is counted and wrapped; the message has its content type, its value is as
    it was. *)
Lemma prepare_fails k l c bs (sp : SyncProducer V) (w : World B) :
  sp_compressor sp = Some k -> c_value c = Some bs -> compress_fails k bs ->
  mem_wf (w_mem w) -> content_of (w_mem w) l = Some c ->
  wp (prepare tr (Some l)) (fun r (st : State) => exists s m0 v e m1 a m,
    read_slice m0 (Some s) = Some bs /\ Compress k (Some s) m0 = (Ok (v, Some e), m1) /\
    r = Some (Errorf_wrap tr a "compression failed" e) /\ st = (add_failed sp, set_mem w m) /\
    kept (w_mem w) l (typed (sp_serializer sp) c) m) (sp, w).
Proof.
  intros Hk Hbs Hf Hwf Hc. unfold prepare. wp_step. apply wp_gets. simpl.
  apply (prepare_typed _ _ l c sp w Hwf Hc). intros m0 Hk0. rewrite Hk.
  wp_step. apply wp_in_mem. simpl. eapply has_value_spec; [apply Hk0|].
  rewrite typed_value, Hbs. destruct Hk0 as (Hwf0 & Hkeep0 & Hc0).
  destruct (content_value _ _ _ _ Hwf0 Hc0 (eq_trans (typed_value _ _) Hbs))
    as (x & s & Hx & Hs & Hok & Hrd).
  unfold compress_value. wp_step. apply wp_in_mem. unfold wp at 1, load_msg. cbn [w_mem set_mem]. rewrite Hx.
  wp_step. apply wp_in_mem. rewrite Hs. simpl.
  destruct (wp_run _ _ _ (Hf s m0 Hwf0 Hok Hrd)) as (r & m1 & Hrun & Hwf1 & Hext1 & v & e & ->).
  eapply wp_intro; [exact Hrun|]. cbv beta iota. wp_step. apply wp_modify. wp_step. apply wp_in_mem.
  eapply wp_intro; [done|]. cbv beta. apply wp_ret. simpl.
  eexists s, m0, v, e, m1, _, _. split_and!; [done|done|done|done|].
  apply (kept_mono _ m1 _ (typed (sp_serializer sp) c)).
  - split_and!; [done|etrans; [exact Hkeep0|by apply mem_extends_keeps]|].
    rewrite (content_of_extends m0); [done..|by eexists].
  - split_and!; [by apply bump_wf|by apply mem_extends_keeps, bump_extends|].
    rewrite (content_of_extends m0); [done|done| |by eexists]. by apply bump_extends.
Qed.

Lemma prepare_spec f l c (sp : SyncProducer V) (w : World B) :
  compressor_ok sp f c -> mem_wf (w_mem w) -> content_of (w_mem w) l = Some c ->
  wp (prepare tr (Some l)) (fun r (st : State) => r = None /\
    exists m, st = (sp, set_mem w m) /\ kept (w_mem w) l (prepared sp f c) m) (sp, w).
Proof.
  intros Hf Hwf Hc. unfold prepare, prepared. wp_step. apply wp_gets. simpl.
  apply (prepare_typed _ _ l c sp w Hwf Hc). intros m Hk. unfold compressed. destruct (sp_compressor sp) as [k|] eqn:Hsp.
  2:{ apply wp_ret. split; [done|]. by exists m. }
  wp_step. apply wp_in_mem. simpl. eapply has_value_spec; [apply Hk|].
  pose proof (typed_value (sp_serializer sp) c) as Hv. rewrite Hv.
  unfold compressor_ok in Hf. rewrite Hsp in Hf.
  destruct (c_value c) as [bs|].
  2:{ apply wp_ret. split; [done|]. by exists m. }
  eapply wp_mono; [apply (compress_value_spec k f l (typed (sp_serializer sp) c) bs sp (set_mem w m) Hf);
    [apply Hk|apply Hk|done]|].
  intros r st (-> & m' & -> & Hk'). split; [done|]. exists m'. split; [done|].
  by eapply kept_mono.
Qed.
Definition count_result (r : option error) (sp : SyncProducer V) : SyncProducer V :=
  match r with None => add_sent sp | Some _ => add_failed sp end.

(** [Send] publishes the prepared message once, under a context of its own
    that is done when it returns; its result is the broker's. *)
Lemma Send_run f ctx topic l c (sp : SyncProducer V) (w : World B) :
  broker_inv w -> content_of (w_mem w) l = Some c -> compressor_ok sp f c ->
  ctx_depth ctx <= next_loc (w_mem w) ->
  exists lc m1 r w2 m3,
    kept (w_mem w) l (prepared sp f c) m1 /\
    Publish (CtxNode lc) topic (Some l) [] (set_mem w m1) = (Ok r, w2) /\
    mem_extends m1 (w_mem w2) /\
    Send tr ctx topic (Some l) (sp, w) = (Ok r, (count_result r sp, set_mem w2 m3)) /\
    broker_inv (set_mem w2 m3) /\ mem_keeps (w_mem w2) m3 /\
    (forall k, content_of m3 k = content_of (w_mem w2) k) /\
    content_of m3 l = Some (prepared sp f c) /\ ctx_Err m3 (CtxNode lc) <> None /\
    next_loc (w_mem w) <= lc.
Proof.
  intros Hinv Hc Hf Hctx. pose proof (broker_inv_wf _ Hinv) as Hwf.
  destruct (wp_run _ _ _ (new_ctx_spec (mkCtxNode ctx (Some (sp_timeout sp)) None) (w_mem w)
    Hwf Hctx)) as (c' & m0 & Hnew & -> & Hwf0 & Hext0 & Hc0).
  set (lc := next_loc (w_mem w)) in *.
  assert (content_of m0 l = Some c) as Hcm0.
  { rewrite (content_of_extends (w_mem w)); [done..|]. by eapply content_live. }
  destruct (wp_run _ _ _ (prepare_spec f l c sp (set_mem w m0) Hf Hwf0 Hcm0))
    as (r0 & st & Hprep & -> & m1 & -> & Hwf1 & Hk1 & Hc1).
  assert (broker_inv (set_mem w m1)) as Hinv1.
  { apply broker_inv_mem; [done|done|]. etrans; [by apply mem_extends_keeps|exact Hk1]. }
  destruct (wp_run _ _ _ (Publish_law (CtxNode lc) topic l [] (set_mem w m1) Hinv1
    (content_live _ _ _ Hc1))) as (r & w2 & Hpub & Hinv2 & Hext2 & _).
  assert (is_Some (ctxs_of (w_mem w2) !! lc)) as [n2 Hn2].
  { apply (keep_ctxs _ _ (mem_extends_keeps _ _ Hwf1 Hext2)). simpl.
    apply (keep_ctxs _ _ Hk1). simpl. by rewrite Hc0. }
  destruct (wp_run _ _ _ (ctx_cancel_spec lc n2 (w_mem w2) (broker_inv_wf _ Hinv2) Hn2))
    as ([] & m3 & Hcan & Hwf3 & Hk3 & Hdone & Hsame).
  exists lc, m1, r, w2, m3. split_and!; try done.
  - split; [done|split; [|done]]. etrans; [by apply mem_extends_keeps|exact Hk1].
  - unfold Send. erewrite bind_ok by done. simpl fst.
    assert (Send_body tr (CtxNode lc) topic (Some l) (sp, set_mem w m0) =
      (Ok r, (count_result r sp, w2))) as Hbody.
    { unfold Send_body. erewrite bind_ok by exact Hprep. cbv beta iota. erewrite on_snd_ok by exact Hpub.
      by destruct r. }
    unfold in_mem at 1. erewrite on_snd_ok by (unfold on_mem, context_WithTimeout; by rewrite Hnew).
    unfold with_defer. rewrite Hbody. unfold in_mem, on_snd, on_mem.
    cbn [fst snd]. by rewrite Hcan.
  - by apply broker_inv_mem.
  - rewrite Hsame, (content_of_extends m1); [done..|]. by eapply content_live.
Qed.

(** When the compressor fails, nothing is published. *)
Lemma Send_compression_fails ctx topic l c k bs (sp : SyncProducer V) (w : World B) :
  broker_inv w -> content_of (w_mem w) l = Some c -> ctx_depth ctx <= next_loc (w_mem w) ->
  sp_compressor sp = Some k -> c_value c = Some bs -> compress_fails k bs ->
  exists s m0 v e m1 a m3,
    read_slice m0 (Some s) = Some bs /\ Compress k (Some s) m0 = (Ok (v, Some e), m1) /\
    Send tr ctx topic (Some l) (sp, w) =
      (Ok (Some (Errorf_wrap tr a "compression failed" e)), (add_failed sp, set_mem w m3)) /\
    broker_inv (set_mem w m3) /\ content_of m3 l = Some (typed (sp_serializer sp) c).
Proof.
  intros Hinv Hc Hctx Hk Hbs Hf. pose proof (broker_inv_wf _ Hinv) as Hwf.
  destruct (wp_run _ _ _ (new_ctx_spec (mkCtxNode ctx (Some (sp_timeout sp)) None) (w_mem w)
    Hwf Hctx)) as (c' & mc & Hnew & -> & Hwfc & Hextc & Hcc).
  set (lc := next_loc (w_mem w)) in *.
  assert (content_of mc l = Some c) as Hcm.
  { rewrite (content_of_extends (w_mem w)); [done..|]. by eapply content_live. }
  destruct (wp_run _ _ _ (prepare_fails k l c bs sp (set_mem w mc) Hk Hbs Hf Hwfc Hcm))
    as (r & st & Hprep & s & m0 & v & e & m1 & a & m & Hrd & Hcomp & -> & -> & Hwfm & Hkm & Hc3).
  destruct (keep_ctxs _ _ Hkm lc ltac:(simpl; by rewrite Hcc)) as [n Hn].
  destruct (wp_run _ _ _ (ctx_cancel_spec lc n m Hwfm Hn)) as ([] & m3 & Hcan & Hwf3 & Hk3 & _ & Hsame).
  exists s, m0, v, e, m1, a, m3. split_and!; [done|done| | |by rewrite Hsame].
  - unfold Send. erewrite bind_ok by done. simpl fst.
    unfold in_mem at 1. erewrite on_snd_ok by (unfold on_mem, context_WithTimeout; by rewrite Hnew).
    unfold with_defer, Send_body. erewrite bind_ok by exact Hprep. cbv beta iota.
    unfold ret, in_mem, on_snd, on_mem. cbn [fst snd w_mem set_mem]. by rewrite Hcan.
  - apply broker_inv_mem; [done|done|]. etrans; [by apply mem_extends_keeps|]. by etrans.
Qed.
End SendSpec.

(** On a connected in-memory broker, in detail. *)
Lemma Send_delivers {V} {En : Env} tr f ctx topic l c (sp : SyncProducer V)
    (w : World InMemoryBroker) :
  inmem_inv w -> connected (w_br w) = true -> content_of (w_mem w) l = Some c ->
  compressor_ok sp f c -> ctx_depth ctx <= next_loc (w_mem w) ->
  exists lc i w', Send tr ctx topic (Some l) (sp, w) = (Ok None, (add_sent sp, w')) /\
    inmem_inv w' /\
    queued_and_delivered (CtxNode lc) topic (published topic (clock_time i) (prepared sp f c)) w w' /\
    ctx_Err (w_mem w') (CtxNode lc) <> None /\ next_loc (w_mem w) <= lc.
Proof.
  intros Hinv Hcon Hc Hf Hctx.
  destruct (Send_run (MBS := InMemory_MessageBrokerSpec) tr f ctx topic l c sp w Hinv Hc Hf Hctx)
    as (lc & m1 & r & w2 & m3 & (Hwf1 & Hk1 & Hc1) & Hpub & _ & Hsend & Hinv3 & _ & Hsame & _ & Hdone & Hlc).
  destruct (Publish_queued (CtxNode lc) topic l (prepared sp f c) [] (set_mem w m1))
    as (w2' & Hpub' & _ & _ & Hq); [by apply inmem_inv_mem|done|done|].
  pose proof (eq_trans (eq_sym Hpub) Hpub') as Heq. injection Heq as -> ->. clear Hpub'.
  exists lc, (clock_ctr m1), (set_mem w2' m3). split_and!; [exact Hsend|exact Hinv3| |done|done].
  destruct Hq as (clone & ms & Hqs & Hgo & Hlen & Hct).
  exists clone, ms. split_and!; [done..|]. simpl. eapply Forall_impl; [exact Hct|].
  intros m. simpl. by rewrite Hsame.
Qed.

(** A demonstration compressor: the concrete gzip of Codecs.v. *)
Definition demo_gzip_compressor : Compressor :=
  gzip_compressor NoopTranslator (mkGzipCompressor 0 None).

#[export] Instance demo_json : JSON Z := {|
  json_Marshal := fun z => inl (String.list_byte_of_string (pretty z));
  json_Unmarshal := fun bs => inr (ErrString 0 "not decoded") |}.

Definition demo_sp : SyncProducer Z :=
  mkSyncProducer (Some JSONSerializer) (Some demo_gzip_compressor) (5 * Second) 0 0.

(** A level that the library refuses. *)
Definition demo_bad_gzip : Compressor := gzip_compressor NoopTranslator (mkGzipCompressor 42 None).

Definition demo_bad_sp : SyncProducer Z :=
  mkSyncProducer (Some JSONSerializer) (Some demo_bad_gzip) (5 * Second) 0 0.

Lemma demo_bad_gzip_fails bs : compress_fails demo_bad_gzip bs.
Proof. apply (gzip_fails NoopTranslator (mkGzipCompressor 42 None)). by left. Qed.

Definition demo_encode : bytes -> bytes := gzip_encode (-1).

Lemma demo_gzip_compresses : compresses demo_gzip_compressor demo_encode.
Proof. by apply (gzip_compresses NoopTranslator (mkGzipCompressor 0 None)). Qed.

Lemma demo_sp_ok c : compressor_ok demo_sp demo_encode c.
Proof. unfold compressor_ok. simpl. destruct (c_value c); [apply demo_gzip_compresses|done]. Qed.

(** ** Properties *)

(** C20: for any broker: when the compressor, if one is set and the message has
    a value, compresses that value, [Send] publishes exactly once, with a
    new context that is done when [Send] returns, and returns the
    broker's error; it counts a success when that error is nil and a failure
    otherwise, never both.  The caller's message itself is published and is
    left with the headers and the compressed value that [Send] gave it, also
    when the publication failed.  When the compressor fails on the value,
    [Send] publishes nothing, counts a failure and returns an error that wraps
    the compressor's; the message keeps its value. *)
Theorem Send_outcome {V} {En : Env} {B} {MB : MessageBroker B} {MBS : MessageBrokerSpec B}
    tr ctx topic l c (sp : SyncProducer V) (w : World B) :
  broker_inv w -> content_of (w_mem w) l = Some c -> ctx_depth ctx <= next_loc (w_mem w) ->
  (forall f, compressor_ok sp f c ->
   exists lc m1 r w2 m3,
    content_of m1 l = Some (prepared sp f c) /\
    Publish (CtxNode lc) topic (Some l) [] (set_mem w m1) = (Ok r, w2) /\
    Send tr ctx topic (Some l) (sp, w) = (Ok r, (count_result r sp, set_mem w2 m3)) /\
    broker_inv (set_mem w2 m3) /\
    content_of m3 l = Some (prepared sp f c) /\ ctx_Err m3 (CtxNode lc) <> None /\
    next_loc (w_mem w) <= lc) /\
  (forall k bs, sp_compressor sp = Some k -> c_value c = Some bs -> compress_fails k bs ->
   exists s m0 v e m1 a m3,
    read_slice m0 (Some s) = Some bs /\ Compress k (Some s) m0 = (Ok (v, Some e), m1) /\
    Send tr ctx topic (Some l) (sp, w) =
      (Ok (Some (Errorf_wrap tr a "compression failed" e)), (add_failed sp, set_mem w m3)) /\
    broker_inv (set_mem w m3) /\ content_of m3 l = Some (typed (sp_serializer sp) c)).
Proof.
  intros Hinv Hc Hctx. split.
  - intros f Hf. destruct (Send_run tr f ctx topic l c sp w Hinv Hc Hf Hctx)
      as (lc & m1 & r & w2 & m3 & (_ & _ & Hc1) & Hpub & _ & Hsend & Hinv3 & _ & _ & Hc3 & Hdone & Hlc).
    by exists lc, m1, r, w2, m3.
  - intros k bs Hk Hbs Hf. by apply Send_compression_fails.
Qed.

Lemma Send_outcome_witness :
  (exists r st, Send NoopTranslator Background "orders" (Some demo_msg) (demo_sp, demo_world) =
    (Ok r, st) /\
    content_of (w_mem st.2) demo_msg = Some (prepared demo_sp demo_encode demo_content)) /\
  (exists err w', Send NoopTranslator Background "orders" (Some demo_msg) (demo_bad_sp, demo_world) =
    (Ok (Some err), (add_failed demo_bad_sp, w'))).
Proof.
  split.
  - destruct (proj1 (Send_outcome (MBS := InMemory_MessageBrokerSpec) NoopTranslator Background
      "orders" demo_msg demo_content demo_sp demo_world (proj1 demo_world_inv) demo_world_msg
      ltac:(apply Nat.le_0_l)) demo_encode (demo_sp_ok _))
      as (lc & m1 & r & w2 & m3 & _ & _ & Hsend & _ & Hc & _ & _).
    exists r, (count_result r demo_sp, set_mem w2 m3). split; [exact Hsend|exact Hc].
  - destruct (proj2 (Send_outcome (MBS := InMemory_MessageBrokerSpec) NoopTranslator Background
      "orders" demo_msg demo_content demo_bad_sp demo_world (proj1 demo_world_inv) demo_world_msg
      ltac:(apply Nat.le_0_l)) demo_bad_gzip [Byte.x68; Byte.x69] ltac:(reflexivity)
      ltac:(reflexivity) (demo_bad_gzip_fails _))
      as (s & m0 & v & e & m1 & a & m3 & _ & _ & Hsend & _).
    eexists _, (set_mem demo_world m3). exact Hsend.
Defined.

(** C32: on a connected in-memory broker, when the compressor, if one is used,
    compresses the value, [Send] returns nil, delivers the prepared message to
    the active subscribers and counts a success; but every goroutine it
    started was given a context that [Send] made, and that context is already
    done when [Send] returns. *)
Theorem Send_delivers_with_done_context {V} {En : Env} tr f ctx topic l c (sp : SyncProducer V)
    (w : World InMemoryBroker) :
  inmem_inv w -> connected (w_br w) = true -> content_of (w_mem w) l = Some c ->
  compressor_ok sp f c -> ctx_depth ctx <= next_loc (w_mem w) ->
  exists lc i w', next_loc (w_mem w) <= lc /\
    Send tr ctx topic (Some l) (sp, w) = (Ok None, (add_sent sp, w')) /\
    queued_and_delivered (CtxNode lc) topic (published topic (clock_time i) (prepared sp f c)) w w' /\
    forall tk, tk ∈ drop (length (w_go w)) (w_go w') ->
      task_ctx tk = CtxNode lc /\ ctx_Err (w_mem w') (task_ctx tk) <> None.
Proof.
  intros Hinv Hcon Hc Hf Hctx.
  destruct (Send_delivers tr f ctx topic l c sp w Hinv Hcon Hc Hf Hctx)
    as (lc & i & w' & Hsend & Hinv' & Hq & Hdone & Hlc).
  exists lc, i, w'. split_and!; [exact Hlc|exact Hsend|exact Hq|].
  destruct Hq as (clone & ms & _ & -> & _). rewrite drop_app_length. intros tk Htk.
  apply elem_of_lookup_zip_with in Htk as (j & s & m & -> & _). by split.
Qed.

Lemma Send_delivers_with_done_context_witness :
  exists lc i w', Send NoopTranslator Background "orders" (Some demo_msg) (demo_sp, demo_world) =
      (Ok None, (add_sent demo_sp, w')) /\
    queued_and_delivered (CtxNode lc) "orders"
      (published "orders" (clock_time i) (prepared demo_sp demo_encode demo_content)) demo_world w'.
Proof.
  destruct (Send_delivers_with_done_context NoopTranslator demo_encode Background "orders" demo_msg
    demo_content demo_sp demo_world (proj1 demo_world_inv) ltac:(vm_compute; reflexivity)
    demo_world_msg (demo_sp_ok _) ltac:(apply Nat.le_0_l)) as (lc & i & w' & _ & Hsend & Hq & _).
  exists lc, i, w'. split; [exact Hsend|exact Hq].
Defined.

(** A subscriber's view of a delivered message: its value is the gzip encoding
    at [level], announced in a header, and [Decompress] makes the original
    bytes of it. *)
Definition carries_gzip {Gz : Gzip} (tr : Translator any) (level : Z) (bs : bytes) (m : mem)
    (l : loc) : Prop :=
  exists x s c, msgs_of m !! l = Some x /\ msg_Value x = Some s /\
    read_slice m (Some s) = Some (gzip_encode level bs) /\
    content_of m l = Some c /\ default ∅ (c_headers c) !! "content-encoding" = Some "gzip" /\
    wp (gzip_Decompress tr (Some s)) (fun r m' => mem_extends m m' /\
      exists s', r = (Some s', None) /\ read_slice m' (Some s') = Some bs) m.

Lemma carries_gzip_intro {V} {Gz : Gzip} {En : Env} tr level used topic t bs c l
    (sp : SyncProducer V) m :
  mem_wf m -> c_value c = Some bs -> gzip_decode (gzip_encode used bs) = Gunzipped bs ->
  sp_compressor sp = Some (gzip_compressor tr (mkGzipCompressor level None)) ->
  content_of m l = Some (published topic t (prepared sp (gzip_encode used) c)) ->
  carries_gzip tr used bs m l.
Proof.
  intros Hwf Hbs Hrt Hk Hm.
  set (c' := published topic t (prepared sp (gzip_encode used) c)) in *.
  assert (c_value c' = Some (gzip_encode used bs) /\
    default ∅ (c_headers c') !! "content-encoding" = Some "gzip") as [Hv Hh].
  { unfold c', published, prepared, compressed. rewrite Hk, typed_value, Hbs. simpl.
    split; [done|]. by rewrite lookup_insert_eq. }
  destruct (content_value _ _ _ _ Hwf Hm Hv) as (x & s & Hx & Hs & Hok & Hrd).
  exists x, s, c'. split_and!; [done..|].
  eapply wp_mono.
  { apply (gzip_decompresses tr (mkGzipCompressor level None) used bs Hrt s m Hwf Hok Hrd). }
  intros r m' (s' & -> & _ & Hext & _ & Hrd'). split; [done|]. by exists s'.
Qed.

(** C24: a value sent through a [SyncProducer] with a [GzipCompressor] reaches
    the subscribers of an in-memory broker: provided the gzip library decodes
    what it encodes at the level in use ([Level], or the default level -1 when
    that is 0), every message queued and delivered has the encoded value and a
    content-encoding header, and [Decompress] gives back the bytes that were
    sent.  A level outside -2..9 is an error that wraps the library's through
    both layers; it is counted and nothing is published. *)
Theorem gzip_delivery {V} {En : Env} {Gz : Gzip} tr level ctx topic l c bs (sp : SyncProducer V)
    (w : World InMemoryBroker) :
  let used := if (level =? 0)%Z then (-1)%Z else level in
  inmem_inv w -> connected (w_br w) = true -> content_of (w_mem w) l = Some c ->
  c_value c = Some bs -> ctx_depth ctx <= next_loc (w_mem w) ->
  sp_compressor sp = Some (gzip_compressor tr (mkGzipCompressor level None)) ->
  gzip_decode (gzip_encode used bs) = Gunzipped bs ->
  if (-2 <=? used)%Z && (used <=? 9)%Z then
    exists lc w' clone ms, Send tr ctx topic (Some l) (sp, w) = (Ok None, (add_sent sp, w')) /\
      slice_at (queues (w_br w')) topic = slice_at (queues (w_br w)) topic ++ [clone] /\
      w_go w' = w_go w ++ zip_with (task_for (CtxNode lc)) (active_subs (w_br w) topic) ms /\
      length ms = length (active_subs (w_br w) topic) /\
      Forall (carries_gzip tr used bs (w_mem w')) (clone :: ms)
  else exists a a' a'' m, Send tr ctx topic (Some l) (sp, w) =
      (Ok (Some (Errorf_wrap tr a "compression failed" (Errorf_wrap tr a' "gzip writer creation failed"
        (ErrString a'' ("gzip: invalid compression level: " +:+ pretty used))))),
       (add_failed sp, set_mem w m)).
Proof.
  intros used Hinv Hcon Hc Hbs Hctx Hk Hrt. destruct ((-2 <=? used)%Z && (used <=? 9)%Z) eqn:Hlv.
  - assert (compressor_ok sp (gzip_encode used) c) as Hok.
    { unfold compressor_ok. rewrite Hk, Hbs.
      by apply (gzip_compresses tr (mkGzipCompressor level None)). }
    destruct (Send_delivers tr _ ctx topic l c sp w Hinv Hcon Hc Hok Hctx)
      as (lc & i & w' & Hsend & Hinv' & (clone & ms & Hq & Hgo & Hlen & Hms) & _).
    exists lc, w', clone, ms. split_and!; [done| |done|done|].
    { by rewrite Hq, slice_at_insert, decide_True. }
    eapply Forall_impl; [exact Hms|]. intros m Hm.
    eapply carries_gzip_intro; [by apply inv_mem|done|done|exact Hk|exact Hm].
  - destruct (Send_compression_fails (MBS := InMemory_MessageBrokerSpec) tr ctx topic l c _ bs sp w
      Hinv Hc Hctx Hk Hbs)
      as (s & m0 & v & e & m1 & a & m3 & _ & Hcomp & Hsend & _).
    { apply gzip_fails. by left. }
    unfold gzip_compressor, gzip_Compress in Hcomp. simpl Compress in Hcomp.
    assert (valid_level (gzip_level (mkGzipCompressor level None)) = false) as Hv by exact Hlv.
    rewrite Hv in Hcomp. cbn [negb] in Hcomp. injection Hcomp as <- <- _. by eexists a, _, _, m3.
Qed.

Lemma gzip_delivery_witness :
  (exists lc w' clone ms, Send NoopTranslator Background "orders" (Some demo_msg) (demo_sp, demo_world) =
      (Ok None, (add_sent demo_sp, w')) /\
    w_go w' = zip_with (task_for (CtxNode lc)) (active_subs (w_br demo_world) "orders") ms /\
    Forall (carries_gzip NoopTranslator (-1) [Byte.x68; Byte.x69] (w_mem w')) (clone :: ms)) /\
  (exists e m, Send NoopTranslator Background "orders" (Some demo_msg) (demo_bad_sp, demo_world) =
      (Ok (Some e), (add_failed demo_bad_sp, set_mem demo_world m))).
Proof.
  split.
  - destruct (gzip_delivery (Gz := demo_gzip) NoopTranslator 0 Background "orders" demo_msg
      demo_content [Byte.x68; Byte.x69] demo_sp demo_world (proj1 demo_world_inv)
      ltac:(vm_compute; reflexivity) demo_world_msg ltac:(reflexivity) ltac:(apply Nat.le_0_l)
      ltac:(reflexivity) ltac:(reflexivity)) as (lc & w' & clone & ms & Hsend & _ & Hgo & _ & Hms).
    assert (w_go demo_world = []) as Hgo0 by (vm_compute; reflexivity). rewrite Hgo0 in Hgo.
    exists lc, w', clone, ms. split; [exact Hsend|]. split; [exact Hgo|exact Hms].
  - destruct (gzip_delivery (Gz := demo_gzip) NoopTranslator 42 Background "orders" demo_msg
      demo_content [Byte.x68; Byte.x69] demo_bad_sp demo_world (proj1 demo_world_inv)
      ltac:(vm_compute; reflexivity) demo_world_msg ltac:(reflexivity) ltac:(apply Nat.le_0_l)
      ltac:(reflexivity) ltac:(reflexivity)) as (a & a' & a'' & m & Hsend).
    eexists _, m. exact Hsend.
Defined.

(** Sending again a message whose first [Send] failed compresses it twice:
    the subscribers get the compressed form of the compressed value, under a
    header that announces one compression. *)
Theorem resend_compresses_twice {V} {En : Env} tr f k bs ctx ctx' topic l c (sp : SyncProducer V)
    (w : World InMemoryBroker) :
  inmem_inv w -> connected (w_br w) = false -> content_of (w_mem w) l = Some c ->
  sp_compressor sp = Some k -> compresses k f -> c_value c = Some bs ->
  ctx_depth ctx <= next_loc (w_mem w) ->
  exists lc now w1 w2 c2,
    Send tr ctx topic (Some l) (sp, w) =
      (Ok (Some (ErrSentinel ErrNotConnected)), (add_failed sp, w1)) /\
    (on_snd (Ops.Connect ctx') ;;; Send tr ctx topic (Some l)) (add_failed sp, w1) =
      (Ok None, (add_sent (add_failed sp), w2)) /\
    queued_and_delivered (CtxNode lc) topic (published topic now c2) w1 w2 /\
    c_value c2 = Some (f (f bs)) /\
    default ∅ (c_headers c2) !! "content-encoding" = Some (Algorithm k).
Proof.
  intros Hinv Hcon Hc Hk Hf Hbs Hctx.
  assert (forall c, compressor_ok sp f c) as Hok.
  { intros c'. unfold compressor_ok. rewrite Hk. by destruct (c_value c'). }
  destruct (Send_run (MBS := InMemory_MessageBrokerSpec) tr f ctx topic l c sp w Hinv Hc (Hok c) Hctx)
    as (lc & m1 & r & w1 & m3 & (Hwf1 & Hk1 & Hc1) & Hpub & _ & Hsend & Hinv3 & Hk3 & _ & Hc3 & _).
  pose proof (Publish_disconnected (CtxNode lc) topic (Some l) [] (set_mem w m1) Hcon) as Hdis.
  pose proof (eq_trans (eq_sym Hpub) Hdis) as Heq. injection Heq as -> ->. simpl in *.
  set (w1 := set_mem (set_mem w m1) m3) in *.
  destruct (Connect_spec ctx' w1 Hinv3) as [Hconn Hinv4].
  set (w1c := set_br w1 (set_connected (w_br w1) true)) in *.
  assert (ctx_depth ctx <= next_loc (w_mem w1c)) as Hctx'.
  { simpl. pose proof (keep_next _ _ Hk1). pose proof (keep_next _ _ Hk3). simpl in *. lia. }
  set (c1 := prepared sp f c) in *.
  destruct (Send_run (MBS := InMemory_MessageBrokerSpec) tr f ctx topic l c1 (add_failed sp) w1c Hinv4 Hc3 (Hok c1) Hctx')
    as (lc2 & m4 & r2 & w2 & m5 & (Hwf4 & Hk4 & Hc4) & Hpub2 & _ & Hsend2 & _ & _ & Hsame & _ & _).
  set (c2 := prepared (add_failed sp) f c1) in *.
  destruct (Publish_queued (CtxNode lc2) topic l c2 [] (set_mem w1c m4))
    as (w2' & Hpub' & _ & _ & clone & ms & Hqs & Hgo & Hlen & Hct);
    [by apply inmem_inv_mem|done|done|].
  pose proof (eq_trans (eq_sym Hpub2) Hpub') as Heq. injection Heq as -> ->.
  exists lc2, (clock_time (clock_ctr m4)), w1, (set_mem w2' m5), c2. split_and!.
  - exact Hsend.
  - erewrite on_snd_ok by exact Hconn. exact Hsend2.
  - exists clone, ms. split_and!; [exact Hqs|exact Hgo|exact Hlen|]. simpl.
    eapply Forall_impl; [exact Hct|]. intros m. simpl. by rewrite Hsame.
  - unfold c2, c1, prepared, compressed, typed. simpl. rewrite Hk.
    destruct (sp_serializer sp); rewrite !Hbs; simpl; by rewrite ?Hbs.
  - unfold c2, c1, prepared, compressed, typed. simpl. rewrite Hk.
    destruct (sp_serializer sp); rewrite !Hbs; simpl; rewrite ?Hbs; simpl; by rewrite lookup_insert_eq.
Qed.

Lemma resend_compresses_twice_witness :
  exists w1 w2, Send NoopTranslator Background "orders" (Some demo_msg)
      (demo_sp, fresh_broker demo_mem) =
      (Ok (Some (ErrSentinel ErrNotConnected)), (add_failed demo_sp, w1)) /\
    (on_snd (Ops.Connect Background) ;;; Send NoopTranslator Background "orders" (Some demo_msg))
      (add_failed demo_sp, w1) = (Ok None, (add_sent (add_failed demo_sp), w2)).
Proof.
  destruct (resend_compresses_twice NoopTranslator demo_encode demo_gzip_compressor
    [Byte.x68; Byte.x69] Background Background "orders" demo_msg demo_content demo_sp
    (fresh_broker demo_mem) (fresh_broker_inv _ demo_mem_wf) ltac:(reflexivity)
    ltac:(vm_compute; reflexivity) ltac:(reflexivity) demo_gzip_compresses ltac:(reflexivity)
    ltac:(apply Nat.le_0_l)) as (lc & now & w1 & w2 & c2 & H1 & H2 & _).
  exists w1, w2. split; [exact H1|exact H2].
Defined.

(** The message [SendValue] makes for an encoded value. *)
Definition value_content (content_type : string) (topic id : string) (bs : bytes) (t : Time) :
    content :=
  mkContent id topic None (Some bs) (Some {["content-type" := content_type]}) t.

(** A message made of a fresh slice. *)
Lemma NewMessage_value {En : Env} topic s bs m0 m1 :
  mem_wf m1 -> mem_extends m0 m1 -> slice_ok m1 s -> read_slice m1 (Some s) = Some bs ->
  next_loc m0 <= sl_arr s ->
  wp (NewMessage topic (Some s)) (fun l m2 => mem_wf m2 /\ mem_extends m0 m2 /\
    mem_extends m1 m2 /\ all_fresh m0 m2 l /\ is_Some (msgs_of m2 !! l) /\ next_loc m1 <= l /\
    exists id t, content_of m2 l = Some (mkContent id topic None (Some bs) (Some ∅) t)) m1.
Proof.
  intros Hwf1 Hext1 Hs1 Hrd Hfresh.
  destruct (wp_run _ _ _ (NewMessage_spec topic (Some s) m0 m1 Hwf1 Hext1 Hs1))
    as (l & m2 & Hmsg & id & t & Hwf2 & Hext2 & _ & Hx & Hh).
  destruct (wp_run _ _ _ (NewMessage_spec topic (Some s) m1 m1 Hwf1 ltac:(reflexivity) Hs1))
    as (l' & m2' & Hmsg' & _ & _ & _ & Hext2' & Hl & _).
  rewrite Hmsg in Hmsg'. injection Hmsg' as <- <-. pose proof (ext_next _ _ Hext1).
  eapply wp_intro; [exact Hmsg|]. split_and!; [done..| |by rewrite Hx|done|].
  - intros y. unfold footprint. rewrite Hx. simpl. rewrite !elem_of_cons, elem_of_nil.
    intros [->|[->|[->|[]]]]; [lia|done|done].
  - exists id, t. unfold content_of. rewrite Hx. simpl. rewrite (ext_bytes _ _ Hext2');
      [|destruct Hs1 as (arr & Harr & _); apply (wf_bytes _ Hwf1); by rewrite Harr].
    unfold read_slice in Hrd. destruct (bytes_of m1 !! sl_arr s); simplify_eq/=. by rewrite Hh.
Qed.

Lemma SendValue_run {V} {J : JSON V} {En : Env} {B} {MB : MessageBroker B}
    tr ctx topic v bs (sp : SyncProducer V) (w : World B) :
  mem_wf (w_mem w) -> default JSONSerializer (sp_serializer sp) = JSONSerializer ->
  json_Marshal v = inl bs ->
  exists l m id t, mem_wf m /\ mem_extends (w_mem w) m /\
    content_of m l = Some (value_content "application/json" topic id bs t) /\
    SendValue tr ctx topic v (sp, w) = Send tr ctx topic (Some l) (sp, set_mem w m).
Proof.
  intros Hwf Hs Hj. unfold SendValue. rewrite (bind_ok _ _ _ sp (sp, w)) by done.
  rewrite Hs. simpl Serialize. simpl ContentType. rewrite Hj.
  destruct (wp_run _ _ _ (new_array_read bs (w_mem w) Hwf)) as (s & m1 & Hnew & Hwf1 & Hext1 & Hs1 & Hrd).
  destruct (wp_run _ _ _ (NewMessage_value topic s bs (w_mem w) m1 Hwf1 Hext1 Hs1 Hrd
    ltac:(unfold new_array in Hnew; by injection Hnew as <- _)))
    as (l & m2 & Hmsg & Hwf2 & Hext2 & _ & Hfr & _ & _ & id & t & Hc2).
  destruct (wp_run _ _ _ (SetHeader_spec l "content-type" "application/json" m2 Hwf2
    ltac:(by eapply content_live))) as (r & m3 & Hset & -> & Hwf3 & _ & Hc3 & Hkeep).
  rewrite Hc2 in Hc3. destruct (Hkeep (w_mem w) Hext2 Hfr) as [Hext3 _].
  exists l, m3, id, t. split_and!; [done|done| |].
  - rewrite Hc3. simpl. unfold set_header_content, value_content. simpl. done.
  - unfold in_mem.
    erewrite on_snd_ok by (unfold on_mem, bind; rewrite Hnew; reflexivity). cbv beta iota.
    erewrite on_snd_ok by (unfold on_mem; cbn [w_mem set_mem]; rewrite Hmsg; reflexivity).
    erewrite on_snd_ok by (unfold on_mem; cbn [w_mem set_mem]; rewrite Hset; reflexivity).
    reflexivity.
Qed.

(** C34: [SendValue] with the default serializer sends a new message for the
    topic whose value is the JSON of the value, whose only header is its
    content type, and which has no key; when the value has no JSON form it
    publishes nothing, counts a failure and returns an error that wraps
    encoding/json's. *)
Theorem SendValue_sends_json {V} {J : JSON V} {En : Env} {B} {MB : MessageBroker B}
    tr ctx topic v (sp : SyncProducer V) (w : World B) :
  mem_wf (w_mem w) -> sp_serializer sp = None ->
  match json_Marshal v with
  | inl bs => exists l m id t, mem_wf m /\ mem_extends (w_mem w) m /\
      content_of m l = Some (value_content "application/json" topic id bs t) /\
      SendValue tr ctx topic v (sp, w) = Send tr ctx topic (Some l) (sp, set_mem w m)
  | inr e => exists l, SendValue tr ctx topic v (sp, w) =
      (Ok (Some (Errorf_wrap tr l "serialization failed" e)),
       (add_failed sp, set_mem w (bump (w_mem w))))
  end.
Proof.
  intros Hwf Hs. destruct (json_Marshal v) as [bs|e] eqn:Hj.
  - apply SendValue_run; [done|by rewrite Hs|done].
  - eexists. unfold SendValue. rewrite (bind_ok _ _ _ sp (sp, w)) by done. rewrite Hs.
    simpl Serialize. rewrite Hj. reflexivity.
Qed.

Lemma SendValue_sends_json_witness :
  exists l m id t,
    content_of m l = Some (value_content "application/json" "orders" id [Byte.x34; Byte.x32] t) /\
    SendValue NoopTranslator Background "orders" 42%Z (NewSyncProducer 0, demo_world) =
      Send NoopTranslator Background "orders" (Some l) (NewSyncProducer 0, set_mem demo_world m).
Proof.
  destruct (SendValue_sends_json NoopTranslator Background "orders" 42%Z (NewSyncProducer 0)
    demo_world (inv_mem _ (proj1 demo_world_inv)) ltac:(reflexivity))
    as (l & m & id & t & _ & _ & Hc & Heq).
  exists l, m, id, t. split; [exact Hc|exact Heq].
Defined.
