(* ===== verification/AsyncProducer.v ===== *)
(** * The asynchronous producer (pkg/producer/producer.go)

    An [AsyncProducer] is shared by the goroutines that send, start and stop
    it and by its [sendLoop].  Each atomic access, channel operation and call
    of the broker is one step; the goroutines' positions between steps are the
    threads of the state.  The broker is any [MessageBroker]; its world may
    change at any time, since others use it too. *)

From Stdlib Require Import ZArith Lia.
From stdpp Require Import base gmap strings list.
From S2P Require Import Prelude Store Demo Errors Broker InMemory InMemorySubs InMemoryProps.

(** A [pendingMessage] *)
Record pendingMessage := mkPending { pm_topic : string; pm_msg : option loc }.

Record AsyncProducer := mkAsyncProducer {
  bufferSize : Z;
  msgCh : list pendingMessage;      (* the channels' buffers, of capacity bufferSize *)
  errCh : list error;
  ap_stopCh_closed : bool;
  ap_running : bool;
  ap_sent : Z;
  ap_failed : Z;
  ap_wg : nat;
  ap_serializer : option nat;       (* interface values, stored and never read *)
  ap_compressor : option nat }.

Definition NewAsyncProducer (size : Z) : AsyncProducer :=
  mkAsyncProducer (if (size <? 1)%Z then 1000 else size)%Z [] [] false false 0 0 0 None None.

(** ** The code between two scheduling points *)

Section Steps.
Context (ap : AsyncProducer).
Definition set_msgCh x : AsyncProducer := mkAsyncProducer (bufferSize ap) x (errCh ap)
  (ap_stopCh_closed ap) (ap_running ap) (ap_sent ap) (ap_failed ap) (ap_wg ap)
  (ap_serializer ap) (ap_compressor ap).
Definition set_errCh x : AsyncProducer := mkAsyncProducer (bufferSize ap) (msgCh ap) x
  (ap_stopCh_closed ap) (ap_running ap) (ap_sent ap) (ap_failed ap) (ap_wg ap)
  (ap_serializer ap) (ap_compressor ap).
Definition set_closed x : AsyncProducer := mkAsyncProducer (bufferSize ap) (msgCh ap) (errCh ap)
  x (ap_running ap) (ap_sent ap) (ap_failed ap) (ap_wg ap)
  (ap_serializer ap) (ap_compressor ap).
Definition set_running x : AsyncProducer := mkAsyncProducer (bufferSize ap) (msgCh ap) (errCh ap)
  (ap_stopCh_closed ap) x (ap_sent ap) (ap_failed ap) (ap_wg ap)
  (ap_serializer ap) (ap_compressor ap).
Definition set_wg x : AsyncProducer := mkAsyncProducer (bufferSize ap) (msgCh ap) (errCh ap)
  (ap_stopCh_closed ap) (ap_running ap) (ap_sent ap) (ap_failed ap) x (ap_serializer ap) (ap_compressor ap).

Definition SetSerializer x : AsyncProducer := mkAsyncProducer (bufferSize ap) (msgCh ap)
  (errCh ap) (ap_stopCh_closed ap) (ap_running ap) (ap_sent ap) (ap_failed ap) (ap_wg ap) x
  (ap_compressor ap).
Definition SetCompressor x : AsyncProducer := mkAsyncProducer (bufferSize ap) (msgCh ap)
  (errCh ap) (ap_stopCh_closed ap) (ap_running ap) (ap_sent ap) (ap_failed ap) (ap_wg ap)
  (ap_serializer ap) x.

(** The select of [Send]: the message is queued if the channel has room. *)
Definition Send_select (pm : pendingMessage) : option AsyncProducer :=
  if (Z.of_nat (length (msgCh ap)) <? bufferSize ap)%Z
  then Some (set_msgCh (msgCh ap ++ [pm])) else None.

(** [case pm := <-ap.msgCh] *)
Definition recv_msg : option (pendingMessage * AsyncProducer) :=
  match msgCh ap with
  | [] => None
  | pm :: rest => Some (pm, set_msgCh rest)
  end.

(** [ap.failed.Add(1)] or [ap.sent.Add(1)] after a publication *)
Definition count_result (r : option error) : AsyncProducer :=
  match r with
  | Some _ => mkAsyncProducer (bufferSize ap) (msgCh ap) (errCh ap) (ap_stopCh_closed ap)
      (ap_running ap) (ap_sent ap) (wrap64 (ap_failed ap + 1)) (ap_wg ap)
      (ap_serializer ap) (ap_compressor ap)
  | None => mkAsyncProducer (bufferSize ap) (msgCh ap) (errCh ap) (ap_stopCh_closed ap)
      (ap_running ap) (wrap64 (ap_sent ap + 1)) (ap_failed ap) (ap_wg ap)
      (ap_serializer ap) (ap_compressor ap)
  end.

(** The non-blocking send of an error. *)
Definition report_error (e : error) : AsyncProducer :=
  if (Z.of_nat (length (errCh ap)) <? bufferSize ap)%Z
  then set_errCh (errCh ap ++ [e]) else ap.

Definition close_stopCh : outcome AsyncProducer :=
  if ap_stopCh_closed ap then Panic CloseOfClosedChannel else Ok (set_closed true).

Definition Errors : list error := errCh ap.
Definition SentCount : Z := ap_sent ap.
Definition FailedCount : Z := ap_failed ap.
End Steps.

(** ** Goroutines *)

Inductive thread :=
| TSend (pm : pendingMessage)             (* [Send], running read as true *)
| TStarting (ctx : Ctx)                   (* [Start], running swapped *)
| TLoop (ctx : Ctx)                       (* [sendLoop], at its select *)
| TDrain (ctx : Ctx)                      (* [sendLoop], at the select of the drain *)
| TPublish (ctx : Ctx) (drain : bool) (pm : pendingMessage)     (* about to publish *)
| TCount (ctx : Ctx) (drain : bool) (r : option error)          (* has published *)
| TReport (ctx : Ctx) (e : error)                               (* to send to errCh *)
| TStopping                               (* [Stop], running swapped *)
| TWaiting.                               (* [Stop], in wg.Wait *)

(** The goroutine of a [sendLoop], or about to become one. *)
Definition is_loop (t : thread) : bool :=
  match t with
  | TStarting _ | TLoop _ | TDrain _ | TPublish _ _ _ | TCount _ _ _ | TReport _ _ => true
  | _ => false
  end.

Inductive label :=
| LAccept (pm : pendingMessage)                     (* [Send] returns nil *)
| LReject (pm : pendingMessage)                     (* [Send] returns an error *)
| LTake (pm : pendingMessage)                       (* the loop receives a message *)
| LPublish (pm : pendingMessage) (r : option error) (* the broker returned [r] *)
| LStart                                            (* [Start] is called *)
| LCancel                                           (* a context is cancelled *)
| LStopped                                          (* a [Stop] that closed the channel returns *)
| LOther.

Section Runs.
Context {B : Type} {MB : MessageBroker B}.

Record state := mkState {
  st_ap : AsyncProducer;
  st_threads : list thread;
  st_done : list Ctx;            (* the contexts that are done *)
  st_world : World B }.

Definition again (ctx : Ctx) (drain : bool) : thread := if drain then TDrain ctx else TLoop ctx.

(** Calls of the producer's methods by other goroutines, reads of the error
    channel, and whatever else happens in the program. *)
Inductive client_step : state -> label -> state -> Prop :=
| step_Send_off st pm :
    ap_running (st_ap st) = false -> client_step st (LReject pm) st
| step_Send_on ap ts dn w pm :
    ap_running ap = true ->
    client_step (mkState ap ts dn w) LOther (mkState ap (ts ++ [TSend pm]) dn w)
| step_Start ap ts dn w ctx :
    client_step (mkState ap ts dn w) LStart
      (mkState (set_running ap true) (ts ++ (if ap_running ap then [] else [TStarting ctx])) dn w)
| step_Stop ap ts dn w :
    client_step (mkState ap ts dn w) LOther
      (mkState (set_running ap false) (ts ++ (if ap_running ap then [TStopping] else [])) dn w)
| step_SetSerializer ap ts dn w x :
    client_step (mkState ap ts dn w) LOther (mkState (SetSerializer ap x) ts dn w)
| step_SetCompressor ap ts dn w x :
    client_step (mkState ap ts dn w) LOther (mkState (SetCompressor ap x) ts dn w)
| step_recv_error ap ts dn w e rest :
    errCh ap = e :: rest ->
    client_step (mkState ap ts dn w) LOther (mkState (set_errCh ap rest) ts dn w)
| step_cancel ap ts dn w ctx :
    client_step (mkState ap ts dn w) LCancel (mkState ap ts (ctx :: dn) w)
| step_others ap ts dn w w' :
    client_step (mkState ap ts dn w) LOther (mkState ap ts dn w').

(** [at_thread t ts]: a context of threads with [t] replaced by [ts]. *)
Inductive thread_step : state -> label -> state -> Prop :=
| step_accept ap pre pm post dn w ap' :
    Send_select ap pm = Some ap' ->
    thread_step (mkState ap (pre ++ TSend pm :: post) dn w) (LAccept pm)
      (mkState ap' (pre ++ post) dn w)
| step_full ap pre pm post dn w :
    Send_select ap pm = None ->
    thread_step (mkState ap (pre ++ TSend pm :: post) dn w) (LReject pm)
      (mkState ap (pre ++ post) dn w)
| step_go ap pre ctx post dn w :
    thread_step (mkState ap (pre ++ TStarting ctx :: post) dn w) LOther
      (mkState (set_wg ap (S (ap_wg ap))) (pre ++ TLoop ctx :: post) dn w)
| step_recv ap pre ctx post dn w pm ap' :
    recv_msg ap = Some (pm, ap') ->
    thread_step (mkState ap (pre ++ TLoop ctx :: post) dn w) (LTake pm)
      (mkState ap' (pre ++ TPublish ctx false pm :: post) dn w)
| step_stop_seen ap pre ctx post dn w :
    ap_stopCh_closed ap = true ->
    thread_step (mkState ap (pre ++ TLoop ctx :: post) dn w) LOther
      (mkState ap (pre ++ TDrain ctx :: post) dn w)
| step_ctx_done ap pre ctx post dn w :
    ctx ∈ dn ->
    thread_step (mkState ap (pre ++ TLoop ctx :: post) dn w) LOther
      (mkState (set_wg ap (ap_wg ap - 1)) (pre ++ post) dn w)
| step_drain ap pre ctx post dn w pm ap' :
    recv_msg ap = Some (pm, ap') ->
    thread_step (mkState ap (pre ++ TDrain ctx :: post) dn w) (LTake pm)
      (mkState ap' (pre ++ TPublish ctx true pm :: post) dn w)
| step_drained ap pre ctx post dn w :
    recv_msg ap = None ->
    thread_step (mkState ap (pre ++ TDrain ctx :: post) dn w) LOther
      (mkState (set_wg ap (ap_wg ap - 1)) (pre ++ post) dn w)
| step_publish ap pre ctx drain pm post dn w r w' :
    Publish ctx (pm_topic pm) (pm_msg pm) [] w = (Ok r, w') ->
    thread_step (mkState ap (pre ++ TPublish ctx drain pm :: post) dn w) (LPublish pm r)
      (mkState ap (pre ++ TCount ctx drain r :: post) dn w')
| step_count ap pre ctx drain r post dn w :
    thread_step (mkState ap (pre ++ TCount ctx drain r :: post) dn w) LOther
      (mkState (count_result ap r)
        (pre ++ match r, drain with Some e, false => TReport ctx e | _, _ => again ctx drain end
           :: post) dn w)
| step_report ap pre ctx e post dn w :
    thread_step (mkState ap (pre ++ TReport ctx e :: post) dn w) LOther
      (mkState (report_error ap e) (pre ++ TLoop ctx :: post) dn w)
| step_close ap pre post dn w ap' :
    close_stopCh ap = Ok ap' ->
    thread_step (mkState ap (pre ++ TStopping :: post) dn w) LOther
      (mkState ap' (pre ++ TWaiting :: post) dn w)
| step_wait ap pre post dn w :
    ap_wg ap = 0 ->
    thread_step (mkState ap (pre ++ TWaiting :: post) dn w) LStopped
      (mkState ap (pre ++ post) dn w).

Definition step (st : state) (l : label) (st' : state) : Prop :=
  client_step st l st' \/ thread_step st l st'.

Definition initial (size : Z) (w : World B) : state := mkState (NewAsyncProducer size) [] [] w.
End Runs.
Arguments state : clear implicits.

(** What a run did *)
Definition accepted (tr : list label) : list pendingMessage :=
  omap (fun l => match l with LAccept pm => Some pm | _ => None end) tr.
Definition taken (tr : list label) : list pendingMessage :=
  omap (fun l => match l with LTake pm => Some pm | _ => None end) tr.
Definition published (tr : list label) : list (pendingMessage * option error) :=
  omap (fun l => match l with LPublish pm r => Some (pm, r) | _ => None end) tr.
Definition in_flight (ts : list thread) : list pendingMessage :=
  omap (fun t => match t with TPublish _ _ pm => Some pm | _ => None end) ts.
Definition uncounted (ts : list thread) : list (option error) :=
  omap (fun t => match t with TCount _ _ r => Some r | _ => None end) ts.

(** The number of nil results, of errors. *)
Definition oks (rs : list (option error)) : nat := length (filter (fun r => r = None) rs).
Definition errs (rs : list (option error)) : nat := length (filter (fun r => r <> None) rs).

(** ** Invariants *)

Section Invariant.
Context {B : Type} {MB : MessageBroker B}.

(** The goroutines [wg] counts. *)
Definition counted_loop (t : thread) : bool :=
  match t with TStarting _ => false | _ => is_loop t end.

Definition loops (ts : list thread) : nat := length (filter (fun t => counted_loop t = true) ts).

Record inv (tr : list label) (ap : AsyncProducer) (ts : list thread) : Prop := {
  inv_order : accepted tr = taken tr ++ msgCh ap;
  inv_published : taken tr ≡ₚ (published tr).*1 ++ in_flight ts;
  inv_cap : (1 <= bufferSize ap)%Z;
  inv_msgs : (Z.of_nat (length (msgCh ap)) <= bufferSize ap)%Z;
  inv_errs : (Z.of_nat (length (errCh ap)) <= bufferSize ap)%Z;
  inv_sent : exists n, ap_sent ap = wrap64 (Z.of_nat n) /\
    oks (published tr).*2 = n + oks (uncounted ts);
  inv_failed : exists n, ap_failed ap = wrap64 (Z.of_nat n) /\
    errs (published tr).*2 = n + errs (uncounted ts);
  inv_wg : ap_wg ap = loops ts }.

#[local] Instance oks_proper : Proper ((≡ₚ) ==> (=)) oks.
Proof. intros l1 l2 Hl. unfold oks. by rewrite Hl. Qed.
#[local] Instance errs_proper : Proper ((≡ₚ) ==> (=)) errs.
Proof. intros l1 l2 Hl. unfold errs. by rewrite Hl. Qed.
#[local] Instance loops_proper : Proper ((≡ₚ) ==> (=)) loops.
Proof. intros l1 l2 Hl. unfold loops. by rewrite Hl. Qed.
#[local] Instance in_flight_proper : Proper ((≡ₚ) ==> (≡ₚ)) in_flight.
Proof. intros l1 l2 Hl. unfold in_flight. by rewrite Hl. Qed.
#[local] Instance uncounted_proper : Proper ((≡ₚ) ==> (≡ₚ)) uncounted.
Proof. intros l1 l2 Hl. unfold uncounted. by rewrite Hl. Qed.

Lemma inv_perm tr ap ts ts' : ts ≡ₚ ts' -> inv tr ap ts -> inv tr ap ts'.
Proof.
  intros Hp [Ho Hpub Hc Hm He (n & Hs & Hns) (k & Hf & Hkf) Hw].
  split; try done.
  - by rewrite <- Hp.
  - exists n. by rewrite <- Hp.
  - exists k. by rewrite <- Hp.
  - by rewrite <- Hp.
Qed.

Lemma inv_middle tr ap t pre post :
  inv tr ap (pre ++ t :: post) <-> inv tr ap (t :: pre ++ post).
Proof. split; apply inv_perm; by rewrite Permutation_middle. Qed.

Lemma accepted_snoc tr l : accepted (tr ++ [l]) = accepted tr ++ accepted [l].
Proof. apply omap_app. Qed.
Lemma async_taken_snoc tr l : taken (tr ++ [l]) = taken tr ++ taken [l].
Proof. apply omap_app. Qed.
Lemma published_snoc tr l : published (tr ++ [l]) = published tr ++ published [l].
Proof. apply omap_app. Qed.
Lemma oks_app l1 l2 : oks (l1 ++ l2) = oks l1 + oks l2.
Proof. unfold oks. by rewrite filter_app, length_app. Qed.
Lemma errs_app l1 l2 : errs (l1 ++ l2) = errs l1 + errs l2.
Proof. unfold errs. by rewrite filter_app, length_app. Qed.

(** A label that is no message event leaves the trace's summaries alone. *)
Definition silent (l : label) : Prop :=
  accepted [l] = [] /\ taken [l] = [] /\ published [l] = [].

Lemma inv_silent tr l ap ts : silent l -> inv tr ap ts -> inv (tr ++ [l]) ap ts.
Proof.
  intros (Ha & Ht & Hp) [Ho Hpub Hc Hm He Hs Hf Hw].
  split; rewrite ?accepted_snoc, ?async_taken_snoc, ?published_snoc, ?Ha, ?Ht, ?Hp, ?app_nil_r; done.
Qed.

(** A change that touches neither the queues nor the counters, between
    thread lists with the same messages, results and loops. *)
Lemma inv_change tr ap ap' ts ts' :
  inv tr ap ts ->
  msgCh ap' = msgCh ap -> bufferSize ap' = bufferSize ap ->
  (Z.of_nat (length (errCh ap')) <= bufferSize ap)%Z ->
  ap_sent ap' = ap_sent ap -> ap_failed ap' = ap_failed ap ->
  in_flight ts' = in_flight ts -> uncounted ts' = uncounted ts ->
  ap_wg ap' + loops ts = ap_wg ap + loops ts' ->
  inv tr ap' ts'.
Proof.
  intros [Ho Hpub Hc Hm He Hs Hf Hw] Em Eb Ee Es Ef Ei Eu Ew.
  split; rewrite ?Em, ?Eb, ?Es, ?Ef, ?Ei, ?Eu; try done. lia.
Qed.

Lemma async_client_step_inv tr (st : state B) l st' :
  inv tr (st_ap st) (st_threads st) -> client_step st l st' ->
  inv (tr ++ [l]) (st_ap st') (st_threads st').
Proof.
  intros Hinv Hstep. destruct Hstep as [st pm Hr|ap ts dn w pm Hr|ap ts dn w ctx|ap ts dn w
    |ap ts dn w x|ap ts dn w x|ap ts dn w e rest He|ap ts dn w ctx|ap ts dn w w']; simpl in *;
    (apply inv_silent; [done|]); try done;
    pose proof (inv_errs _ _ _ Hinv) as Hle.
  - eapply inv_perm; [apply Permutation_app_comm|]. by eapply inv_change; [exact Hinv|..].
  - eapply inv_perm; [apply Permutation_app_comm|].
    eapply inv_change; [exact Hinv|..]; try done; by destruct (ap_running ap).
  - eapply inv_perm; [apply Permutation_app_comm|].
    eapply inv_change; [exact Hinv|..]; try done; by destruct (ap_running ap).
  - by eapply inv_change; [exact Hinv|..].
  - by eapply inv_change; [exact Hinv|..].
  - eapply inv_change; [exact Hinv|..]; try done. rewrite He in Hle. simpl in *. lia.
Qed.

Lemma recv_msg_Some ap pm ap' :
  recv_msg ap = Some (pm, ap') -> exists rest, msgCh ap = pm :: rest /\ ap' = set_msgCh ap rest.
Proof. unfold recv_msg. destruct (msgCh ap); intros H; simplify_eq; eauto. Qed.

Lemma inv_take tr ap ap' pm t t' ts :
  recv_msg ap = Some (pm, ap') -> in_flight [t] = [] -> in_flight [t'] = [pm] ->
  uncounted [t] = [] -> uncounted [t'] = [] -> counted_loop t = true -> counted_loop t' = true ->
  inv tr ap (t :: ts) -> inv (tr ++ [LTake pm]) ap' (t' :: ts).
Proof.
  intros (rest & Hms & ->)%recv_msg_Some Hi Hi' Hu Hu' Hc Hc' [Ho Hpub Hcap Hm He Hs Hf Hw].
  change (in_flight (t :: ts)) with (in_flight ([t] ++ ts)) in *.
  change (uncounted (t :: ts)) with (uncounted ([t] ++ ts)) in *.
  assert (forall a, in_flight ([a] ++ ts) = in_flight [a] ++ in_flight ts) as Ei
    by (intros a; apply omap_app).
  assert (forall a, uncounted ([a] ++ ts) = uncounted [a] ++ uncounted ts) as Eu
    by (intros a; apply omap_app).
  rewrite Ei, Hi in Hpub. rewrite Eu, Hu in Hs, Hf. simpl in *.
  rewrite Hms in *. simpl in *.
  split; rewrite ?accepted_snoc, ?async_taken_snoc, ?published_snoc; simpl; rewrite ?app_nil_r.
  - by rewrite Ho, <- app_assoc.
  - change (in_flight (t' :: ts)) with (in_flight ([t'] ++ ts)). rewrite Ei, Hi', Hpub.
    rewrite <- app_assoc. f_equiv. apply Permutation_app_comm.
  - done.
  - lia.
  - done.
  - change (uncounted (t' :: ts)) with (uncounted ([t'] ++ ts)). by rewrite Eu, Hu'.
  - change (uncounted (t' :: ts)) with (uncounted ([t'] ++ ts)). by rewrite Eu, Hu'.
  - rewrite Hw. unfold loops. rewrite !filter_cons, Hc, Hc'. done.
Qed.

Lemma inv_accept tr ap ap' pm ts :
  Send_select ap pm = Some ap' -> inv tr ap (TSend pm :: ts) -> inv (tr ++ [LAccept pm]) ap' ts.
Proof.
  unfold Send_select. destruct (Z.ltb_spec (Z.of_nat (length (msgCh ap))) (bufferSize ap)) as [Hlt|];
    [|done]. intros [= <-] [Ho Hpub Hcap Hm He Hs Hf Hw].
  split; rewrite ?accepted_snoc, ?async_taken_snoc, ?published_snoc; simpl; rewrite ?app_nil_r; try done.
  - by rewrite Ho, app_assoc.
  - rewrite length_app. simpl. lia.
Qed.

Lemma inv_publish tr ap pm r ctx drain ts :
  inv tr ap (TPublish ctx drain pm :: ts) ->
  inv (tr ++ [LPublish pm r]) ap (TCount ctx drain r :: ts).
Proof.
  intros [Ho Hpub Hcap Hm He (n & Hs & Hns) (k & Hf & Hkf) Hw].
  split; rewrite ?accepted_snoc, ?async_taken_snoc, ?published_snoc; rewrite ?app_nil_r; try done.
  - rewrite fmap_app. simpl. rewrite <- app_assoc. done.
  - exists n. split; [done|]. rewrite fmap_app, oks_app, Hns. unfold oks. simpl.
    destruct r; simpl; rewrite ?filter_cons; simpl; lia.
  - exists k. split; [done|]. rewrite fmap_app, errs_app, Hkf. unfold errs. simpl.
    destruct r; simpl; rewrite ?filter_cons; simpl; lia.
Qed.

Lemma inv_count tr ap r ctx drain t' ts :
  in_flight [t'] = [] -> uncounted [t'] = [] -> counted_loop t' = true ->
  inv tr ap (TCount ctx drain r :: ts) -> inv tr (count_result ap r) (t' :: ts).
Proof.
  intros Hi Hu Hc [Ho Hpub Hcap Hm He (n & Hs & Hns) (k & Hf & Hkf) Hw].
  change (t' :: ts) with ([t'] ++ ts).
  assert (in_flight ([t'] ++ ts) = in_flight ts) as Ei by (unfold in_flight in *; by rewrite omap_app, Hi).
  assert (uncounted ([t'] ++ ts) = uncounted ts) as Eu by (unfold uncounted in *; by rewrite omap_app, Hu).
  assert (loops ([t'] ++ ts) = loops (TCount ctx drain r :: ts)) as El.
  { unfold loops. simpl. rewrite !filter_cons, Hc. done. }
  change (uncounted (TCount ctx drain r :: ts)) with (r :: uncounted ts) in *.
  unfold oks, errs in Hns, Hkf. rewrite !filter_cons in Hns, Hkf.
  destruct r as [e|]; simpl in Hns, Hkf; split; rewrite ?Ei, ?Eu, ?El; try done.
  all: unfold count_result; cbn [ap_sent ap_failed].
  - exists n. by split.
  - exists (S k). rewrite Hf, wrap64_add_l. split; [f_equal; lia|]. unfold errs. lia.
  - exists (S n). rewrite Hs, wrap64_add_l. split; [f_equal; lia|]. unfold oks. lia.
  - exists k. by split.
Qed.

Lemma async_thread_step_inv tr (st : state B) l st' :
  inv tr (st_ap st) (st_threads st) -> thread_step st l st' ->
  inv (tr ++ [l]) (st_ap st') (st_threads st').
Proof.
  intros Hinv Hstep.
  destruct Hstep as [ap pre pm post dn w ap' Hs|ap pre pm post dn w Hs|ap pre ctx post dn w
    |ap pre ctx post dn w pm ap' Hr|ap pre ctx post dn w Hc|ap pre ctx post dn w Hd
    |ap pre ctx post dn w pm ap' Hr|ap pre ctx post dn w Hr|ap pre ctx drain pm post dn w r w' Hp
    |ap pre ctx drain r post dn w|ap pre ctx e post dn w|ap pre post dn w ap' Hc|ap pre post dn w Hw];
    simpl in *; rewrite inv_middle in Hinv; rewrite ?inv_middle;
    pose proof (inv_errs _ _ _ Hinv) as Hle; pose proof (inv_wg _ _ _ Hinv) as Hwg.
  - by eapply inv_accept.
  - apply inv_silent; [done|]. by eapply inv_change; [exact Hinv|..].
  - apply inv_silent; [done|]. eapply inv_change; [exact Hinv|..]; try done.
    unfold loops. rewrite !filter_cons. simpl. lia.
  - by eapply inv_take; [exact Hr|..|exact Hinv].
  - apply inv_silent; [done|]. by eapply inv_change; [exact Hinv|..].
  - apply inv_silent; [done|]. eapply inv_change; [exact Hinv|..]; try done.
    unfold loops in *. rewrite !filter_cons in *. simpl in *. lia.
  - by eapply inv_take; [exact Hr|..|exact Hinv].
  - apply inv_silent; [done|]. eapply inv_change; [exact Hinv|..]; try done.
    unfold loops in *. rewrite !filter_cons in *. simpl in *. lia.
  - by apply inv_publish.
  - apply inv_silent; [done|]. eapply inv_count; [..|exact Hinv];
      by destruct r as [e|], drain.
  - apply inv_silent; [done|]. unfold report_error.
    destruct (Z.ltb_spec (Z.of_nat (length (errCh ap))) (bufferSize ap)) as [Hlt|];
      eapply inv_change; try exact Hinv; try done.
    simpl. rewrite length_app. simpl. lia.
  - unfold close_stopCh in Hc. destruct (ap_stopCh_closed ap); [done|]. injection Hc as <-.
    apply inv_silent; [done|]. by eapply inv_change; [exact Hinv|..].
  - apply inv_silent; [done|]. by eapply inv_change; [exact Hinv|..].
Qed.

Lemma async_runs_inv size (w : World B) tr st :
  runs step (initial size w) tr st -> inv tr (st_ap st) (st_threads st).
Proof.
  apply (runs_invariant step (fun tr st => inv tr (st_ap st) (st_threads st))).
  { intros tr' st1 l st2 Hi [?|?]; eauto using async_client_step_inv, async_thread_step_inv. }
  assert (1 <= bufferSize (NewAsyncProducer size))%Z as Hb.
  { simpl. destruct (Z.ltb_spec size 1); lia. }
  split; simpl in *; first [done|lia|exists 0; split; vm_compute; reflexivity].
Qed.
End Invariant.

(** ** Draining *)

Section Drain.
Context {B : Type} {MB : MessageBroker B}.

(** Neither a [Send] nor a [Start] under way. *)
Definition quiet (t : thread) : Prop :=
  match t with TSend _ | TStarting _ => False | _ => True end.

(** The producer is being stopped: new calls of [Send] fail, none is under
    way, and a loop is alive unless everything has been received. *)
Definition draining (st : state B) : Prop :=
  ap_running (st_ap st) = false /\
  (forall t, t ∈ st_threads st -> quiet t) /\
  (msgCh (st_ap st) <> [] -> exists t, t ∈ st_threads st /\ is_loop t = true) /\
  st_done st = [].

(** Nobody starts the producer again or cancels a context. *)
Definition undisturbed (tr : list label) : Prop :=
  Forall (fun l => l <> LStart /\ l <> LCancel) tr.

(** A thread is replaced by another one that is no [Send]; a loop stays a
    loop or nothing is left to receive. *)
Lemma draining_replace ap ap' t t' pre post dn (w w' : World B) :
  draining (mkState ap (pre ++ t :: post) dn w) ->
  ap_running ap' = ap_running ap -> (msgCh ap' <> [] -> msgCh ap <> []) ->
  quiet t' ->
  (is_loop t = true -> is_loop t' = true) ->
  draining (mkState ap' (pre ++ t' :: post) dn w').
Proof.
  intros (Hr & Hs & Hm & Hd) Er Em Ht' Hl. unfold draining in *. simpl in *. split_and!.
  - congruence.
  - intros x [->|Hx]%elem_middle; [done|]. apply Hs, elem_middle. by right.
  - intros (x & Hx & Hxl)%Em%Hm. apply elem_middle in Hx as [->|Hx].
    + exists t'. split; [|auto]. apply elem_middle. by left.
    + exists x. split; [|done]. apply elem_middle. by right.
  - done.
Qed.

(** A thread ends; if it is a loop, nothing is left to receive. *)
Lemma draining_remove ap ap' t pre post dn (w w' : World B) :
  draining (mkState ap (pre ++ t :: post) dn w) ->
  ap_running ap' = ap_running ap -> (msgCh ap' <> [] -> msgCh ap <> [] /\ is_loop t = false) ->
  draining (mkState ap' (pre ++ post) dn w').
Proof.
  intros (Hr & Hs & Hm & Hd) Er Em. unfold draining in *. simpl in *. split_and!.
  - congruence.
  - intros x Hx. apply Hs, elem_middle. by right.
  - intros [Hne Hl]%Em. destruct (Hm Hne) as (x & Hx & Hxl).
    apply elem_middle in Hx as [->|Hx]; [congruence|by exists x].
  - done.
Qed.

Lemma draining_client (st : state B) l st' :
  draining st -> client_step st l st' -> l <> LStart -> l <> LCancel -> draining st'.
Proof.
  intros (Hr & Hs & Hm & Hd) Hstep Hl1 Hl2. unfold draining in *.
  destruct Hstep; simpl in *; try done; try congruence.
  all: rewrite ?Hr, ?app_nil_r; by split_and!.
Qed.

Lemma draining_thread (st : state B) l st' :
  draining st -> thread_step st l st' -> draining st'.
Proof.
  intros Hdr Hstep.
  destruct Hstep as [ap pre pm post dn w ap' Hs|ap pre pm post dn w Hs|ap pre ctx post dn w
    |ap pre ctx post dn w pm ap' Hr|ap pre ctx post dn w Hc|ap pre ctx post dn w Hd
    |ap pre ctx post dn w pm ap' Hr|ap pre ctx post dn w Hr|ap pre ctx drain pm post dn w r w' Hp
    |ap pre ctx drain r post dn w|ap pre ctx e post dn w|ap pre post dn w ap' Hc|ap pre post dn w Hw].
  - exfalso. destruct Hdr as (_ & Hs' & _). apply (Hs' (TSend pm)), elem_middle. by left.
  - exfalso. destruct Hdr as (_ & Hs' & _). apply (Hs' (TSend pm)), elem_middle. by left.
  - exfalso. destruct Hdr as (_ & Hs' & _). apply (Hs' (TStarting ctx)), elem_middle. by left.
  - apply recv_msg_Some in Hr as (rest & Hms & ->).
    eapply draining_replace; [exact Hdr|..]; try done. by rewrite Hms.
  - by eapply draining_replace; [exact Hdr|..].
  - exfalso. destruct Hdr as (_ & _ & _ & Hdn). simpl in Hdn. subst. by apply elem_of_nil in Hd.
  - apply recv_msg_Some in Hr as (rest & Hms & ->).
    eapply draining_replace; [exact Hdr|..]; try done. by rewrite Hms.
  - eapply draining_remove; [exact Hdr|done|]. unfold recv_msg in Hr. simpl.
    by destruct (msgCh ap).
  - by eapply draining_replace; [exact Hdr|..].
  - eapply draining_replace; [exact Hdr|..]; by destruct r, drain.
  - eapply draining_replace; [exact Hdr|..]; try done; unfold report_error;
      by destruct (_ <? _)%Z.
  - unfold close_stopCh in Hc. destruct (ap_stopCh_closed ap); [done|]. injection Hc as <-.
    by eapply draining_replace; [exact Hdr|..].
  - by eapply draining_remove; [exact Hdr|..].
Qed.

Lemma draining_runs (st : state B) tr st' :
  runs step st tr st' -> draining st -> undisturbed tr -> draining st'.
Proof.
  intros Hr Hdr Hu. refine (runs_keep step _ draining _ _ _ _ Hu Hdr Hr).
  intros st1 l st2 Hd [Hl1 Hl2] [Hc|Ht]; [by eapply draining_client|by eapply draining_thread].
Qed.
End Drain.

(** ** Coming to rest *)

Section Rest.
Context {B : Type} {MB : MessageBroker B}.

(** The steps a goroutine has before it, at most. *)
Definition thread_work (t : thread) : nat :=
  match t with
  | TSend _ => 6
  | TStarting _ => 3
  | TLoop _ => 2
  | TDrain _ => 1
  | TPublish _ _ _ => 5
  | TCount _ _ _ => 4
  | TReport _ _ => 3
  | TStopping => 2
  | TWaiting => 1
  end.

(** A queued message is received, published, counted and its error sent. *)
Definition async_work (st : state B) : nat :=
  sum_list (map thread_work (st_threads st)) + 5 * length (msgCh (st_ap st)).

Lemma async_thread_step_work (st : state B) l st' :
  thread_step st l st' -> async_work st' < async_work st.
Proof.
  destruct 1 as [ap pre pm post dn w ap' Hs|ap pre pm post dn w Hs|ap pre ctx post dn w
    |ap pre ctx post dn w pm ap' Hr|ap pre ctx post dn w Hc|ap pre ctx post dn w Hd
    |ap pre ctx post dn w pm ap' Hr|ap pre ctx post dn w Hr|ap pre ctx drain pm post dn w r w' Hp
    |ap pre ctx drain r post dn w|ap pre ctx e post dn w|ap pre post dn w ap' Hc|ap pre post dn w Hw];
    unfold async_work; cbn [st_threads st_ap]; rewrite ?sum_map_middle; cbn [thread_work];
    try (simpl; lia).
  - unfold Send_select in Hs. destruct (_ <? _)%Z; [|done]. injection Hs as <-. simpl.
    rewrite length_app. simpl. lia.
  - apply recv_msg_Some in Hr as (rest & Hms & ->). rewrite Hms. simpl. lia.
  - apply recv_msg_Some in Hr as (rest & Hms & ->). rewrite Hms. simpl. lia.
  - destruct r as [e|], drain; simpl; lia.
  - unfold report_error. destruct (_ <? _)%Z; simpl; lia.
  - unfold close_stopCh in Hc. destruct (ap_stopCh_closed ap); [done|]. injection Hc as <-.
    simpl. lia.
Qed.

Definition async_stuck (st : state B) : Prop := forall l st', ~ thread_step st l st'.

(** The program panics: in a publication, or closing a closed channel. *)
Definition panicking (st : state B) : Prop :=
  (exists ctx drain pm p w, TPublish ctx drain pm ∈ st_threads st /\
     Publish ctx (pm_topic pm) (pm_msg pm) [] (st_world st) = (Panic p, w)) \/
  (TStopping ∈ st_threads st /\ close_stopCh (st_ap st) = Panic CloseOfClosedChannel).

(** A goroutine that cannot take a step, and does not panic, is a loop with
    nothing to do or waits for the loops. *)
Lemma async_stuck_thread (st : state B) t :
  async_stuck st -> ~ panicking st -> t ∈ st_threads st ->
  (exists ctx, t = TLoop ctx /\ msgCh (st_ap st) = [] /\ ap_stopCh_closed (st_ap st) = false /\
     (ctx ∉ st_done st)) \/
  (t = TWaiting /\ ap_wg (st_ap st) <> 0).
Proof.
  destruct st as [ap ts dn w]. simpl. intros Hs Hp Ht.
  pose proof Ht as (pre & post & ->)%list_elem_of_split.
  destruct t as [pm|ctx|ctx|ctx|ctx drain pm|ctx drain r|ctx e| |].
  - exfalso. destruct (Send_select ap pm) eqn:Hsel; eapply Hs; [by eapply step_accept|by eapply step_full].
  - exfalso. eapply Hs, step_go.
  - left. exists ctx. split_and!; [done|..].
    + destruct (msgCh ap) as [|pm rest] eqn:Hm; [done|]. exfalso. eapply Hs, step_recv.
      unfold recv_msg. by rewrite Hm.
    + apply not_true_is_false. intros Hc. by eapply Hs, step_stop_seen.
    + intros Hd. by eapply Hs, step_ctx_done.
  - exfalso. destruct (recv_msg ap) as [[pm ap']|] eqn:Hr; eapply Hs;
      [by eapply step_drain|by eapply step_drained].
  - exfalso. destruct (Publish ctx (pm_topic pm) (pm_msg pm) [] w) as [[r|p] w'] eqn:Hpub.
    + by eapply Hs, step_publish.
    + apply Hp. left. by eexists _, _, _, _, _.
  - exfalso. eapply Hs, step_count.
  - exfalso. eapply Hs, step_report.
  - exfalso. destruct (close_stopCh ap) as [ap'|p] eqn:Hc; [by eapply Hs, step_close|].
    apply Hp. right. split; [done|]. simpl. unfold close_stopCh in *.
    by destruct (ap_stopCh_closed ap).
  - right. split; [done|]. intros Hw. by eapply Hs, step_wait.
Qed.

Lemma nobody_stuck ap dn (w : World B) : async_stuck (mkState ap [] dn w).
Proof.
  intros l st Hstep. remember (mkState _ _ _ _) as st0 eqn:Hst in Hstep.
  destruct Hstep; injection Hst as _ Hts _ _; by destruct pre.
Qed.

Lemma nobody_panics ap dn (w : World B) : ~ panicking (mkState ap [] dn w).
Proof. by intros [(? & ? & ? & ? & ? & ?%elem_of_nil & _)|[?%elem_of_nil _]]. Qed.

(** Who waits has closed the stop channel. *)
Definition waiting_closed (st : state B) : Prop :=
  TWaiting ∈ st_threads st -> ap_stopCh_closed (st_ap st) = true.

Lemma waiting_closed_step (st : state B) l st' :
  waiting_closed st -> step st l st' -> waiting_closed st'.
Proof.
  unfold waiting_closed. intros Hw [Hstep|Hstep].
  - destruct Hstep; simpl in *; try done; try destruct (ap_running ap);
      rewrite ?app_nil_r; try done; rewrite elem_of_app, list_elem_of_singleton; intros [?|?]; auto; done.
  - destruct Hstep as [ap pre pm post dn w ap' Hs|ap pre pm post dn w Hs|ap pre ctx post dn w
      |ap pre ctx post dn w pm ap' Hr|ap pre ctx post dn w Hc|ap pre ctx post dn w Hd
      |ap pre ctx post dn w pm ap' Hr|ap pre ctx post dn w Hr|ap pre ctx drain pm post dn w r w' Hp
      |ap pre ctx drain r post dn w|ap pre ctx e post dn w|ap pre post dn w ap' Hc|ap pre post dn w Hwg];
      simpl in *; rewrite ?elem_middle in *; try tauto.
    + unfold Send_select in Hs. destruct (_ <? _)%Z; [|done]. injection Hs as <-. simpl. tauto.
    + intros [?|?]; [done|tauto].
    + apply recv_msg_Some in Hr as (rest & Hms & ->). simpl. intros [?|?]; [done|tauto].
    + apply recv_msg_Some in Hr as (rest & Hms & ->). simpl. intros [?|?]; [done|tauto].
    + intros [?|?]; [done|tauto].
    + intros [?|?]; [by destruct r, drain|]. destruct r; simpl; tauto.
    + intros [?|?]; [done|]. unfold report_error. destruct (_ <? _)%Z; simpl; tauto.
    + unfold close_stopCh in Hc. destruct (ap_stopCh_closed ap); [done|]. by injection Hc as <-.
Qed.

Lemma async_runs_waiting size (w : World B) tr st :
  runs step (initial size w) tr st -> waiting_closed st.
Proof.
  intros Hr. refine (runs_keep step (fun _ => True) waiting_closed _ _ _ _ _ _ Hr).
  - intros st1 l st2 Hw _. by apply waiting_closed_step.
  - by apply Forall_true.
  - intros Ht. by apply elem_of_nil in Ht.
Qed.
End Rest.

(** ** Properties *)

(** C3: in every run of an asynchronous producer, the messages accepted by
    [Send] are, in their order, those received by the send loop followed by
    the channel's buffer; those received are published once each, or about to
    be; neither channel exceeds its capacity; and the two counters, plus the
    results not counted yet, are the numbers of successful and of failed
    publications (modulo 2^64). *)
Theorem async_conservation {B} {MB : MessageBroker B} size (w : World B) tr st :
  runs step (initial size w) tr st ->
  accepted tr = taken tr ++ msgCh (st_ap st) /\
  taken tr ≡ₚ (published tr).*1 ++ in_flight (st_threads st) /\
  (Z.of_nat (length (msgCh (st_ap st))) <= bufferSize (st_ap st))%Z /\
  (Z.of_nat (length (errCh (st_ap st))) <= bufferSize (st_ap st))%Z /\
  (exists n, ap_sent (st_ap st) = wrap64 (Z.of_nat n) /\
     oks (published tr).*2 = n + oks (uncounted (st_threads st))) /\
  (exists n, ap_failed (st_ap st) = wrap64 (Z.of_nat n) /\
     errs (published tr).*2 = n + errs (uncounted (st_threads st))).
Proof. intros Hr. destruct (async_runs_inv _ _ _ _ Hr) as [Ho Hp Hc Hm He Hs Hf Hw]. by split_and!. Qed.

(** One message sent, then [Stop]. *)
Definition demo_pm : pendingMessage := mkPending "orders" (Some demo_msg).
Definition demo_published : World InMemoryBroker :=
  (Publish Background "orders" (Some demo_msg) [] demo_world).2.

Lemma demo_publish_ok :
  Publish Background "orders" (Some demo_msg) [] demo_world = (Ok None, demo_published).
Proof.
  assert ((Publish Background "orders" (Some demo_msg) [] demo_world).1 = Ok None) as Hok
    by (vm_compute; reflexivity).
  unfold demo_published. destruct (Publish _ _ _ _ _) as [o w]. cbn [fst snd] in *. by rewrite Hok.
Qed.

Section DemoRun.
Context {B : Type} {MB : MessageBroker B}.

Definition demo_ap (ms : list pendingMessage) (closed running : bool) (sent : Z) (wg : nat) :
    AsyncProducer := mkAsyncProducer 1 ms [] closed running sent 0 wg None None.

(** [Start], one [Send], [Stop] called. *)
Lemma demo_run_stopping (w : World B) :
  runs step (initial 1 w) [LStart; LOther; LOther; LAccept demo_pm; LOther]
    (mkState (demo_ap [demo_pm] false false 0 1) [TLoop Background; TStopping] [] w).
Proof.
  eapply runs_cons; [left; apply (step_Start _ [] [] w Background)|]. simpl.
  eapply runs_cons; [right; by apply (step_go _ [] Background [])|]. simpl.
  eapply runs_cons; [left; by apply (step_Send_on _ [TLoop Background])|]. simpl.
  eapply runs_cons; [right; by apply (step_accept _ [TLoop Background] demo_pm [])|]. simpl.
  eapply runs_cons; [left; apply (step_Stop _ [TLoop Background])|]. apply runs_nil.
Qed.

(** The loop drains the message and ends. *)
Lemma demo_run_drained (w w' : World B) :
  Publish Background "orders" (Some demo_msg) [] w = (Ok None, w') ->
  runs thread_step (mkState (demo_ap [demo_pm] false false 0 1) [TLoop Background; TStopping] [] w)
    [LOther; LOther; LTake demo_pm; LPublish demo_pm None; LOther; LOther]
    (mkState (demo_ap [] true false 1 0) [TWaiting] [] w').
Proof.
  intros Hpub.
  eapply runs_cons; [by apply (step_close _ [TLoop Background] [])|]. simpl.
  eapply runs_cons; [by apply (step_stop_seen _ [] Background [TWaiting])|]. simpl.
  eapply runs_cons; [by apply (step_drain _ [] Background [TWaiting])|]. simpl.
  eapply runs_cons; [by apply (step_publish _ [] Background true demo_pm [TWaiting])|]. simpl.
  eapply runs_cons; [by apply (step_count _ [] Background true None [TWaiting])|]. simpl.
  eapply runs_cons; [by apply (step_drained _ [] Background [TWaiting])|]. apply runs_nil.
Qed.
End DemoRun.

Lemma async_conservation_witness :
  accepted [LStart; LOther; LOther; LAccept demo_pm; LOther] = [demo_pm].
Proof. apply (async_conservation 1 demo_world _ _ (demo_run_stopping demo_world)). Defined.

(** C18: [Stop] drains the producer: take a state of a run in which the producer
    no longer runs, no [Send] or [Start] is under way, no context has been
    cancelled, and, unless the message channel is empty, a send loop is alive.
    However the run goes on, as long as the producer is not started again and
    no context is cancelled: when the wait group lets [Stop] return, every
    message that was ever accepted has been published.  (A loop that is gone
    with messages left in the channel, as after a [Send] that overlapped
    [Stop], is what the condition excludes.) *)
Theorem Stop_drains {B} {MB : MessageBroker B} size (w : World B) tr1 st1 tr2 st2 :
  runs step (initial size w) tr1 st1 -> draining st1 ->
  runs step st1 tr2 st2 -> undisturbed tr2 -> ap_wg (st_ap st2) = 0 ->
  accepted (tr1 ++ tr2) ≡ₚ (published (tr1 ++ tr2)).*1.
Proof.
  intros Hr1 Hdr Hr2 Hu Hwg.
  pose proof (runs_app _ _ _ _ _ _ Hr1 Hr2) as Hr.
  destruct (async_runs_inv _ _ _ _ Hr) as [Ho Hp Hc Hm He Hs Hf Hw].
  destruct (draining_runs _ _ _ Hr2 Hdr Hu) as (_ & Hq & Halive & _).
  rewrite Hwg in Hw. symmetry in Hw. apply length_zero_iff_nil in Hw.
  assert (forall t, t ∈ st_threads st2 -> is_loop t = false) as Hnone.
  { intros t Ht. destruct (is_loop t) eqn:Hl; [|done]. specialize (Hq _ Ht).
    assert (t ∈ filter (fun t => counted_loop t = true) (st_threads st2)) as Hin.
    { apply list_elem_of_filter. split; [|done]. by destruct t. }
    rewrite Hw in Hin. by apply elem_of_nil in Hin. }
  assert (msgCh (st_ap st2) = []) as Hms.
  { destruct (msgCh (st_ap st2)) as [|pm ms]; [done|].
    destruct (Halive ltac:(done)) as (t & Ht & Hl). rewrite Hnone in Hl; done. }
  assert (in_flight (st_threads st2) = []) as Hfl.
  { clear -Hnone. induction (st_threads st2) as [|t ts IH]; [done|].
    assert (is_loop t = false) as Ht by (apply Hnone; by left).
    change (in_flight (t :: ts)) with (in_flight ([t] ++ ts)). unfold in_flight in *.
    rewrite omap_app, IH by (intros x Hx; apply Hnone; by right). by destruct t. }
  rewrite Ho, Hms, app_nil_r, Hp, Hfl, app_nil_r. done.
Qed.

Lemma Stop_drains_witness :
  accepted ([LStart; LOther; LOther; LAccept demo_pm; LOther] ++
    [LOther; LOther; LTake demo_pm; LPublish demo_pm None; LOther; LOther]) ≡ₚ [demo_pm].
Proof.
  apply (Stop_drains 1 demo_world _ _
    [LOther; LOther; LTake demo_pm; LPublish demo_pm None; LOther; LOther]
    (mkState (demo_ap [] true false 1 0) [TWaiting] [] demo_published)
    (demo_run_stopping demo_world)); cycle 1.
  - exact (runs_mono thread_step step _ _ _ (fun _ _ _ H => or_intror H)
      (demo_run_drained demo_world demo_published demo_publish_ok)).
  - repeat constructor; discriminate.
  - reflexivity.
  - split; [reflexivity|]. split; [|split; [|reflexivity]].
    + intros t Ht. apply elem_of_cons in Ht as [->|Ht]; [exact I|].
      apply list_elem_of_singleton in Ht as ->. exact I.
    + intros _. exists (TLoop Background). split; [by left|reflexivity].
Defined.

(** C19: the goroutines of an asynchronous producer come to rest and [Stop]
    returns: left to themselves they take a bounded number of steps, and where
    they can take no more and none panics, all that is left are send loops,
    waiting at their select with nothing to receive; and nothing at all when
    the stop channel is closed. *)
Theorem Stop_returns {B} {MB : MessageBroker B} size (w : World B) tr1 st1 tr2 st2 :
  runs step (initial size w) tr1 st1 -> runs thread_step st1 tr2 st2 ->
  length tr2 <= async_work st1 /\
  (async_stuck st2 -> ~ panicking st2 ->
   (forall t, t ∈ st_threads st2 ->
      exists ctx, t = TLoop ctx /\ (ctx ∉ st_done st2) /\ msgCh (st_ap st2) = []) /\
   (ap_stopCh_closed (st_ap st2) = true -> st_threads st2 = [])).
Proof.
  intros Hr1 Hr2. split.
  { pose proof (runs_measure thread_step async_work _ _ _ async_thread_step_work Hr2). lia. }
  intros Hs Hp. pose proof (fun t => async_stuck_thread st2 t Hs Hp) as Hall.
  assert (runs step (initial size w) (tr1 ++ tr2) st2) as Hr.
  { eapply runs_app; [done|]. eapply runs_mono; [|done]. by right. }
  assert (TWaiting ∉ st_threads st2) as Hnw.
  { intros Hw. pose proof (async_runs_waiting _ _ _ _ Hr Hw) as Hcl.
    destruct (Hall _ Hw) as [(? & ? & _)|[_ Hwg]]; [done|]. apply Hwg.
    rewrite (inv_wg _ _ _ (async_runs_inv _ _ _ _ Hr)). unfold loops. apply length_zero_iff_nil.
    apply elem_of_nil_inv. intros t [Hc Ht]%list_elem_of_filter.
    destruct (Hall t Ht) as [(ctx & -> & _ & Ho & _)|[-> _]]; [congruence|done]. }
  assert (forall t, t ∈ st_threads st2 -> exists ctx, t = TLoop ctx /\ msgCh (st_ap st2) = [] /\
    ap_stopCh_closed (st_ap st2) = false /\ (ctx ∉ st_done st2)) as Hloop.
  { intros t Ht. destruct (Hall t Ht) as [?|[-> _]]; [done|by destruct Hnw]. }
  split.
  - intros t (ctx & ? & ? & _ & ?)%Hloop. by exists ctx.
  - intros Hc. apply elem_of_nil_inv. intros t (ctx & _ & _ & Ho & _)%Hloop. congruence.
Qed.

Lemma Stop_returns_witness :
  length [LOther; LOther; LTake demo_pm; LPublish demo_pm None; LOther; LOther; LStopped] <= 9 /\
  forall t, t ∉ st_threads (mkState (demo_ap [] true false 1 0) [] [] demo_published).
Proof.
  destruct (Stop_returns 1 demo_world _ _ _ (mkState (demo_ap [] true false 1 0) [] [] demo_published)
    (demo_run_stopping demo_world)
    (runs_app _ _ _ _ [LStopped] _ (demo_run_drained demo_world demo_published demo_publish_ok)
       (runs_one _ _ _ _ (step_wait (demo_ap [] true false 1 0) [] [] [] demo_published eq_refl))))
    as [Hlen Hrest].
  split; [exact Hlen|]. intros t Ht.
  destruct (Hrest (nobody_stuck _ _ _) (nobody_panics _ _ _)) as [_ Hnone].
  rewrite (Hnone eq_refl) in Ht. by apply elem_of_nil in Ht.
Defined.

(** C37: a [Send] that overlaps [Stop] can lose its message: it returns nil and
    [Stop] returns, but the message stays in the channel and no goroutine is
    left to publish it. *)
Theorem accepted_message_can_be_lost {B} {MB : MessageBroker B} (w : World B) :
  exists tr st, runs step (initial 1 w) tr st /\ LAccept demo_pm ∈ tr /\ LStopped ∈ tr /\
    published tr = [] /\ msgCh (st_ap st) = [demo_pm] /\ st_threads st = [] /\
    ap_running (st_ap st) = false.
Proof.
  exists [LStart; LOther; LOther; LOther; LOther; LOther; LOther; LStopped; LAccept demo_pm],
    (mkState (demo_ap [demo_pm] true false 0 0) [] [] w).
  split; [|split_and!; try done; set_solver].
  eapply runs_cons; [left; apply (step_Start _ [] [] w Background)|]. simpl.
  eapply runs_cons; [right; by apply (step_go _ [] Background [])|]. simpl.
  eapply runs_cons; [left; by apply (step_Send_on _ [TLoop Background] [] w demo_pm)|]. simpl.
  eapply runs_cons; [left; apply (step_Stop _ [TLoop Background; TSend demo_pm])|]. simpl.
  eapply runs_cons; [right; by apply (step_close _ [TLoop Background; TSend demo_pm] [])|]. simpl.
  eapply runs_cons;
    [right; by apply (step_stop_seen _ [] Background [TSend demo_pm; TWaiting])|]. simpl.
  eapply runs_cons;
    [right; by apply (step_drained _ [] Background [TSend demo_pm; TWaiting])|]. simpl.
  eapply runs_cons; [right; by apply (step_wait _ [TSend demo_pm] [])|]. simpl.
  eapply runs_cons; [right; by apply (step_accept _ [] demo_pm [])|]. apply runs_nil.
Qed.
