(* ===== verification/Adapter.v ===== *)
(** * What a broker adapter promises

    The Kafka and the RabbitMQ consumer keep their subscriptions in a map by
    topic.  [Registry] specifies both: its state holds no contexts, channels
    or store, only the flags, the map and which subscriptions are active, and
    [reg_call] says what each call returns and changes.  An adapter's model is
    an instance of [ConsumerAdapter]; [ConsumerAdapterSpec], which it
    discharges, makes every run of it a run of the specification.  The
    producers are specified the same way: [ProducerState] and [prod_call],
    with the classes [ProducerAdapter] and [ProducerAdapterSpec]. *)

From Stdlib Require Import ZArith Lia.
From stdpp Require Import base gmap strings list fin_maps.
From S2P Require Import Prelude Store Contexts Errors Broker.

(** ** The specification *)

(** What a caller can tell from an error. *)
Inductive error_class :=
  ClassNotConnected | ClassInvalidMessage | ClassInvalidConfig | ClassSubscribeFailed | ClassOther.

Definition classify (e : error) : error_class :=
  match e with
  | ErrSentinel ErrNotConnected => ClassNotConnected
  | ErrSentinel ErrMessageInvalid => ClassInvalidMessage
  | ErrBroker _ b =>
    if bool_decide (Code b = ErrCodeInvalidConfig) then ClassInvalidConfig
    else if bool_decide (Code b = ErrCodeSubscribeFailed) then ClassSubscribeFailed
    else ClassOther
  | _ => ClassOther
  end.

Record Registry := mkRegistry {
  reg_valid : bool;                       (* the configuration is valid *)
  reg_connected : bool;
  reg_closed : bool;
  reg_topics : gmap string loc;           (* the latest subscription of a topic *)
  reg_subs : gmap loc (string * bool) }.  (* every subscription: its topic, is it active *)

Inductive call :=
| CConnect (ctx : Ctx)
| CClose (n : nat) (ctx : Ctx)            (* [n] numbers the range over the map *)
| CIsConnected
| CSubscribe (ctx : Ctx) (topic : string) (h : option handler)
| CUnsubscribe (topic : string)
| CSubUnsubscribe (s : loc)
| CSubIsActive (s : loc)
| CSubTopic (s : loc).

Inductive result :=
| RError (e : option error_class)
| RBool (b : bool)
| RSub (s : loc)
| RText (t : string).

Definition off (x : string * bool) : string * bool := (x.1, false).

(** A call on a registry; [fresh] is the subscription a [Subscribe] makes.
    [Close] ends the subscriptions in the map, and those only. *)
Definition reg_call (fresh : loc) (g : Registry) (c : call) : result * Registry :=
  let 'mkRegistry valid conn closed topics subs := g in
  match c with
  | CConnect _ =>
    if conn then (RError None, g)
    else if valid then (RError None, mkRegistry valid true closed topics subs)
    else (RError (Some ClassInvalidConfig), g)
  | CClose _ _ =>
    if closed then (RError None, g)
    else (RError None, mkRegistry valid false true topics
      (map_imap (fun s x => Some (x.1, x.2 && negb (bool_decide (topics !! x.1 = Some s)))) subs))
  | CIsConnected => (RBool (conn && negb closed), g)
  | CSubscribe _ topic h =>
    if negb (conn && negb closed) then (RError (Some ClassNotConnected), g)
    else if bool_decide (topic = "") || bool_decide (h = None)
    then (RError (Some ClassSubscribeFailed), g)
    else (RSub fresh,
      mkRegistry valid conn closed (<[topic := fresh]> topics) (<[fresh := (topic, true)]> subs))
  | CUnsubscribe topic =>
    match topics !! topic with
    | None => (RError None, g)
    | Some s =>
      (RError None, mkRegistry valid conn closed (delete topic topics) (alter off s subs))
    end
  | CSubUnsubscribe s => (RError None, mkRegistry valid conn closed topics (alter off s subs))
  | CSubIsActive s => (RBool (default false (snd <$> subs !! s)), g)
  | CSubTopic s => (RText (default "" (fst <$> subs !! s)), g)
  end.

Definition reg_step (g : Registry) (c : call) (r : result) (g' : Registry) : Prop :=
  exists fresh, reg_subs g !! fresh = None /\ reg_call fresh g c = (r, g').

(** A step that does not depend on the new subscription. *)
Lemma reg_step_any g c r g' : (forall fresh, reg_call fresh g c = (r, g')) -> reg_step g c r g'.
Proof.
  intros Hc. exists (fresh (dom (reg_subs g))). split; [|done].
  apply not_elem_of_dom, is_fresh.
Qed.

Inductive reg_runs : Registry -> list (call * result) -> Registry -> Prop :=
| reg_nil g : reg_runs g [] g
| reg_snoc g tr g1 c r g2 :
    reg_runs g tr g1 -> reg_step g1 c r g2 -> reg_runs g (tr ++ [(c, r)]) g2.

Definition reg_new (valid : bool) : Registry := mkRegistry valid false false ∅ ∅.

(** ** Facts of the specification *)

(** In every state of a run: the map's entries are subscriptions of their
    topic, and after [Close] they are inactive. *)
Record reg_ok (g : Registry) : Prop := {
  rok_topic : forall t s, reg_topics g !! t = Some s -> exists a, reg_subs g !! s = Some (t, a);
  rok_closed : reg_closed g = true ->
    forall t s, reg_topics g !! t = Some s -> reg_subs g !! s = Some (t, false) }.

Lemma reg_new_ok valid : reg_ok (reg_new valid).
Proof. split; simpl; intros *; rewrite ?lookup_empty; done. Qed.

Lemma alter_off_lookup s t (subs : gmap loc (string * bool)) x :
  subs !! t = Some x -> exists a, alter off s subs !! t = Some (x.1, a) /\ (x.2 = false -> a = false).
Proof.
  intros Hx. rewrite lookup_alter. case_decide; subst; rewrite Hx; simpl.
  - by exists false.
  - destruct x. by eexists.
Qed.

Lemma reg_step_ok g c r g' :
  reg_ok g -> reg_step g c r g' ->
  reg_ok g' /\ (reg_closed g = true -> reg_closed g' = true) /\ reg_valid g' = reg_valid g.
Proof.
  intros [Ht Hq] (s0 & Hs0 & Hc). destruct g as [v cn cl ts ss]. simpl in *.
  assert (forall s, reg_ok (mkRegistry v cn cl ts (alter off s ss))) as Hoff.
  { intros s. split; simpl.
    - intros t s' Hs'. destruct (Ht _ _ Hs') as [a Ha].
      destruct (alter_off_lookup s _ _ _ Ha) as (b & Hb & _). by exists b.
    - intros Hcl t s' Hs'. destruct (alter_off_lookup s _ _ _ (Hq Hcl _ _ Hs')) as (b & Hb & Hf).
      simpl in *. by rewrite Hb, Hf. }
  destruct c as [ctx|n ctx| |ctx topic h|topic|s|s|s]; simpl in Hc.
  - destruct cn, v; simplify_eq/=; by repeat split.
  - destruct cl; simplify_eq/=; [by repeat split|]. split; [|done]. split; simpl.
    + intros t s Hs. destruct (Ht _ _ Hs) as [a Ha]. rewrite map_lookup_imap, Ha. by eexists.
    + intros _ t s Hs. destruct (Ht _ _ Hs) as [a Ha]. rewrite map_lookup_imap, Ha. simpl.
      rewrite bool_decide_true by done. by rewrite andb_false_r.
  - by simplify_eq/=.
  - destruct (cn && negb cl) eqn:Hlive; simplify_eq/=; [|done].
    destruct (_ || _); simplify_eq/=; [done|].
    apply andb_true_iff in Hlive as [-> Hcl]. apply negb_true_iff in Hcl as ->.
    split; [|done]. split; simpl; [|done]. intros t s.
    rewrite lookup_insert. case_decide as Hd; [intros [= <-]; subst|intros Hs].
    + rewrite lookup_insert_eq. by eexists.
    + destruct (Ht _ _ Hs) as [a Ha]. exists a. rewrite lookup_insert_ne; [done|congruence].
  - destruct (ts !! topic) as [s|] eqn:Hs; simplify_eq/=; [|done]. split; [|done].
    destruct (Hoff s) as [Ht' Hq']. split; simpl in *.
    + intros t s'. rewrite lookup_delete. case_decide; [done|]. apply Ht'.
    + intros Hcl t s'. rewrite lookup_delete. case_decide; [done|]. by apply Hq'.
  - simplify_eq/=. split; [apply Hoff|done].
  - by simplify_eq/=.
  - by simplify_eq/=.
Qed.

Lemma reg_runs_ok g tr g' :
  reg_runs g tr g' -> reg_ok g ->
  reg_ok g' /\ (reg_closed g = true -> reg_closed g' = true) /\ reg_valid g' = reg_valid g.
Proof.
  induction 1 as [g|g tr g1 c r g2 Hr IH Hs]; [done|]. intros Hg.
  destruct (IH Hg) as (H1 & Hc1 & Hv1). destruct (reg_step_ok _ _ _ _ H1 Hs) as (H2 & Hc2 & Hv2).
  split_and!; [done|auto|congruence].
Qed.

(** An active subscription that no topic refers to: no call but its own
    [Unsubscribe] ends it. *)
Definition unlisted (s : loc) (t : string) (g : Registry) : Prop :=
  reg_subs g !! s = Some (t, true) /\ forall t', reg_topics g !! t' <> Some s.

Lemma reg_step_unlisted s t g c r g' :
  c <> CSubUnsubscribe s -> unlisted s t g -> reg_step g c r g' -> unlisted s t g'.
Proof.
  intros Hne [Hs Hl] (s0 & Hs0 & Hc). destruct g as [v cn cl ts ss]. simpl in *.
  destruct c as [ctx|n ctx| |ctx topic h|topic|s'|s'|s']; simpl in Hc.
  - by destruct cn, v; simplify_eq/=.
  - destruct cl; simplify_eq/=; [done|]. split; [|done]. simpl.
    by rewrite map_lookup_imap, Hs; simpl; rewrite bool_decide_false by apply Hl.
  - by simplify_eq/=.
  - destruct (negb (cn && negb cl)); simplify_eq/=; [done|]. destruct (_ || _); simplify_eq/=; [done|].
    assert (s0 <> s) as Hd by congruence. split; simpl; [by rewrite lookup_insert_ne|].
    intros t'. rewrite lookup_insert. case_decide; [congruence|apply Hl].
  - destruct (ts !! topic) as [s1|] eqn:Ht; simplify_eq/=; [|done].
    assert (s1 <> s) as Hd by (intros ->; by eapply Hl). split; simpl; [by rewrite lookup_alter_ne|].
    intros t'. rewrite lookup_delete. by case_decide.
  - simplify_eq/=. split; simpl; [|done]. rewrite lookup_alter_ne; [done|congruence].
  - by simplify_eq/=.
  - by simplify_eq/=.
Qed.

Lemma reg_step_closed g c r g' : reg_closed g = true -> reg_step g c r g' -> reg_closed g' = true.
Proof.
  intros Hg (s0 & _ & Hc). destruct g as [v cn cl ts ss]. simpl in Hg. subst cl.
  destruct c; simpl in Hc; repeat case_match; by simplify_eq/=.
Qed.

(** An active subscription of a registry that is closed already: only an
    [Unsubscribe] of it or of its topic ends it. *)
Definition late (s : loc) (t : string) (g : Registry) : Prop :=
  reg_closed g = true /\ reg_subs g !! s = Some (t, true) /\
  forall t', reg_topics g !! t' = Some s -> t' = t.

Lemma reg_step_late s t g c r g' :
  c <> CSubUnsubscribe s -> c <> CUnsubscribe t -> late s t g -> reg_step g c r g' -> late s t g'.
Proof.
  intros Hne Hne' (Hcl & Hs & Hl) (s0 & Hs0 & Hc). destruct g as [v cn cl ts ss]. simpl in *. subst cl.
  rewrite andb_false_r in Hc.
  destruct c as [ctx|n ctx| |ctx topic h|topic|s'|s'|s']; simpl in Hc; try by simplify_eq/=.
  - by destruct cn, v; simplify_eq/=.
  - destruct (ts !! topic) as [s1|] eqn:Ht; simplify_eq/=; [|done].
    assert (s1 <> s) as Hd by (intros ->; apply Hl in Ht; congruence).
    split_and!; simpl; [done|by rewrite lookup_alter_ne|].
    intros t'. rewrite lookup_delete. case_decide; [done|apply Hl].
  - simplify_eq/=. split_and!; simpl; [done| |done]. rewrite lookup_alter_ne; [done|congruence].
Qed.

(** ** The interface of a consumer *)

Class ConsumerAdapter (C : Type) := {
  ca_call : call -> GoM (World C) result;
  ca_abs : C -> Registry }.

(** The handles a call uses were given out, and the context exists. *)
Definition callable {C} `{ConsumerAdapter C} (c : call) (w : World C) : Prop :=
  match c with
  | CSubscribe ctx _ _ => ctx_depth ctx <= next_loc (w_mem w)
  | CSubUnsubscribe s | CSubIsActive s | CSubTopic s => is_Some (reg_subs (ca_abs (w_br w)) !! s)
  | _ => True
  end.

Class ConsumerAdapterSpec (C : Type) `{ConsumerAdapter C} := {
  ca_inv : World C -> Prop;
  (* the rest of the program allocates, and contexts end *)
  ca_inv_mem : forall w m, ca_inv w -> mem_wf m -> next_loc (w_mem w) <= next_loc m ->
    ctxs_grow (w_mem w) m -> ca_inv (set_mem w m);
  (* a call returns, as the specification says *)
  ca_law : forall c w, ca_inv w -> callable c w ->
    wp (ca_call c) (fun r w' => ca_inv w' /\
      reg_step (ca_abs (w_br w)) c r (ca_abs (w_br w'))) w }.

Section Runs.
Context {C : Type} `{ConsumerAdapterSpec C}.

(** Calls and what they returned, with changes of the store in between. *)
Inductive adapter_runs : World C -> list (call * result) -> World C -> Prop :=
| ar_nil w : adapter_runs w [] w
| ar_call w tr w1 c r w2 :
    adapter_runs w tr w1 -> callable c w1 -> ca_call c w1 = (Ok r, w2) ->
    adapter_runs w (tr ++ [(c, r)]) w2
| ar_others w tr w1 m :
    adapter_runs w tr w1 -> mem_wf m -> next_loc (w_mem w1) <= next_loc m ->
    ctxs_grow (w_mem w1) m -> adapter_runs w tr (set_mem w1 m).

Lemma adapter_runs_refine w tr w' :
  adapter_runs w tr w' -> ca_inv w ->
  ca_inv w' /\ reg_runs (ca_abs (w_br w)) tr (ca_abs (w_br w')).
Proof.
  induction 1 as [w|w tr w1 c r w2 Hr IH Hen Hc|w tr w1 m Hr IH Hm Hle Hg]; intros Hinv.
  - split; [done|constructor].
  - destruct (IH Hinv) as [Hinv1 Hr1].
    destruct (wp_run _ _ _ (ca_law c w1 Hinv1 Hen)) as (r' & w2' & Hc' & Hinv2 & Hs).
    rewrite Hc in Hc'. simplify_eq. split; [done|]. by econstructor.
  - destruct (IH Hinv) as [Hinv1 Hr1]. split; [by apply ca_inv_mem|done].
Qed.

(** What the calls of a run keep of the registry holds after it. *)
Lemma adapter_runs_keep (P : Registry -> Prop) (ok : call -> Prop) w tr w' :
  (forall g c r g', ok c -> P g -> reg_step g c r g' -> P g') ->
  adapter_runs w tr w' -> ca_inv w -> Forall (fun e => ok e.1) tr -> P (ca_abs (w_br w)) ->
  P (ca_abs (w_br w')).
Proof.
  intros Hstep Hr Hinv. destruct (adapter_runs_refine _ _ _ Hr Hinv) as [_ Hreg].
  clear Hr. generalize dependent (ca_abs (w_br w')). generalize (ca_abs (w_br w)).
  intros g g' Hreg. induction Hreg as [g|g tr g1 c r g2 Hr IH Hs]; [done|].
  intros [Htr Hc]%Forall_app HP. apply Forall_cons in Hc as [Hc _]. apply (Hstep g1 c r); auto.
Qed.

(** The refinement: a run of the adapter is a run of the specification, with
    the same results, and no call can panic. *)
Definition refines_registry (w0 : World C) : Prop :=
  forall tr w, adapter_runs w0 tr w ->
    reg_runs (ca_abs (w_br w0)) tr (ca_abs (w_br w)) /\
    forall c, callable c w -> exists r w', ca_call c w = (Ok r, w') /\
      reg_step (ca_abs (w_br w)) c r (ca_abs (w_br w')).

Lemma adapter_refines w0 : ca_inv w0 -> refines_registry w0.
Proof.
  intros Hinv tr w Hr. destruct (adapter_runs_refine _ _ _ Hr Hinv) as [Hinv' Hreg].
  split; [done|]. intros c Hc.
  destruct (wp_run _ _ _ (ca_law c w Hinv' Hc)) as (r & w' & Hrun & _ & Hs). eauto.
Qed.
End Runs.

(** [broker.NewBrokerError(...)], a new pointer *)
Definition new_BrokerError (code : ErrorCode) (text : string) (cause : option error) :
    GoM mem error :=
  let! l := alloc_loc in ret (ErrBroker l (NewBrokerError code text cause)).

Lemma wp_put_br {B} (b : B) Q (w : World B) : Q tt (set_br w b) -> wp (put_br b) Q w.
Proof. done. Qed.

Lemma wp_new_BrokerError {C} code text cause Q (w : World C) :
  Q (ErrBroker (next_loc (w_mem w)) (NewBrokerError code text cause)) (set_mem w (bump (w_mem w))) ->
  wp (on_mem (new_BrokerError code text cause)) Q w.
Proof. intros HQ. apply wp_on_mem. by eapply wp_intro. Qed.

(** The error [Subscribe] returns before it changes anything, if any. *)
Definition check_error (topic : string) (h : option handler) (live : bool) (r : option error) : Prop :=
  if live then
    if bool_decide (topic = "") || bool_decide (h = None)
    then exists l text, r = Some (ErrBroker l (NewBrokerError ErrCodeSubscribeFailed text None))
    else r = None
  else r = Some (ErrSentinel ErrNotConnected).

Lemma check_error_class topic h live r :
  check_error topic h live r ->
  classify <$> r = if negb live then Some ClassNotConnected
    else if bool_decide (topic = "") || bool_decide (h = None) then Some ClassSubscribeFailed
    else None.
Proof.
  unfold check_error. destruct live; simpl; [|by intros ->].
  destruct (_ || _); [|by intros ->]. by intros (l & text & ->).
Qed.

(** ** Observing the calls of an adapter *)

Definition observe_error {W} (m : GoM W (option error)) : GoM W result :=
  let! e := m in ret (RError (classify <$> e)).

Definition observe_sub {W} (m : GoM W (option loc * option error)) : GoM W result :=
  let! r := m in
  match r with
  | (Some s, None) => ret (RSub s)
  | (_, e) => ret (RError (classify <$> e))
  end.

Lemma wp_observe_error {W} (m : GoM W (option error)) Q w :
  wp m (fun e w' => Q (RError (classify <$> e)) w') w -> wp (observe_error m) Q w.
Proof. intros Hm. apply wp_bind. eapply wp_mono; [exact Hm|]. done. Qed.

Lemma wp_observe_sub {W} (m : GoM W (option loc * option error)) Q w :
  wp m (fun r w' =>
    match r with (Some s, None) => Q (RSub s) w' | (_, e) => Q (RError (classify <$> e)) w' end) w ->
  wp (observe_sub m) Q w.
Proof.
  intros Hm. apply wp_bind. eapply wp_mono; [exact Hm|]. intros [[s|] [e|]] w'; done.
Qed.

(** ** Subscription objects

    An adapter keeps its subscription objects in a map; [view] is what the
    registry knows of one, and [deact] what unsubscribing makes of it. *)

Section Views.
Context {X : Type} (view : X -> string * bool) (deact : X -> X).
Context (view_deact : forall x, view (deact x) = off (view x)).

Definition deact_in (ls : list loc) (s : loc) (x : X) : X :=
  if bool_decide (s ∈ ls) then deact x else x.

Lemma view_alter s (m : gmap loc X) : view <$> alter deact s m = alter off s (view <$> m).
Proof.
  apply map_eq. intros k. rewrite lookup_fmap, !lookup_alter. case_decide as Hd;
    rewrite lookup_fmap; subst; [|done]. destruct (m !! k); [|done]. simpl. by rewrite view_deact.
Qed.

Lemma view_lookup (m : gmap loc X) s : is_Some ((view <$> m) !! s) -> exists x, m !! s = Some x.
Proof. rewrite lookup_fmap. intros [v Hv]. destruct (m !! s); [by eexists|done]. Qed.

Lemma range_values `{MapRangeSpec} n (m : gmap string loc) s :
  s ∈ (map_range n m).*2 <-> exists t, m !! t = Some s.
Proof.
  rewrite map_range_perm, list_elem_of_fmap. split.
  - intros ([t s'] & -> & Ht%elem_of_map_to_list). by exists t.
  - intros [t Ht]. exists (t, s). split; [done|]. by apply elem_of_map_to_list.
Qed.

(** Deactivating the entries of the map is what [CClose] does. *)
Lemma view_close `{MapRangeSpec} n (topics : gmap string loc) (m ss : gmap loc X) :
  (forall t s, topics !! t = Some s -> exists x, m !! s = Some x /\ (view x).1 = t) ->
  (forall s, ss !! s = deact_in (map_range n topics).*2 s <$> m !! s) ->
  view <$> ss = map_imap (fun s x =>
    Some (x.1, x.2 && negb (bool_decide (topics !! x.1 = Some s)))) (view <$> m).
Proof.
  intros Htop Hss. apply map_eq. intros s. rewrite map_lookup_imap, !lookup_fmap, Hss.
  destruct (m !! s) as [x|] eqn:Hx; [|done]. simpl. unfold deact_in.
  assert (s ∈ (map_range n topics).*2 <-> topics !! (view x).1 = Some s) as Hiff.
  { rewrite range_values. split; [|by eauto]. intros [t Ht].
    destruct (Htop _ _ Ht) as (x' & Hx' & <-). congruence. }
  rewrite (bool_decide_ext _ _ Hiff). case_bool_decide; simpl.
  - by rewrite view_deact, andb_false_r.
  - rewrite andb_true_r. by destruct (view x).
Qed.

(** One step of a loop that deactivates. *)
Lemma deact_in_snoc pre s0 x1 (m m1 : gmap loc X) s :
  (forall x, deact (deact x) = deact x) ->
  (forall s, m1 !! s = deact_in pre s <$> m !! s) -> m1 !! s0 = Some x1 ->
  <[s0 := deact x1]> m1 !! s = deact_in (pre ++ [s0]) s <$> m !! s.
Proof.
  intros Hidem Hm Hx1. rewrite lookup_insert. unfold deact_in in *. case_decide as Hd; [subst s|].
  - rewrite Hm in Hx1. destruct (m !! s0); simplify_eq/=.
    rewrite (bool_decide_true (_ ∈ _ ++ _)) by (apply elem_of_app; right; by left).
    f_equal. case_bool_decide; [apply Hidem|done].
  - rewrite Hm. destruct (m !! s); [|done]. simpl. f_equal.
    erewrite bool_decide_ext; [done|]. rewrite elem_of_app, list_elem_of_singleton. naive_solver.
Qed.

(** The loop of [Close]: unsubscribing the entries of the map one after the
    other, in a state [C] that holds the objects. *)
Context {C : Type} (objs : C -> gmap loc X) (set_objs : C -> gmap loc X -> C).
Context (inv : World C -> Prop) (unsub : loc -> GoM (World C) (option error)).
Context (set_get : forall c, set_objs c (objs c) = c) (get_set : forall c m, objs (set_objs c m) = m).
Context (set_set : forall c m m', set_objs (set_objs c m) m' = set_objs c m').
Context (deact_idem : forall x, deact (deact x) = deact x).
Context (unsub_spec : forall s x w, inv w -> objs (w_br w) !! s = Some x ->
  wp (unsub s) (fun r w' => r = None /\ inv w' /\
    w_br w' = set_objs (w_br w) (<[s := deact x]> (objs (w_br w)))) w).

Lemma deact_loop (es : list (string * loc)) (w : World C) :
  inv w -> (forall e, e ∈ es -> is_Some (objs (w_br w) !! e.2)) ->
  wp (for_range es (fun e => let! _ := unsub e.2 in ret tt)) (fun _ w' =>
    inv w' /\ w_br w' = set_objs (w_br w) (objs (w_br w')) /\
    forall s, objs (w_br w') !! s = deact_in es.*2 s <$> objs (w_br w) !! s) w.
Proof.
  intros Hinv Hes.
  eapply wp_mono; [apply (wp_for_range _ (fun pre w' =>
    inv w' /\ w_br w' = set_objs (w_br w) (objs (w_br w')) /\
    forall s, objs (w_br w') !! s = deact_in pre.*2 s <$> objs (w_br w) !! s))|].
  - split_and!; [done|by rewrite set_get|]. intros s. by destruct (objs (w_br w) !! s).
  - intros pre e rest w1 Heq (Hinv1 & Hb1 & Hin1).
    assert (exists x, objs (w_br w1) !! e.2 = Some x) as [x1 Hx1].
    { rewrite Hin1. destruct (Hes e) as [x ->]; [subst; apply elem_of_app; right; by left|].
      by eexists. }
    wp_step. eapply wp_mono; [by apply unsub_spec|].
    intros r w2 (-> & Hinv2 & Hb2). apply wp_ret. rewrite Hb2, get_set. split_and!; [done| |].
    + rewrite Hb1 at 1. apply set_set.
    + intros s. rewrite fmap_app. by apply deact_in_snoc.
  - intros [] w' (? & ? & ?). by split_and!.
Qed.
End Views.

(** ** Producers *)

(** The behaviour of the injected publish functions. *)
Class PublishFuncs := {
  run_publish : nat -> Ctx -> string -> loc -> GoM mem (option error) }.

Record ProducerState := mkProducerState {
  ps_valid : bool;
  ps_connected : bool;
  ps_closed : bool;
  ps_fn : option nat }.

Inductive pcall :=
| PConnect (ctx : Ctx)
| PClose (ctx : Ctx)
| PIsConnected
| PSetPublishFunc (fn : option nat)
| PPublish (ctx : Ctx) (topic : string) (msg : option loc).

(** What a call does: return with the world unchanged; return in a new state;
    or hand the message over to a publish function. *)
Inductive reaction :=
| Same (r : result)
| Changed (r : result) (g : ProducerState)
| Delegate (fn : nat) (ctx : Ctx) (topic : string) (msg : loc).

Definition ps_live (g : ProducerState) : bool := ps_connected g && negb (ps_closed g).

Definition prod_call (g : ProducerState) (c : pcall) : reaction :=
  let 'mkProducerState valid conn closed fn := g in
  match c with
  | PConnect _ =>
    if conn then Same (RError None)
    else if valid then Changed (RError None) (mkProducerState valid true closed fn)
    else Changed (RError (Some ClassInvalidConfig)) g
  | PClose _ =>
    Changed (RError None) (mkProducerState valid (if closed then conn else false) true fn)
  | PIsConnected => Same (RBool (ps_live g))
  | PSetPublishFunc fn => Changed (RError None) (mkProducerState valid conn closed fn)
  | PPublish ctx topic msg =>
    if negb (ps_live g) then Same (RError (Some ClassNotConnected)) else
    match msg, fn with
    | None, _ => Same (RError (Some ClassInvalidMessage))
    | Some m, Some fn => Delegate fn ctx topic m
    | Some m, None => Same (RError None)
    end
  end.

Definition prod_new (valid : bool) : ProducerState := mkProducerState valid false false None.

Class ProducerAdapter (P : Type) := {
  pa_call : pcall -> GoM (World P) result;
  pa_abs : P -> ProducerState }.

Class ProducerAdapterSpec (P : Type) `{ProducerAdapter P, PublishFuncs} := {
  pa_law : forall c w,
    match prod_call (pa_abs (w_br w)) c with
    | Same r => pa_call c w = (Ok r, w)
    | Changed r g => exists w', pa_call c w = (Ok r, w') /\ pa_abs (w_br w') = g
    | Delegate fn ctx topic m =>
      pa_call c w = observe_error (on_mem (run_publish fn ctx topic m)) w
    end }.

Section ProducerRuns.
Context {P : Type} `{ProducerAdapterSpec P}.

Inductive producer_runs : World P -> World P -> Prop :=
| pr_nil w : producer_runs w w
| pr_call w w1 c r w2 :
    producer_runs w w1 -> pa_call c w1 = (Ok r, w2) -> producer_runs w w2
| pr_others w w1 m : producer_runs w w1 -> producer_runs w (set_mem w1 m).

(** A producer gets connected with a valid configuration only. *)
Definition ps_ok (g : ProducerState) : Prop := ps_connected g = true -> ps_valid g = true.

(** How a producer may change: never reopened, its configuration kept. *)
Definition ps_evolves (g g' : ProducerState) : Prop :=
  (ps_ok g -> ps_ok g') /\ ps_valid g' = ps_valid g /\ (ps_closed g = true -> ps_closed g' = true).

Lemma pa_call_evolves c (w : World P) r w' :
  pa_call c w = (Ok r, w') -> ps_evolves (pa_abs (w_br w)) (pa_abs (w_br w')).
Proof.
  intros Hc. pose proof (pa_law c w) as Hlaw. unfold ps_evolves, ps_ok.
  destruct (prod_call _ c) as [r'|r' g|fn ctx topic m] eqn:Hpc.
  - rewrite Hc in Hlaw. by simplify_eq.
  - destruct Hlaw as (w'' & Hc' & Hg). rewrite Hc in Hc'. injection Hc' as <- <-. rewrite Hg.
    clear Hg Hc. revert Hpc. destruct (pa_abs (w_br w)) as [v cn cl f]. unfold prod_call.
    destruct c as [ctx|ctx| |fn|ctx topic [l|]]; repeat case_match; intros;
      simplify_eq/=; naive_solver.
  - rewrite Hc in Hlaw. unfold observe_error, bind, on_mem, ret in Hlaw.
    destruct (run_publish _ _ _ _ _) as [[e|] m']; simplify_eq/=; tauto.
Qed.

Lemma producer_runs_evolves (w w' : World P) :
  producer_runs w w' -> ps_evolves (pa_abs (w_br w)) (pa_abs (w_br w')).
Proof.
  induction 1 as [w|w w1 c r w2 Hr IH Hc|w w1 m Hr IH]; [done| |done].
  destruct (pa_call_evolves _ _ _ _ Hc) as (J1 & J2 & J3). destruct IH as (I1 & I2 & I3).
  unfold ps_evolves. split_and!; [auto|congruence|auto].
Qed.

(** What the calls on a producer return, along any run from [w0]: [Publish]
    reaches the injected function, or returns nil when there is none, only if
    the configuration is valid and the producer has not been closed; else it
    returns [ErrNotConnected] and changes nothing, for ever after [Close];
    [Connect] returns nil exactly for the valid configurations. *)
Definition producer_lifecycle (w0 : World P) (valid : bool) : Prop :=
  forall w1 w2, producer_runs w0 w1 -> producer_runs w1 w2 ->
  (forall ctx topic msg,
     pa_call (PPublish ctx topic msg) w2 <> (Ok (RError (Some ClassNotConnected)), w2) ->
     valid = true /\ ps_closed (pa_abs (w_br w1)) = false) /\
  (forall ctx topic l, ps_live (pa_abs (w_br w2)) = true ->
     pa_call (PPublish ctx topic (Some l)) w2 =
       match ps_fn (pa_abs (w_br w2)) with
       | Some fn => observe_error (on_mem (run_publish fn ctx topic l)) w2
       | None => (Ok (RError None), w2)
       end) /\
  (forall ctx, exists w3, pa_call (PConnect ctx) w2 =
     (Ok (RError (if valid then None else Some ClassInvalidConfig)), w3)).

Lemma producer_lifecycle_new (w0 : World P) valid :
  pa_abs (w_br w0) = prod_new valid -> producer_lifecycle w0 valid.
Proof.
  intros H0' w1 w2 Hr1 Hr2.
  destruct (producer_runs_evolves _ _ Hr1) as (Hok1 & Hv1 & _).
  destruct (producer_runs_evolves _ _ Hr2) as (Hok2 & Hv2 & Hcl).
  rewrite H0' in Hok1, Hv1. simpl in Hv1. specialize (Hok2 (Hok1 ltac:(done))). clear Hok1 Hr1 Hr2 H0'.
  rewrite Hv1 in Hv2. unfold ps_ok in Hok2. rewrite Hv2 in Hok2. split_and!.
  - intros ctx topic msg. pose proof (pa_law (PPublish ctx topic msg) w2) as Hlaw.
    destruct (pa_abs (w_br w2)) as [v cn cl f]. simpl in *. unfold ps_live in Hlaw. simpl in Hlaw.
    destruct (cn && negb cl) eqn:Hlive; [|intros Hne; by rewrite Hlaw in Hne].
    apply andb_true_iff in Hlive as [-> Hncl]. apply negb_true_iff in Hncl as ->. intros _.
    split; [by apply Hok2|]. destruct (ps_closed _); [by specialize (Hcl eq_refl)|done].
  - intros ctx topic l Hlive. pose proof (pa_law (PPublish ctx topic (Some l)) w2) as Hlaw.
    destruct (pa_abs (w_br w2)) as [v cn cl [fn|]]; unfold prod_call in Hlaw; by rewrite Hlive in Hlaw.
  - intros ctx. pose proof (pa_law (PConnect ctx) w2) as Hlaw.
    destruct (pa_abs (w_br w2)) as [v [] cl f]; simpl in *; subst v.
    + rewrite Hok2 by done. eauto.
    + destruct valid; destruct Hlaw as (w3 & Hc & _); eauto.
Qed.
End ProducerRuns.
