(* ===== verification/Kafka.v ===== *)
(** * The Kafka adapter (pkg/kafka/kafka.go)

    The producer delegates publishing to an injected function; the consumer
    keeps its subscriptions in a map by topic.  Each method holds the mutex
    over the state it changes, so it is one atomic step. *)

From Stdlib Require Import ZArith Lia.
From stdpp Require Import base gmap strings pretty list fin_maps.
From S2P Require Import Prelude Store Contexts Demo I18n Errors Message Broker Retry Adapter.

Inductive PartitionStrategy := RoundRobin | Hash | Manual | OtherStrategy (n : Z).

Definition PartitionStrategy_String (ps : PartitionStrategy) : string :=
  match ps with
  | RoundRobin => "round_robin"
  | Hash => "hash"
  | Manual => "manual"
  | OtherStrategy _ => "unknown"
  end.

Record Config := mkConfig {
  Brokers : list string; ClientID : string; GroupID : string; Topics : list string;
  SASLEnabled : bool; SASLMechanism : string; SASLUsername : string; SASLPassword : string;
  TLSEnabled : bool; TLSConfig : option loc; TLSSkipVerify : bool;
  RequiredAcks : Z; MaxRetries : Z; RetryBackoff : Z; BatchSize : Z; BatchTimeout : Z;
  MaxMessageBytes : Z; CompressionCodec : string; Idempotent : bool;
  Partitioning : PartitionStrategy;
  AutoOffsetReset : string; EnableAutoCommit : bool; AutoCommitInterval : Z;
  SessionTimeout : Z; HeartbeatInterval : Z; MaxPollRecords : Z; FetchMinBytes : Z;
  FetchMaxBytes : Z; FetchMaxWait : Z;
  DialTimeout : Z; ReadTimeout : Z; WriteTimeout : Z; MetadataRefresh : Z }.

Definition DefaultConfig : Config := {|
  Brokers := ["localhost:9092"]; ClientID := "messaging-client"; GroupID := "messaging-group";
  Topics := [];
  SASLEnabled := false; SASLMechanism := "PLAIN"; SASLUsername := ""; SASLPassword := "";
  TLSEnabled := false; TLSConfig := None; TLSSkipVerify := false;
  RequiredAcks := -1; MaxRetries := 3; RetryBackoff := 100 * Millisecond; BatchSize := 16384;
  BatchTimeout := 10 * Millisecond; MaxMessageBytes := 1048576; CompressionCodec := "lz4";
  Idempotent := true; Partitioning := RoundRobin;
  AutoOffsetReset := "earliest"; EnableAutoCommit := false; AutoCommitInterval := 5 * Second;
  SessionTimeout := 30 * Second; HeartbeatInterval := 3 * Second; MaxPollRecords := 500;
  FetchMinBytes := 1; FetchMaxBytes := 52428800; FetchMaxWait := 500 * Millisecond;
  DialTimeout := 30 * Second; ReadTimeout := 30 * Second; WriteTimeout := 30 * Second;
  MetadataRefresh := 300 * Second |}.

(** The text of the error [Validate] returns, if any. *)
Definition Validate_text (c : Config) : option string :=
  if Nat.eqb (length (Brokers c)) 0 then Some "at least one broker is required" else
  if first_empty (Brokers c) then Some "broker address cannot be empty" else
  if bool_decide (ClientID c = "") then Some "client_id is required" else
  if (BatchSize c <? 1)%Z then Some "batch_size must be at least 1" else
  if SASLEnabled c && bool_decide (SASLUsername c = "")
  then Some "sasl_username is required when SASL is enabled" else None.

Definition Validate (c : Config) : GoM mem (option error) :=
  match Validate_text c with
  | Some text => let! e := fresh_error text in ret (Some e)
  | None => ret None
  end.

(** ** Producer *)

Module Producer.
Record Producer := mkProducer {
  config : Config;
  connected : bool;
  closed : bool;
  publishFn : option nat }.

Section Producer.
Context {PF : PublishFuncs}.

Definition NewProducer (config : option Config) : Producer :=
  mkProducer (default DefaultConfig config) false false None.

Definition SetPublishFunc (fn : option nat) : GoM (World Producer) unit :=
  let! p := get_br in put_br (mkProducer (config p) (connected p) (closed p) fn).

Definition Connect (_ : Ctx) : GoM (World Producer) (option error) :=
  let! p := get_br in
  if connected p then ret None else
  let! err := on_mem (Validate (config p)) in
  match err with
  | Some e =>
    let! e := on_mem (new_BrokerError ErrCodeInvalidConfig "invalid kafka producer config"
      (Some e)) in
    ret (Some e)
  | None => put_br (mkProducer (config p) true (closed p) (publishFn p)) ;;; ret None
  end.

Definition Close (_ : Ctx) : GoM (World Producer) (option error) :=
  let! p := get_br in
  put_br (mkProducer (config p) (connected p) true (publishFn p)) ;;;
  if closed p then ret None else
  let! p := get_br in
  put_br (mkProducer (config p) false (closed p) (publishFn p)) ;;;
  ret None.

Definition IsConnected : GoM (World Producer) bool :=
  let! p := get_br in ret (connected p && negb (closed p)).

Definition Publish (ctx : Ctx) (topic : string) (msg : option loc) :
    GoM (World Producer) (option error) :=
  let! c := IsConnected in
  if negb c then ret (Some (ErrSentinel ErrNotConnected)) else
  match msg with
  | None => ret (Some (ErrSentinel ErrMessageInvalid))
  | Some m =>
    let! p := get_br in
    match publishFn p with
    | Some fn => on_mem (run_publish fn ctx topic m)
    | None => ret None
    end
  end.
(** The accessor [Config]; the code returns the pointer it was given. *)
Definition Config_ : GoM (World Producer) Config := let! p := get_br in ret (config p).
End Producer.
End Producer.

(** ** Consumer *)

Module Consumer.
Record kafkaSubscription := mkSubscription {
  sub_id : string;
  sub_topic : string;
  sub_groupID : string;
  sub_handler : option handler;
  sub_cancelFn : option Ctx;        (* the context the function cancels *)
  sub_active : bool }.

Record Consumer := mkConsumer {
  config : Config;
  connected : bool;
  closed : bool;
  subscriptions : gmap string loc;
  subCounter : Z;
  subs : gmap loc kafkaSubscription }.   (* the subscription objects *)

Section Updates.
Context (c : Consumer).
Definition set_connected x : Consumer :=
  mkConsumer (config c) x (closed c) (subscriptions c) (subCounter c) (subs c).
Definition set_closed x : Consumer :=
  mkConsumer (config c) (connected c) x (subscriptions c) (subCounter c) (subs c).
Definition set_subscriptions x : Consumer :=
  mkConsumer (config c) (connected c) (closed c) x (subCounter c) (subs c).
Definition set_subCounter x : Consumer :=
  mkConsumer (config c) (connected c) (closed c) (subscriptions c) x (subs c).
Definition set_subs x : Consumer :=
  mkConsumer (config c) (connected c) (closed c) (subscriptions c) (subCounter c) x.
End Updates.

Section Consumer.
Context {En : Env} {MR : MapRange}.

Definition NewConsumer (config : option Config) : Consumer :=
  mkConsumer (default DefaultConfig config) false false ∅ 0 ∅.

Definition Connect (_ : Ctx) : GoM (World Consumer) (option error) :=
  let! c := get_br in
  if connected c then ret None else
  let! err := on_mem (Validate (config c)) in
  match err with
  | Some e =>
    let! e := on_mem (new_BrokerError ErrCodeInvalidConfig "invalid kafka consumer config"
      (Some e)) in
    ret (Some e)
  | None => put_br (set_connected c true) ;;; ret None
  end.

Definition IsConnected : GoM (World Consumer) bool :=
  let! c := get_br in ret (connected c && negb (closed c)).

Definition load_sub (s : loc) : GoM (World Consumer) kafkaSubscription := fun w =>
  match subs (w_br w) !! s with
  | Some x => (Ok x, w)
  | None => (Panic DanglingReference, w)
  end.

Definition deactivated (x : kafkaSubscription) : kafkaSubscription :=
  mkSubscription (sub_id x) (sub_topic x) (sub_groupID x) (sub_handler x) (sub_cancelFn x) false.

(** [kafkaSubscription.Unsubscribe] *)
Definition sub_Unsubscribe (s : loc) : GoM (World Consumer) (option error) :=
  let! x := load_sub s in
  let! c := get_br in
  put_br (set_subs c (<[s := deactivated x]> (subs c))) ;;;
  if negb (sub_active x) then ret None else
  match sub_cancelFn x with
  | Some ctx => on_mem (ctx_cancel ctx)
  | None => ret tt
  end ;;;
  ret None.

Definition sub_IsActive (s : loc) : GoM (World Consumer) bool :=
  let! x := load_sub s in ret (sub_active x).
Definition sub_Topic (s : loc) : GoM (World Consumer) string :=
  let! x := load_sub s in ret (sub_topic x).
Definition sub_ID (s : loc) : GoM (World Consumer) string :=
  let! x := load_sub s in ret (sub_id x).

(** [c.closed.Swap(true)]: the old value *)
Definition closed_Swap : GoM (World Consumer) bool :=
  let! c := get_br in
  put_br (set_closed c true) ;;;
  ret (closed c).

(** The rest of [Close], under the mutex; [n] numbers the range over the
    subscriptions. *)
Definition Close_locked (n : nat) : GoM (World Consumer) (option error) :=
  let! c := get_br in
  for_range (map_range n (subscriptions c)) (fun e => let! _ := sub_Unsubscribe e.2 in ret tt) ;;;
  let! c := get_br in
  put_br (set_connected c false) ;;;
  ret None.

Definition Close (n : nat) (_ : Ctx) : GoM (World Consumer) (option error) :=
  let! was := closed_Swap in
  if was then ret None else Close_locked n.

(** The checks of [Subscribe], before it locks the mutex *)
Definition Subscribe_check (topic : string) (h : option handler) :
    GoM (World Consumer) (option error) :=
  let! conn := IsConnected in
  if negb conn then ret (Some (ErrSentinel ErrNotConnected)) else
  if bool_decide (topic = "") then
    let! e := on_mem (new_BrokerError ErrCodeSubscribeFailed "topic is required" None) in
    ret (Some e)
  else
  match h with
  | None =>
    let! e := on_mem (new_BrokerError ErrCodeSubscribeFailed "handler is required" None) in
    ret (Some e)
  | Some _ => ret None
  end.

(** The rest of [Subscribe], under the mutex *)
Definition Subscribe_locked (ctx : Ctx) (topic : string) (h : option handler) :
    GoM (World Consumer) (option loc * option error) :=
  let! subCtx := on_mem (context_WithCancel ctx) in
  let! c := get_br in
  put_br (set_subCounter c (wrap64 (subCounter c + 1))) ;;;
  let! c := get_br in
  let! u := on_mem uuid_New_String in
  let subID := "kafka-sub-" +:+ pretty (subCounter c) +:+ "-" +:+ String.substring 0 8 u in
  let! s := on_mem alloc_loc in
  put_br (set_subs c (<[s := mkSubscription subID topic (GroupID (config c)) h (Some subCtx)
    true]> (subs c))) ;;;
  let! c := get_br in
  put_br (set_subscriptions c (<[topic := s]> (subscriptions c))) ;;;
  ret (Some s, None).

Definition Subscribe (ctx : Ctx) (topic : string) (h : option handler) :
    GoM (World Consumer) (option loc * option error) :=
  let! err := Subscribe_check topic h in
  match err with
  | Some e => ret (None, Some e)
  | None => Subscribe_locked ctx topic h
  end.

Definition Unsubscribe (topic : string) : GoM (World Consumer) (option error) :=
  let! c := get_br in
  match subscriptions c !! topic with
  | None => ret None
  | Some s =>
    let! err := sub_Unsubscribe s in
    let! c := get_br in
    put_br (set_subscriptions c (delete topic (subscriptions c))) ;;;
    ret err
  end.
Definition Config_ : GoM (World Consumer) Config := let! c := get_br in ret (config c).
End Consumer.
End Consumer.

(** ** Lemmas *)

Section ConsumerInvariant.
Import Consumer.
Context {En : Env} {MR : MapRange} {MRS : MapRangeSpec}.

(** A subscription object: its context exists, and is done once the
    subscription is inactive. *)
Definition sub_ok (m : mem) (x : kafkaSubscription) : Prop :=
  exists c, sub_cancelFn x = Some (CtxNode c) /\ is_Some (ctxs_of m !! c) /\
    (sub_active x = false -> ctx_Err m (CtxNode c) <> None).

Record kafka_inv (w : World Consumer) : Prop := {
  ki_mem : mem_wf (w_mem w);
  ki_subs : forall s x, subs (w_br w) !! s = Some x ->
    s < next_loc (w_mem w) /\ sub_ok (w_mem w) x;
  ki_map : forall t s, subscriptions (w_br w) !! t = Some s ->
    exists x, subs (w_br w) !! s = Some x /\ sub_topic x = t }.

(** A store in which every context is still there, and still done. *)
Lemma sub_ok_grow m m' x : ctxs_grow m m' -> sub_ok m x -> sub_ok m' x.
Proof.
  intros Hg (c & Hc & [n Hn] & Ha). exists c. split_and!; [done| |].
  - destruct (Hg _ _ Hn) as (n' & Hn' & _). by exists n'.
  - intros Hi. eapply ctx_Err_grow; eauto.
Qed.

Lemma kafka_inv_mem w m :
  kafka_inv w -> mem_wf m -> next_loc (w_mem w) <= next_loc m -> ctxs_grow (w_mem w) m ->
  kafka_inv (set_mem w m).
Proof.
  intros [Hm Hs Hmap] Hwf Hle Hg. split; simpl; [done| |done].
  intros s x Hx. destruct (Hs _ _ Hx). split; [lia|by eapply sub_ok_grow].
Qed.

Lemma NewConsumer_inv config m : mem_wf m -> kafka_inv (mkWorld m [] (NewConsumer config)).
Proof. intros Hm. split; simpl; [done|intros; simplify_map_eq..]. Qed.

Lemma kafka_sub_Unsubscribe_spec s x (w : World Consumer) :
  kafka_inv w -> subs (w_br w) !! s = Some x ->
  wp (sub_Unsubscribe s) (fun r w' => r = None /\ kafka_inv w' /\
    mem_keeps (w_mem w) (w_mem w') /\
    w_br w' = set_subs (w_br w) (<[s := deactivated x]> (subs (w_br w)))) w.
Proof.
  intros Hinv Hx. destruct (ki_subs _ Hinv _ _ Hx) as [Hlt (c & Hc & [n Hn] & Ha)].
  unfold sub_Unsubscribe. wp_step. unfold wp at 1, load_sub. rewrite Hx.
  wp_step. apply wp_gets. wp_step. apply wp_put_br.
  assert (forall m', mem_wf m' -> next_loc (w_mem w) <= next_loc m' ->
    ctxs_grow (w_mem w) m' -> ctx_Err m' (CtxNode c) <> None ->
    kafka_inv (mkWorld m' (w_go w) (set_subs (w_br w) (<[s := deactivated x]> (subs (w_br w))))))
    as Hnew.
  { intros m' Hwf' Hle Hg Hdone. destruct Hinv as [Hm Hs Hmap]. split; simpl; [done|..].
    - intros s2 x2. rewrite lookup_insert. case_decide as Hd; [subst; intros [= <-]|].
      + split; [lia|]. exists c. split_and!; [done| |done].
        destruct (Hg _ _ Hn) as (n' & Hn' & _). by exists n'.
      + intros Hx2. destruct (Hs _ _ Hx2). split; [lia|by eapply sub_ok_grow].
    - intros t s2 Ht. destruct (Hmap _ _ Ht) as (x2 & Hx2 & Ht2). rewrite lookup_insert.
      case_decide as Hd; [subst s2|by exists x2]. simplify_eq. by eexists. }
  destruct (sub_active x) eqn:Hact; simpl.
  - rewrite Hc. wp_step. apply wp_on_mem. simpl.
    pose proof (ctx_cancel_grow c (w_mem w)) as Hg.
    destruct (wp_run _ _ _ (ctx_cancel_spec c n (w_mem w) (ki_mem _ Hinv) Hn))
      as ([] & m' & Hrun & Hwf' & Hk & Hdone & _).
    rewrite Hrun in Hg. eapply wp_intro; [exact Hrun|]. apply wp_ret. split_and!; [done| |done|done].
    by apply Hnew; [|apply keep_next| |].
  - apply wp_ret. split_and!; [done| |done|done].
    apply Hnew; [apply Hinv|done|done|by apply Ha].
Qed.

Lemma kafka_inv_bump (w : World Consumer) :
  kafka_inv w -> kafka_inv (set_mem w (bump (w_mem w))).
Proof.
  intros Hinv. apply kafka_inv_mem; [done|apply bump_wf, Hinv|simpl; lia|].
  apply mem_extends_grow; [apply Hinv|]. by apply bump_extends.
Qed.

Lemma IsConnected_eq (w : World Consumer) :
  IsConnected w = (Ok (connected (w_br w) && negb (closed (w_br w))), w).
Proof. done. Qed.

(** Changes of the flags and the counter alone. *)
Lemma kafka_inv_br w c :
  kafka_inv w -> subscriptions c = subscriptions (w_br w) -> subs c = subs (w_br w) ->
  kafka_inv (set_br w c).
Proof.
  intros [Hm Hs Hmap] E1 E2. split; simpl; [done| |]; rewrite E2; [done|].
  intros t s. rewrite E1. apply Hmap.
Qed.

Lemma kafka_Connect_spec ctx (w : World Consumer) :
  kafka_inv w ->
  wp (Connect ctx) (fun r w' => kafka_inv w' /\
    w_br w' = (match r with None => set_connected (w_br w) true | Some _ => w_br w end) /\
    classify <$> r = (if connected (w_br w) then None else
      match Validate_text (config (w_br w)) with None => None | _ => Some ClassInvalidConfig end)) w.
Proof.
  intros Hinv. unfold Connect. wp_step. apply wp_gets. destruct (connected (w_br w)) eqn:Hc.
  - apply wp_ret. split_and!; [done| |done]. destruct (w_br w); simpl in *; by subst.
  - unfold Validate. destruct (Validate_text (config (w_br w))) as [text|] eqn:Hv.
    + wp_step. apply wp_on_mem. eapply wp_intro; [done|]. simpl.
      wp_step. apply wp_new_BrokerError, wp_ret. split_and!; [|done|done].
      by apply kafka_inv_bump, (kafka_inv_bump w).
    + wp_step. apply wp_on_mem, wp_ret. simpl. wp_step. apply wp_put_br, wp_ret.
      split_and!; [|done|done].
      apply (kafka_inv_br (set_mem w (w_mem w))); [by destruct w|done|done].
Qed.

Lemma kafka_Close_spec n ctx (w : World Consumer) :
  kafka_inv w ->
  wp (Close n ctx) (fun r w' => r = None /\ kafka_inv w' /\
    if closed (w_br w) then w_br w' = w_br w else
    w_br w' = set_connected (set_subs (set_closed (w_br w) true) (subs (w_br w'))) false /\
    forall s, subs (w_br w') !! s =
      deact_in deactivated (map_range n (subscriptions (w_br w))).*2 s <$> subs (w_br w) !! s) w.
Proof.
  intros Hinv. unfold Close, closed_Swap. wp_step. wp_step. apply wp_gets.
  wp_step. apply wp_put_br, wp_ret.
  assert (kafka_inv (set_br w (set_closed (w_br w) true))) as Hinv1 by by apply kafka_inv_br.
  destruct (closed (w_br w)) eqn:Hcl.
  - apply wp_ret. split_and!; [done|done|]. simpl. destruct (w_br w); simpl in *; by subst.
  - unfold Close_locked. wp_step. apply wp_gets. wp_step. eapply wp_mono.
    { apply (deact_loop deactivated subs set_subs kafka_inv); try done.
      { by intros []. }
      { intros s x w1 Hw Hx. eapply wp_mono; [by apply kafka_sub_Unsubscribe_spec|]. naive_solver. }
      intros [t s] He. simpl in He.
      rewrite map_range_perm in He. apply elem_of_map_to_list in He.
      destruct (ki_map _ Hinv _ _ He) as (x & Hx & _). simpl. by exists x. }
    intros _ w1 (Hinv2 & Hb & Hoff). wp_step. apply wp_gets. wp_step.
    apply wp_put_br, wp_ret. split_and!; [done| | |done].
    + by apply kafka_inv_br.
    + rewrite Hb. done.
Qed.

Lemma Subscribe_off ctx topic h (w : World Consumer) :
  connected (w_br w) && negb (closed (w_br w)) = false ->
  Subscribe ctx topic h w = (Ok (None, Some (ErrSentinel ErrNotConnected)), w).
Proof.
  intros Hc. unfold Subscribe, Subscribe_check, bind, IsConnected, get_br, gets, ret. simpl.
  by rewrite Hc.
Qed.

(** The error of the checks, if any, and that they change nothing. *)
Lemma Subscribe_check_spec topic h (w : World Consumer) :
  kafka_inv w ->
  wp (Subscribe_check topic h) (fun r w' =>
    kafka_inv w' /\ w_br w' = w_br w /\ check_error topic h (connected (w_br w) && negb (closed (w_br w))) r /\
    (r = None -> w' = w)) w.
Proof.
  intros Hinv. unfold Subscribe_check, check_error. wp_step. eapply wp_intro; [apply IsConnected_eq|].
  destruct (connected (w_br w) && negb (closed (w_br w))); cbn [negb]; [|by apply wp_ret].
  destruct (bool_decide (topic = "")); simpl.
  - wp_step. apply wp_new_BrokerError, wp_ret.
    split_and!; [by apply kafka_inv_bump|done|by eexists _, _|done].
  - destruct h as [h|]; simpl; [by apply wp_ret|].
    wp_step. apply wp_new_BrokerError, wp_ret.
    split_and!; [by apply kafka_inv_bump|done|by eexists _, _|done].
Qed.

(** The consumer after a successful [Subscribe]. *)
Definition subscribed (topic : string) (h : option handler) (w : World Consumer) (s : loc)
    (sid : string) (cl : loc) : Consumer :=
  let c := set_subCounter (w_br w) (wrap64 (subCounter (w_br w) + 1)) in
  set_subscriptions
    (set_subs c (<[s := mkSubscription sid topic (GroupID (config (w_br w))) h (Some (CtxNode cl))
      true]> (subs (w_br w))))
    (<[topic := s]> (subscriptions (w_br w))).

Lemma Subscribe_locked_spec ctx topic h (w : World Consumer) :
  kafka_inv w -> ctx_depth ctx <= next_loc (w_mem w) ->
  wp (Subscribe_locked ctx topic h) (fun r w' => kafka_inv w' /\
    exists s sid cl, r = (Some s, None) /\ w_br w' = subscribed topic h w s sid cl /\
      subs (w_br w) !! s = None) w.
Proof.
  intros Hinv Hctx. unfold Subscribe_locked.
  wp_step. apply wp_on_mem. eapply wp_mono.
  { apply (new_ctx_spec (mkCtxNode ctx None None)); [apply Hinv|done]. }
  intros c m1 (-> & Hwf1 & Hext1 & Hn1).
  wp_step. apply wp_gets. wp_step. apply wp_put_br. wp_step. apply wp_gets.
  wp_step. apply wp_on_mem. eapply wp_intro; [done|]. simpl.
  wp_step. apply wp_on_mem. eapply wp_intro; [done|]. simpl.
  wp_step. apply wp_put_br. wp_step. apply wp_gets. wp_step. apply wp_put_br, wp_ret. simpl.
  pose proof (ext_next _ _ Hext1). pose proof Hinv as [Hm Hs Hmap].
  assert (subs (w_br w) !! next_loc m1 = None) as Hfresh.
  { destruct (subs (w_br w) !! next_loc m1) as [x|] eqn:Hx; [|done].
    destruct (Hs _ _ Hx). lia. }
  split; [|by eexists _, _, _].
  assert (ctxs_grow (w_mem w) m1) as Hg by by apply mem_extends_grow; [|].
  split; simpl.
  - by apply bump_wf, draw_wf.
  - intros s x. rewrite lookup_insert. case_decide as Hd; [intros [= <-]; subst s|].
    + split; [lia|]. eexists. split_and!; [done|simpl; by rewrite Hn1|done].
    + intros Hx. destruct (Hs _ _ Hx). split; [lia|].
      eapply (sub_ok_grow m1); [|by eapply sub_ok_grow]. intros k n Hk. by exists n.
  - intros t s. rewrite lookup_insert. case_decide as Hd.
    + intros [= <-]. rewrite lookup_insert_eq. eexists. split; [done|]. done.
    + intros Ht. destruct (Hmap _ _ Ht) as (x & Hx & Htx). exists x.
      rewrite lookup_insert_ne; [done|]. intros Heq. by rewrite Heq, Hx in Hfresh.
Qed.

(** [Subscribe] as a whole *)
Lemma kafka_Subscribe_spec ctx topic h (w : World Consumer) :
  kafka_inv w -> ctx_depth ctx <= next_loc (w_mem w) ->
  wp (Subscribe ctx topic h) (fun r w' => kafka_inv w' /\
    match r with
    | (None, Some e) => check_error topic h (connected (w_br w) && negb (closed (w_br w))) (Some e) /\ w_br w' = w_br w
    | (Some s, None) => check_error topic h (connected (w_br w) && negb (closed (w_br w))) None /\ subs (w_br w) !! s = None /\
        exists sid cl, w_br w' = subscribed topic h w s sid cl
    | _ => False
    end) w.
Proof.
  intros Hinv Hctx. unfold Subscribe. wp_step.
  eapply wp_mono; [by apply Subscribe_check_spec|]. intros r w1 (Hinv1 & Hb & He & Hw).
  destruct r as [e|]; [by apply wp_ret|]. rewrite Hw by done.
  eapply wp_mono; [by apply Subscribe_locked_spec|].
  intros r w2 (Hinv2 & s & sid & cl & -> & Hb2 & Hs). split; [done|]. split_and!; [done|done|eauto].
Qed.

Lemma kafka_Unsubscribe_spec topic (w : World Consumer) :
  kafka_inv w ->
  wp (Unsubscribe topic) (fun r w' => r = None /\ kafka_inv w' /\
    w_br w' = match subscriptions (w_br w) !! topic with
      | None => w_br w
      | Some s => set_subscriptions (set_subs (w_br w) (alter deactivated s (subs (w_br w))))
                    (delete topic (subscriptions (w_br w)))
      end) w.
Proof.
  intros Hinv. unfold Unsubscribe. wp_step. apply wp_gets.
  destruct (subscriptions (w_br w) !! topic) as [s|] eqn:Ht; [|by apply wp_ret].
  destruct (ki_map _ Hinv _ _ Ht) as (x & Hx & Htx).
  wp_step. eapply wp_mono; [by apply kafka_sub_Unsubscribe_spec|].
  intros r w1 (-> & Hinv1 & _ & Hb1). wp_step. apply wp_gets. wp_step. apply wp_put_br, wp_ret.
  split_and!; [done| |].
  - destruct Hinv1 as [Hm Hs Hmap]. split; simpl; [done|done|].
    intros t s2. rewrite lookup_delete. case_decide; [done|]. apply Hmap.
  - simpl. rewrite Hb1. simpl. by rewrite (alter_alt_Some _ _ _ _ Hx).
Qed.
End ConsumerInvariant.

(** ** The consumer implements the specification of Adapter.v *)

Section Refinement.
Import Consumer.
Context {En : Env} {MR : MapRange} {MRS : MapRangeSpec}.

Definition sub_view (x : kafkaSubscription) : string * bool := (sub_topic x, sub_active x).

#[export] Instance Kafka_adapter : ConsumerAdapter Consumer := {|
  ca_call := fun c =>
    match c with
    | CConnect ctx => observe_error (Connect ctx)
    | CClose n ctx => observe_error (Close n ctx)
    | CIsConnected => let! b := IsConnected in ret (RBool b)
    | CSubscribe ctx topic h => observe_sub (Subscribe ctx topic h)
    | CUnsubscribe topic => observe_error (Unsubscribe topic)
    | CSubUnsubscribe s => observe_error (sub_Unsubscribe s)
    | CSubIsActive s => let! b := sub_IsActive s in ret (RBool b)
    | CSubTopic s => let! t := sub_Topic s in ret (RText t)
    end;
  ca_abs := fun c => mkRegistry (bool_decide (Validate_text (config c) = None)) (connected c)
    (closed c) (subscriptions c) (sub_view <$> subs c) |}.

Lemma sub_view_off x : sub_view (deactivated x) = off (sub_view x).
Proof. done. Qed.

Lemma kafka_topics (w : World Consumer) :
  kafka_inv w -> forall t s, subscriptions (w_br w) !! t = Some s ->
  exists x, subs (w_br w) !! s = Some x /\ (sub_view x).1 = t.
Proof. intros Hinv t s Ht. apply (ki_map _ Hinv _ _ Ht). Qed.

Lemma Kafka_law (c : call) (w : World Consumer) :
  kafka_inv w -> callable c w ->
  wp (ca_call c) (fun r w' => kafka_inv w' /\
    reg_step (ca_abs (w_br w)) c r (ca_abs (w_br w'))) w.
Proof.
  intros Hinv Hc. destruct c as [ctx|n ctx| |ctx topic h|topic|s|s|s]; simpl in Hc; simpl ca_call.
  - apply wp_observe_error. eapply wp_mono; [by apply kafka_Connect_spec|].
    intros r w' (Hinv' & Hb & Hr). split; [done|]. apply reg_step_any. intros f. simpl.
    rewrite Hr, Hb. destruct (connected (w_br w)) eqn:Hcon.
    + by destruct r.
    + destruct (Validate_text (config (w_br w))) as [text|] eqn:Hv; destruct r; simplify_eq/=;
        by rewrite ?Hv, ?Hcon.
  - apply wp_observe_error. eapply wp_mono; [by apply kafka_Close_spec|].
    intros r w' (-> & Hinv' & Hb). split; [done|]. apply reg_step_any. intros f. simpl.
    destruct (closed (w_br w)) eqn:Hcl.
    + by rewrite Hb, Hcl.
    + destruct Hb as [Hb Hss]. rewrite Hb. simpl. by rewrite (view_close sub_view deactivated sub_view_off n _ _ _ (kafka_topics w Hinv) Hss).
  - wp_step. eapply wp_intro; [apply IsConnected_eq|]. apply wp_ret. split; [done|].
    by apply reg_step_any.
  - apply wp_observe_sub. eapply wp_mono; [by apply kafka_Subscribe_spec|].
    intros [[s|] [e|]] w' (Hinv' & Hb); try done; (split; [done|]).
    + destruct Hb as (He & Hs & sid & cl & Hb). apply check_error_class in He. rewrite Hb.
      exists s. split; [simpl; by rewrite lookup_fmap, Hs|]. simpl.
      destruct (negb _); [done|]. destruct (_ || _); [done|]. by rewrite fmap_insert.
    + destruct Hb as (He & Hb). apply check_error_class in He. rewrite Hb.
      apply reg_step_any. intros f. revert He. simpl.
      destruct (negb _); [by intros [= ->]|]. destruct (_ || _); [by intros [= ->]|done].
  - apply wp_observe_error. eapply wp_mono; [by apply kafka_Unsubscribe_spec|].
    intros r w' (-> & Hinv' & Hb). split; [done|]. apply reg_step_any. intros f. rewrite Hb. simpl.
    destruct (subscriptions (w_br w) !! topic); [|done]. simpl. by rewrite (view_alter sub_view deactivated sub_view_off).
  - destruct (view_lookup _ _ _ Hc) as [x Hx].
    apply wp_observe_error. eapply wp_mono; [by apply kafka_sub_Unsubscribe_spec|].
    intros r w' (-> & Hinv' & _ & Hb). split; [done|]. apply reg_step_any. intros f. rewrite Hb. simpl.
    by rewrite <- (alter_alt_Some _ _ _ _ Hx), (view_alter sub_view deactivated sub_view_off).
  - destruct (view_lookup _ _ _ Hc) as [x Hx]. unfold sub_IsActive. wp_step. wp_step.
    unfold wp at 1, load_sub. rewrite Hx. apply wp_ret, wp_ret. split; [done|].
    apply reg_step_any. intros f. simpl. by rewrite lookup_fmap, Hx.
  - destruct (view_lookup _ _ _ Hc) as [x Hx]. unfold sub_Topic. wp_step. wp_step.
    unfold wp at 1, load_sub. rewrite Hx. apply wp_ret, wp_ret. split; [done|].
    apply reg_step_any. intros f. simpl. by rewrite lookup_fmap, Hx.
Qed.

#[export] Instance Kafka_adapter_spec : ConsumerAdapterSpec Consumer := {|
  ca_inv := kafka_inv;
  ca_inv_mem := kafka_inv_mem;
  ca_law := Kafka_law |}.

Lemma kafka_runs_refine (w : World Consumer) tr w' :
  adapter_runs w tr w' -> kafka_inv w ->
  kafka_inv w' /\ reg_runs (ca_abs (w_br w)) tr (ca_abs (w_br w')).
Proof. exact (adapter_runs_refine (H0 := Kafka_adapter_spec) w tr w'). Qed.
End Refinement.

(** ** The producer implements the specification of Adapter.v *)

Section ProducerRefinement.
Import Producer.
Context {PF : PublishFuncs}.

#[export] Instance Kafka_producer : ProducerAdapter Producer := {|
  pa_call := fun c =>
    match c with
    | PConnect ctx => observe_error (Connect ctx)
    | PClose ctx => observe_error (Close ctx)
    | PIsConnected => let! b := IsConnected in ret (RBool b)
    | PSetPublishFunc fn => SetPublishFunc fn ;;; ret (RError None)
    | PPublish ctx topic msg => observe_error (Publish ctx topic msg)
    end;
  pa_abs := fun p => mkProducerState (bool_decide (Validate_text (config p) = None))
    (connected p) (closed p) (publishFn p) |}.

#[export] Instance Kafka_producer_spec : ProducerAdapterSpec Producer.
Proof.
  split. intros c [m g [cf cn cl fn]]. destruct c as [ctx|ctx| |f|ctx topic msg]; simpl.
  - destruct cn; [done|]. case_bool_decide as Hv.
    + eexists. unfold observe_error, Connect, Validate, bind, get_br, gets, on_mem. simpl.
      rewrite Hv. split; [done|]. simpl. by rewrite bool_decide_true.
    + destruct (Validate_text cf) as [text|] eqn:Hv'; [|done].
      eexists. unfold observe_error, Connect, Validate, bind, get_br, gets, on_mem. simpl.
      rewrite Hv'. split; [done|]. simpl. by rewrite bool_decide_false by congruence.
  - by destruct cl; eexists.
  - done.
  - by eexists.
  - unfold ps_live. simpl. unfold observe_error, Publish, IsConnected, bind, get_br, gets, ret. simpl.
    destruct (cn && negb cl); [|done]. by destruct msg, fn.
Qed.
End ProducerRefinement.

(** ** Demonstration *)

Definition kafka_fresh : World Consumer.Consumer :=
  mkWorld demo_mem [] (Consumer.NewConsumer None).

Definition kafka_connected : World Consumer.Consumer :=
  (Consumer.Connect Background kafka_fresh).2.
Definition kafka_subscribed : World Consumer.Consumer :=
  (Consumer.Subscribe Background "orders" (Some 7) kafka_connected).2.
Definition kafka_calls : list (call * result) :=
  [(CConnect Background, RError None); (CSubscribe Background "orders" (Some 7), RSub 5)].

Lemma ok_pair {A S} (p : outcome A * S) a : p.1 = Ok a -> p = (Ok a, p.2).
Proof. destruct p. simpl. by intros ->. Qed.

Lemma kafka_subscribed_run : adapter_runs kafka_fresh kafka_calls kafka_subscribed.
Proof.
  apply (ar_call _ [(CConnect Background, RError None)] kafka_connected).
  - apply (ar_call _ [] kafka_fresh); [constructor|exact I|]. vm_compute. reflexivity.
  - apply Nat.le_0_l.
  - vm_compute. reflexivity.
Qed.

(** ** Properties *)

(** [Config.Validate] of the Kafka adapter accepts a configuration exactly
    when it lists brokers, none of them empty, has a client id, a batch size
    of at least 1, and a user name if SASL is enabled; the default
    configuration is accepted. *)
Theorem Kafka_Validate_iff (c : Config) :
  (Validate_text c = None <->
     Brokers c <> [] /\ ("" ∉ Brokers c) /\ ClientID c <> "" /\ (1 <= BatchSize c)%Z /\
     (SASLEnabled c = true -> SASLUsername c <> "")) /\
  Validate_text DefaultConfig = None.
Proof.
  split; [|done]. unfold Validate_text.
  destruct (Brokers c) as [|b bs] eqn:Hb; [naive_solver|]. simpl Nat.eqb. cbv iota.
  pose proof (first_empty_iff (b :: bs)) as Hfe.
  destruct (first_empty (b :: bs)); [naive_solver|].
  assert ("" ∉ b :: bs) as Hne by (intros Hin; by apply Hfe in Hin).
  case_bool_decide; [naive_solver|].
  destruct (Z.ltb_spec (BatchSize c) 1); [split; [done|intros (_ & _ & _ & ? & _); lia]|].
  destruct (SASLEnabled c); simpl; [|naive_solver].
  case_bool_decide; naive_solver.
Qed.


(** C9: the Kafka consumer implements the registry of Adapter.v: started with
    any configuration, every sequence of calls, with changes of the store by
    the rest of the program in between, returns what the registry returns and
    leaves the consumer in the state that represents the registry's; no call
    on a subscription that was given out panics or fails to return. *)
Theorem Kafka_refines_registry {En : Env} {MR : MapRange} {MRS : MapRangeSpec} config m :
  mem_wf m ->
  let w := mkWorld m [] (Consumer.NewConsumer config) in
  ca_abs (w_br w) = reg_new (bool_decide (Validate_text (default DefaultConfig config) = None)) /\
  refines_registry w.
Proof.
  intros Hm w. split; [done|]. apply adapter_refines. by apply NewConsumer_inv.
Qed.

Lemma Kafka_refines_registry_witness :
  exists r w', ca_call (CClose 0 Background) kafka_subscribed = (Ok r, w').
Proof.
  destruct (Kafka_refines_registry None demo_mem demo_mem_wf) as [_ Href].
  destruct (proj2 (Href _ _ kafka_subscribed_run) (CClose 0 Background) I) as (r & w' & Hrun & _).
  exists r, w'. exact Hrun.
Defined.

(** C27: a Kafka consumer that was closed stays closed: whatever is called on
    it after [Close] returned, also [Connect], [IsConnected] is false,
    [Subscribe] returns [ErrNotConnected] and changes nothing, every
    subscription left in its map is inactive, and its context is done. *)
Theorem Kafka_close_is_final {En : Env} {MR : MapRange} {MRS : MapRangeSpec}
    config m tr1 w1 n ctx :
  mem_wf m -> adapter_runs (mkWorld m [] (Consumer.NewConsumer config)) tr1 w1 ->
  exists w2, Consumer.Close n ctx w1 = (Ok None, w2) /\
    forall tr2 w3, adapter_runs w2 tr2 w3 ->
      Consumer.IsConnected w3 = (Ok false, w3) /\
      (forall ctx topic h, Consumer.Subscribe ctx topic h w3 =
         (Ok (None, Some (ErrSentinel ErrNotConnected)), w3)) /\
      (forall t s, Consumer.subscriptions (w_br w3) !! t = Some s -> exists x c,
         Consumer.subs (w_br w3) !! s = Some x /\ Consumer.sub_active x = false /\
         Consumer.sub_cancelFn x = Some c /\ ctx_Err (w_mem w3) c <> None).
Proof.
  intros Hm Hr1. pose proof (NewConsumer_inv config m Hm) as Hinv0.
  destruct (kafka_runs_refine _ _ _ Hr1 Hinv0) as [Hinv1 _].
  destruct (wp_run _ _ _ (kafka_Close_spec n ctx w1 Hinv1)) as (r & w2 & Hclose & -> & Hinv2 & Hb2).
  exists w2. split; [done|]. intros tr2 w3 Hr3.
  assert (Consumer.closed (w_br w2) = true) as Hc2.
  { destruct (Consumer.closed (w_br w1)) eqn:Hc; [by rewrite Hb2|]. by rewrite (proj1 Hb2). }
  assert (adapter_runs (mkWorld m [] (Consumer.NewConsumer config))
    (tr1 ++ [(CClose n ctx, RError None)]) w2) as Hr2.
  { eapply ar_call; [exact Hr1|done|]. simpl. unfold observe_error. by rewrite (bind_ok _ _ _ _ _ Hclose). }
  destruct (kafka_runs_refine _ _ _ Hr2 Hinv0) as [_ Hreg2].
  destruct (reg_runs_ok _ _ _ Hreg2 (reg_new_ok _)) as [Hok2 _].
  destruct (kafka_runs_refine _ _ _ Hr3 Hinv2) as [Hinv3 Hreg3].
  destruct (reg_runs_ok _ _ _ Hreg3 Hok2) as ([_ Hq] & Hc3 & _). specialize (Hc3 Hc2).
  assert (Consumer.connected (w_br w3) && negb (Consumer.closed (w_br w3)) = false) as Hoff.
  { simpl in Hc3. rewrite Hc3. apply andb_false_r. }
  split_and!.
  - by rewrite IsConnected_eq, Hoff.
  - intros ctx' topic h. by apply Subscribe_off.
  - intros t s Ht. specialize (Hq Hc3 _ _ Ht). simpl in Hq. rewrite lookup_fmap in Hq.
    destruct (Consumer.subs (w_br w3) !! s) as [x|] eqn:Hx; simplify_eq/=.
    destruct (ki_subs _ Hinv3 _ _ Hx) as [_ (c & Hc & _ & Hd)].
    eexists _, (CtxNode c). unfold sub_view in Hq. simplify_eq. by split_and!; [| | |apply Hd].
Qed.

Lemma Kafka_close_is_final_witness :
  exists w2, Consumer.Close 0 Background kafka_subscribed = (Ok None, w2) /\
    Consumer.IsConnected w2 = (Ok false, w2).
Proof.
  destruct (Kafka_close_is_final None demo_mem _ kafka_subscribed 0 Background
    demo_mem_wf kafka_subscribed_run) as (w2 & Hclose & Hafter).
  exists w2. split; [exact Hclose|]. exact (proj1 (Hafter [] w2 (ar_nil w2))).
Defined.

Definition sub_is_active (w : World Consumer.Consumer) (s : loc) : Prop :=
  exists x, Consumer.subs (w_br w) !! s = Some x /\ Consumer.sub_active x = true.

(** [s] is active after every run from [w] in which no call is one of [ends]. *)
Definition outlives {En : Env} {MR : MapRange} (w : World Consumer.Consumer) (s : loc)
    (ends : list call) : Prop :=
  forall tr w', adapter_runs w tr w' -> Forall (fun e => e.1 ∉ ends) tr -> sub_is_active w' s.

Lemma outlives_intro {En : Env} {MR : MapRange} {MRS : MapRangeSpec}
    (P : Registry -> Prop) w s t ends :
  kafka_inv w -> (forall g, P g -> reg_subs g !! s = Some (t, true)) ->
  (forall g c r g', c ∉ ends -> P g -> reg_step g c r g' -> P g') ->
  P (ca_abs (w_br w)) -> outlives w s ends.
Proof.
  intros Hinv HP Hstep H0 tr w' Hr Htr.
  pose proof (adapter_runs_keep P (fun c => c ∉ ends) w tr w' Hstep Hr Hinv Htr H0) as HP'.
  apply HP in HP'. simpl in HP'. rewrite lookup_fmap in HP'. unfold sub_is_active.
  destruct (Consumer.subs (w_br w') !! s) as [x|]; [|done]. injection HP' as _ Hx. by exists x.
Qed.

(** C35: two ways for a subscription of a Kafka consumer to outlive [Close], in
    every reachable state.  When [Subscribe] succeeds on a topic that already
    has an active subscription, it takes that one's place in the map: from then
    on the older subscription stays active whatever is called on the consumer,
    [Close] and [Unsubscribe] of the topic included, until its own
    [Unsubscribe].  And a [Subscribe] that passed its checks before [Close],
    and takes the mutex any time after it, succeeds on the closed consumer: its
    subscription stays active, further calls of [Close] included, until it or
    its topic is unsubscribed. *)
Theorem Kafka_subscriptions_leak {En : Env} {MR : MapRange} {MRS : MapRangeSpec} config m tr w :
  mem_wf m -> adapter_runs (mkWorld m [] (Consumer.NewConsumer config)) tr w ->
  (forall s x ctx h s' w',
     Consumer.subs (w_br w) !! s = Some x -> Consumer.sub_active x = true ->
     ctx_depth ctx <= next_loc (w_mem w) ->
     Consumer.Subscribe ctx (Consumer.sub_topic x) h w = (Ok (Some s', None), w') ->
     outlives w' s [CSubUnsubscribe s]) /\
  (forall n cctx ctx topic h tr' w1 w2,
     Consumer.Subscribe_check topic h w = (Ok None, w) ->
     Consumer.Close n cctx w = (Ok None, w1) -> adapter_runs w1 tr' w2 ->
     ctx_depth ctx <= next_loc (w_mem w2) ->
     exists s w3, Consumer.Subscribe_locked ctx topic h w2 = (Ok (Some s, None), w3) /\
       Consumer.IsConnected w3 = (Ok false, w3) /\
       outlives w3 s [CSubUnsubscribe s; CUnsubscribe topic]).
Proof.
  intros Hm Hr. destruct (kafka_runs_refine _ _ _ Hr (NewConsumer_inv config m Hm)) as [Hinv _].
  split.
  - intros s x ctx h s' w' Hx Ha Hctx Hsub.
    destruct (wp_run _ _ _ (kafka_Subscribe_spec ctx (Consumer.sub_topic x) h w Hinv Hctx))
      as (r & w1 & Hrun & Hinv' & Hr'). rewrite Hsub in Hrun. injection Hrun as <- <-.
    destruct Hr' as (_ & Hnew & sid & cl & Hb).
    apply (outlives_intro (unlisted s (Consumer.sub_topic x)) w' s (Consumer.sub_topic x));
      [done|by intros g []|intros g c r g' [Hc _]%not_elem_of_cons; by apply reg_step_unlisted|].
    assert (s' <> s) as Hne by congruence. split; simpl; rewrite Hb; simpl.
    + rewrite lookup_fmap, lookup_insert_ne, Hx by done. simpl. unfold sub_view. by rewrite Ha.
    + intros t'. rewrite lookup_insert. case_decide as Ht; [congruence|]. intros Hs.
      destruct (ki_map _ Hinv _ _ Hs) as (x' & Hx' & Htx). congruence.
  - intros n cctx ctx topic h tr' w1 w2 _ Hclose Hr2 Hctx.
    destruct (wp_run _ _ _ (kafka_Close_spec n cctx w Hinv)) as (r & w1' & Hc & _ & Hinv1 & Hb1).
    rewrite Hclose in Hc. injection Hc as _ <-.
    destruct (kafka_runs_refine _ _ _ Hr2 Hinv1) as [Hinv2 _].
    assert (reg_closed (ca_abs (w_br w2)) = true) as Hcl.
    { apply (adapter_runs_keep (fun g => reg_closed g = true) (fun _ => True) w1 tr' w2);
        [intros g c r' g' _; apply reg_step_closed|done|done|by apply Forall_true|].
      simpl. destruct (Consumer.closed (w_br w)) eqn:Hcw; [by rewrite Hb1|]. by rewrite (proj1 Hb1). }
    simpl in Hcl.
    destruct (wp_run _ _ _ (Subscribe_locked_spec ctx topic h w2 Hinv2 Hctx))
      as (r3 & w3 & Hlock & Hinv3 & s & sid & cl & -> & Hb3 & Hnew).
    exists s, w3. split_and!; [done|by rewrite IsConnected_eq, Hb3; simpl; rewrite Hcl, andb_false_r|].
    apply (outlives_intro (late s topic) w3 s topic); [done|by intros g (_ & ? & _)| |].
    + intros g c r' g' [Hc1 Hc2]%not_elem_of_cons. apply not_elem_of_cons in Hc2 as [Hc2 _].
      by apply reg_step_late.
    + unfold late. simpl. rewrite Hb3. simpl. split_and!; [done| |].
      * by rewrite lookup_fmap, lookup_insert_eq.
      * intros t'. rewrite lookup_insert. case_decide as Ht; [by intros _|]. intros Hs.
        destruct (ki_map _ Hinv2 _ _ Hs) as (x' & Hx' & _). congruence.
Qed.

Definition kafka_resubscribed : World Consumer.Consumer :=
  (Consumer.Subscribe Background "orders" (Some 8) kafka_subscribed).2.

Lemma Kafka_subscriptions_leak_witness :
  outlives kafka_resubscribed 5 [CSubUnsubscribe 5] /\
  exists s w3, Consumer.Subscribe_locked Background "orders" (Some 7)
      (Consumer.Close 0 Background kafka_subscribed).2 = (Ok (Some s, None), w3) /\
    outlives w3 s [CSubUnsubscribe s; CUnsubscribe "orders"].
Proof.
  destruct (Kafka_subscriptions_leak None demo_mem kafka_calls kafka_subscribed demo_mem_wf
    kafka_subscribed_run) as [H1 H2]. split.
  - apply (H1 5 (Consumer.mkSubscription "kafka-sub-1-5f0c7a9e" "orders" "messaging-group"
      (Some 7) (Some (CtxNode 4)) true) Background (Some 8) 7);
      [vm_compute; reflexivity|reflexivity|apply Nat.le_0_l|vm_compute; reflexivity].
  - destruct (H2 0 Background Background "orders" (Some 7) [] (Consumer.Close 0 Background kafka_subscribed).2
      (Consumer.Close 0 Background kafka_subscribed).2) as (s & w3 & Hrun & _ & Hout).
    + vm_compute. reflexivity.
    + vm_compute. reflexivity.
    + constructor.
    + apply Nat.le_0_l.
    + exists s, w3. split; [exact Hrun|exact Hout].
Defined.
