(* ===== verification/Runner.v ===== *)
(** * The comparisons of the challenge runner (challenges/runner/main.go)

    The runner compares what was delivered with what was published through
    two helpers over string slices; Challenge.v has its [main]. *)

From Stdlib Require Import ZArith Lia.
From stdpp Require Import base gmap strings list.
From S2P Require Import Prelude.

(** [m[x]] of a map of ints: 0 when absent *)
Definition int_at (m : gmap string Z) (x : string) : Z := default 0%Z (m !! x).

(** [m[x]++] and [m[x]--] *)
Definition int_add (m : gmap string Z) (x : string) (d : Z) : gmap string Z :=
  <[x := wrap64 (int_at m x + d)]> m.

(** [for _, x := range a { m[x]++ }] *)
Fixpoint count_up (m : gmap string Z) (a : list string) : gmap string Z :=
  match a with
  | [] => m
  | x :: a => count_up (int_add m x 1) a
  end.

(** [for _, x := range b { m[x]--; if m[x] < 0 { return false } }; return true] *)
Fixpoint count_down (m : gmap string Z) (b : list string) : bool :=
  match b with
  | [] => true
  | x :: b =>
    let m := int_add m x (-1) in
    if (int_at m x <? 0)%Z then false else count_down m b
  end.

Definition equalAsMultiset (a b : list string) : bool :=
  if negb (Nat.eqb (length a) (length b)) then false else count_down (count_up ∅ a) b.

(** The loop of [equalSlices] over the indices from [i]; an index out of range
    is a panic, so [None]. *)
Fixpoint equal_from (n i : nat) (a b : list string) : option bool :=
  match n with
  | 0 => Some true
  | S n =>
    match a !! i, b !! i with
    | Some x, Some y => if negb (bool_decide (x = y)) then Some false else equal_from n (S i) a b
    | _, _ => None
    end
  end.

Definition equalSlices (a b : list string) : option bool :=
  if negb (Nat.eqb (length a) (length b)) then Some false else equal_from (length a) 0 a b.

(** ** Lemmas *)

Definition occurrences (x : string) (l : list string) : nat := length (filter (fun y => y = x) l).

Lemma occurrences_cons x y l :
  occurrences x (y :: l) = (if bool_decide (y = x) then 1 else 0) + occurrences x l.
Proof. unfold occurrences. rewrite filter_cons. by case_decide; case_bool_decide. Qed.

Lemma int_at_add m x d y :
  int_at (int_add m x d) y = if bool_decide (x = y) then wrap64 (int_at m x + d) else int_at m y.
Proof.
  unfold int_at at 1, int_add. rewrite lookup_insert. by case_decide; case_bool_decide.
Qed.

(** The counters do not overflow: a slice has fewer than 2^63 elements. *)
Lemma count_up_at m a y :
  (forall x, 0 <= int_at m x)%Z ->
  (forall x, int_at m x + Z.of_nat (length a) <= int64_max)%Z ->
  int_at (count_up m a) y = (int_at m y + Z.of_nat (occurrences y a))%Z.
Proof.
  revert m. induction a as [|x a IH]; intros m Hpos Hmax; simpl.
  - unfold occurrences. simpl. lia.
  - assert (wrap64 (int_at m x + 1) = int_at m x + 1)%Z as Hw.
    { apply wrap64_id. specialize (Hpos x). specialize (Hmax x). simpl in Hmax.
      unfold in_int64, int64_min. lia. }
    rewrite IH.
    + rewrite int_at_add, occurrences_cons, Hw. case_bool_decide; subst; lia.
    + intros z. rewrite int_at_add, Hw. specialize (Hpos z). case_bool_decide; subst; lia.
    + intros z. rewrite int_at_add, Hw. specialize (Hmax z). simpl in Hmax.
      case_bool_decide; subst; lia.
Qed.

Lemma count_down_iff m b :
  (forall x, 0 <= int_at m x <= int64_max)%Z ->
  count_down m b = true <-> forall x, (Z.of_nat (occurrences x b) <= int_at m x)%Z.
Proof.
  revert m. induction b as [|x b IH]; intros m Hm; simpl.
  - split; [|done]. intros _ x. unfold occurrences. simpl. apply Hm.
  - pose proof (Hm x) as Hx.
    assert (wrap64 (int_at m x + -1) = int_at m x - 1)%Z as Hw.
    { apply wrap64_id. unfold in_int64, int64_min, int64_max in *. lia. }
    rewrite int_at_add, bool_decide_true, Hw by done.
    destruct (Z.ltb_spec (int_at m x - 1) 0).
    + split; [done|]. intros Hocc. specialize (Hocc x).
      rewrite occurrences_cons, bool_decide_true in Hocc by done. lia.
    + rewrite IH.
      * split; intros Hocc y; specialize (Hocc y); rewrite ?int_at_add, ?occurrences_cons, ?Hw in *;
          case_bool_decide; subst; lia.
      * intros y. rewrite int_at_add, Hw. specialize (Hm y). case_bool_decide; subst; lia.
Qed.

(** Without one element more, the same number of elements means the same
    occurrences. *)
Lemma occurrences_le_eq (a b : list string) :
  length a = length b -> (forall x, occurrences x b <= occurrences x a) -> a ≡ₚ b.
Proof.
  intros Hlen Hle. assert (b ⊆+ a) as Hsub.
  { clear Hlen. revert a Hle. induction b as [|x b IH]; intros a Hle; [apply submseteq_nil_l|].
    assert (x ∈ a) as Hx.
    { specialize (Hle x). rewrite occurrences_cons, bool_decide_true in Hle by done.
      unfold occurrences in Hle at 2. destruct (filter _ a) as [|y l] eqn:Hf; [simpl in Hle; lia|].
      assert (y ∈ filter (fun y => y = x) a) as [-> Hy]%list_elem_of_filter; [|done].
      rewrite Hf. by left. }
    apply elem_of_Permutation in Hx as [a' Ha']. rewrite Ha'. apply submseteq_skip, IH.
    intros y. specialize (Hle y).
    assert (occurrences y a = occurrences y (x :: a')) as Hp by (unfold occurrences; by rewrite Ha').
    rewrite Hp, !occurrences_cons in Hle. lia. }
  symmetry. by apply submseteq_length_Permutation; [|lia].
Qed.

Lemma occurrences_perm x (a b : list string) : a ≡ₚ b -> occurrences x a = occurrences x b.
Proof. unfold occurrences. by intros ->. Qed.

Lemma equal_from_spec n i a b :
  i + n <= length a -> length a = length b ->
  exists r, equal_from n i a b = Some r /\
    (r = true <-> forall j, i <= j < i + n -> a !! j = b !! j).
Proof.
  revert i. induction n as [|n IH]; intros i Hi Hlen; simpl.
  - exists true. split; [done|]. split; [intros _ j Hj; lia|done].
  - destruct (lookup_lt_is_Some_2 a i) as [x Hx]; [lia|].
    destruct (lookup_lt_is_Some_2 b i) as [y Hy]; [lia|]. rewrite Hx, Hy.
    case_bool_decide as Hxy; simpl.
    + subst y. destruct (IH (S i)) as (r & -> & Hr); [lia|done|]. exists r. split; [done|].
      rewrite Hr. split; intros Hall j Hj; [|apply Hall; lia].
      destruct (decide (j = i)) as [->|]; [congruence|apply Hall; lia].
    + exists false. split; [done|]. split; [done|]. intros Hall.
      specialize (Hall i ltac:(lia)). congruence.
Qed.

(** ** Properties *)

(** [equalAsMultiset] says whether one slice is a rearrangement of the
    other: with the same elements the same number of times, in any order.  (A
    slice has at most 2^63 - 1 elements, so the counters do not overflow.) *)
Theorem equalAsMultiset_iff (a b : list string) :
  (Z.of_nat (length a) <= int64_max)%Z ->
  equalAsMultiset a b = true <-> a ≡ₚ b.
Proof.
  intros Hmax. unfold equalAsMultiset. destruct (Nat.eqb_spec (length a) (length b)) as [Hlen|Hlen];
    simpl; [|split; [done|]; intros Hp; by destruct (Hlen (Permutation_length Hp))].
  assert (forall y, int_at (count_up ∅ a) y = Z.of_nat (occurrences y a)) as Hat.
  { intros y. rewrite count_up_at; [done|done|]. intros x. change (int_at ∅ x) with 0%Z. lia. }
  rewrite count_down_iff.
  - split.
    + intros Hle. apply occurrences_le_eq; [done|]. intros x. specialize (Hle x).
      rewrite Hat in Hle. lia.
    + intros Hp x. rewrite Hat, (occurrences_perm x _ _ Hp). lia.
  - intros x. rewrite Hat. split; [lia|]. etrans; [|exact Hmax].
    apply inj_le. unfold occurrences. apply length_filter.
Qed.

Lemma equalAsMultiset_iff_witness : ["a"; "b"; "a"] ≡ₚ ["a"; "a"; "b"].
Proof. apply (equalAsMultiset_iff ["a"; "b"; "a"] ["a"; "a"; "b"]); [done|]. reflexivity. Defined.

(** [equalSlices] never indexes out of range and says whether the slices
    are equal, element by element. *)
Theorem equalSlices_iff (a b : list string) :
  exists r, equalSlices a b = Some r /\ (r = true <-> a = b).
Proof.
  unfold equalSlices. destruct (Nat.eqb_spec (length a) (length b)) as [Hlen|Hlen]; simpl.
  - destruct (equal_from_spec (length a) 0 a b) as (r & -> & Hr); [lia|done|].
    exists r. split; [done|]. rewrite Hr. split; [|by intros ->].
    intros Hall. apply list_eq. intros j. destruct (decide (j < length a)) as [Hj|Hj].
    + apply Hall. lia.
    + rewrite !lookup_ge_None_2; [done|lia..].
  - exists false. split; [done|]. split; [done|]. by intros ->.
Qed.
