(* ===== verification/Challenge.v ===== *)
(** * The challenge runner as a program over the library (challenges/runner/main.go)

    [main] drives a real in-memory broker, a consumer group, [WithRetry] with a
    dead letter handler and a synchronous producer, and prints one PASS or
    FAIL line per check.  Here is the program, section by section, composed
    of the models of what it calls.

    The handlers it subscribes are closures: a handler value is a position in
    the list [rn_closures], which also holds the variables the closure
    captures.  While [main] sleeps, and where it is preempted between calls
    ([yield], in no line of the code), the scheduler runs goroutines of the
    broker; [rn_late] records that some wait ended with a goroutine left.
    A report entry has the label of the printed line without its details.  The
    30 second deadline of the context does not expire.  What [os.ReadFile]
    returned is an argument of [main], and encoding/json a parameter, for the
    fixture file, for maps of strings and for messages ([content]). *)

From Stdlib Require Import ZArith Lia.
From stdpp Require Import base gmap strings list fin_maps.
From S2P Require Import Prelude Store I18n Errors Message MessageJson Broker Float64 Retry InMemory.
From S2P Require Import ConsumerGroup DeadLetter Codecs SyncProducer Runner.

Record fixturePayload := mkFixture {
  Locale : string;
  Topic : string;
  Key : string;
  Value : string;
  Headers : gmap string string }.

Record fixtureFile := mkFixtureFile { Inputs : list fixturePayload }.

Inductive verdict :=
| PASS (label : string)
| FAIL (label : string).

(** ** The state of the runner *)

Inductive closure :=
| AppendMessage (received : list (option loc))      (* sections 2, 5 and 6 *)
| AppendValue (received : list string)              (* section 3 *)
| CountTopic (topic : string)                       (* section 4 *)
| Wrapped (attempts : Z) (dlq : DeadLetterHandler). (* section 5 *)

Record Runner := mkRunner {
  rn_world : World InMemoryBroker;
  rn_closures : list closure;
  rn_counts : gmap string Z;       (* cgCounts, empty at first, and what it points to *)
  rn_clock : Z;
  rn_sleeps : nat;                 (* sleeps of main so far *)
  rn_ranges : nat;                 (* map ranges so far *)
  rn_late : bool;
  rn_out : list verdict }.

Definition set_world (r : Runner) w : Runner :=
  mkRunner w (rn_closures r) (rn_counts r) (rn_clock r) (rn_sleeps r) (rn_ranges r)
    (rn_late r) (rn_out r).
Definition set_closures (r : Runner) cs : Runner :=
  mkRunner (rn_world r) cs (rn_counts r) (rn_clock r) (rn_sleeps r) (rn_ranges r)
    (rn_late r) (rn_out r).
Definition set_counts (r : Runner) c : Runner :=
  mkRunner (rn_world r) (rn_closures r) c (rn_clock r) (rn_sleeps r) (rn_ranges r)
    (rn_late r) (rn_out r).
Definition set_clock (r : Runner) t : Runner :=
  mkRunner (rn_world r) (rn_closures r) (rn_counts r) t (rn_sleeps r) (rn_ranges r)
    (rn_late r) (rn_out r).
Definition set_sleeps (r : Runner) n : Runner :=
  mkRunner (rn_world r) (rn_closures r) (rn_counts r) (rn_clock r) n (rn_ranges r)
    (rn_late r) (rn_out r).
Definition set_ranges (r : Runner) n : Runner :=
  mkRunner (rn_world r) (rn_closures r) (rn_counts r) (rn_clock r) (rn_sleeps r) n
    (rn_late r) (rn_out r).
Definition set_late (r : Runner) l : Runner :=
  mkRunner (rn_world r) (rn_closures r) (rn_counts r) (rn_clock r) (rn_sleeps r) (rn_ranges r)
    l (rn_out r).
Definition set_out (r : Runner) o : Runner :=
  mkRunner (rn_world r) (rn_closures r) (rn_counts r) (rn_clock r) (rn_sleeps r) (rn_ranges r)
    (rn_late r) o.

(** The scheduler: which goroutines, by their position in the run queue, run
    during the [k]-th sleep or preemption of [main], and how often a polling loop that
    starts with the [k]-th sleep polls before its deadline. *)
Class Scheduler := {
  picks : nat -> list nat;
  polls : nat -> nat }.

(** [string(b)] *)
Definition string_of (bs : bytes) : string := String.string_of_list_byte bs.
(** [[]byte(s)] *)
Definition bytes_of_string (s : string) : GoM mem slice :=
  new_array (String.list_byte_of_string s).

Section Runner.
Context {En : Env} {MR : MapRange} {Pf : Platform} {Sc : Scheduler}.
Context {CB : Callbacks InMemoryBroker} {J : JSON (gmap string string)} {AJ : AliasJSON}.
Context {JF : JSON fixtureFile}.
Context (tr : Translator any).

Definition on_world {A} (c : GoM (World InMemoryBroker) A) : GoM Runner A := fun r =>
  let '(o, w) := c (rn_world r) in (o, set_world r w).

Definition on_store {A} (c : GoM mem A) : GoM Runner A := on_world (on_mem c).

(** Running code over a local object of [main] and the broker's world. *)
Definition on_local {X A} (x : X) (c : GoM (X * World InMemoryBroker) A) : GoM Runner (A * X) :=
  fun r =>
    match c (x, rn_world r) with
    | (Ok a, (x', w)) => (Ok (a, x'), set_world r w)
    | (Panic p, (_, w)) => (Panic p, set_world r w)
    end.

Definition pass (label : string) : GoM Runner unit :=
  modify (fun r => set_out r (rn_out r ++ [PASS label])).
Definition fail (label : string) : GoM Runner unit :=
  modify (fun r => set_out r (rn_out r ++ [FAIL label])).

(** The number of the next range over a map. *)
Definition next_range : GoM Runner nat :=
  let! r := get in put (set_ranges r (S (rn_ranges r))) ;;; ret (rn_ranges r).

Definition new_closure (c : closure) : GoM Runner nat :=
  let! r := get in put (set_closures r (rn_closures r ++ [c])) ;;; ret (length (rn_closures r)).

Definition set_closure (h : nat) (c : closure) : GoM Runner unit :=
  modify (fun r => set_closures r (<[h := c]> (rn_closures r))).

(** ** Section 5's handlers *)

#[export] Instance Runner_Waiting : Waiting Runner := {|
  ctx_done := fun r c => ctx_Err (w_mem (rn_world r)) c;
  now := rn_clock;
  wait := fun ctx d r =>
    match ctx_Err (w_mem (rn_world r)) ctx with
    | Some e => (Ok (Some e), r)
    | None => (Ok None, set_clock r (rn_clock r + Z.max 0 d))
    end |}.

Definition rp : RetryPolicy := {|
  MaxRetries := 2; BackoffBase := 10 * Millisecond; BackoffMax := 50 * Millisecond;
  BackoffMultiplier := f64_of_int 2 |}.

Definition add_attempt (c : closure) : closure :=
  match c with
  | Wrapped n d => Wrapped (wrap64 (n + 1)) d
  | _ => c
  end.

(** [failingHandler], called by the closure [h] *)
Definition failingHandler (h : nat) : HandlerSem Runner := fun _ _ =>
  modify (fun r => set_closures r (alter add_attempt h (rn_closures r))) ;;;
  let! e := on_store (fresh_error "downstream failure injected by runner") in
  ret (Some e).

(** [dlq.Handle], on the handler the closure [h] captures *)
Definition dlq_Handle (h : nat) (ctx : Ctx) (m : option loc) (err : option error) :
    GoM Runner (option error) := fun r =>
  match rn_closures r !! h with
  | Some (Wrapped n d) =>
    let '(o, (d', w)) := Handle tr ctx m err (d, rn_world r) in
    (o, set_world (set_closures r (<[h := Wrapped n d']> (rn_closures r))) w)
  | _ => (Panic DanglingReference, r)
  end.

(** [wrapped]; [rp] makes three attempts, so the fuel of [WithRetry] suffices. *)
Definition wrapped (h : nat) : HandlerSem Runner := fun ctx m =>
  let! r := WithRetry 4 (Some (failingHandler h)) (Some rp) ctx m in
  match r with
  | Some (Some err) => dlq_Handle h ctx m (Some err)
  | _ => ret None
  end.

(** ** Goroutines and waiting *)

(** The handler [h] called on a message. *)
Definition run_closure (h : nat) : HandlerSem Runner := fun ctx m =>
  let! r := get in
  match rn_closures r !! h with
  | Some (AppendMessage received) =>
    set_closure h (AppendMessage (received ++ [m])) ;;; ret None
  | Some (AppendValue received) =>
    let! x := on_store (load_msg m) in
    let! v := on_store (load_bytes (msg_Value x)) in
    set_closure h (AppendValue (received ++ [string_of v])) ;;; ret None
  | Some (CountTopic topic) =>
    match rn_counts r !! topic with
    | Some n => modify (fun r => set_counts r (<[topic := wrap64 (n + 1)]> (rn_counts r))) ;;; ret None
    | None => throw NilDereference
    end
  | Some (Wrapped _ _) => wrapped h ctx m
  | None => throw DanglingReference
  end.

(** [_ = h(ctx, m)], in the goroutine at position [i] of the run queue *)
Definition run_goroutine (i : nat) : GoM Runner unit :=
  let! r := get in
  let w := rn_world r in
  match w_go w !! i with
  | None => ret tt
  | Some t =>
    put (set_world r (mkWorld (w_mem w) (delete i (w_go w)) (w_br w))) ;;;
    match task_handler t with
    | None => throw NilFuncCall
    | Some h => let! _ := run_closure h (task_ctx t) (Some (task_msg t)) in ret tt
    end
  end.

(** [time.Sleep] *)
Definition sleep : GoM Runner unit :=
  let! r := get in
  put (set_sleeps r (S (rn_sleeps r))) ;;;
  for_range (picks (rn_sleeps r)) run_goroutine.

(** [main] is preempted between two calls, and goroutines run. *)
Definition yield : GoM Runner unit := sleep.

Definition note_late : GoM Runner unit :=
  modify (fun r => set_late r (rn_late r || negb (bool_decide (length (w_go (rn_world r)) = 0)))).

(** [for time.Now().Before(deadline) { if cond() { break }; time.Sleep(...) }] *)
Fixpoint poll (n : nat) (cond : Runner -> bool) : GoM Runner unit :=
  match n with
  | 0 => ret tt
  | S n =>
    let! r := get in
    if cond r then ret tt else sleep ;;; poll n cond
  end.

Definition wait_until (cond : Runner -> bool) : GoM Runner unit :=
  let! r := get in
  poll (polls (rn_sleeps r)) cond ;;;
  note_late.

Definition sleep_for : GoM Runner unit := sleep ;;; note_late.

(** The variable a closure captures, as [main] reads it. *)
Definition messages_at (h : nat) (r : Runner) : list (option loc) :=
  match rn_closures r !! h with Some (AppendMessage received) => received | _ => [] end.
Definition values_at (h : nat) (r : Runner) : list string :=
  match rn_closures r !! h with Some (AppendValue received) => received | _ => [] end.
Definition attempts_at (h : nat) (r : Runner) : Z :=
  match rn_closures r !! h with Some (Wrapped n _) => n | _ => 0%Z end.

(** [_ = sub.Unsubscribe()] *)
Definition unsubscribe (sub : option subref) : GoM Runner unit :=
  match sub with
  | None => throw NilDereference
  | Some s => let! _ := on_world (sub_Unsubscribe s) in ret tt
  end.

(** [string(m.Value)] *)
Definition value_string (m : option loc) : GoM Runner string :=
  let! x := on_store (load_msg m) in
  let! v := on_store (load_bytes (msg_Value x)) in
  ret (string_of v).

(** [string(m.Key)] *)
Definition key_string (m : option loc) : GoM Runner string :=
  let! x := on_store (load_msg m) in
  let! k := on_store (load_bytes (msg_Key x)) in
  ret (string_of k).

(** ** Section 1: broker lifecycle *)

(** [false] when [main] exits here. *)
Definition lifecycle (ctx : Ctx) : GoM Runner bool :=
  let! err := on_world (Connect ctx) in
  match err with
  | Some _ => fail "[lifecycle] Connect" ;;; ret false
  | None =>
    pass "[lifecycle][broker=InMemoryBroker] Connect" ;;;
    let! c := on_world IsConnected in
    (if negb c then fail "[lifecycle] IsConnected returned false after Connect"
     else pass "[lifecycle] IsConnected true") ;;;
    let! err := on_world (HealthCheck ctx) in
    match err with
    | Some _ => fail "[lifecycle] HealthCheck"
    | None => pass "[lifecycle] HealthCheck ok"
    end ;;;
    let! t := on_world Type_ in
    (if negb (bool_decide (t = BrokerTypeInMemory)) then fail "[lifecycle] Type"
     else pass "[lifecycle] Type=inmemory") ;;;
    ret true
  end.

(** ** Section 2: publish and subscribe, one fixture *)

Definition fixture_message (f : fixturePayload) : GoM Runner loc :=
  let! k := on_store (bytes_of_string (Key f)) in
  let! v := on_store (bytes_of_string (Value f)) in
  let! msg := on_store (NewMessageWithKey (Topic f) (Some k) (Some v)) in
  let! n := next_range in
  for_range (map_range n (Headers f)) (fun kv =>
    let! _ := on_store (SetHeader (Some msg) kv.1 kv.2) in ret tt) ;;;
  ret msg.

(** The delivered message through [json.Marshal] and [json.Unmarshal], which
    call the methods of [Message]; the second reads into a new variable. *)
Definition check_json (f : fixturePayload) (got : option loc) : GoM Runner unit :=
  let label := "[json][" +:+ Locale f +:+ "]" in
  let! marshalled := on_store (MarshalJSON got) in
  match marshalled with
  | (_, Some _) => fail (label +:+ " Marshal")
  | (raw, None) =>
    let! roundTripped := on_store (new_msg zero_Message) in
    let! err := on_store (UnmarshalJSON (Some roundTripped) raw) in
    match err with
    | Some _ => fail (label +:+ " Unmarshal")
    | None =>
      let! v := value_string (Some roundTripped) in
      if negb (bool_decide (v = Value f))
      then fail (label +:+ " value drift after Marshal/Unmarshal")
      else pass (label +:+ " payload survives Marshal/Unmarshal")
    end
  end.

(** What was received, compared with the fixture. *)
Definition check_delivery (f : fixturePayload) (h : nat) : GoM Runner unit :=
  let label := "[pubsub][" +:+ Locale f +:+ "]" in
  let! received := gets (messages_at h) in
  if negb (bool_decide (length received = 1)) then fail (label +:+ " expected 1 delivery") else
  match received !! 0 with
  | None => throw SliceOutOfRange
  | Some got =>
    let! v := value_string got in
    if negb (bool_decide (v = Value f)) then fail (label +:+ " value corruption") else
    let! k := key_string got in
    if negb (bool_decide (k = Key f)) then fail (label +:+ " key corruption") else
    let! x := on_store (load_msg got) in
    if negb (bool_decide (msg_Topic x = Topic f)) then fail (label +:+ " topic corruption") else
    let! n := next_range in
    for_range (map_range n (Headers f)) (fun kv =>
      let! v := on_store (GetHeader got kv.1) in
      if negb (bool_decide (v = kv.2)) then fail (label +:+ " header corruption") else ret tt) ;;;
    pass (label +:+ " round-tripped") ;;;
    check_json f got
  end.

Definition pubsub (ctx : Ctx) (f : fixturePayload) : GoM Runner unit :=
  let label := "[pubsub][" +:+ Locale f +:+ "]" in
  let! h := new_closure (AppendMessage []) in
  let! r := on_world (Subscribe ctx (Topic f) (Some h) []) in
  match r with
  | (_, Some _) => fail (label +:+ " Subscribe")
  | (sub, None) =>
    yield ;;;
    let! msg := fixture_message f in
    let! err := on_world (Publish ctx (Topic f) (Some msg) []) in
    match err with
    | Some _ => fail (label +:+ " Publish")
    | None =>
      wait_until (fun r => 1 <=? length (messages_at h r)) ;;;
      check_delivery f h
    end ;;;
    yield ;;;
    unsubscribe sub
  end.

(** ** Section 3: a batch *)

Definition batchTopic : string := "batch-events".

(** [broker.NewMessage(topic, []byte(s))] *)
Definition text_message (topic s : string) : GoM Runner loc :=
  let! v := on_store (bytes_of_string s) in
  on_store (NewMessage topic (Some v)).

Fixpoint make_batch (inputs : list fixturePayload) : GoM Runner (list (option loc)) :=
  match inputs with
  | [] => ret []
  | f :: inputs =>
    let! msg := text_message batchTopic (Value f) in
    let! rest := make_batch inputs in
    ret (Some msg :: rest)
  end.

Definition check_batch (got expected : list string) : GoM Runner unit :=
  if negb (bool_decide (length got = length expected)) then fail "[batch] expected another number"
  else if negb (equalAsMultiset got expected) then
    fail "[batch] multiset mismatch - payload corruption"
  else
    match equalSlices got expected with
    | None => throw SliceOutOfRange
    | Some true => pass "[batch] delivered in order"
    | Some false => pass "[batch] delivered (best-effort order, all bytes preserved)"
    end.

Definition batch (ctx : Ctx) (inputs : list fixturePayload) : GoM Runner unit :=
  let! h := new_closure (AppendValue []) in
  let! r := on_world (Subscribe ctx batchTopic (Some h) []) in
  match r with
  | (_, Some _) => fail "[batch] Subscribe"
  | (batchSub, None) =>
    yield ;;;
    let! messages := make_batch inputs in
    let expected := Value <$> inputs in
    let! err := on_world (PublishBatch ctx batchTopic messages []) in
    match err with
    | Some _ => fail "[batch] PublishBatch"
    | None =>
      wait_until (fun r => length expected <=? length (values_at h r)) ;;;
      let! got := gets (values_at h) in
      check_batch got expected
    end ;;;
    yield ;;;
    unsubscribe batchSub
  end.

(** ** Section 4: a consumer group *)

Definition cg_topic (f : fixturePayload) : string := "cg-" +:+ Locale f.

Fixpoint add_topics (inputs : list fixturePayload) (cg : ConsumerGroup) : GoM Runner ConsumerGroup :=
  match inputs with
  | [] => ret cg
  | f :: inputs =>
    modify (fun r => set_counts r (<[cg_topic f := 0%Z]> (rn_counts r))) ;;;
    let! h := new_closure (CountTopic (cg_topic f)) in
    let! ucg := on_local cg (Add (cg_topic f) (Some h)) in
    add_topics inputs ucg.2
  end.

(** Every topic's counter compared with 1: were all right? *)
Fixpoint check_counts (counts : list (string * Z)) (allOk : bool) : GoM Runner bool :=
  match counts with
  | [] => ret allOk
  | (topic, got) :: counts =>
    if negb (got =? 1)%Z then
      fail ("[cg][" +:+ topic +:+ "] expected 1 delivery") ;;; check_counts counts false
    else check_counts counts allOk
  end.

Definition group (ctx : Ctx) (inputs : list fixturePayload) : GoM Runner unit :=
  let! cg := on_store (NewConsumerGroup "round-250-cg") in
  let! icg := on_local cg ID in
  (if bool_decide (icg.1 = "") then fail "[cg] ID empty" else pass "[cg] ConsumerGroup created") ;;;
  let! cg := add_topics inputs icg.2 in
  let! n1 := next_range in
  let! n2 := next_range in
  let! ecg := on_local cg (Start tr n1 n2 ctx) in
  match ecg with
  | (Some _, _) => fail "[cg] Start"
  | (None, cg) =>
    pass "[cg] Start ok" ;;;
    yield ;;;
    for_range inputs (fun f =>
      let! msg := text_message (cg_topic f) (Value f) in
      let! _ := on_world (Publish ctx (cg_topic f) (Some msg) []) in yield) ;;;
    sleep_for ;;;
    let! n := next_range in
    let! counts := gets rn_counts in
    let! allOk := check_counts (map_range n counts) true in
    (if allOk then pass "[cg] topics each received exactly 1 message (no cross-talk)" else ret tt) ;;;
    yield ;;;
    let! n := next_range in
    let! _ := on_local cg (Stop tr n) in
    pass "[cg] Stop ok"
  end.

(** ** Section 5: retries with a dead letter queue *)

Definition dlqTopic_250 : string := "dlq-round-250".
Definition retryTopic : string := "retry-events".

(** [for _, m := range gotDLQ { if string(m.Value) == string(origBytes) { match = true; break } }] *)
Fixpoint any_match (ms : list (option loc)) (orig : string) : GoM Runner bool :=
  match ms with
  | [] => ret false
  | m :: ms =>
    let! v := value_string m in
    if bool_decide (v = orig) then ret true else any_match ms orig
  end.

Definition check_dead_letter (hd hr : nat) (origBytes : slice) : GoM Runner unit :=
  let! attempts := gets (attempts_at hr) in
  (if (attempts <? 1)%Z then fail "[retry] handler never invoked"
   else pass "[retry] handler invoked (RetryPolicy active)") ;;;
  let! gotDLQ := gets (messages_at hd) in
  if bool_decide (length gotDLQ < 1) then fail "[retry] expected >=1 DLQ delivery, got 0" else
  let! orig := on_store (load_bytes (Some origBytes)) in
  let! found := any_match gotDLQ (string_of orig) in
  if negb found then fail "[retry] DLQ payload bytes do not match original"
  else pass "[retry] failed message forwarded to DLQ with payload intact".

Definition retry_dlq (ctx : Ctx) (inputs : list fixturePayload) : GoM Runner unit :=
  let! hd := new_closure (AppendMessage []) in
  let! r := on_world (Subscribe ctx dlqTopic_250 (Some hd) []) in
  match r with
  | (_, Some _) => fail "[retry] DLQ Subscribe"
  | (dlqSub, None) =>
    let! hr := new_closure (Wrapped 0 (NewDeadLetterHandler dlqTopic_250)) in
    let! r := on_world (Subscribe ctx retryTopic (Some hr) []) in
    match r with
    | (_, Some _) => fail "[retry] Subscribe"
    | (retrySub, None) =>
      match last inputs with
      | None => throw SliceOutOfRange
      | Some payload =>
        yield ;;;
        let! origBytes := on_store (bytes_of_string (Value payload)) in
        let! msg := on_store (NewMessage retryTopic (Some origBytes)) in
        let! _ := on_world (Publish ctx retryTopic (Some msg) []) in
        sleep_for ;;;
        check_dead_letter hd hr origBytes ;;;
        yield ;;;
        unsubscribe retrySub
      end
    end ;;;
    yield ;;;
    unsubscribe dlqSub
  end.

(** ** Section 6: a synchronous producer *)

Definition spTopic : string := "sync-producer-events".

Definition sp_payload : gmap string string :=
  {["action" := "round-250"; "locale" := "sr-Cyrl"; "text" := "Здраво, свете"]}.

Definition check_sent (h : nat) : GoM Runner unit :=
  let! received := gets (messages_at h) in
  let! gotBytes :=
    (match received !! 0 with
     | Some m =>
       let! x := on_store (load_msg m) in on_store (load_bytes (msg_Value x))
     | None => ret []
     end) in
  if negb (bool_decide (length received = 1)) then fail "[sync-producer] expected 1" else
  match json_Unmarshal gotBytes with
  | inr _ => fail "[sync-producer] JSON decode"
  | inl decoded =>
    if negb (bool_decide (default "" (decoded !! "text") = default "" (sp_payload !! "text")))
    then fail "[sync-producer] text drift"
    else pass "[sync-producer] non-ASCII JSON payload round-tripped"
  end.

Definition sync_producer (ctx : Ctx) : GoM Runner unit :=
  let! h := new_closure (AppendMessage []) in
  let! r := on_world (Subscribe ctx spTopic (Some h) []) in
  match r with
  | (_, Some _) => fail "[sync-producer] Subscribe"
  | (spSub, None) =>
    yield ;;;
    let sp := SetSerializer (Some JSONSerializer) (NewSyncProducer 0) in
    let! esp := on_local sp (SendValue tr ctx spTopic sp_payload) in
    match esp.1 with
    | Some _ => fail "[sync-producer] SendValue"
    | None =>
      wait_until (fun r => 1 <=? length (messages_at h r)) ;;;
      check_sent h
    end ;;;
    yield ;;;
    unsubscribe spSub
  end.

(** ** The runner *)

Definition is_fail (v : verdict) : bool := match v with FAIL _ => true | PASS _ => false end.

Definition totalFail (r : Runner) : nat := length (filter (fun v => is_fail v = true) (rn_out r)).

(** Sections 7 and 8; the result is the exit code. *)
Definition shutdown (ctx : Ctx) : GoM Runner Z :=
  pass "[contract:broker.MessageBroker] InMemoryBroker satisfies interface" ;;;
  yield ;;;
  let! err := on_world (Close ctx) in
  match err with
  | Some _ => fail "[shutdown] Close"
  | None => pass "[shutdown] Close ok"
  end ;;;
  let! fails := gets totalFail in
  ret (if bool_decide (0 < fails) then 1%Z else 0%Z).

(** [main] once the fixtures are read *)
Definition run_checks (inputs : list fixturePayload) : GoM Runner Z :=
  if length inputs <? 3 then ret 2%Z else
  let! ctx := on_store (context_WithTimeout Background (30 * Second)) in
  let! b := on_store Ops.NewInMemoryBroker in
  on_world (put_br b) ;;;
  let! ok := lifecycle ctx in
  if negb ok then ret 1%Z else
  for_range inputs (pubsub ctx) ;;;
  batch ctx inputs ;;;
  group ctx inputs ;;;
  retry_dlq ctx inputs ;;;
  sync_producer ctx ;;;
  shutdown ctx.

(** [main], given what reading the file at [fixturesPath] returned *)
Definition main (file : bytes + error) : GoM Runner Z :=
  match file with
  | inr _ => ret 2%Z
  | inl data =>
    match json_Unmarshal data with
    | inr _ => ret 2%Z
    | inl ff => run_checks (Inputs ff)
    end
  end.
End Runner.
