(* ===== verification/ChallengeWorld.v ===== *)
(** * The broker as the challenge runner uses it

    What each broker operation does to the list of active subscriptions and to
    the run queue, in the form the proofs about the runner use: [K] bounds the
    handler values in use, and [N] the UUIDs that are known to be distinct. *)

From Stdlib Require Import ZArith Lia.
From stdpp Require Import base gmap strings list fin_maps.
From S2P Require Import Prelude Store Errors Message Broker InMemory InMemorySubs InMemoryProps.
From S2P Require Import PubSub.

Section Kit.
Context {En : Env}.
Abbreviation W := (World InMemoryBroker) (only parsing).

(** The active subscriptions of a topic: identifier and handler. *)
Definition live (w : W) (t : string) : list (string * option handler) :=
  abs_subs (slice_at (subscribers (w_br w)) t).

Record wok (K : nat) (w : W) : Prop := {
  wk_inv : inmem_inv w;
  wk_con : connected (w_br w) = true;
  wk_open : stopCh_closed (w_br w) = false;
  wk_ents : forall t es e, subscribers (w_br w) !! t = Some es -> e ∈ es ->
    exists h, si_handler e = Some h /\ h < K;
  wk_go : forall tk, tk ∈ w_go w -> exists h, task_handler tk = Some h /\ h < K }.

Lemma wok_mono K K' w : K <= K' -> wok K w -> wok K' w.
Proof.
  intros HK [Hi Hc Ho He Hg]. split; [done|done|done|..].
  - intros t es e Hes H. destruct (He _ _ _ Hes H) as (h & ? & ?). exists h. split; [done|lia].
  - intros tk H. destruct (Hg _ H) as (h & ? & ?). exists h. split; [done|lia].
Qed.

Definition registered (w : W) (s : subref) (id : string) : Prop :=
  exists x, inmem_subs (w_br w) !! s = Some x /\ ims_id x = id.

(** As long as the UUIDs drawn are distinct, entries belong to objects. *)
Definition linked (N : nat) (w : W) : Prop := uuid_ctr (w_mem w) <= N -> subs_inv w.

Lemma linked_same N w w' :
  uuid_ctr (w_mem w) <= uuid_ctr (w_mem w') -> subscribers (w_br w') = subscribers (w_br w) ->
  inmem_subs (w_br w') = inmem_subs (w_br w) -> linked N w -> linked N w'.
Proof.
  intros Hu Hs Hi Hl HN. apply (subs_inv_same w); [apply Hl; lia|done|by rewrite Hs|done].
Qed.

Lemma wok_mem K w m :
  wok K w -> mem_wf m -> mem_keeps (w_mem w) m -> wok K (set_mem w m).
Proof. intros [Hi Hc Ho He Hg] Hwf Hk. split; [by apply inmem_inv_mem|done..]. Qed.

(** Goroutine number [i] taken from the run queue. *)
Definition pop (i : nat) (w : W) : W := mkWorld (w_mem w) (delete i (w_go w)) (w_br w).

Lemma wok_pop K i w : wok K w -> wok K (pop i w).
Proof.
  intros [Hi Hc Ho He Hg]. split; [by apply (exec_inv (ARun i))|done|done|done|]. simpl.
  intros tk Htk. apply Hg. eapply elem_of_submseteq; [exact Htk|].
  apply sublist_submseteq, sublist_delete.
Qed.

Lemma live_active w t : live w t = entry_view <$> active_subs (w_br w) t.
Proof. done. Qed.

Lemma subscribe_kit K N `{!UuidSpec N} ctx t h w :
  wok K w -> h < K -> exists s id w',
    Ops.Subscribe ctx t (Some h) [] w = (Ok (Some s, None), w') /\ wok K w' /\
    mem_extends (w_mem w) (w_mem w') /\ w_go w' = w_go w /\ registered w' s id /\
    (forall s' id', registered w s' id' -> registered w' s' id') /\
    (linked N w -> linked N w') /\
    forall t', live w' t' = live w t' ++ (if decide (t = t') then [(id, Some h)] else []).
Proof.
  intros [Hi Hc Ho He Hg] Hh. pose proof (Subscribe_spec ctx t (Some h) [] w Hi) as Hsp.
  rewrite Hc in Hsp. destruct Hsp as [Hrun Hi'].
  eexists _, (uuid_String (uuid_ctr (w_mem w))), _. split; [exact Hrun|].
  split; [split; [exact Hi'|done|done| |done]|]; [|split_and!; try done].
  - simpl. intros t' es e. rewrite lookup_insert. case_decide; [|by apply He].
    intros [= <-] [Hin| ->%list_elem_of_singleton]%elem_of_app; [|by exists h].
    unfold slice_at in Hin. destruct (subscribers (w_br w) !! t) as [es|] eqn:Hes;
      [by eapply He|by apply elem_of_nil in Hin].
  - by apply bump_extends, draw_extends.
  - eexists. simpl. rewrite lookup_insert_eq. by split.
  - intros s' id' (x & Hx & Hid). exists x. split; [|done]. simpl.
    rewrite lookup_insert_ne; [done|]. intros Heq.
    assert (s' < next_loc (w_mem w)); [apply (inv_subs _ Hi); by exists x|lia].
  - intros Hl HN. simpl in HN. apply (subs_inv_subscribe N); [apply Hl; lia|done|lia].
  - intros t'. unfold live. simpl. rewrite slice_at_insert. case_decide; [|by rewrite app_nil_r].
    subst t'. unfold abs_subs. by rewrite filter_app, fmap_app.
Qed.

Lemma live_end w s x :
  subs_inv w -> inmem_subs (w_br w) !! s = Some x -> forall t,
  abs_subs (slice_at (if ims_active x then alter (Ops.deactivate_id (ims_id x)) (ims_topic x)
    (subscribers (w_br w)) else subscribers (w_br w)) t) =
  filter (fun y => y.1 <> ims_id x) (live w t).
Proof.
  intros Hsub Hx t. pose proof (abs_end w s x Hsub Hx) as Heq.
  apply (f_equal (fun m => slice_at m t)) in Heq. rewrite !slice_at_fmap in Heq by done.
  by rewrite <- Heq.
Qed.

Lemma deactivate_id_handler id es e :
  e ∈ Ops.deactivate_id id es -> exists e', e' ∈ es /\ si_handler e' = si_handler e.
Proof.
  induction es as [|e0 es IH]; [by intros ?%elem_of_nil|]. simpl. case_bool_decide.
  - intros [->|?]%elem_of_cons; [exists e0|exists e]; split; try done; set_solver.
  - intros [->|?]%elem_of_cons; [exists e0; split; [set_solver|done]|].
    destruct IH as (e' & ? & ?); [done|]. exists e'. split; [set_solver|done].
Qed.

Lemma unsubscribe_kit K N s id w :
  wok K w -> registered w s id -> exists w',
    Ops.sub_Unsubscribe s w = (Ok None, w') /\ wok K w' /\
    w_mem w' = w_mem w /\ w_go w' = w_go w /\
    (forall s' id', registered w s' id' -> registered w' s' id') /\
    (linked N w -> linked N w') /\
    (subs_inv w -> forall t, live w' t = filter (fun y => y.1 <> id) (live w t)).
Proof.
  intros [Hi Hc Ho He Hg] (x & Hx & <-).
  destruct (sub_Unsubscribe_spec s x w Hi Hx) as [Hrun Hi'].
  eexists. split; [exact Hrun|]. split; [split; [exact Hi'| | | |done]|split_and!; try done].
  - by destruct (ims_active x).
  - by destruct (ims_active x).
  - intros t es e. destruct (ims_active x); [|by apply He]. simpl. rewrite lookup_alter.
    case_decide; [|by apply He]. intros (es0 & Hes & ->)%fmap_Some Hin.
    destruct (deactivate_id_handler _ _ _ Hin) as (e' & He' & <-). by eapply He.
  - intros s' id' (y & Hy & Hid). destruct (ims_active x); [|by exists y]. unfold registered. simpl.
    rewrite lookup_insert. case_decide; [subst; simplify_eq; by eexists|by exists y].
  - intros Hl HN. destruct (ims_active x); [by apply subs_inv_sub_Unsubscribe; [apply Hl|]|].
    destruct w. by apply Hl.
  - intros Hsub t. rewrite <- (live_end w s x Hsub Hx). unfold live. by destruct (ims_active x).
Qed.

(** What the deliveries of a publication are called with. *)
Definition task_to (ctx : Ctx) (s : string * option handler) (m : loc) : task := mkTask s.2 ctx m.

Lemma zip_task_to ctx es ms :
  zip_with (task_for ctx) es ms = zip_with (task_to ctx) (entry_view <$> es) ms.
Proof. revert ms. induction es as [|e es IH]; intros [|m ms]; simpl; f_equal; auto. Qed.

Lemma publish_kit K N ctx t l c w :
  wok K w -> content_of (w_mem w) l = Some c -> exists w' ms now,
    Ops.Publish ctx t (Some l) [] w = (Ok None, w') /\ wok K w' /\
    mem_extends (w_mem w) (w_mem w') /\
    subscribers (w_br w') = subscribers (w_br w) /\ inmem_subs (w_br w') = inmem_subs (w_br w) /\
    (linked N w -> linked N w') /\
    w_go w' = w_go w ++ zip_with (task_to ctx) (live w t) ms /\
    length ms = length (live w t) /\
    Forall (fun m => content_of (w_mem w') m = Some (published t (clock_time now) c)) ms.
Proof.
  intros [Hi Hc Ho He Hg] Hct.
  destruct (wp_run _ _ _ (Publish_spec ctx t l c [] w Hi Hc Hct))
    as (r & w' & Hrun & clone & ms & now & -> & Hi' & Hext & (Hbr & Hlen & Hgo) & Hdel).
  exists w', ms, now. rewrite live_active, <- zip_task_to, length_fmap. split; [done|]. split.
  { split; [done|by rewrite Hbr|by rewrite Hbr|rewrite Hbr; exact He|]. rewrite Hgo.
    intros tk [?|Htk]%elem_of_app; [by apply Hg|].
    apply elem_of_lookup_zip_with in Htk as (i & e & m & -> & Hin & _). simpl.
    apply list_elem_of_lookup_2, list_elem_of_filter in Hin as [_ Hin]. unfold slice_at in Hin.
    destruct (subscribers (w_br w) !! t) as [es|] eqn:Hes; [by eapply He|by apply elem_of_nil in Hin]. }
  rewrite Hbr. split_and!; try done.
  - apply linked_same; [by apply ext_uuid|by rewrite Hbr|by rewrite Hbr].
  - apply Forall_forall. intros m Hm. apply (dl_content _ _ _ _ _ Hdel). by right.
Qed.
End Kit.
