(* ===== verification/ChallengeGroup.v ===== *)
(** * A consumer group on the in-memory broker

    [Start] and [Stop] of a group whose broker is the in-memory one: after
    [Start] every topic of the group has its own handler as its only listener,
    and after [Stop] nothing the group subscribed listens any more. *)

From Stdlib Require Import ZArith Lia.
From stdpp Require Import base gmap strings list fin_maps.
From S2P Require Import Prelude Store I18n Errors Message Broker InMemory InMemorySubs InMemoryProps.
From S2P Require Import PubSub ConsumerGroup ChallengeWorld.

Section Group.
Context {En : Env} {MR : MapRange} {MRS : MapRangeSpec} (tr : Translator any).
Context (K N : nat) {UU : UuidSpec N}.
Abbreviation W := (World InMemoryBroker) (only parsing).

Definition all_registered (subs : gmap string (option subref)) (w : W) : Prop :=
  forall t x, subs !! t = Some x -> exists s id, x = Some s /\ registered w s id.

(** Whoever listens was subscribed by the group. *)
Definition covered (subs : gmap string (option subref)) (w : W) : Prop :=
  forall t y, y ∈ live w t -> exists t' s, subs !! t' = Some (Some s) /\ registered w s y.1.

(** Exactly the handlers [hs] listen, one per topic. *)
Definition serves (w : W) (hs : gmap string (option handler)) : Prop :=
  forall t, match hs !! t with
            | Some h => exists id, live w t = [(id, h)]
            | None => live w t = []
            end.

Definition usable (e : string * option handler) : Prop := exists h, e.2 = Some h /\ h < K.

(** A step of the world that keeps what the group relies on. *)
Record step_ok (w w' : W) : Prop := {
  so_wok : wok K w';
  so_ext : mem_extends (w_mem w) (w_mem w');
  so_go : w_go w' = w_go w;
  so_reg : forall s id, registered w s id -> registered w' s id;
  so_linked : linked N w -> linked N w' }.

Lemma step_ok_refl w : wok K w -> step_ok w w.
Proof. by split. Qed.

Lemma step_ok_trans w1 w2 w3 : step_ok w1 w2 -> step_ok w2 w3 -> step_ok w1 w3.
Proof.
  intros [? E1 G1 R1 L1] [? E2 G2 R2 L2]. split; [done|by etrans|congruence|eauto|eauto].
Qed.

Lemma step_ok_bump w : wok K w -> step_ok w (set_mem w (bump (w_mem w))).
Proof.
  intros Hw. pose proof (inv_mem _ (wk_inv _ _ Hw)) as Hwf.
  split; [|by apply bump_extends|done|done|by apply linked_same].
  apply wok_mem; [done|by apply bump_wf|]. by apply mem_extends_keeps, bump_extends.
Qed.

Lemma all_registered_mono subs w w' :
  step_ok w w' -> all_registered subs w -> all_registered subs w'.
Proof.
  intros Hs Ha t x Hx. destruct (Ha _ _ Hx) as (s & id & ? & ?). exists s, id. split; [done|].
  by apply (so_reg _ _ Hs).
Qed.

Lemma serves_insert w w' hs t h id :
  serves w hs -> hs !! t = None ->
  (forall t', live w' t' = live w t' ++ (if decide (t = t') then [(id, h)] else [])) ->
  serves w' (<[t := h]> hs).
Proof.
  intros Hs Ht Hl t'. rewrite lookup_insert, Hl. specialize (Hs t'). case_decide as Heq.
  - subst t'. rewrite Ht in Hs. rewrite Hs. by exists id.
  - by rewrite app_nil_r.
Qed.

Lemma covered_insert w w' subs t h s id :
  covered subs w -> subs !! t = None -> registered w' s id ->
  (forall s id, registered w s id -> registered w' s id) ->
  (forall t', live w' t' = live w t' ++ (if decide (t = t') then [(id, h)] else [])) ->
  covered (<[t := Some s]> subs) w'.
Proof.
  intros Hc Ht Hs Hr Hl t' y. rewrite Hl. intros [Hy|Hy]%elem_of_app.
  - destruct (Hc _ _ Hy) as (t2 & s2 & Hs2 & Hr2). exists t2, s2. split; [|by apply Hr].
    rewrite lookup_insert_ne; [done|congruence].
  - case_decide; [|by apply elem_of_nil in Hy]. apply list_elem_of_singleton in Hy as ->.
    exists t, s. by rewrite lookup_insert_eq.
Qed.

Lemma start_loop_kit n ctx hs cg w served :
  wok K w -> Forall usable hs -> NoDup hs.*1 ->
  (forall t, t ∈ hs.*1 -> subscriptions cg !! t = None /\ served !! t = None) ->
  all_registered (subscriptions cg) w ->
  exists subs w', start_loop tr n ctx hs (cg, w) = (Ok None, (cg_set_subscriptions subs cg, w')) /\
    step_ok w w' /\ all_registered subs w' /\
    (serves w served -> covered (subscriptions cg) w ->
     serves w' (list_to_map hs ∪ served) /\ covered subs w').
Proof.
  revert cg w served. induction hs as [|[t oh] hs IH]; intros cg w served Hw Hus Hnd Hnew Hreg; simpl.
  - exists (subscriptions cg), w. split; [by destruct cg|]. split; [by apply step_ok_refl|].
    split; [done|]. by rewrite (left_id_L ∅ _).
  - apply Forall_cons in Hus as [(h & Hoh & Hh) Hus]. simpl in Hoh. subst oh.
    apply NoDup_cons in Hnd as [Hni Hnd]. simpl in Hnew.
    destruct (Hnew t ltac:(by left)) as [Hst Hdt].
    destruct (subscribe_kit K N ctx t h w Hw Hh)
      as (s & id & w1 & Hrun & Hw1 & Hext1 & Hgo1 & Hs1 & Hr1 & Hl1 & Hlive).
    assert (step_ok w w1) as Hstep by (by split).
    destruct (IH (cg_set_subscriptions (<[t := Some s]> (subscriptions cg)) cg) w1
      (<[t := Some h]> served) Hw1 Hus Hnd) as (subs & w' & Hrun' & Hstep' & Hreg' & Hserve).
    { intros t' Ht'. simpl. assert (t <> t') by (intros ->; done).
      rewrite !lookup_insert_ne by done. apply Hnew. by right. }
    { intros t' x. simpl. rewrite lookup_insert. case_decide; [intros [= <-]; by exists s, id|].
      by apply (all_registered_mono _ w). }
    exists subs, w'. split.
    { erewrite on_snd_ok by exact Hrun. cbv beta iota. unfold bind at 1, set_group, modify. simpl.
      rewrite Hrun'. by destruct cg. }
    split; [by eapply step_ok_trans|]. split; [done|]. intros Hsv Hcv.
    replace (<[t:=Some h]> (list_to_map hs) ∪ served)
      with (list_to_map hs ∪ <[t:=Some h]> served : gmap string (option handler)).
    + apply Hserve; [by eapply serves_insert|simpl; by eapply covered_insert].
    + rewrite <- insert_union_l. symmetry. apply insert_union_r. by apply not_elem_of_list_to_map_1.
Qed.

(** Every entry of a list of subscriptions ended. *)
Lemma stop_loop_kit subs errs cg w :
  wok K w -> (forall t x, (t, x) ∈ subs -> exists s id, x = Some s /\ registered w s id) ->
  exists w', stop_loop tr subs errs (cg, w) = (Ok errs, (cg, w')) /\
    step_ok w w' /\ w_mem w' = w_mem w /\
    (linked N w -> uuid_ctr (w_mem w) <= N -> forall t y, y ∈ live w' t ->
      y ∈ live w t /\ forall t' s, (t', Some s) ∈ subs -> ~ registered w s y.1).
Proof.
  revert w. induction subs as [|[t x] subs IH]; intros w Hw Hreg; simpl.
  - exists w. split; [done|]. split; [by apply step_ok_refl|]. split; [done|].
    intros _ _ t y Hy. split; [done|]. by intros t' s ?%elem_of_nil.
  - destruct (Hreg t x ltac:(by left)) as (s & id & -> & Hs).
    destruct (unsubscribe_kit K N s id w Hw Hs)
      as (w1 & Hrun & Hw1 & Hm1 & Hgo1 & Hr1 & Hl1 & Hlive).
    assert (step_ok w w1) as Hstep by (split; try done; by rewrite Hm1).
    destruct (IH w1 Hw1) as (w' & Hrun' & Hstep' & Hm' & Hend).
    { intros t' x' Hin. destruct (Hreg t' x' ltac:(by right)) as (s' & id' & -> & ?).
      exists s', id'. split; [done|by apply Hr1]. }
    exists w'. split; [|split; [by eapply step_ok_trans|split; [congruence|]]].
    { unfold iface_Unsubscribe. erewrite on_snd_ok by exact Hrun. cbv beta iota. exact Hrun'. }
    intros Hlk HN t' y Hy. destruct (Hend ltac:(auto) ltac:(by rewrite Hm1) t' y Hy) as [Hy1 Hno].
    rewrite Hlive in Hy1 by auto. apply list_elem_of_filter in Hy1 as [Hne Hy1].
    split; [done|]. intros t2 s2 [Heq|Hin]%elem_of_cons Hr.
    + injection Heq as -> ->. destruct Hs as (o & Ho & <-), Hr as (o' & Ho' & Hid).
      rewrite Ho in Ho'. by simplify_eq.
    + by apply (Hno _ _ Hin), Hr1.
Qed.

Lemma range_NoDup {V} n (m : gmap string V) : NoDup (map_range n m).*1.
Proof.
  rewrite (map_range_perm n V m). apply NoDup_fst_map_to_list.
Qed.

Lemma range_lookup {V} n (m : gmap string V) t x : (t, x) ∈ map_range n m <-> m !! t = Some x.
Proof. rewrite (map_range_perm n V m). apply elem_of_map_to_list. Qed.

Lemma range_map {V} n (m : gmap string V) : list_to_map (map_range n m) = m.
Proof.
  rewrite <- (list_to_map_to_list m) at 2. apply list_to_map_proper; [apply range_NoDup|].
  apply map_range_perm.
Qed.

Lemma Start_kit n1 n2 ctx cg w :
  wok K w -> running cg = false -> subscriptions cg = ∅ ->
  map_Forall (fun t h => usable (t, h)) (handlers cg) ->
  exists cg' w', Start tr n1 n2 ctx (cg, w) = (Ok None, (cg', w')) /\ step_ok w w' /\
    running cg' = true /\ all_registered (subscriptions cg') w' /\
    (serves w ∅ -> serves w' (handlers cg) /\ covered (subscriptions cg') w').
Proof.
  intros Hw Hrun Hsubs Hus.
  destruct (start_loop_kit n2 ctx (map_range n1 (handlers cg)) cg w ∅ Hw)
    as (subs & w' & Hloop & Hstep & Hreg & Hserve).
  - apply Forall_forall. intros [t h] Hin%range_lookup. by apply Hus in Hin.
  - apply range_NoDup.
  - intros t _. by rewrite Hsubs, !lookup_empty.
  - intros t x. by rewrite Hsubs, lookup_empty.
  - eexists (cg_set_running true (cg_set_subscriptions subs cg)), w'. split; [|split; [done|]].
    { unfold Start, Start_check, Start_locked, the_group. unfold bind at 1 2, gets at 1. simpl.
      rewrite Hrun. simpl. unfold bind at 1, gets. simpl.
      by rewrite (bind_ok _ _ _ _ _ Hloop). }
    split; [done|]. split; [done|]. intros Hsv. rewrite range_map, (right_id_L ∅ _) in Hserve.
    apply Hserve; [done|]. intros t y. specialize (Hsv t). rewrite lookup_empty in Hsv.
    rewrite Hsv. by intros ?%elem_of_nil.
Qed.

Lemma Stop_kit n cg w :
  wok K w -> running cg = true -> all_registered (subscriptions cg) w ->
  exists r cg' w', Stop tr n (cg, w) = (Ok r, (cg', w')) /\ step_ok w w' /\
    (covered (subscriptions cg) w -> linked N w -> uuid_ctr (w_mem w') <= N -> serves w' ∅).
Proof.
  intros Hw Hrun Hreg. pose proof (step_ok_bump w Hw) as Hstep1.
  destruct (stop_loop_kit (map_range n (subscriptions cg)) (mkMultiError [])
    (cg_set_running false cg) _ (so_wok _ _ Hstep1)) as (w' & Hloop & Hstep & Hm & Hend).
  { intros t x Hin%range_lookup. apply (Hreg _ _ Hin). }
  eexists _, _, w'. split; [|split; [by eapply step_ok_trans|]].
  { unfold Stop, the_group, set_group, new_address, alloc_loc. unfold bind at 1, gets at 1. simpl.
    rewrite Hrun. simpl. unfold bind, gets, modify, on_snd, on_mem in *. simpl.
    rewrite Hloop. reflexivity. }
  intros Hcov Hlk HN t. rewrite lookup_empty.
  destruct (live w' t) as [|y l] eqn:Hl; [done|]. exfalso.
  destruct (Hend ltac:(by apply (so_linked _ _ Hstep1)) ltac:(by rewrite <- Hm) t y) as [Hy Hno];
    [rewrite Hl; by left|].
  destruct (Hcov t y Hy) as (t' & s & Hs & Hr). apply (Hno t' s); [by apply range_lookup|done].
Qed.
End Group.
