(* ===== verification/ChallengeRun.v ===== *)
(** * Goroutines of the challenge runner

    What one goroutine of the runner does, for each of its closures: it never
    panics and leaves [main]'s own state alone, in every reachable state and
    for every schedule. *)

From Stdlib Require Import ZArith Lia.
From stdpp Require Import base gmap strings list fin_maps.
From S2P Require Import Prelude Store I18n Errors Message Broker Float64 Retry InMemory.
From S2P Require Import InMemorySubs InMemoryProps PubSub ConsumerGroup DeadLetter Codecs.
From S2P Require Import SyncProducer Runner Challenge ChallengeWorld ChallengeGroup.

Section Run.
Context {En : Env} {Pf : Platform} {CB : Callbacks InMemoryBroker}.
Context (tr : Translator any) (N : nat).

(** Every reference the runner holds has its object; every closure its state. *)
Record ok (r : Runner) : Prop := {
  ok_world : wok (length (rn_closures r)) (rn_world r);
  ok_counts : forall h t, rn_closures r !! h = Some (CountTopic t) -> is_Some (rn_counts r !! t);
  ok_received : forall h ms m, rn_closures r !! h = Some (AppendMessage ms) -> m ∈ ms ->
    exists l, m = Some l /\ is_Some (msgs_of (w_mem (rn_world r)) !! l);
  ok_dlq : forall h n d, rn_closures r !! h = Some (Wrapped n d) -> onFailure d = None }.

Lemma ok_inv r : ok r -> inmem_inv (rn_world r).
Proof. intros Hok. apply (wk_inv _ _ (ok_world _ Hok)). Qed.

Lemma ok_wf r : ok r -> mem_wf (w_mem (rn_world r)).
Proof. intros Hok. apply inv_mem, ok_inv, Hok. Qed.

(** What goroutines leave alone. *)
Record calm (r r' : Runner) : Prop := {
  cm_late : rn_late r' = rn_late r;
  cm_out : rn_out r' = rn_out r;
  cm_ranges : rn_ranges r' = rn_ranges r;
  cm_length : length (rn_closures r') = length (rn_closures r);
  cm_subscribers : subscribers (w_br (rn_world r')) = subscribers (w_br (rn_world r));
  cm_subs : inmem_subs (w_br (rn_world r')) = inmem_subs (w_br (rn_world r));
  cm_ext : mem_extends (w_mem (rn_world r)) (w_mem (rn_world r')) }.

#[global] Instance calm_preorder : PreOrder calm.
Proof.
  split; [by intros r; split|].
  intros r1 r2 r3 [] []. split; try congruence. by etrans.
Qed.

Lemma calm_linked r r' : calm r r' -> linked N (rn_world r) -> linked N (rn_world r').
Proof. intros [? ? ? ? ? ? Hext]. by apply linked_same; [apply ext_uuid|..]. Qed.

Lemma calm_registered r r' s id :
  calm r r' -> registered (rn_world r) s id -> registered (rn_world r') s id.
Proof. intros Hc (x & Hx & ?). exists x. by rewrite (cm_subs _ _ Hc). Qed.

Lemma calm_live r r' t : calm r r' -> live (rn_world r') t = live (rn_world r) t.
Proof. intros Hc. unfold live. by rewrite (cm_subscribers _ _ Hc). Qed.

Lemma calm_content r r' l c :
  ok r -> calm r r' -> content_of (w_mem (rn_world r)) l = Some c ->
  content_of (w_mem (rn_world r')) l = Some c.
Proof.
  intros Hok Hc Hl. rewrite (content_of_extends (w_mem (rn_world r)));
    [done|by apply ok_wf|by apply cm_ext|by eapply content_live].
Qed.

(** Changing the closure [h] to [c], and the world. *)
Lemma ok_closure r h c0 c w :
  ok r -> rn_closures r !! h = Some c0 ->
  wok (length (rn_closures r)) w -> mem_extends (w_mem (rn_world r)) (w_mem w) ->
  match c with
  | AppendMessage ms => forall m, m ∈ ms -> exists l, m = Some l /\ is_Some (msgs_of (w_mem w) !! l)
  | CountTopic t => is_Some (rn_counts r !! t)
  | Wrapped _ d => onFailure d = None
  | AppendValue _ => True
  end ->
  ok (set_closures (set_world r w) (<[h := c]> (rn_closures r))).
Proof.
  intros Hok Hh Hw Hext Hc. pose proof (ok_wf _ Hok) as Hwf. destruct Hok as [Hokw Hcnt Hrec Hdlq].
  assert (forall h' c', <[h := c]> (rn_closures r) !! h' = Some c' ->
    h' = h /\ c' = c \/ rn_closures r !! h' = Some c') as Hcase.
  { intros h' c'. rewrite list_lookup_insert. case_decide; [|by right].
    intros [= <-]. left. naive_solver. }
  split; simpl.
  - by rewrite length_insert.
  - intros h' t [[-> <-]|Hh']%Hcase; [done|by eapply Hcnt].
  - intros h' ms m [[-> <-]|Hh']%Hcase Hm; [by apply Hc|].
    destruct (Hrec _ _ _ Hh' Hm) as (l & -> & [x Hx]). exists l. split; [done|]. exists x.
    by apply (msgs_extends (w_mem (rn_world r))).
  - intros h' n d [[-> <-]|Hh']%Hcase; [done|by eapply Hdlq].
Qed.

(** The world changed, not the closures. *)
Lemma ok_set_world r w :
  ok r -> wok (length (rn_closures r)) w -> mem_keeps (w_mem (rn_world r)) (w_mem w) ->
  ok (set_world r w).
Proof.
  intros [Hokw Hcnt Hrec Hdlq] Hw Hk. split; simpl; try done.
  intros h ms m Hh Hm. destruct (Hrec _ _ _ Hh Hm) as (l & -> & [x Hx]). exists l. split; [done|].
  destruct (keep_msgs _ _ Hk _ _ Hx) as (x' & Hx' & _). by exists x'.
Qed.

Lemma ok_set_sleeps r n : ok r -> ok (set_sleeps r n).
Proof. by intros []. Qed.

(** ** The retrying handler of section 5 *)

#[export] Instance Runner_WaitingSpec : WaitingSpec Runner.
Proof.
  constructor. intros ctx d r. unfold wp. simpl.
  destruct (ctx_Err (w_mem (rn_world r)) ctx) eqn:He; simpl; [done|lia].
Qed.

Definition injected (l : loc) : error := ErrString l "downstream failure injected by runner".

(** What attempts and waits change: the attempt counter, the clock and the
    allocator. *)
Record retrying (h k : nat) (r r' : Runner) : Prop := {
  rt_closures : forall n d, rn_closures r !! h = Some (Wrapped n d) ->
    rn_closures r' = <[h := Wrapped (Nat.iter k (fun z => wrap64 (z + 1)) n) d]> (rn_closures r);
  rt_wf : mem_wf (w_mem (rn_world r)) -> mem_wf (w_mem (rn_world r'));
  rt_ext : mem_extends (w_mem (rn_world r)) (w_mem (rn_world r'));
  rt_go : w_go (rn_world r') = w_go (rn_world r);
  rt_br : w_br (rn_world r') = w_br (rn_world r);
  rt_counts : rn_counts r' = rn_counts r;
  rt_late : rn_late r' = rn_late r;
  rt_out : rn_out r' = rn_out r;
  rt_ranges : rn_ranges r' = rn_ranges r }.

Lemma failingHandler_eq h ctx m r :
  failingHandler h ctx m r =
    (Ok (Some (injected (next_loc (w_mem (rn_world r))))),
     set_world (set_closures r (alter add_attempt h (rn_closures r)))
       (set_mem (rn_world r) (bump (w_mem (rn_world r))))).
Proof. reflexivity. Qed.

Lemma performs_retrying h ctx m n d r evs r' :
  rn_closures r !! h = Some (Wrapped n d) -> performs (failingHandler h) ctx m r evs r' ->
  retrying h (length (calls evs)) r r' /\
  Forall (fun e => match e with EvCall x => exists l, x = Some (injected l) | _ => True end) evs.
Proof.
  intros Hh Hp. revert n Hh. induction Hp as [r|r x r1 evs r2 Hrun Hp IH|r dur x r1 evs r2 Hrun Hp IH];
    intros n Hh.
  - split; [|done]. split; try done. simpl. intros n' d' Hn'. by rewrite list_insert_id.
  - rewrite failingHandler_eq in Hrun. injection Hrun as <- <-. simpl in IH.
    destruct (IH (wrap64 (n + 1))) as [[Hc Hw He Hg Hb Hcn Hl Ho Hr] Hall].
    { by rewrite list_lookup_alter_eq, Hh. }
    split; [|constructor; [by eexists|done]]. split; simpl in *; try congruence.
    + intros n' d' Hn'. rewrite (Hc (wrap64 (n' + 1)) d'); [|by rewrite list_lookup_alter_eq, Hn'].
      rewrite (Nat.iter_swap _ Z (fun z => wrap64 (z + 1)) n'). apply list_eq. intros i.
      destruct (decide (h = i)) as [<-|Hne].
      * apply lookup_lt_Some in Hn'. by rewrite !list_lookup_insert_eq by (by rewrite ?length_alter).
      * by rewrite !list_lookup_insert_ne, list_lookup_alter_ne by done.
    + intros Hwf. by apply Hw, bump_wf.
    + etrans; [|exact He]. by apply bump_extends.
  - assert (retrying h 0 r r1) as [Hc1 Hw1 He1 Hg1 Hb1 Hcn1 Hl1 Ho1 Hr1].
    { simpl in Hrun. destruct (ctx_Err _ _); injection Hrun as <- <-; split; try done; simpl;
        intros n' d' Hn'; by rewrite list_insert_id. }
    specialize (Hc1 n d Hh). simpl in Hc1. rewrite list_insert_id in Hc1 by done.
    destruct (IH n) as [[Hc Hw He Hg Hb Hcn Hl Ho Hr] Hall]; [by rewrite Hc1|].
    split; [|by constructor]. split; simpl; try congruence.
    + intros n' d' Hn'. rewrite (Hc n' d') by (by rewrite Hc1). by rewrite Hc1.
    + auto.
    + by etrans.
Qed.

(** One to three attempts, and an error that has a text. *)
Lemma WithRetry_fails h ctx m n d r :
  rn_closures r !! h = Some (Wrapped n d) -> exists k e reason r',
    WithRetry 4 (Some (failingHandler h)) (Some rp) ctx m r = (Ok (Some (Some e)), r') /\
    Error tr e = Some reason /\ 1 <= k <= 3 /\ retrying h k r r'.
Proof.
  intros Hh.
  destruct (retry_loop_spec (failingHandler h) rp ctx m) with (fuel := 4) (a := 0)
    (lastErr := None : option error) (w := r) as (evs & x & r' & Hrun & Hp & Ho & _).
  - intros r1. unfold wp. by rewrite failingHandler_eq.
  - reflexivity.
  - by left.
  - simpl. lia.
  - lia.
  - destruct (performs_retrying h ctx m n d r evs r' Hh Hp) as [Hret Hall].
    destruct Ho as [Hb Hs Hg Hr]. simpl in Hb, Hr.
    assert (1 <= length (calls evs)) as Hcalls.
    { destruct evs as [|[y|dur y] evs]; [|simpl; lia|].
      - destruct Hr. lia.
      - destruct (Hs 0 (EvWait dur y) eq_refl) as [Hodd _]. by simpl in Hodd. }
    exists (length (calls evs)). destruct (last evs) as [[[e|]|dur [c|]]|] eqn:Hlast; try done.
    + destruct Hr as [-> _]. apply last_Some_elem_of in Hlast.
      rewrite Forall_forall in Hall. destruct (Hall _ Hlast) as [l [= ->]].
      exists (injected l), "downstream failure injected by runner", r'.
      split_and!; [exact Hrun|done|lia|lia|done].
    + apply last_Some_elem_of in Hlast. rewrite Forall_forall in Hall.
      destruct (Hall _ Hlast) as [l Hl]. done.
    + subst x. exists (ErrCtx c), (match c with Canceled => "context canceled" | DeadlineExceeded => "context deadline exceeded" end), r'.
      split_and!; [exact Hrun|by destruct c|lia|lia|done].
    + destruct Hr. lia.
Qed.

Lemma Handle_kit K ctx l e reason d w c :
  wok K w -> content_of (w_mem w) l = Some c -> Error tr e = Some reason -> onFailure d = None ->
  exists now now' w' ms,
    Handle tr ctx (Some l) (Some e) (d, w) = (Ok None, (counted d, w')) /\ wok K w' /\
    mem_extends (w_mem w) (w_mem w') /\
    subscribers (w_br w') = subscribers (w_br w) /\ inmem_subs (w_br w') = inmem_subs (w_br w) /\
    w_go w' = w_go w ++ zip_with (task_to ctx) (live w (dlqTopic d)) ms /\
    length ms = length (live w (dlqTopic d)) /\
    Forall (fun m => content_of (w_mem w') m =
      Some (published (dlqTopic d) (clock_time now') (dead_letter reason now c))) ms.
Proof.
  intros Hw Hc Hr Hfn. pose proof (inv_mem _ (wk_inv _ _ Hw)) as Hwf.
  destruct (Handle_eq tr ctx l e reason d w c Hwf Hc Hr) as (dl & m & Heq & Hwfm & Hext & _ & Hd & _).
  pose proof (wok_mem K w m Hw Hwfm (mem_extends_keeps _ _ Hwf Hext)) as Hwm.
  destruct (publish_kit K N ctx (dlqTopic d) dl _ _ Hwm Hd)
    as (w' & ms & now' & Hpub & Hw' & Hext' & Hs & Hi & _ & Hgo & Hlen & Hms).
  exists (now_at w), now', w', ms. split; [|split_and!; try done; by etrans].
  rewrite Heq. unfold Handle_publish. erewrite bind_ok by done. erewrite on_snd_ok by exact Hpub.
  unfold bind, modify, gets. cbn [fst snd onFailure]. unfold counted. by rewrite !Hfn.
Qed.

(** [wrapped] sends its message to the dead letter topic. *)
Lemma wrapped_spec h ctx l n d r c :
  ok r -> rn_closures r !! h = Some (Wrapped n d) -> content_of (w_mem (rn_world r)) l = Some c ->
  exists k reason now now' ms r',
    wrapped tr h ctx (Some l) r = (Ok None, r') /\ ok r' /\ calm r r' /\ 1 <= k <= 3 /\
    rn_closures r' =
      <[h := Wrapped (Nat.iter k (fun z => wrap64 (z + 1)) n) (counted d)]> (rn_closures r) /\
    rn_counts r' = rn_counts r /\
    w_go (rn_world r') = w_go (rn_world r) ++
      zip_with (task_to ctx) (live (rn_world r) (dlqTopic d)) ms /\
    length ms = length (live (rn_world r) (dlqTopic d)) /\
    Forall (fun m => content_of (w_mem (rn_world r')) m =
      Some (published (dlqTopic d) (clock_time now') (dead_letter reason now c))) ms.
Proof.
  intros Hok Hh Hc. pose proof (ok_wf _ Hok) as Hwf.
  destruct (WithRetry_fails h ctx (Some l) n d r Hh) as (k & e & reason & r1 & Hrun & Hr & Hk & Hret).
  destruct Hret as [Hcl Hwf1 Hext Hgo Hbr Hcn Hlate Hout Hrg].
  specialize (Hcl n d Hh). specialize (Hwf1 Hwf).
  set (n' := Nat.iter k (fun z => wrap64 (z + 1)) n) in *.
  assert (wok (length (rn_closures r)) (rn_world r1)) as Hw1.
  { replace (rn_world r1) with (set_mem (rn_world r) (w_mem (rn_world r1)))
      by (destruct (rn_world r1); simpl in *; unfold set_mem; congruence).
    apply wok_mem; [apply Hok|done|by apply mem_extends_keeps]. }
  destruct (Handle_kit _ ctx l e reason d (rn_world r1) c Hw1) as
    (now & now' & w' & ms & Hhan & Hw' & Hext' & Hs & Hi & Hgo' & Hlen & Hms); [|done|exact (ok_dlq _ Hok _ _ _ Hh)|].
  { rewrite (content_of_extends (w_mem (rn_world r))); [done..|]. by eapply content_live. }
  assert (live (rn_world r1) (dlqTopic d) = live (rn_world r) (dlqTopic d)) as Hlive
    by (unfold live; by rewrite Hbr).
  exists k, reason, now, now', ms,
    (set_world (set_closures r1 (<[h := Wrapped n' (counted d)]> (rn_closures r1))) w').
  rewrite <- Hlive, <- Hgo. split; [|split; [|split; [|split; [done|]]]]; simpl.
  - unfold wrapped. rewrite (bind_ok _ _ _ _ _ Hrun). unfold dlq_Handle. rewrite Hcl.
    rewrite list_lookup_insert_eq by (by eapply lookup_lt_Some). by rewrite Hhan.
  - assert (mem_extends (w_mem (rn_world r)) (w_mem w')) as Hext2 by (by etrans).
    pose proof (ok_closure r h _ (Wrapped n' (counted d)) w' Hok Hh Hw' Hext2
      (ok_dlq _ Hok _ _ _ Hh)) as [Hokw Hcnt Hrec Hdlq].
    rewrite Hcl, list_insert_insert_eq. simpl in *. split; simpl; try done. by rewrite Hcn.
  - split; simpl; try congruence; [by rewrite Hcl, !length_insert|by etrans].
  - split; [by rewrite Hcl, list_insert_insert_eq|]. by rewrite Hcn.
Qed.

(** ** One goroutine *)

(** What calling the closure [c], number [h], on a message of content [ct]
    does. *)
Definition effect (h : nat) (c : closure) (ctx : Ctx) (l : loc) (ct : content)
    (r r' : Runner) : Prop :=
  match c with
  | AppendMessage ms =>
    r' = set_closures r (<[h := AppendMessage (ms ++ [Some l])]> (rn_closures r))
  | AppendValue vs =>
    r' = set_closures r (<[h := AppendValue (vs ++ [string_of (default [] (c_value ct))])]>
      (rn_closures r))
  | CountTopic t => exists n, rn_counts r !! t = Some n /\
    r' = set_counts r (<[t := wrap64 (n + 1)]> (rn_counts r))
  | Wrapped n d => exists k reason now now' ms, 1 <= k <= 3 /\
    rn_counts r' = rn_counts r /\
    rn_closures r' =
      <[h := Wrapped (Nat.iter k (fun z => wrap64 (z + 1)) n) (counted d)]> (rn_closures r) /\
    w_go (rn_world r') = w_go (rn_world r) ++
      zip_with (task_to ctx) (live (rn_world r) (dlqTopic d)) ms /\
    length ms = length (live (rn_world r) (dlqTopic d)) /\
    Forall (fun m => content_of (w_mem (rn_world r')) m =
      Some (published (dlqTopic d) (clock_time now') (dead_letter reason now ct))) ms
  end.

(** Goroutine number [i] taken from the queue, before it runs. *)
Definition popped (i : nat) (r : Runner) : Runner := set_world r (pop i (rn_world r)).

Lemma ok_popped i r : ok r -> ok (popped i r).
Proof.
  intros Hok. apply ok_set_world; [done|by apply wok_pop, Hok|done].
Qed.

Lemma calm_popped i r : calm r (popped i r).
Proof. by split. Qed.

Lemma value_string_spec l ct r :
  content_of (w_mem (rn_world r)) l = Some ct ->
  exists x, load_msg (Some l) (w_mem (rn_world r)) = (Ok x, w_mem (rn_world r)) /\
    load_bytes (msg_Value x) (w_mem (rn_world r)) = (Ok (default [] (c_value ct)), w_mem (rn_world r)) /\
    load_bytes (msg_Key x) (w_mem (rn_world r)) = (Ok (default [] (c_key ct)), w_mem (rn_world r)) /\
    msg_Topic x = c_topic ct.
Proof.
  intros (x & Hx & _ & Ht & _ & Hk & Hv & _)%content_fields. exists x. unfold load_msg, load_bytes.
  rewrite Hx. split; [done|].
  assert (forall s o, slice_content (w_mem (rn_world r)) s = Some o ->
    read_slice (w_mem (rn_world r)) s = Some (default [] o)) as Hread.
  { intros [s|] o; simpl; [|by intros [= <-]].
    destruct (bytes_of (w_mem (rn_world r)) !! sl_arr s); simpl; [|done]. by intros [= <-]. }
  by rewrite (Hread _ _ Hk), (Hread _ _ Hv).
Qed.

Lemma run_closure_spec h c ctx l ct r :
  ok r -> rn_closures r !! h = Some c -> content_of (w_mem (rn_world r)) l = Some ct ->
  exists r', run_closure tr h ctx (Some l) r = (Ok None, r') /\ ok r' /\ calm r r' /\
    effect h c ctx l ct r r'.
Proof.
  intros Hok Hh Hct. unfold run_closure. unfold bind at 1, get. rewrite Hh.
  destruct c as [ms|vs|t|n d].
  - eexists. split; [done|]. split; [|split; [|done]].
    + replace r with (set_world r (rn_world r)) at 1 by (by destruct r).
      eapply ok_closure; [done|done|apply Hok|done|].
      intros m [Hm| ->%list_elem_of_singleton]%elem_of_app.
      * by eapply ok_received.
      * exists l. split; [done|]. by eapply content_live.
    + split; simpl; try done. by rewrite length_insert.
  - destruct (value_string_spec l ct r Hct) as (x & Hx & Hv & _).
    exists (set_closures r (<[h := AppendValue (vs ++ [string_of (default [] (c_value ct))])]>
      (rn_closures r))).
    split; [|split; [|split; [|done]]].
    + unfold bind, on_store, on_world, on_mem, ret. rewrite Hx. simpl. rewrite Hv. by destruct r as [[]].
    + replace r with (set_world r (rn_world r)) at 1 by (by destruct r).
      eapply ok_closure; [done|done|apply Hok|done|done].
    + split; simpl; try done. by rewrite length_insert.
  - destruct (ok_counts _ Hok _ _ Hh) as [n Hn]. rewrite Hn. eexists. split; [done|].
    split; [|split; [by split|by exists n]]. destruct Hok as [Hokw Hcnt Hrec Hdlq].
    split; simpl; try done. intros h' t' Hh'. rewrite lookup_insert_is_Some'. right.
    by eapply Hcnt.
  - destruct (wrapped_spec h ctx l n d r ct Hok Hh Hct)
      as (k & reason & now & now' & ms & r' & Hrun & Hok' & Hcalm & Hk & Hcl & Hcn & Hgo & Hlen & Hms).
    exists r'. split_and!; [done..|]. by exists k, reason, now, now', ms.
Qed.

(** A goroutine never panics, whatever closure it calls. *)
Lemma run_goroutine_spec i tk r :
  ok r -> w_go (rn_world r) !! i = Some tk ->
  exists h c ct r', task_handler tk = Some h /\ rn_closures r !! h = Some c /\
    content_of (w_mem (rn_world r)) (task_msg tk) = Some ct /\
    run_goroutine tr i r = (Ok tt, r') /\ ok r' /\ calm r r' /\
    effect h c (task_ctx tk) (task_msg tk) ct (popped i r) r'.
Proof.
  intros Hok Hi. pose proof (list_elem_of_lookup_2 _ _ _ Hi) as Hin.
  destruct (wk_go _ _ (ok_world _ Hok) _ Hin) as (h & Hh & Hlt).
  apply lookup_lt_is_Some in Hlt as [c Hc].
  destruct (content_of_is_Some _ _ (ok_wf _ Hok) (inv_tasks _ (ok_inv _ Hok) _ Hin)) as [ct Hct].
  destruct (run_closure_spec h c (task_ctx tk) (task_msg tk) ct (popped i r) (ok_popped i r Hok) Hc Hct)
    as (r' & Hrun & Hok' & Hcalm & Heff).
  exists h, c, ct, r'. split_and!; [done..| |done| |done].
  - unfold run_goroutine. unfold bind at 1, get. rewrite Hi. unfold bind at 1, put. rewrite Hh.
    change (set_world r _) with (popped i r). by rewrite (bind_ok _ _ _ _ _ Hrun).
  - by etrans; [apply calm_popped|].
Qed.

Lemma run_goroutine_none i r : w_go (rn_world r) !! i = None -> run_goroutine tr i r = (Ok tt, r).
Proof. intros Hi. unfold run_goroutine, bind, get. by rewrite Hi. Qed.
End Run.
