(* ===== verification/ChallengeSpec.v ===== *)
(** * The main thread of the challenge runner

    Each section of [main] keeps the runner's state consistent and never
    panics, for every schedule; and as long as no wait has ended with a
    goroutine left ([rn_late]), its checks pass. *)

From Stdlib Require Import ZArith Lia.
From stdpp Require Import base gmap strings list fin_maps.
From S2P Require Import Prelude Store I18n Errors Message Broker Float64 Retry InMemory.
From S2P Require Import InMemorySubs InMemoryProps PubSub ConsumerGroup DeadLetter Codecs.
From S2P Require Import SyncProducer Runner Challenge ChallengeWorld ChallengeGroup ChallengeRun.

Section Spec.
Context {En : Env} {MR : MapRange} {MRS : MapRangeSpec} {Pf : Platform} {Sc : Scheduler}.
Context {CB : Callbacks InMemoryBroker} {J : JSON (gmap string string)}.
Context (tr : Translator any) (N : nat) {UU : UuidSpec N}.

(** So far no goroutine was late and no UUID beyond the first [N] was drawn. *)
Definition fine (r : Runner) : Prop :=
  rn_late r = false /\ uuid_ctr (w_mem (rn_world r)) <= N.

(** [r'] comes later in the run than [r]. *)
Record later (r r' : Runner) : Prop := {
  lt_uuid : uuid_ctr (w_mem (rn_world r)) <= uuid_ctr (w_mem (rn_world r'));
  lt_next : next_loc (w_mem (rn_world r)) <= next_loc (w_mem (rn_world r'));
  lt_late : rn_late r' = false -> rn_late r = false;
  lt_reg : forall s id, registered (rn_world r) s id -> registered (rn_world r') s id;
  lt_linked : linked N (rn_world r) -> linked N (rn_world r') }.

#[global] Instance later_preorder : PreOrder later.
Proof.
  split; [by intros r; split|].
  intros r1 r2 r3 [] []. split; [lia|lia|auto|auto|auto].
Qed.

Lemma later_fine r r' : later r r' -> fine r' -> fine r.
Proof. intros [] [? ?]. split; [auto|lia]. Qed.

Lemma calm_later r r' : calm r r' -> later r r'.
Proof.
  intros Hc. pose proof (cm_ext _ _ Hc) as He. split.
  - by apply ext_uuid.
  - by apply ext_next.
  - by rewrite (cm_late _ _ Hc).
  - intros s id. by apply calm_registered.
  - by apply calm_linked.
Qed.

(** ** Waiting *)

(** A fact about the world, the closures and the counters that goroutines
    keep, from [r] on. *)
Definition stable (r : Runner)
    (P : World InMemoryBroker -> list closure -> gmap string Z -> Prop) : Prop :=
  forall r1 i tk h c ct r2,
    ok r1 -> calm r r1 -> P (rn_world r1) (rn_closures r1) (rn_counts r1) ->
    w_go (rn_world r1) !! i = Some tk -> task_handler tk = Some h -> rn_closures r1 !! h = Some c ->
    content_of (w_mem (rn_world r1)) (task_msg tk) = Some ct ->
    effect h c (task_ctx tk) (task_msg tk) ct (popped i r1) r2 -> calm r1 r2 ->
    P (rn_world r2) (rn_closures r2) (rn_counts r2).

Definition holds (P : World InMemoryBroker -> list closure -> gmap string Z -> Prop)
    (r : Runner) : Prop := P (rn_world r) (rn_closures r) (rn_counts r).

(** What a wait did. *)
Record waited (P : World InMemoryBroker -> list closure -> gmap string Z -> Prop)
    (r r' : Runner) : Prop := {
  wt_ok : ok r';
  wt_later : later r r';
  wt_out : rn_out r' = rn_out r;
  wt_live : forall t, live (rn_world r') t = live (rn_world r) t;
  wt_ext : mem_extends (w_mem (rn_world r)) (w_mem (rn_world r'));
  wt_length : length (rn_closures r') = length (rn_closures r);
  wt_fine : fine r' -> holds P r' /\ w_go (rn_world r') = [] }.

Section Wait.
Context (r0 : Runner) (P : World InMemoryBroker -> list closure -> gmap string Z -> Prop).
Context (Hstable : stable r0 P).

Definition waiting (r : Runner) : Prop := ok r /\ calm r0 r /\ (fine r -> holds P r).

Lemma sleep_spec r : waiting r -> wp (sleep tr) (fun _ r' => waiting r') r.
Proof using Hstable.
  intros Hw. unfold sleep. wp_step. apply wp_get. wp_step. apply wp_put.
  apply (wp_for_range _ (fun _ => waiting)).
  { destruct Hw as (Hok & Hc & HP). split; [by apply ok_set_sleeps|]. split; [|done].
    etrans; [exact Hc|]. by constructor. }
  intros _ i _ r1 _ (Hok & Hc & HP). destruct (w_go (rn_world r1) !! i) as [tk|] eqn:Hi.
  2:{ eapply wp_intro; [by apply run_goroutine_none|done]. }
  destruct (run_goroutine_spec tr N i tk r1 Hok Hi)
    as (h & c & ct & r2 & Hh & Hcl & Hct & Hrun & Hok2 & Hc2 & Heff).
  eapply wp_intro; [exact Hrun|]. split; [done|]. split; [by etrans|]. intros Hf.
  assert (fine r1) as Hf1 by (eapply later_fine; [by apply calm_later|done]).
  exact (Hstable _ _ _ _ _ _ _ Hok Hc (HP Hf1) Hi Hh Hcl Hct Heff Hc2).
Qed.

Lemma poll_spec n cond r : waiting r -> wp (poll tr n cond) (fun _ r' => waiting r') r.
Proof using Hstable.
  revert r. induction n as [|n IH]; intros r Hw; simpl; [by apply wp_ret|].
  wp_step. apply wp_get. destruct (cond r); [by apply wp_ret|].
  wp_step. eapply wp_mono; [exact (sleep_spec r Hw)|]. intros [] r'. apply IH.
Qed.

Lemma note_late_spec r : waiting r -> wp note_late (fun _ r' => waited P r0 r') r.
Proof.
  intros (Hok & Hc & HP). unfold note_late. apply wp_modify.
  set (b := rn_late r || _).
  assert (later r (set_late r b)) as Hl.
  { split; try done. simpl. unfold b. by intros [? _]%orb_false_iff. }
  split; simpl.
  - by destruct Hok.
  - etrans; [by apply calm_later|done].
  - by apply cm_out.
  - intros t. by apply calm_live.
  - by apply cm_ext.
  - by apply cm_length.
  - intros Hf. split; [apply HP; by eapply later_fine|]. destruct Hf as [Hb _]. simpl in Hb.
    unfold b in Hb. apply orb_false_iff in Hb as [_ Hb%negb_false_iff].
    by apply bool_decide_eq_true, nil_length_inv in Hb.
Qed.
End Wait.

Lemma waiting_start P r : ok r -> (fine r -> holds P r) -> waiting r P r.
Proof. by split. Qed.

Lemma wait_until_spec P cond r :
  stable r P -> ok r -> (fine r -> holds P r) ->
  wp (wait_until tr cond) (fun _ r' => waited P r r') r.
Proof.
  intros Hst Hok HP. unfold wait_until. wp_step. apply wp_get. wp_step.
  eapply wp_mono; [apply (poll_spec r P Hst); by apply waiting_start|].
  intros [] r1. apply note_late_spec.
Qed.

Lemma sleep_for_spec P r :
  stable r P -> ok r -> (fine r -> holds P r) ->
  wp (sleep_for tr) (fun _ r' => waited P r r') r.
Proof.
  intros Hst Hok HP. unfold sleep_for. wp_step.
  eapply wp_mono; [apply (sleep_spec r P Hst); by apply waiting_start|].
  intros [] r1. apply note_late_spec.
Qed.

(** ** The state between two operations of main *)

Definition passed (v : verdict) : Prop := is_fail v = false.

(** Who listens, what waits to run and what was counted, when all is fine. *)
Record situation (C : gmap string Z) (L : string -> list (string * option handler))
    (r : Runner) : Prop := {
  st_live : forall t, live (rn_world r) t = L t;
  st_go : w_go (rn_world r) = [];
  st_counts : rn_counts r = C;
  st_out : Forall passed (rn_out r) }.

Context (ctx : Ctx).

Record mid (C : gmap string Z) (L : string -> list (string * option handler))
    (r : Runner) : Prop := {
  md_ok : ok r;
  md_linked : linked N (rn_world r);
  md_ctx : ctx_depth ctx <= next_loc (w_mem (rn_world r));
  md_fine : fine r -> situation C L r }.

(** A change of the world that keeps what [main] holds. *)
Record moves (K : nat) (w w' : World InMemoryBroker) : Prop := {
  mv_wok : wok K w';
  mv_keeps : mem_keeps (w_mem w) (w_mem w');
  mv_reg : forall s id, registered w s id -> registered w' s id;
  mv_linked : linked N w -> linked N w' }.

Lemma step_ok_moves K w w' : wok K w -> step_ok K N w w' -> moves K w w'.
Proof.
  intros Hw [? ? ? ? ?]. split; try done. apply mem_extends_keeps; [|done].
  apply inv_mem, (wk_inv _ _ Hw).
Qed.

Lemma moves_mem K w m : wok K w -> mem_wf m -> mem_keeps (w_mem w) m -> moves K w (set_mem w m).
Proof.
  intros Hw Hwf Hk. split; [by apply wok_mem|done|done|].
  apply linked_same; [by apply keep_uuid|done..].
Qed.

Lemma moves_ok r w :
  ok r -> moves (length (rn_closures r)) (rn_world r) w -> ok (set_world r w) /\ later r (set_world r w).
Proof.
  intros Hok [Hw Hk Hr Hl]. split; [by apply ok_set_world|]. split; simpl; try done.
  - by apply keep_uuid.
  - by apply keep_next.
Qed.

Lemma moves_mid C L L' r w :
  mid C L r -> moves (length (rn_closures r)) (rn_world r) w ->
  (fine r -> (forall t, live w t = L' t) /\ w_go w = []) ->
  mid C L' (set_world r w) /\ later r (set_world r w).
Proof.
  intros [Hok Hlk Hctx Hf] Hm HL. destruct (moves_ok r w Hok Hm) as [Hok' Hlt]. split; [|done].
  split; [done|by apply (mv_linked _ _ _ Hm)|by etrans; [|apply (lt_next _ _ Hlt)]|].
  intros Hfine. pose proof (later_fine _ _ Hlt Hfine) as Hfr.
  destruct (Hf Hfr) as [Hl Hg Hc Ho], (HL Hfr). by split.
Qed.

Lemma mem_mid C L r m :
  mid C L r -> mem_wf m -> mem_keeps (w_mem (rn_world r)) m ->
  mid C L (set_world r (set_mem (rn_world r) m)) /\ later r (set_world r (set_mem (rn_world r) m)).
Proof.
  intros Hm Hwf Hk. pose proof (ok_world _ (md_ok _ _ _ Hm)) as Hw. apply (moves_mid C L L); [done| |].
  - by apply moves_mem.
  - intros Hf. destruct (md_fine _ _ _ Hm Hf). by split.
Qed.

Lemma report_mid C L r vs :
  mid C L r -> (fine r -> Forall passed vs) -> mid C L (set_out r (rn_out r ++ vs)).
Proof.
  intros [Hok Hlk Hctx Hf] Hvs. split; try done; [by destruct Hok|]. intros Hfine.
  destruct (Hf Hfine). split; try done. by apply Forall_app; auto.
Qed.

Lemma later_out r o : later r (set_out r o).
Proof. by split. Qed.

Lemma ranges_mid C L r n : mid C L r -> mid C L (set_ranges r n).
Proof.
  intros [Hok Hlk Hctx Hf]. split; try done; [by destruct Hok|]. intros Hfine.
  by destruct (Hf Hfine).
Qed.

(** The closures [main] makes. *)
Definition new_ok (r : Runner) (c : closure) : Prop :=
  match c with
  | AppendMessage ms => ms = []
  | AppendValue _ => True
  | CountTopic t => is_Some (rn_counts r !! t)
  | Wrapped _ d => onFailure d = None
  end.

Lemma new_closure_mid C L c r :
  mid C L r -> new_ok r c ->
  let r' := set_closures r (rn_closures r ++ [c]) in
  new_closure c r = (Ok (length (rn_closures r)), r') /\ mid C L r' /\ later r r' /\
  rn_closures r' !! length (rn_closures r) = Some c.
Proof.
  intros [[Hokw Hcnt Hrec Hdlq] Hlk Hctx Hf] Hc r'. split; [done|]. split; [|split; [by split|]].
  2:{ simpl. by rewrite list_lookup_middle. }
  assert (forall h c', rn_closures r' !! h = Some c' -> rn_closures r !! h = Some c' \/ c' = c) as Hcase.
  { intros h c'. simpl. rewrite lookup_app. destruct (rn_closures r !! h); [auto|].
    intros [_ <-]%list_lookup_singleton_Some. by right. }
  split; try done; [split; simpl|].
  - rewrite length_app. eapply wok_mono; [|done]. lia.
  - intros h t [?| <-]%Hcase; [by eapply Hcnt|done].
  - intros h ms m [?| <-]%Hcase; [by eapply Hrec|]. simpl in Hc. subst ms. by intros ?%elem_of_nil.
  - intros h n d [?| <-]%Hcase; [by eapply Hdlq|done].
  - intros Hfine. by destruct (Hf Hfine).
Qed.

Lemma on_world_eq {A} (c : GoM (World InMemoryBroker) A) r a w :
  c (rn_world r) = (Ok a, w) -> on_world c r = (Ok a, set_world r w).
Proof. unfold on_world. by intros ->. Qed.

Lemma on_store_eq {A} (c : GoM mem A) r a m :
  c (w_mem (rn_world r)) = (Ok a, m) -> on_store c r = (Ok a, set_world r (set_mem (rn_world r) m)).
Proof. unfold on_store, on_world, on_mem. by intros ->. Qed.

Lemma subscribe_mid C L t h r :
  mid C L r -> h < length (rn_closures r) -> exists s id w,
    on_world (Ops.Subscribe ctx t (Some h) []) r = (Ok (Some s, None), set_world r w) /\
    mid C (fun t' => L t' ++ (if decide (t = t') then [(id, Some h)] else [])) (set_world r w) /\
    later r (set_world r w) /\ registered w s id /\
    mem_extends (w_mem (rn_world r)) (w_mem w).
Proof.
  intros Hm Hh. pose proof (ok_world _ (md_ok _ _ _ Hm)) as Hw.
  destruct (subscribe_kit _ N ctx t h _ Hw Hh)
    as (s & id & w & Hrun & Hw' & Hext & Hgo & Hs & Hr & Hl & Hlive).
  exists s, id, w. split; [by apply on_world_eq|].
  assert (moves (length (rn_closures r)) (rn_world r) w) as Hmv.
  { split; try done. apply mem_extends_keeps; [apply ok_wf, Hm|done]. }
  destruct (moves_mid C L (fun t' => L t' ++ (if decide (t = t') then [(id, Some h)] else [])) r w
    Hm Hmv) as [? ?]; [|done].
  intros Hf. destruct (md_fine _ _ _ Hm Hf) as [HL Hg _ _]. split; [|congruence].
  intros t'. by rewrite Hlive, HL.
Qed.

Lemma unsubscribe_mid C L s id r :
  mid C L r -> registered (rn_world r) s id -> exists w,
    unsubscribe (Some s) r = (Ok tt, set_world r w) /\
    mid C (fun t => filter (fun y => y.1 <> id) (L t)) (set_world r w) /\
    later r (set_world r w).
Proof.
  intros Hm Hs. pose proof (ok_world _ (md_ok _ _ _ Hm)) as Hw.
  destruct (unsubscribe_kit _ N s id _ Hw Hs) as (w & Hrun & Hw' & Hmem & Hgo & Hr & Hl & Hlive).
  exists w. split.
  { unfold unsubscribe. by rewrite (bind_ok _ _ _ _ _ (on_world_eq _ _ _ _ Hrun)). }
  apply (moves_mid C L); [done|split; [done|by rewrite Hmem|done|done]|].
  intros [Hlate HN]. destruct (md_fine _ _ _ Hm) as [HL Hg _ _]; [done|]. split; [|congruence].
  intros t. rewrite Hlive, HL; [done|]. by apply (md_linked _ _ _ Hm).
Qed.

Lemma waited_mid P C' L r r' :
  waited P r r' -> linked N (rn_world r) -> ctx_depth ctx <= next_loc (w_mem (rn_world r)) ->
  (fine r -> (forall t, live (rn_world r) t = L t) /\ Forall passed (rn_out r)) ->
  (holds P r' -> rn_counts r' = C') -> mid C' L r'.
Proof.
  intros [Hok Hlt Hout Hlive Hext Hlen Hf] Hlk Hctx HL HC.
  split; [done|by apply (lt_linked _ _ Hlt)|by etrans; [|apply (lt_next _ _ Hlt)]|].
  intros Hfine. destruct (Hf Hfine) as [HP Hgo], (HL (later_fine _ _ Hlt Hfine)) as [HL' Ho].
  split; [intros t; by rewrite Hlive|done|by apply HC|by rewrite Hout].
Qed.

(** Goroutines run while [main] is preempted. *)
Lemma yield_spec P r :
  stable r P -> ok r -> (fine r -> holds P r) ->
  wp (yield tr) (fun _ r' => ok r' /\ calm r r' /\ (fine r' -> holds P r')) r.
Proof. intros Hst Hok HP. apply (sleep_spec r P Hst). by apply waiting_start. Qed.

(** Between two operations of [main] none is left to run, if all is fine. *)
Lemma yield_mid C L r :
  mid C L r ->
  wp (yield tr) (fun _ r' => mid C L r' /\ later r r' /\
    (forall t, live (rn_world r') t = live (rn_world r) t) /\
    (fine r' -> rn_closures r' = rn_closures r)) r.
Proof.
  intros Hm. set (P := fun (w : World InMemoryBroker) (cs : list closure) (cnt : gmap string Z) =>
    w_go w = [] /\ cs = rn_closures r /\ cnt = C).
  eapply wp_mono; [apply (yield_spec P)|].
  - intros r1 i tk h c ct r2 _ _ (Hgo & _) Hi. by rewrite Hgo in Hi.
  - apply Hm.
  - intros Hf. by destruct (md_fine _ _ _ Hm Hf) as [_ Hgo Hcn _].
  - intros [] r' (Hok & Hc & HP). pose proof (calm_later _ _ Hc) as Hlt.
    split_and!; [|done|intros t; by apply calm_live|by intros (_ & ? & _)%HP].
    split; [done|apply (lt_linked _ _ Hlt), Hm|etrans; [apply Hm|apply Hlt]|].
    intros Hf. destruct (HP Hf) as (Hgo & _ & Hcn), (md_fine _ _ _ Hm (later_fine _ _ Hlt Hf)).
    split; [|done|done|by rewrite (cm_out _ _ Hc)].
    intros t. by rewrite (calm_live _ _ _ Hc).
Qed.
End Spec.
