(* ===== verification/ChallengePubSub.v ===== *)
(** * Sections 1 to 3 of the challenge runner

    The lifecycle, the round trip of one fixture through publish and
    subscribe, and the batch. *)

From Stdlib Require Import ZArith Lia.
From stdpp Require Import base gmap strings list fin_maps.
From S2P Require Import Prelude Store I18n Errors Message MessageJson Broker Float64 Retry InMemory.
From S2P Require Import InMemorySubs InMemoryProps PubSub ConsumerGroup DeadLetter Codecs.
From S2P Require Import SyncProducer Runner Challenge ChallengeWorld ChallengeGroup ChallengeRun.
From S2P Require Import ChallengeSpec.

(** The clock stays in the years JSON can tell. *)
Class ClockSpec {En : Env} : Prop :=
  clock_years : forall i, json_time (clock_time i).

Section PubSub.
Context {En : Env} {MR : MapRange} {MRS : MapRangeSpec} {Pf : Platform} {Sc : Scheduler}.
Context {CB : Callbacks InMemoryBroker} {J : JSON (gmap string string)}.
Context {AJ : AliasJSON} {AJS : AliasJSONSpec} {CS : ClockSpec}.
Context (tr : Translator any) (N : nat) {UU : UuidSpec N} (ctx : Ctx).

Lemma mid_ext C L L' r : (forall t, L t = L' t) -> mid N ctx C L r -> mid N ctx C L' r.
Proof.
  intros HL [? ? ? Hf]. split; try done. intros Hfine. destruct (Hf Hfine) as [Hl ? ? ?].
  split; try done. intros t. by rewrite Hl.
Qed.

Lemma on_store_pure {A} (c : GoM mem A) r a :
  c (w_mem (rn_world r)) = (Ok a, w_mem (rn_world r)) -> on_store c r = (Ok a, r).
Proof. intros Hc. rewrite (on_store_eq _ _ _ _ Hc). by destruct r as [[]]. Qed.

(** What a check does to the state: it ranges over maps, reports, and may make
    objects. *)
Definition reported (r : Runner) (vs : list verdict) (r' : Runner) : Prop :=
  exists n m, r' = set_out (set_ranges (set_world r (set_mem (rn_world r) m)) n) (rn_out r ++ vs) /\
    (mem_wf (w_mem (rn_world r)) -> mem_wf m /\ mem_extends (w_mem (rn_world r)) m).

Lemma reported_intro r n vs : reported r vs (set_out (set_ranges r n) (rn_out r ++ vs)).
Proof. exists n, (w_mem (rn_world r)). split; [by destruct r as [[]]|done]. Qed.

Lemma reported_nil r : reported r [] r.
Proof.
  replace r with (set_out (set_ranges r (rn_ranges r)) (rn_out r ++ [])) at 2; [apply reported_intro|].
  rewrite app_nil_r. by destruct r.
Qed.

Lemma reported_out r v : reported r [v] (set_out r (rn_out r ++ [v])).
Proof. exact (reported_intro r (rn_ranges r) [v]). Qed.

Lemma reported_store r m :
  mem_wf m -> mem_extends (w_mem (rn_world r)) m ->
  reported r [] (set_world r (set_mem (rn_world r) m)).
Proof.
  intros Hwf Hext. exists (rn_ranges r), m. split; [|done]. rewrite app_nil_r. by destruct r.
Qed.

Lemma reported_mid C L r vs r' :
  reported r vs r' -> mid N ctx C L r -> (fine N r -> Forall passed vs) ->
  mid N ctx C L r' /\ later N r r'.
Proof.
  intros (n & m & -> & Hm) Hmid Hvs. pose proof (ok_wf _ (md_ok _ _ _ _ _ Hmid)) as Hwf.
  destruct (Hm Hwf) as [Hwf' Hext].
  destruct (mem_mid N ctx C L r m Hmid Hwf') as [Hmid' Hlt]; [by apply mem_extends_keeps|].
  split; [|by destruct Hlt]. set (r1 := set_world r _) in *.
  apply (report_mid N ctx C L (set_ranges r1 n)); [by apply ranges_mid|].
  intros Hf. by apply Hvs, (later_fine _ _ _ Hlt).
Qed.

Lemma reported_content r vs r' l ct :
  reported r vs r' -> mem_wf (w_mem (rn_world r)) -> content_of (w_mem (rn_world r)) l = Some ct ->
  mem_wf (w_mem (rn_world r')) /\ content_of (w_mem (rn_world r')) l = Some ct.
Proof.
  intros (n & m & -> & Hm) Hwf Hct. destruct (Hm Hwf) as [Hwf' Hext]. split; [done|]. simpl.
  rewrite (content_of_extends (w_mem (rn_world r)) m); [done..|]. by eapply content_live.
Qed.

Lemma value_string_eq l ct r :
  content_of (w_mem (rn_world r)) l = Some ct ->
  value_string (Some l) r = (Ok (string_of (default [] (c_value ct))), r).
Proof.
  intros Hct. destruct (value_string_spec l ct r Hct) as (x & Hx & Hv & _ & _).
  unfold value_string. rewrite (bind_ok _ _ _ _ _ (on_store_pure _ _ _ Hx)).
  by rewrite (bind_ok _ _ _ _ _ (on_store_pure _ _ _ Hv)).
Qed.

Lemma key_string_eq l ct r :
  content_of (w_mem (rn_world r)) l = Some ct ->
  key_string (Some l) r = (Ok (string_of (default [] (c_key ct))), r).
Proof.
  intros Hct. destruct (value_string_spec l ct r Hct) as (x & Hx & _ & Hk & _).
  unfold key_string. rewrite (bind_ok _ _ _ _ _ (on_store_pure _ _ _ Hx)).
  by rewrite (bind_ok _ _ _ _ _ (on_store_pure _ _ _ Hk)).
Qed.

Lemma GetHeader_eq l k m c :
  content_of m l = Some c ->
  GetHeader (Some l) k m = (Ok (default "" (default ∅ (c_headers c) !! k)), m).
Proof.
  intros (x & Hx & _ & _ & _ & _ & _ & Hh)%content_fields. unfold GetHeader, bind, load_msg.
  rewrite Hx. unfold headers_content in Hh. destruct (msg_Headers x) as [h|].
  - unfold load_map. simpl in Hh. destruct (maps_of m !! h) as [hs|]; [|done].
    injection Hh as <-. done.
  - injection Hh as <-. simpl. by rewrite lookup_empty.
Qed.

(** The content carries what the fixture says. *)
Record carries (f : fixturePayload) (ct : content) : Prop := {
  ca_value : string_of (default [] (c_value ct)) = Value f;
  ca_key : string_of (default [] (c_key ct)) = Key f;
  ca_topic : c_topic ct = Topic f;
  ca_headers : default ∅ (c_headers ct) = Headers f;
  ca_time : json_time (c_time ct) }.

(** The messages a closure has received are live. *)
Lemma messages_live h r m :
  ok r -> m ∈ messages_at h r -> exists l ct, m = Some l /\ content_of (w_mem (rn_world r)) l = Some ct.
Proof.
  intros Hok. unfold messages_at.
  destruct (rn_closures r !! h) as [[ms| | |]|] eqn:Hh; try by intros ?%elem_of_nil.
  intros Hm. destruct (ok_received _ Hok _ _ _ Hh Hm) as (l & -> & Hl).
  destruct (content_of_is_Some _ _ (ok_wf _ Hok) Hl) as [ct Hct]. by exists l, ct.
Qed.

Lemma reported_trans r1 vs1 r2 vs2 r3 :
  reported r1 vs1 r2 -> reported r2 vs2 r3 -> reported r1 (vs1 ++ vs2) r3.
Proof.
  intros (n & m & -> & Hm) (n' & m' & -> & Hm'). exists n', m'. simpl. rewrite app_assoc.
  split; [done|]. intros Hwf. destruct (Hm Hwf) as [Hwf1 ?], (Hm' Hwf1). split; [done|by etrans].
Qed.

(** A check whose outcome is a pass when [P] holds. *)
Definition checks (P : Prop) (c : GoM Runner unit) (r : Runner) : Prop :=
  wp c (fun _ r' => exists vs, reported r vs r' /\ (P -> Forall passed vs)) r.

Lemma checks_fail (P : Prop) s r : ~ P -> checks P (fail s) r.
Proof.
  intros HP. apply wp_modify. exists [FAIL s]. split; [apply reported_out|done].
Qed.

Lemma checks_pass P s r : checks P (pass s) r.
Proof.
  apply wp_modify. exists [PASS s]. split; [apply reported_out|].
  intros _. by constructor.
Qed.

Lemma checks_ret P r : checks P (ret tt) r.
Proof. apply wp_ret. exists []. split; [apply reported_nil|done]. Qed.

Lemma checks_seq P c1 c2 r :
  checks P c1 r -> (forall vs r', reported r vs r' -> checks P c2 r') -> checks P (c1 ;;; c2) r.
Proof.
  intros H1 H2. apply wp_bind. eapply wp_mono; [exact H1|]. intros [] r1 (vs1 & Hr1 & Hp1).
  eapply wp_mono; [exact (H2 _ _ Hr1)|]. intros [] r2 (vs2 & Hr2 & Hp2).
  exists (vs1 ++ vs2). split; [by eapply reported_trans|]. intros HP. apply Forall_app. auto.
Qed.

Lemma checks_range {A} P (l : list A) body r :
  (forall x vs r', x ∈ l -> reported r vs r' -> checks P (body x) r') -> checks P (for_range l body) r.
Proof.
  revert r. induction l as [|x l IH]; intros r Hb; simpl; [apply checks_ret|].
  apply checks_seq; [apply (Hb x []); [by left|apply reported_nil]|].
  intros vs r' Hr. apply IH. intros y vs' r'' Hy Hr'. apply (Hb y (vs ++ vs')); [by right|].
  by eapply reported_trans.
Qed.

(** A check that first runs [c], which only reads. *)
Lemma checks_read {A} P (c : GoM Runner A) k r a :
  c r = (Ok a, r) -> checks P (k a) r -> checks P (bind c k) r.
Proof. intros Hc Hk. unfold checks, wp. by rewrite (bind_ok _ _ _ _ _ Hc). Qed.

Lemma checks_next_range P k r :
  (forall n r', reported r [] r' -> checks P (k n) r') -> checks P (bind next_range k) r.
Proof.
  intros Hk. unfold checks. apply wp_bind. eapply wp_intro; [reflexivity|].
  assert (reported r [] (set_ranges r (S (rn_ranges r)))) as Hr.
  { replace (set_ranges r _) with (set_out (set_ranges r (S (rn_ranges r))) (rn_out r ++ []));
      [apply reported_intro|]. rewrite app_nil_r. by destruct r. }
  eapply wp_mono; [exact (Hk _ _ Hr)|]. intros [] r2 (vs & Hr2 & Hp). exists vs.
  split; [|done]. by apply (reported_trans _ [] _ vs _ Hr).
Qed.

Lemma checks_if P b s c r : (b = true -> ~ P) -> (b = false -> checks P c r) ->
  checks P (if b then fail s else c) r.
Proof. intros Ht Hf. destruct b; [by apply checks_fail, Ht|by apply Hf]. Qed.

(** A check that comes to [c'] in a store with more objects. *)
Lemma checks_from P c c' r m :
  let r' := set_world r (set_mem (rn_world r) m) in
  c r = c' r' -> mem_wf m -> mem_extends (w_mem (rn_world r)) m -> checks P c' r' -> checks P c r.
Proof.
  intros r' Hc Hwf Hext Hk. unfold checks, wp. rewrite Hc.
  eapply wp_mono; [exact Hk|]. intros [] r2 (vs & Hr2 & Hp). exists vs.
  split; [|done]. by eapply (reported_trans _ [] _ vs); [apply reported_store|].
Qed.

(** The fixture's message is what the closure [h] has received. *)
Definition received_one (f : fixturePayload) (h : nat) (r : Runner) : Prop :=
  exists l ct, messages_at h r = [Some l] /\ content_of (w_mem (rn_world r)) l = Some ct /\
    carries f ct.

Lemma check_json_spec (P : Prop) f l ct r :
  mem_wf (w_mem (rn_world r)) -> content_of (w_mem (rn_world r)) l = Some ct ->
  (P -> carries f ct) -> checks P (check_json f (Some l)) r.
Proof using AJS.
  intros Hwf Hct HP. unfold check_json. destruct (alias_Marshal ct) as [bs|e] eqn:Hbs.
  2:{ eapply checks_read.
    { apply on_store_pure. unfold MarshalJSON, bind, load_content. by rewrite Hct, Hbs. }
    apply checks_fail. intros [_ _ _ _ Ht]%HP. destruct (alias_Marshal_ok ct Ht). congruence. }
  destruct (wp_run _ _ _ (MarshalJSON_spec l ct bs _ Hwf Hct Hbs))
    as (x & m1 & Hm & data & -> & Hwf1 & Hext1 & Hok & Hrd).
  destruct (UnmarshalJSON_zero (Some data) bs m1 Hwf1 Hok Hrd)
    as (k & m2 & e & m3 & c & Hnew & Hun & Hwf3 & Hext3 & Hc & Hall).
  eapply (checks_from P _ _ r m3).
  { pose (st := fun m => set_world r (set_mem (rn_world r) m)).
    rewrite (bind_ok _ _ _ _ _ (on_store_eq (MarshalJSON (Some l)) r _ m1 Hm)). cbv beta iota.
    rewrite (bind_ok _ _ _ _ _ (on_store_eq (new_msg zero_Message) (st m1) k m2 Hnew)).
    exact (bind_ok _ _ _ _ _ (on_store_eq (UnmarshalJSON (Some k) (Some data)) (st m2) e m3 Hun)). }
  { done. }
  { by etrans. }
  assert (P -> e = None /\ c_value c = c_value ct) as Hback.
  { intros [_ _ _ _ Ht]%HP. destruct (alias_roundtrip ct bs Ht Hbs) as (Hv & kvs & _ & Hdec).
    destruct (Hall Hv) as [-> ->]. rewrite Hdec.
    split; [done|apply alias_fields_value]. }
  destruct e as [e|]; [by apply checks_fail; intros [? _]%Hback|].
  eapply checks_read; [by apply value_string_eq|]. apply checks_if; [|intros; apply checks_pass].
  intros Hne%negb_true_iff%bool_decide_eq_false Hp. apply Hne.
  destruct (Hback Hp) as [_ ->]. by apply HP.
Qed.

Lemma check_delivery_spec f h r : ok r -> checks (received_one f h r) (check_delivery f h) r.
Proof.
  intros Hok. unfold check_delivery. eapply checks_read; [reflexivity|]. unfold received_one.
  destruct (messages_at h r) as [|m [|m2 ms]] eqn:Hms.
  1,3: apply checks_fail; by intros (? & ? & ? & _).
  destruct (messages_live h r m Hok) as (l & ct & -> & Hct); [rewrite Hms; by left|].
  set (P := exists _, _). assert (P -> carries f ct) as HP.
  { intros (l' & ct' & [= <-] & Hct' & Hca). rewrite Hct in Hct'. by injection Hct' as <-. }
  clearbody P. simpl. destruct (value_string_spec l ct r Hct) as (x & Hx & _ & _ & Htx).
  eapply checks_read; [by apply value_string_eq|]. apply checks_if.
  { intros Hne%negb_true_iff%bool_decide_eq_false Hp. by destruct (HP Hp). }
  intros _. eapply checks_read; [by apply key_string_eq|]. apply checks_if.
  { intros Hne%negb_true_iff%bool_decide_eq_false Hp. by destruct (HP Hp). }
  intros _. eapply checks_read; [by apply on_store_pure|]. apply checks_if.
  { intros Hne%negb_true_iff%bool_decide_eq_false Hp. rewrite Htx in Hne. by destruct (HP Hp). }
  intros _. apply checks_next_range. intros n r1 Hr1. apply checks_seq.
  2:{ intros vs r2 Hr2. apply checks_seq; [apply checks_pass|]. intros vs' r3 Hr3.
    destruct (reported_content r (([] ++ vs) ++ vs') r3 l ct) as [Hwf3 Hct3]; [|by apply ok_wf|done|].
    { by eapply reported_trans; [eapply reported_trans|]. }
    by apply (check_json_spec P f l ct). }
  apply checks_range. intros [k v] vs r2 Hin%range_lookup Hr2. simpl.
  eapply checks_read.
  { apply on_store_pure, GetHeader_eq.
    apply (reported_content r ([] ++ vs) r2); [by eapply reported_trans|by apply ok_wf|done]. }
  apply checks_if; [|intros; apply checks_ret].
  intros Hne%negb_true_iff%bool_decide_eq_false Hp. destruct (HP Hp) as [_ _ _ Hh].
  by rewrite Hh, Hin in Hne.
Qed.

(** ** The messages main builds *)

Lemma text_message_spec topic s r :
  mem_wf (w_mem (rn_world r)) -> exists l m id t,
    text_message topic s r = (Ok l, set_world r (set_mem (rn_world r) m)) /\
    mem_wf m /\ mem_extends (w_mem (rn_world r)) m /\
    content_of m l =
      Some (mkContent id topic None (Some (String.list_byte_of_string s)) (Some ∅) t).
Proof.
  intros Hwf.
  destruct (wp_run _ _ _ (new_array_read (String.list_byte_of_string s) _ Hwf))
    as (v & m1 & Hnew & Hwf1 & Hext1 & Hs & Hrd).
  destruct (wp_run _ _ _ (NewMessage_value topic v _ _ m1 Hwf1 Hext1 Hs Hrd
    ltac:(unfold new_array in Hnew; by injection Hnew as <- _)))
    as (l & m2 & Hmsg & Hwf2 & Hext2 & _ & _ & _ & _ & id & t & Hc).
  exists l, m2, id, t. split_and!; [|done..]. unfold text_message.
  rewrite (bind_ok _ _ _ _ _ (on_store_eq _ _ _ _ Hnew)).
  exact (on_store_eq _ (set_world r (set_mem (rn_world r) m1)) _ _ Hmsg).
Qed.

Lemma NewMessageWithKey_value topic k v kb vb m0 m1 :
  mem_wf m1 -> mem_extends m0 m1 -> slice_ok m1 k -> slice_ok m1 v ->
  read_slice m1 (Some k) = Some kb -> read_slice m1 (Some v) = Some vb ->
  next_loc m0 <= sl_arr k -> next_loc m0 <= sl_arr v ->
  wp (NewMessageWithKey topic (Some k) (Some v)) (fun l m2 => mem_wf m2 /\ mem_extends m0 m2 /\
    all_fresh m0 m2 l /\ is_Some (msgs_of m2 !! l) /\
    exists id t, content_of m2 l = Some (mkContent id topic (Some kb) (Some vb) (Some ∅) t)) m1.
Proof.
  intros Hwf1 Hext1 Hk Hv Hrk Hrv Hfk Hfv. unfold NewMessageWithKey. wp_step.
  eapply wp_mono; [by eapply (NewMessage_value topic v vb m0)|].
  intros l m2 (Hwf2 & Hext2 & Hext12 & Hfr & _ & Hl & id & t & Hc).
  destruct (content_fields _ _ _ Hc) as (x & Hx & Hid & Htp & Hts & _ & Hvc & Hhc).
  cbn [c_id c_topic c_time c_value c_headers] in *.
  destruct (wf_msgs _ Hwf2 _ _ Hx) as [Hlt (_ & Hxv & Hxh)].
  assert (slice_ok m2 k) as Hk2 by (by apply (slice_ok_extends m1 m2)).
  pose proof (ext_next _ _ Hext1).
  wp_step. eapply wp_intro; [unfold update_msg; by rewrite Hx|]. wp_step. split_and!.
  - apply put_msg_wf; [done|done|]. by split_and!.
  - apply put_msg_extends; [done|lia].
  - intros y. specialize (Hfr y). revert Hfr. unfold footprint. simpl. rewrite lookup_insert_eq, Hx.
    simpl. rewrite !elem_of_cons, !elem_of_app. set_solver.
  - simpl. by rewrite lookup_insert_eq.
  - exists id, t. unfold content_of. simpl. rewrite lookup_insert_eq. simpl.
    assert (slice_content m2 (Some k) = Some (Some kb)) as Hkc.
    { unfold slice_content. by rewrite (read_slice_extends m1 m2), Hrk. }
    unfold slice_content, headers_content, read_slice in *. simpl in *.
    rewrite Hkc. simpl. rewrite Hvc. simpl. rewrite Hhc. simpl. by rewrite Hid, Htp, Hts.
Qed.

(** Headers set one after the other, in any order. *)
Lemma set_headers_spec l c hs m0 r :
  NoDup hs.*1 -> mem_wf (w_mem (rn_world r)) -> mem_extends m0 (w_mem (rn_world r)) ->
  all_fresh m0 (w_mem (rn_world r)) l ->
  content_of (w_mem (rn_world r)) l = Some c -> c_headers c = Some ∅ ->
  wp (for_range hs (fun kv => let! _ := on_store (SetHeader (Some l) kv.1 kv.2) in ret tt))
    (fun _ r' => exists m, r' = set_world r (set_mem (rn_world r) m) /\ mem_wf m /\
       mem_extends m0 m /\
       content_of m l = Some (mkContent (c_id c) (c_topic c) (c_key c) (c_value c)
         (Some (list_to_map hs)) (c_time c))) r.
Proof.
  intros Hnd Hwf Hext Hfr Hc Hh.
  eapply wp_mono; [apply (wp_for_range _ (fun pre r' => exists m H,
    r' = set_world r (set_mem (rn_world r) m) /\ mem_wf m /\ mem_extends m0 m /\ all_fresh m0 m l /\
    content_of m l = Some (mkContent (c_id c) (c_topic c) (c_key c) (c_value c) (Some H) (c_time c)) /\
    forall k v, H !! k = Some v <-> (k, v) ∈ pre))|].
  - exists (w_mem (rn_world r)), ∅. split; [by destruct r as [[]]|]. split_and!; [done..| |].
    + rewrite Hc. by destruct c; simpl in *; subst.
    + intros k v. rewrite lookup_empty, elem_of_nil. by split.
  - intros pre [k v] rest _ -> (m & H & -> & Hwfm & Hextm & Hfrm & Hcm & HH).
    destruct (wp_run _ _ _ (SetHeader_spec l k v m Hwfm (content_live _ _ _ Hcm)))
      as (o & m' & Hrun & _ & Hwf' & _ & Hct & Hkeep). destruct (Hkeep m0 Hextm Hfrm) as [Hext' Hfr'].
    unfold wp. simpl fst. simpl snd.
    rewrite (bind_ok _ _ _ _ _ (on_store_eq _ (set_world r (set_mem (rn_world r) m)) _ _ Hrun)).
    simpl. exists m', (<[k := v]> H). split; [done|]. split_and!; [done..| |].
    + by rewrite Hct, Hcm.
    + intros k' v'. rewrite lookup_insert_Some, HH, elem_of_app, list_elem_of_singleton.
      rewrite fmap_app, fmap_cons in Hnd. apply NoDup_app in Hnd as (_ & Hnin & _). split.
      * intros [[-> ->]|[_ ?]]; [by right|by left].
      * intros [Hin|[= -> ->]]; [|by left]. right. split; [|done]. intros ->.
        apply (Hnin k'); [by apply (list_elem_of_fmap_2 fst _ (k', v'))|by left].
  - intros _ r' (m & H & -> & Hwfm & Hextm & _ & Hcm & HH). exists m. split_and!; [done..|].
    rewrite Hcm. do 3 f_equal. apply map_eq. intros k. apply option_eq. intros v.
    rewrite HH. by apply elem_of_list_to_map.
Qed.

Lemma fixture_message_spec f r :
  ok r -> exists l m n id t,
    fixture_message f r = (Ok l, set_ranges (set_world r (set_mem (rn_world r) m)) n) /\
    mem_wf m /\ mem_extends (w_mem (rn_world r)) m /\
    content_of m l = Some (mkContent id (Topic f) (Some (String.list_byte_of_string (Key f)))
      (Some (String.list_byte_of_string (Value f))) (Some (Headers f)) t).
Proof.
  intros Hok. pose proof (ok_wf _ Hok) as Hwf. set (m0 := w_mem (rn_world r)) in *.
  destruct (wp_run _ _ _ (new_array_read (String.list_byte_of_string (Key f)) _ Hwf))
    as (k & m1 & Hk & Hwf1 & Hext1 & Hks & Hkr).
  destruct (wp_run _ _ _ (new_array_read (String.list_byte_of_string (Value f)) _ Hwf1))
    as (v & m2 & Hv & Hwf2 & Hext2 & Hvs & Hvr).
  assert (next_loc m0 <= sl_arr k) as Hfk by (unfold new_array in Hk; by injection Hk as <- _).
  assert (next_loc m0 <= sl_arr v) as Hfv.
  { pose proof (ext_next _ _ Hext1). unfold new_array in Hv. by injection Hv as <- _. }
  assert (mem_extends m0 m2) as Hext02 by (by etrans).
  destruct (wp_run _ _ _ (NewMessageWithKey_value (Topic f) k v _ _ m0 m2 Hwf2 Hext02
    (slice_ok_extends _ _ Hwf1 Hext2 _ Hks) Hvs
    (eq_trans (read_slice_extends m1 m2 Hwf1 Hext2 (Some k) Hks) Hkr) Hvr Hfk Hfv))
    as (l & m3 & Hmsg & Hwf3 & Hext3 & Hfr3 & _ & id & t & Hc3).
  set (n := S (rn_ranges r)).
  set (r3 := set_ranges (set_world r (set_mem (rn_world r) m3)) n).
  destruct (wp_run _ _ _ (set_headers_spec l _ (map_range (rn_ranges r) (Headers f)) m0 r3
    ltac:(apply range_NoDup) Hwf3 Hext3 Hfr3 Hc3 eq_refl)) as ([] & r4 & Hset & m4 & -> & Hwf4 & Hext4 & Hc4).
  exists l, m4, n, id, t. rewrite range_map in Hc4. split_and!; [|done..].
  unfold fixture_message, bytes_of_string.
  rewrite (bind_ok _ _ _ _ _ (on_store_eq _ r _ _ Hk)).
  rewrite (bind_ok _ _ _ _ _ (on_store_eq _ (set_world r (set_mem (rn_world r) m1)) _ _ Hv)).
  rewrite (bind_ok _ _ _ _ _ (on_store_eq _ (set_world r (set_mem (rn_world r) m2)) _ _ Hmsg)).
  assert (next_range (set_world r (set_mem (rn_world r) m3)) = (Ok (rn_ranges r), r3)) as Hnext by done.
  rewrite (bind_ok _ _ _ _ _ Hnext). by rewrite (bind_ok _ _ _ _ _ Hset).
Qed.

(** ** Publishing *)

Lemma publish_moves r t l c :
  ok r -> content_of (w_mem (rn_world r)) l = Some c -> exists w ms now,
    on_world (Ops.Publish ctx t (Some l) []) r = (Ok None, set_world r w) /\
    ok (set_world r w) /\ later N r (set_world r w) /\
    (forall t', live w t' = live (rn_world r) t') /\
    mem_extends (w_mem (rn_world r)) (w_mem w) /\
    w_go w = w_go (rn_world r) ++ zip_with (task_to ctx) (live (rn_world r) t) ms /\
    length ms = length (live (rn_world r) t) /\
    Forall (fun m => content_of (w_mem w) m = Some (published t (clock_time now) c)) ms.
Proof.
  intros Hok Hc.
  destruct (publish_kit _ N ctx t l c _ (ok_world _ Hok) Hc)
    as (w & ms & now & Hrun & Hw & Hext & Hs & Hi & Hl & Hgo & Hlen & Hms).
  exists w, ms, now. split; [by apply on_world_eq|].
  destruct (moves_ok N r w Hok) as [Hok' Hlt].
  { split; [done|by apply mem_extends_keeps, Hext; apply ok_wf| |done].
    intros s id (x & Hx & ?). exists x. by rewrite Hi. }
  split_and!; [done..| |done|done|done|done]. intros t'. unfold live. by rewrite Hs.
Qed.

(** One listener, one message: it is waiting to run, or received. *)
Definition one_delivery (ctx' : Ctx) (h : nat) (c : content) (C : gmap string Z)
    (w : World InMemoryBroker) (cs : list closure) (cnt : gmap string Z) : Prop :=
  cnt = C /\ exists l, content_of (w_mem w) l = Some c /\
    (w_go w = [mkTask (Some h) ctx' l] /\ cs !! h = Some (AppendMessage []) \/
     w_go w = [] /\ cs !! h = Some (AppendMessage [Some l])).

Lemma one_delivery_stable ctx' h c C r : stable r (one_delivery ctx' h c C).
Proof.
  intros r1 i tk h' c' ct r2 Hok _ (HC & l & Hl & [[Hgo Hcl]|[Hgo _]]) Hi Hh Hc' Hct Heff _;
    rewrite Hgo in Hi; [|done].
  apply list_lookup_singleton_Some in Hi as [-> <-]. simpl in Hh. injection Hh as <-.
  rewrite Hcl in Hc'. injection Hc' as <-. simpl in Heff. subst r2. simpl. split; [done|].
  exists l. split; [done|]. right. unfold pop. simpl. rewrite Hgo. split; [done|].
  by rewrite list_lookup_insert_eq by (by eapply lookup_lt_Some).
Qed.

Lemma one_task ctx' L ms id h :
  L = [(id, Some h)] -> length ms = length L ->
  exists l, ms = [l] /\ zip_with (task_to ctx') L ms = [mkTask (Some h) ctx' l].
Proof. intros -> Hlen. destruct ms as [|l [|? ?]]; try done. by exists l. Qed.

(** [r'] is in the situation of [L], with its one delivery made. *)
Lemma one_delivery_mid ctx' h c C L r r' :
  waited N (one_delivery ctx' h c C) r r' -> linked N (rn_world r) ->
  ctx_depth ctx <= next_loc (w_mem (rn_world r)) ->
  (fine N r -> (forall t, live (rn_world r) t = L t) /\ Forall passed (rn_out r)) ->
  mid N ctx C L r' /\
  (fine N r' -> exists l, messages_at h r' = [Some l] /\ content_of (w_mem (rn_world r')) l = Some c).
Proof.
  intros Hw Hlk Hctx HL. split.
  - eapply waited_mid; [exact Hw|done|done|done|]. by intros [HC _].
  - intros Hf. destruct (wt_fine _ _ _ _ Hw Hf) as [(_ & l & Hl & [[Hgo _]|[_ Hcl]]) Hnil].
    + by rewrite Hgo in Hnil.
    + exists l. unfold messages_at. by rewrite Hcl.
Qed.

(** The closure [h] listens to [t], and nothing else listens. *)
Definition only (t id : string) (h : nat) (t' : string) : list (string * option handler) :=
  if decide (t = t') then [(id, Some h)] else [].

Lemma start_listening C t c r :
  mid N ctx C (fun _ => []) r -> new_ok r c -> exists s id r1 r2,
    let h := length (rn_closures r) in
    new_closure c r = (Ok h, r1) /\
    on_world (Ops.Subscribe ctx t (Some h) []) r1 = (Ok (Some s, None), r2) /\
    mid N ctx C (only t id h) r2 /\ registered (rn_world r2) s id /\ rn_closures r2 !! h = Some c.
Proof.
  intros Hm Hc. destruct (new_closure_mid N ctx C _ c r Hm Hc) as (Hnew & Hm1 & _ & Hh).
  set (r1 := set_closures r _) in *. set (h := length (rn_closures r)) in *.
  destruct (subscribe_mid N ctx C _ t h r1 Hm1) as (s & id & w2 & Hsub & Hm2 & _ & Hreg & _).
  { by eapply lookup_lt_Some. }
  by exists s, id, r1, (set_world r1 w2).
Qed.

(** Preempted while it listens. *)
Lemma yield_listening C t id h s c r :
  mid N ctx C (only t id h) r -> registered (rn_world r) s id -> rn_closures r !! h = Some c ->
  wp (yield tr) (fun _ r' => mid N ctx C (only t id h) r' /\ registered (rn_world r') s id /\
    (fine N r' -> rn_closures r' !! h = Some c)) r.
Proof.
  intros Hm Hs Hh. eapply wp_mono; [by apply (yield_mid tr N ctx C (only t id h))|].
  intros [] r' (Hm' & Hlt & _ & Hcl). split_and!; [done|by apply (lt_reg _ _ _ Hlt)|].
  intros Hf. by rewrite Hcl.
Qed.

Lemma stop_listening C t id h s r :
  mid N ctx C (only t id h) r -> registered (rn_world r) s id ->
  wp (yield tr ;;; unsubscribe (Some s)) (fun _ r' => mid N ctx C (fun _ => []) r') r.
Proof.
  intros Hm0 Hs0. wp_step.
  eapply wp_mono; [by apply (yield_mid tr N ctx C (only t id h))|].
  intros [] r1 (Hm & Hlt1 & _ & _). apply (lt_reg _ _ _ Hlt1) in Hs0 as Hs. clear r Hm0 Hs0 Hlt1.
  destruct (unsubscribe_mid N ctx C _ s id r1 Hm Hs) as (w & Hun & Hm' & _).
  eapply wp_intro; [exact Hun|]. eapply mid_ext; [|exact Hm'].
  intros t'. unfold only. case_decide; [|done]. by rewrite filter_cons_False by naive_solver.
Qed.

(** The message was handed to the only listener: waiting for it. *)
Lemma wait_one ctx' C t id h c cond r w ms :
  mid N ctx C (only t id h) r -> (fine N r -> rn_closures r !! h = Some (AppendMessage [])) ->
  ok (set_world r w) -> later N r (set_world r w) ->
  (forall t', live w t' = live (rn_world r) t') ->
  w_go w = w_go (rn_world r) ++ zip_with (task_to ctx') (live (rn_world r) t) ms ->
  length ms = length (live (rn_world r) t) ->
  Forall (fun m => content_of (w_mem w) m = Some c) ms ->
  wp (wait_until tr cond) (fun _ r' => mid N ctx C (only t id h) r' /\ later N r r' /\
    (fine N r' -> exists l, messages_at h r' = [Some l] /\
       content_of (w_mem (rn_world r')) l = Some c)) (set_world r w).
Proof.
  intros Hm Hh Hok Hlt Hlive Hgo Hlen Hms. set (r1 := set_world r w) in *.
  set (P := one_delivery ctx' h c C).
  assert (fine N r1 -> (forall t', live (rn_world r1) t' = only t id h t') /\
    Forall passed (rn_out r1) /\ holds P r1) as Hfine.
  { intros Hf. destruct (md_fine _ _ _ _ _ Hm (later_fine _ _ _ Hlt Hf)) as [HL Hg Hcn Ho].
    split; [intros t'; by rewrite <- HL|]. split; [done|]. split; [done|].
    rewrite HL in Hgo, Hlen. destruct (one_task ctx' (only t id h t) ms id h) as (l & -> & Hz).
    { unfold only. by rewrite decide_True. }
    { done. }
    exists l. split; [exact (proj1 (Forall_singleton _ _) Hms)|]. left.
    split; [|exact (Hh (later_fine _ _ _ Hlt Hf))].
    simpl. by rewrite Hgo, Hg, Hz. }
  eapply wp_mono.
  { apply (wait_until_spec tr N P _ r1); [apply one_delivery_stable|done|]. by intros (_ & _ & ?)%Hfine. }
  intros [] r2 Hw. destruct (one_delivery_mid ctx' h c C (only t id h) r1 r2 Hw) as [Hm2 Hone].
  { apply (lt_linked _ _ _ Hlt), Hm. }
  { etrans; [apply (md_ctx _ _ _ _ _ Hm)|apply (lt_next _ _ _ Hlt)]. }
  { intros Hf. by destruct (Hfine Hf) as (? & ? & _). }
  split; [done|]. split; [|done]. etrans; [exact Hlt|apply (wt_later _ _ _ _ Hw)].
Qed.

(** ** Section 1 *)

(** The state [main] starts from. *)
Record started (r : Runner) : Prop := {
  sd_closures : rn_closures r = [];
  sd_counts : rn_counts r = ∅;
  sd_out : rn_out r = [];
  sd_go : w_go (rn_world r) = [];
  sd_open : stopCh_closed (w_br (rn_world r)) = false }.

Lemma lifecycle_spec r :
  inmem_inv (rn_world r) -> subs_inv (rn_world r) -> subscribers (w_br (rn_world r)) = ∅ ->
  started r -> ctx_depth ctx <= next_loc (w_mem (rn_world r)) ->
  exists r', lifecycle ctx r = (Ok true, r') /\ mid N ctx ∅ (fun _ => []) r' /\ rn_late r' = rn_late r.
Proof.
  intros Hinv Hsub Hs [Hcl Hcn Ho Hg Hop] Hctx. destruct (Connect_spec ctx _ Hinv) as [Hrun Hinv'].
  eexists. split; [reflexivity|]. split; [|done].
  split; simpl; [|by intros _; apply (subs_inv_same (rn_world r))|done|].
  - split; simpl; [split; [done|done|done| |]|..]; simpl.
    + intros t es e. by rewrite Hs, lookup_empty.
    + intros tk. rewrite Hg. by intros ?%elem_of_nil.
    + intros h t. by rewrite Hcl.
    + intros h ms m. by rewrite Hcl.
    + intros h n d. by rewrite Hcl.
  - intros _. split; simpl; [|done|done|].
    + intros t. unfold live. simpl. unfold slice_at. by rewrite Hs, lookup_empty.
    + rewrite Ho. by repeat constructor.
Qed.

(** ** Section 2 *)

Lemma pubsub_spec C f r :
  mid N ctx C (fun _ => []) r -> wp (pubsub tr ctx f) (fun _ r' => mid N ctx C (fun _ => []) r') r.
Proof.
  intros Hm. unfold pubsub.
  destruct (start_listening C (Topic f) (AppendMessage []) r Hm eq_refl)
    as (s & id & r1 & r1' & Hnew & Hsub & Hm1 & Hreg1 & Hh1). set (h := length (rn_closures r)) in *.
  wp_step. eapply wp_intro; [exact Hnew|].
  wp_step. eapply wp_intro; [exact Hsub|]. cbv beta iota zeta.
  wp_step. eapply wp_mono; [by eapply yield_listening|]. intros [] r2 (Hm2 & Hreg & Hh).
  destruct (fixture_message_spec f r2 (md_ok _ _ _ _ _ Hm2))
    as (l & m & n & uid & t & Hmsg & Hwfm & Hext & Hc).
  wp_step. eapply wp_intro; [exact Hmsg|].
  destruct (mem_mid N ctx C _ r2 m Hm2 Hwfm) as [Hm3 Hlt3].
  { apply mem_extends_keeps; [apply ok_wf, Hm2|done]. }
  apply (ranges_mid N ctx C _ _ n) in Hm3. set (r3 := set_ranges _ n) in *.
  assert (fine N r3 -> rn_closures r3 !! h = Some (AppendMessage [])) as Hh3
    by (intros Hf; by apply Hh, (later_fine _ _ _ Hlt3)).
  destruct (publish_moves r3 (Topic f) l _ (md_ok _ _ _ _ _ Hm3) Hc)
    as (w4 & ms & now & Hpub & Hok4 & Hlt4 & Hlive4 & _ & Hgo & Hlen & Hms).
  wp_step. eapply wp_intro; [exact Hpub|]. cbv beta iota.
  wp_step. wp_step. eapply wp_mono; [by eapply (wait_one ctx C (Topic f) id h)|].
  intros [] r5 (Hm5 & Hlt5 & Hone). set (c := published _ _ _) in Hone.
  eapply wp_mono; [apply (check_delivery_spec f h r5 (md_ok _ _ _ _ _ Hm5))|].
  intros [] r6 (vs & Hrep & Hvs). destruct (reported_mid C _ r5 vs r6 Hrep Hm5) as [Hm6 Hlt6].
  { intros Hf. apply Hvs. destruct (Hone Hf) as (l' & Hl' & Hct'). exists l', c. split_and!; [done..|].
    split; simpl; try done; apply String.string_of_list_byte_of_string. }
  eapply stop_listening; [exact Hm6|].
  by apply (lt_reg _ _ _ Hlt6), (lt_reg _ _ _ Hlt5), (lt_reg _ _ _ Hlt3).
Qed.

(** ** Section 3 *)

(** The message [l] of store [m] carries the text [s]. *)
Definition carries_text (m : mem) (s : string) (l : loc) : Prop :=
  exists ct, content_of m l = Some ct /\ c_value ct = Some (String.list_byte_of_string s).

Lemma carries_text_extends m m' s l :
  mem_wf m -> mem_extends m m' -> carries_text m s l -> carries_text m' s l.
Proof.
  intros Hwf Hext (ct & Hct & Hv). exists ct. split; [|done].
  rewrite (content_of_extends m); [done..|]. by eapply content_live.
Qed.

Lemma make_batch_spec inputs r :
  mem_wf (w_mem (rn_world r)) -> exists ls m,
    make_batch inputs r = (Ok (Some <$> ls), set_world r (set_mem (rn_world r) m)) /\
    mem_wf m /\ mem_extends (w_mem (rn_world r)) m /\
    Forall2 (carries_text m) (Value <$> inputs) ls.
Proof.
  revert r. induction inputs as [|f inputs IH]; intros r Hwf; simpl.
  - exists [], (w_mem (rn_world r)). split; [by destruct r as [[]]|]. by split_and!.
  - destruct (text_message_spec batchTopic (Value f) r Hwf)
      as (l & m1 & id & t & Hmsg & Hwf1 & Hext1 & Hc).
    destruct (IH (set_world r (set_mem (rn_world r) m1)) Hwf1) as (ls & m & Hrun & Hwfm & Hext & Hls).
    exists (l :: ls), m. split_and!; [|done|by etrans|].
    + rewrite (bind_ok _ _ _ _ _ Hmsg). by rewrite (bind_ok _ _ _ _ _ Hrun).
    + constructor; [|done]. eapply carries_text_extends; [exact Hwf1|done|]. by eexists.
Qed.

(** The deliveries of a batch to the only listener of its topic. *)
Definition batch_tasks (h : nat) (m : mem) (tk : task) (s : string) : Prop :=
  task_handler tk = Some h /\ carries_text m s (task_msg tk).

Lemma batch_tasks_extends h m m' tks ss :
  mem_wf m -> mem_extends m m' -> Forall2 (batch_tasks h m) tks ss -> Forall2 (batch_tasks h m') tks ss.
Proof.
  intros Hwf Hext Hall. eapply Forall2_impl; [exact Hall|]. intros tk s [? ?]. split; [done|].
  by eapply carries_text_extends.
Qed.

Lemma batch_publish t h ls ss r :
  ok r -> Forall2 (carries_text (w_mem (rn_world r))) ss ls -> exists w,
    on_world (Ops.PublishBatch ctx t (Some <$> ls) []) r = (Ok None, set_world r w) /\
    ok (set_world r w) /\ later N r (set_world r w) /\
    (forall t', live w t' = live (rn_world r) t') /\
    mem_extends (w_mem (rn_world r)) (w_mem w) /\
    forall id, live (rn_world r) t = [(id, Some h)] ->
      exists tks, w_go w = w_go (rn_world r) ++ tks /\ Forall2 (batch_tasks h (w_mem w)) tks ss.
Proof.
  revert ss r. induction ls as [|l ls IH]; intros ss r Hok Hss; inversion Hss as [|s ? ss' ? Hs Hss']; subst.
  - exists (rn_world r). destruct r as [w cs cnt ck sl rg lt o]. split; [done|].
    split_and!; [done..|]. intros id _. exists []. by rewrite app_nil_r.
  - destruct Hs as (ct & Hct & Hv). pose proof (ok_wf _ Hok) as Hwf.
    destruct (publish_moves r t l ct Hok Hct)
      as (w1 & ms & now & Hpub & Hok1 & Hlt1 & Hlive1 & Hext1 & Hgo1 & Hlen1 & Hms).
    pose proof (ok_wf _ Hok1) as Hwf1.
    destruct (IH ss' (set_world r w1) Hok1) as (w & Hrun & Hok' & Hlt & Hlive & Hext & Htks).
    { eapply Forall2_impl; [exact Hss'|]. intros s' l'. by apply carries_text_extends. }
    exists w. split_and!; [|done|by etrans|intros t'; by rewrite Hlive|by etrans|].
    + unfold on_world in *. change (Some <$> l :: ls) with (Some l :: (Some <$> ls)). simpl.
      destruct (Ops.Publish ctx t (Some l) [] (rn_world r)) as [[|] w1'] eqn:Hp; [|done].
      injection Hpub as -> <-. rewrite (bind_ok _ _ _ _ _ Hp). exact Hrun.
    + intros id Hid. destruct (Htks id) as (tks & Hgo & Hall); [by rewrite <- Hid, <- Hlive1|].
      rewrite Hid in Hgo1, Hlen1. destruct (one_task ctx [(id, Some h)] ms id h eq_refl Hlen1)
        as (l' & -> & Hz). pose proof (proj1 (Forall_singleton _ _) Hms) as Hl'.
      exists (mkTask (Some h) ctx l' :: tks). split.
      { rewrite Hgo. simpl. rewrite Hgo1, Hz. by rewrite <- app_assoc. }
      constructor; [|done]. split; [done|]. eapply carries_text_extends; [exact Hwf1|done|].
      eexists. split; [exact Hl'|]. simpl. by rewrite Hv.
Qed.

(** Every text is waiting to be received, or was received. *)
Definition batch_delivery (h : nat) (expected : list string) (C : gmap string Z)
    (w : World InMemoryBroker) (cs : list closure) (cnt : gmap string Z) : Prop :=
  cnt = C /\ exists vs ps, cs !! h = Some (AppendValue vs) /\
    Forall2 (batch_tasks h (w_mem w)) (w_go w) ps /\ vs ++ ps ≡ₚ expected.

Lemma batch_delivery_stable h expected C r : stable r (batch_delivery h expected C).
Proof.
  intros r1 i tk h' c' ct r2 Hok _ (HC & vs & ps & Hcl & Hall & Hperm) Hi Hh Hc' Hct Heff _.
  destruct (Forall2_lookup_l _ _ _ _ _ Hall Hi) as (p & Hp & Htk & ct' & Hct' & Hv).
  rewrite Htk in Hh. injection Hh as <-. rewrite Hct in Hct'. injection Hct' as <-.
  rewrite Hcl in Hc'. injection Hc' as <-. simpl in Heff. subst r2. split; [done|].
  exists (vs ++ [p]), (delete i ps). simpl. split_and!.
  - rewrite list_lookup_insert_eq by (by eapply lookup_lt_Some). rewrite Hv. simpl.
    unfold string_of. by rewrite String.string_of_list_byte_of_string.
  - by apply Forall2_delete.
  - rewrite <- app_assoc. simpl. by rewrite <- (delete_Permutation _ _ _ Hp).
Qed.

(** The batch was handed to the only listener: waiting for all of it. *)
Lemma wait_batch C id h expected cond r w :
  mid N ctx C (only batchTopic id h) r -> (fine N r -> rn_closures r !! h = Some (AppendValue [])) ->
  ok (set_world r w) -> later N r (set_world r w) ->
  (forall t, live w t = live (rn_world r) t) ->
  (forall id, live (rn_world r) batchTopic = [(id, Some h)] ->
     exists tks, w_go w = w_go (rn_world r) ++ tks /\ Forall2 (batch_tasks h (w_mem w)) tks expected) ->
  wp (wait_until tr cond) (fun _ r' => mid N ctx C (only batchTopic id h) r' /\ later N r r' /\
    (fine N r' -> values_at h r' ≡ₚ expected)) (set_world r w).
Proof.
  intros Hm Hh Hok Hlt Hlive Htks. set (r1 := set_world r w) in *.
  set (P := batch_delivery h expected C).
  assert (fine N r1 -> (forall t, live (rn_world r1) t = only batchTopic id h t) /\
    Forall passed (rn_out r1) /\ holds P r1) as Hfine.
  { intros Hf. destruct (md_fine _ _ _ _ _ Hm (later_fine _ _ _ Hlt Hf)) as [HL Hg Hcn Ho].
    split; [intros t'; by rewrite <- HL|]. split; [done|]. split; [done|].
    destruct (Htks id) as (tks & Hgo & Hall); [rewrite HL; unfold only; by rewrite decide_True|].
    exists [], expected. split; [exact (Hh (later_fine _ _ _ Hlt Hf))|]. split; [|done].
    rewrite Hg in Hgo. simpl in Hgo |- *. by rewrite Hgo. }
  eapply wp_mono.
  { apply (wait_until_spec tr N P _ r1); [apply batch_delivery_stable|done|]. by intros (_ & _ & ?)%Hfine. }
  intros [] r2 Hw. pose proof (wt_later _ _ _ _ Hw) as Hlt2. split; [|split].
  - eapply waited_mid; [exact Hw|apply (lt_linked _ _ _ Hlt), Hm| | |by intros [? _]].
    + etrans; [apply (md_ctx _ _ _ _ _ Hm)|apply (lt_next _ _ _ Hlt)].
    + intros Hf. by destruct (Hfine Hf) as (? & ? & _).
  - by etrans.
  - intros Hf. destruct (wt_fine _ _ _ _ Hw Hf) as [(_ & us & ps & Hcl & Hall & Hperm) Hnil].
    rewrite Hnil in Hall. inversion Hall; subst. unfold values_at. rewrite Hcl.
    by rewrite app_nil_r in Hperm.
Qed.

Lemma check_batch_spec got expected r :
  (Z.of_nat (length expected) <= int64_max)%Z ->
  checks (got ≡ₚ expected) (check_batch got expected) r.
Proof.
  intros Hmax. unfold check_batch. apply checks_if.
  { intros Hne%negb_true_iff%bool_decide_eq_false Hp. apply Hne. by rewrite Hp. }
  intros Hlen%negb_false_iff%bool_decide_eq_true. apply checks_if.
  { intros Hne%negb_true_iff Hp. apply not_true_iff_false in Hne. apply Hne.
    apply equalAsMultiset_iff; [by rewrite Hlen|done]. }
  intros _. destruct (equalSlices_iff got expected) as (b & -> & _).
  destruct b; apply checks_pass.
Qed.

Lemma batch_spec C inputs r :
  (Z.of_nat (length inputs) <= int64_max)%Z -> mid N ctx C (fun _ => []) r ->
  wp (batch tr ctx inputs) (fun _ r' => mid N ctx C (fun _ => []) r') r.
Proof.
  intros Hmax Hm. unfold batch.
  destruct (start_listening C batchTopic (AppendValue []) r Hm I)
    as (s & id & r1 & r1' & Hnew & Hsub & Hm1 & Hreg1 & Hh1). set (h := length (rn_closures r)) in *.
  wp_step. eapply wp_intro; [exact Hnew|].
  wp_step. eapply wp_intro; [exact Hsub|]. cbv beta iota zeta.
  wp_step. eapply wp_mono; [by eapply yield_listening|]. intros [] r2 (Hm2 & Hreg & Hh).
  pose proof (ok_wf _ (md_ok _ _ _ _ _ Hm2)) as Hwf2.
  destruct (make_batch_spec inputs r2 Hwf2) as (ls & m & Hmsg & Hwfm & Hext & Hls).
  wp_step. eapply wp_intro; [exact Hmsg|].
  destruct (mem_mid N ctx C _ r2 m Hm2 Hwfm) as [Hm3 Hlt3]; [by apply mem_extends_keeps|].
  set (r3 := set_world r2 _) in *.
  assert (fine N r3 -> rn_closures r3 !! h = Some (AppendValue [])) as Hh3
    by (intros Hf; by apply Hh, (later_fine _ _ _ Hlt3)).
  destruct (batch_publish batchTopic h ls _ r3 (md_ok _ _ _ _ _ Hm3) Hls)
    as (w4 & Hpub & Hok4 & Hlt4 & Hlive4 & Hext4 & Htks).
  wp_step. eapply wp_intro; [exact Hpub|]. cbv beta iota.
  wp_step. wp_step. eapply wp_mono; [by eapply (wait_batch C id h)|].
  intros [] r5 (Hm5 & Hlt5 & Hgot). wp_step. apply wp_gets.
  eapply wp_mono; [apply (check_batch_spec _ (Value <$> inputs)); by rewrite length_fmap|].
  intros [] r6 (vs & Hrep & Hvs). destruct (reported_mid C _ r5 vs r6 Hrep Hm5) as [Hm6 Hlt6]; [by auto|].
  eapply stop_listening; [exact Hm6|].
  by apply (lt_reg _ _ _ Hlt6), (lt_reg _ _ _ Hlt5), (lt_reg _ _ _ Hlt3).
Qed.
End PubSub.
