(* ===== verification/ChallengeDispatch.v ===== *)
(** * Section 4 of the challenge runner

    A consumer group with one topic per fixture: every topic's handler counts
    exactly the one message published to it. *)

From Stdlib Require Import ZArith Lia.
From stdpp Require Import base gmap strings list fin_maps.
From S2P Require Import Prelude Store I18n Errors Message Broker Float64 Retry InMemory.
From S2P Require Import InMemorySubs InMemoryProps PubSub ConsumerGroup DeadLetter Codecs.
From S2P Require Import SyncProducer Runner Challenge ChallengeWorld ChallengeGroup ChallengeRun.
From S2P Require Import ChallengeSpec ChallengePubSub.

Section Dispatch.
Context {En : Env} {MR : MapRange} {MRS : MapRangeSpec} {Pf : Platform} {Sc : Scheduler}.
Context {CB : Callbacks InMemoryBroker} {J : JSON (gmap string string)}.
Context (tr : Translator any) (N : nat) {UU : UuidSpec N} (ctx : Ctx).

Lemma on_local_eq {X A} (x x' : X) (c : GoM (X * World InMemoryBroker) A) r a w :
  c (x, rn_world r) = (Ok a, (x', w)) -> on_local x c r = (Ok (a, x'), set_world r w).
Proof. unfold on_local. by intros ->. Qed.

(** The group has the topics [ts], each with a counting handler of its own. *)
Record counting (ts : list string) (cg : ConsumerGroup) (r : Runner) : Prop := {
  ct_topics : forall t, is_Some (handlers cg !! t) <-> t ∈ ts;
  ct_handlers : forall t oh, handlers cg !! t = Some oh ->
    exists h, oh = Some h /\ rn_closures r !! h = Some (CountTopic t);
  ct_running : running cg = false;
  ct_subs : subscriptions cg = ∅ }.

(** All counters of the topics [ts] are zero. *)
Definition zeroes (ts : list string) (C : gmap string Z) : Prop :=
  forall t n, C !! t = Some n <-> t ∈ ts /\ n = 0%Z.

Lemma counts_mid C L r t :
  mid N ctx C L r ->
  mid N ctx (<[t := 0%Z]> C) L (set_counts r (<[t := 0%Z]> (rn_counts r))).
Proof.
  intros [[Hokw Hcnt Hrec Hdlq] Hlk Hctx Hf]. split; try done; [split; try done|].
  - intros h t' Hh. simpl. rewrite lookup_insert_is_Some'. right. by eapply Hcnt.
  - intros Hfine. destruct (Hf Hfine) as [? ? Hc ?]. split; try done. simpl. by rewrite Hc.
Qed.

Lemma zeroes_insert ts C t : zeroes ts C -> zeroes (ts ++ [t]) (<[t := 0%Z]> C).
Proof.
  intros Hz t' n. rewrite lookup_insert_Some, elem_of_app, list_elem_of_singleton, (Hz t' n).
  destruct (decide (t = t')); naive_solver.
Qed.

Lemma add_topics_spec inputs ts C L cg r :
  mid N ctx C L r -> counting ts cg r -> zeroes ts C -> exists cg' r' C',
    add_topics inputs cg r = (Ok cg', r') /\ mid N ctx C' L r' /\ later N r r' /\
    counting (ts ++ (cg_topic <$> inputs)) cg' r' /\ zeroes (ts ++ (cg_topic <$> inputs)) C' /\
    rn_world r' = rn_world r.
Proof.
  revert ts C cg r. induction inputs as [|f inputs IH]; intros ts C cg r Hm Hcg Hz; simpl.
  - exists cg, r, C. rewrite app_nil_r. by split_and!.
  - apply (counts_mid C L r (cg_topic f)) in Hm as Hm1. set (r1 := set_counts r _) in *.
    destruct (new_closure_mid N ctx _ L (CountTopic (cg_topic f)) r1 Hm1) as (Hnew & Hm2 & Hlt2 & Hh).
    { simpl. rewrite lookup_insert_eq. by eexists. }
    set (r2 := set_closures r1 _) in *. set (h := length (rn_closures r1)) in *.
    set (cg2 := cg_set_handlers (<[cg_topic f := Some h]> (handlers cg)) cg).
    destruct (IH (ts ++ [cg_topic f]) _ cg2 r2 Hm2) as (cg' & r' & C' & Hrun & Hm' & Hlt & Hcg' & Hz' & Hw').
    + destruct Hcg as [Ht Hhs Hr Hs]. split; [| |done|done]; simpl.
      * intros t. rewrite lookup_insert_is_Some', Ht, elem_of_app, list_elem_of_singleton.
        naive_solver.
      * intros t oh. rewrite lookup_insert_Some. intros [[<- <-]|[_ Hoh]]; [by exists h|].
        destruct (Hhs t oh Hoh) as (h' & -> & Hh'). exists h'. split; [done|]. simpl.
        by apply lookup_app_l_Some.
    + by apply zeroes_insert.
    + exists cg', r', C'. rewrite <- app_assoc in Hcg', Hz'. split_and!; [|done| |done|done|done].
      * unfold bind at 1, modify. fold r1. rewrite (bind_ok _ _ _ _ _ Hnew).
        assert (on_local cg (Add (cg_topic f) (Some h)) r2 = (Ok (tt, cg2), r2)) as Hadd
          by (by destruct r2).
        rewrite (bind_ok _ _ _ _ _ Hadd). exact Hrun.
      * etrans; [|exact Hlt]. by split.
Qed.

(** A goroutine that will call the counting handler of a topic. *)
Definition counts_for (cs : list closure) (tk : task) (t : string) : Prop :=
  exists h, task_handler tk = Some h /\ cs !! h = Some (CountTopic t).

Lemma occurrences_none ts t : t ∉ ts -> occurrences t ts = 0.
Proof.
  induction ts as [|u ts IH]; [done|]. rewrite occurrences_cons, not_elem_of_cons.
  intros [Hne Ht]. by rewrite bool_decide_eq_false_2, IH.
Qed.

Lemma occurrences_all_one ts t : NoDup ts -> t ∈ ts -> occurrences t ts = 1.
Proof.
  induction ts as [|u ts IH]; [by intros _ ?%elem_of_nil|].
  rewrite occurrences_cons. intros [Hu Hnd]%NoDup_cons [->|Ht]%elem_of_cons.
  - by rewrite bool_decide_eq_true_2, occurrences_none.
  - rewrite bool_decide_eq_false_2, IH by (done || by intros ->). done.
Qed.

Lemma occurrences_le_one ts t : NoDup ts -> occurrences t ts <= 1.
Proof.
  intros Hnd. destruct (decide (t ∈ ts)); [by rewrite occurrences_all_one|].
  rewrite occurrences_none by done. lia.
Qed.

Lemma occurrences_snoc t u ts : occurrences t (ts ++ [u]) = occurrences t (u :: ts).
Proof. apply occurrences_perm. by rewrite Permutation_app_comm. Qed.

(** What was counted and what waits add up to the number of publications
    [done] to each topic; the closures are the counting ones. *)
Definition count_delivery (all done : list string) (cs0 : list closure)
    (w : World InMemoryBroker) (cs : list closure) (cnt : gmap string Z) : Prop :=
  cs = cs0 /\ (forall t, is_Some (cnt !! t) -> t ∈ all) /\
  exists ts, Forall2 (counts_for cs) (w_go w) ts /\
    forall t n, cnt !! t = Some n ->
      (n + Z.of_nat (occurrences t ts) = Z.of_nat (occurrences t done) /\ 0 <= n)%Z.

Lemma count_delivery_stable all done cs0 r :
  NoDup done -> stable r (count_delivery all done cs0).
Proof.
  intros Hnd r1 i tk h c ct r2 Hok _ (Hcs & Hdom & ts & Hall & Hcnt) Hi Hh Hc Hct Heff _.
  destruct (Forall2_lookup_l _ _ _ _ _ Hall Hi) as (t & Ht & h' & Hh' & Hcl).
  rewrite Hh in Hh'. injection Hh' as <-. rewrite Hc in Hcl. injection Hcl as ->.
  destruct Heff as (n & Hn & ->). split; [done|]. split.
  { intros t'. simpl. rewrite lookup_insert_is_Some'. intros [<-|?]; [apply Hdom; by eexists|auto]. }
  exists (delete i ts). split; [by apply Forall2_delete|].
  simpl in *. intros t' n'. pose proof (delete_Permutation _ _ _ Ht) as Hperm.
  assert (occurrences t' ts = occurrences t' (t :: delete i ts)) as Hocc
    by (by apply occurrences_perm).
  pose proof (occurrences_le_one done t' Hnd) as Hle.
  rewrite occurrences_cons in Hocc. rewrite lookup_insert_Some. intros [[<- <-]|[Hne Hn']].
  - destruct (Hcnt _ _ Hn) as [Hsum Hpos]. rewrite bool_decide_eq_true_2 in Hocc by done.
    rewrite wrap64_id by (unfold in_int64, int64_min, int64_max; lia). lia.
  - rewrite bool_decide_eq_false_2 in Hocc by done. destruct (Hcnt _ _ Hn'). lia.
Qed.

(** After the publications [done], when preempted. *)
Record dispatching (all done : list string) (r r' : Runner) : Prop := {
  di_ok : ok r';
  di_later : later N r r';
  di_live : forall t, live (rn_world r') t = live (rn_world r) t;
  di_out : rn_out r' = rn_out r;
  di_count : fine N r' -> holds (count_delivery all done (rn_closures r)) r' }.

(** One publication, and goroutines that run. *)
Lemma publish_one all done f r r1 :
  NoDup (done ++ [cg_topic f]) ->
  (fine N r -> exists id h, live (rn_world r) (cg_topic f) = [(id, Some h)] /\
     rn_closures r !! h = Some (CountTopic (cg_topic f))) ->
  dispatching all done r r1 ->
  wp (let! msg := text_message (cg_topic f) (Value f) in
      let! _ := on_world (Publish ctx (cg_topic f) (Some msg) []) in yield tr)
    (fun _ r' => dispatching all (done ++ [cg_topic f]) r r') r1.
Proof.
  intros Hnd Hlisten [Hok1 Hlt1 Hlive1 Ho1 Hcount].
  destruct (text_message_spec (cg_topic f) (Value f) r1 (ok_wf _ Hok1))
    as (l & m & id & t & Hmsg & Hwfm & Hext & Hc).
  destruct (moves_ok N r1 (set_mem (rn_world r1) m) Hok1) as [Hok2 Hlt2].
  { apply moves_mem; [apply Hok1|done|apply mem_extends_keeps; [by apply ok_wf|done]]. }
  wp_step. eapply wp_intro; [exact Hmsg|]. set (r2 := set_world r1 _) in *.
  destruct (publish_moves N ctx r2 (cg_topic f) l _ Hok2 Hc)
    as (w3 & ms & now & Hpub & Hok3 & Hlt3 & Hlive3 & _ & Hgo3 & Hlen3 & _).
  wp_step. eapply wp_intro; [exact Hpub|]. set (r3 := set_world r2 w3) in *.
  assert (later N r r3) as Hltr3 by (etrans; [exact Hlt1|]; by etrans).
  eapply wp_mono.
  { apply (yield_spec tr N (count_delivery all (done ++ [cg_topic f]) (rn_closures r)) r3);
      [by apply count_delivery_stable|done|].
    intros Hf. pose proof (later_fine _ _ _ Hltr3 Hf) as Hf0.
    destruct (Hlisten Hf0) as (fid & h & Hfl & Hfh).
    destruct (Hcount (later_fine _ _ _ Hlt2 (later_fine _ _ _ Hlt3 Hf)))
      as (Hcs & Hdom & ts & Hall & Hcnt).
    change (live (rn_world r2)) with (live (rn_world r1)) in Hgo3, Hlen3.
    rewrite Hlive1, Hfl in Hgo3, Hlen3.
    destruct (one_task ctx [(fid, Some h)] ms fid h eq_refl Hlen3) as (l' & -> & Hz).
    split; [exact Hcs|]. split; [exact Hdom|]. exists (ts ++ [cg_topic f]). split.
    - simpl. rewrite Hgo3, Hz. apply Forall2_app; [exact Hall|]. constructor; [|done].
      exists h. split; [done|]. simpl. by rewrite Hcs.
    - intros t' n Hn. rewrite !occurrences_snoc, !occurrences_cons.
      destruct (Hcnt t' n Hn). lia. }
  intros [] r4 (Hok4 & Hcalm & Hcount4). split; [done| | | |done].
  - etrans; [exact Hltr3|by apply calm_later].
  - intros t'. rewrite (calm_live _ _ _ Hcalm). rewrite <- Hlive1. exact (Hlive3 t').
  - by rewrite (cm_out _ _ Hcalm).
Qed.

Lemma check_counts_spec counts b r : exists b' vs r',
  check_counts counts b r = (Ok b', r') /\ reported r vs r' /\ rn_world r' = rn_world r /\
  (Forall (fun x => x.2 = 1%Z) counts -> vs = [] /\ b' = b).
Proof.
  revert b r. induction counts as [|[t n] counts IH]; intros b r; simpl.
  - exists b, [], r. split_and!; [done|apply reported_nil|done..].
  - destruct (Z.eqb_spec n 1) as [->|Hne]; simpl.
    + destruct (IH b r) as (b' & vs & r' & Hrun & Hrep & Hw & Hall). exists b', vs, r'.
      split_and!; [done..|]. intros [_ ?]%Forall_cons. auto.
    + set (label := "[cg][" +:+ t +:+ "] expected 1 delivery").
      destruct (IH false (set_out r (rn_out r ++ [FAIL label]))) as (b' & vs & r' & Hrun & Hrep & Hw & _).
      exists b', ([FAIL label] ++ vs), r'. split_and!; [exact Hrun| |exact Hw|].
      * eapply reported_trans; [apply reported_out|exact Hrep].
      * by intros [? _]%Forall_cons.
Qed.

Lemma pass_mid C L label r :
  mid N ctx C L r -> exists r', pass label r = (Ok tt, r') /\ mid N ctx C L r' /\ later N r r' /\
    rn_world r' = rn_world r /\ rn_closures r' = rn_closures r /\ rn_counts r' = rn_counts r.
Proof.
  intros Hm. eexists. split; [reflexivity|]. split; [|by split; [split|]].
  apply report_mid; [done|]. intros _. by constructor.
Qed.

(** ** The group's subscriptions while the world goes on *)

Lemma all_registered_later subs r r' :
  later N r r' -> all_registered subs (rn_world r) -> all_registered subs (rn_world r').
Proof.
  intros Hlt Ha t x Hx. destruct (Ha t x Hx) as (s & id & -> & Hs). exists s, id.
  split; [done|]. by apply (lt_reg _ _ _ Hlt).
Qed.

Lemma covered_later subs r r' :
  later N r r' -> (forall t, live (rn_world r') t = live (rn_world r) t) ->
  covered subs (rn_world r) -> covered subs (rn_world r').
Proof.
  intros Hlt Hl Hc t y. rewrite Hl. intros Hy. destruct (Hc t y Hy) as (t' & s & Hs & Hr).
  exists t', s. split; [done|]. by apply (lt_reg _ _ _ Hlt).
Qed.

Lemma range_mid C L r :
  mid N ctx C L r -> let r' := set_ranges r (S (rn_ranges r)) in
  next_range r = (Ok (rn_ranges r), r') /\ mid N ctx C L r' /\ later N r r'.
Proof. intros Hm r'. split; [done|]. split; [by apply ranges_mid|by split]. Qed.

(** [Start], on a group of counting handlers nobody listens beside. *)
Lemma group_Start ts n1 n2 C cg r :
  mid N ctx C (fun _ => []) r -> counting ts cg r -> exists cg' w,
    on_local cg (Start tr n1 n2 ctx) r = (Ok (None, cg'), set_world r w) /\
    mid N ctx C (live w) (set_world r w) /\ later N r (set_world r w) /\ running cg' = true /\
    all_registered (subscriptions cg') w /\
    (fine N r -> covered (subscriptions cg') w /\ forall t, t ∈ ts ->
       exists id h, live w t = [(id, Some h)] /\ rn_closures r !! h = Some (CountTopic t)).
Proof.
  intros Hm [Ht Hhs Hr Hs]. pose proof (ok_world _ (md_ok _ _ _ _ _ Hm)) as Hw.
  destruct (Start_kit tr (length (rn_closures r)) N n1 n2 ctx cg _ Hw Hr Hs)
    as (cg' & w & Hrun & Hstep & Hrun' & Hreg & Hserve).
  { intros t oh Hoh. destruct (Hhs t oh Hoh) as (h & -> & Hh). exists h. split; [done|].
    by eapply lookup_lt_Some. }
  exists cg', w. split; [by apply on_local_eq|].
  destruct (moves_mid N ctx C (fun _ => []) (live w) r w Hm) as [Hm' Hlt].
  { by apply step_ok_moves. }
  { intros Hf. split; [done|]. rewrite (so_go _ _ _ _ Hstep). apply (md_fine _ _ _ _ _ Hm Hf). }
  split; [done|]. split; [done|]. split; [done|]. split; [done|]. intros Hf.
  destruct Hserve as [Hsv Hcv].
  { intros t. rewrite lookup_empty. apply (md_fine _ _ _ _ _ Hm Hf). }
  split; [done|]. intros t [oh Hoh]%Ht. specialize (Hsv t). rewrite Hoh in Hsv.
  destruct Hsv as [id Hid], (Hhs t oh Hoh) as (h & -> & Hh). by exists id, h.
Qed.

(** Publishing to every topic and waiting: all counters end at one. *)
Lemma group_deliver ts inputs C L r :
  mid N ctx C L r -> ts = cg_topic <$> inputs -> NoDup ts -> zeroes ts C ->
  (fine N r -> forall t, t ∈ ts -> exists id h, live (rn_world r) t = [(id, Some h)] /\
     rn_closures r !! h = Some (CountTopic t)) ->
  wp (for_range inputs (fun f =>
        let! msg := text_message (cg_topic f) (Value f) in
        let! _ := on_world (Publish ctx (cg_topic f) (Some msg) []) in yield tr) ;;;
      sleep_for tr)
    (fun _ r' => mid N ctx (rn_counts r') L r' /\ later N r r' /\
      (forall t, live (rn_world r') t = live (rn_world r) t) /\
      (fine N r' -> map_Forall (fun _ n => n = 1%Z) (rn_counts r'))) r.
Proof.
  intros Hm -> Hnd Hz Hlisten. set (all := cg_topic <$> inputs) in *.
  wp_step. eapply wp_mono.
  { apply (wp_for_range _ (fun pre r' => dispatching all (cg_topic <$> pre) r r')).
    - split; [apply Hm|done..|]. intros Hf.
      destruct (md_fine _ _ _ _ _ Hm Hf) as [_ Hg Hcn _]. split; [done|]. rewrite Hg, Hcn. split.
      + intros t [n Hn]. by apply Hz in Hn as [? _].
      + exists []. split; [done|]. intros t n [_ ->]%Hz. done.
    - intros pre f rest r1 Hin Hd. rewrite fmap_app. apply publish_one; [| |exact Hd].
      + unfold all in Hnd. rewrite Hin, fmap_app, fmap_cons, cons_middle, app_assoc in Hnd.
        by apply NoDup_app in Hnd as [? _].
      + intros Hf. apply (Hlisten Hf). unfold all. rewrite Hin, fmap_app. set_solver. }
  intros [] r1 [Hok1 Hlt1 Hlive1 Ho1 Hcount].
  eapply wp_mono;
    [apply (sleep_for_spec tr N _ r1 (count_delivery_stable all all (rn_closures r) r1 Hnd) Hok1 Hcount)|].
  intros [] r2 Hw2. pose proof (wt_later _ _ _ _ Hw2) as Hlt2. split_and!.
  - eapply waited_mid; [exact Hw2|apply (lt_linked _ _ _ Hlt1), Hm| | |done].
    + etrans; [apply (md_ctx _ _ _ _ _ Hm)|apply (lt_next _ _ _ Hlt1)].
    + intros Hf. destruct (md_fine _ _ _ _ _ Hm (later_fine _ _ _ Hlt1 Hf)) as [Hl _ _ Ho].
      split; [intros t; by rewrite Hlive1|by rewrite Ho1].
  - by etrans.
  - intros t. rewrite (wt_live _ _ _ _ Hw2). apply Hlive1.
  - intros Hf t n Hn. destruct (wt_fine _ _ _ _ Hw2 Hf) as [(_ & Hdom & ts & Hall & Hsum) Hnil].
    rewrite Hnil in Hall. inversion Hall; subst. destruct (Hsum t n Hn) as [Hs _].
    rewrite (occurrences_all_one all) in Hs by (done || apply Hdom; by eexists).
    unfold occurrences in Hs. simpl in Hs. lia.
Qed.

Lemma group_spec inputs r :
  mid N ctx ∅ (fun _ => []) r -> NoDup (cg_topic <$> inputs) ->
  wp (group tr ctx inputs) (fun _ r' => exists C, mid N ctx C (fun _ => []) r') r.
Proof.
  intros Hm Hnd. unfold group.
  set (cg0 := mkConsumerGroup "round-250-cg" ∅ ∅ false).
  wp_step. eapply wp_intro; [by apply (on_store_pure _ _ cg0)|].
  wp_step. eapply (wp_intro _ _ _ ("round-250-cg", cg0) r); [by destruct r|].
  wp_step. simpl bool_decide. cbv iota.
  destruct (pass_mid _ _ "[cg] ConsumerGroup created" r Hm) as (r1 & Hp1 & Hm1 & _ & Hw1 & Hc1 & _).
  eapply wp_intro; [exact Hp1|].
  destruct (add_topics_spec inputs [] ∅ _ cg0 r1 Hm1) as (cg & r2 & C & Hadd & Hm2 & _ & Hcg & Hz & _).
  { split; [|intros t oh; simpl; by rewrite lookup_empty|done|done]. intros t. simpl.
    rewrite lookup_empty, elem_of_nil. split; [by intros []|done]. }
  { intros t n. rewrite lookup_empty, elem_of_nil. naive_solver. }
  wp_step. eapply wp_intro; [exact Hadd|].
  destruct (range_mid _ _ r2 Hm2) as (Hn3 & Hm3 & _). set (r3 := set_ranges r2 _) in *.
  wp_step. eapply wp_intro; [exact Hn3|].
  destruct (range_mid _ _ r3 Hm3) as (Hn4 & Hm4 & _). set (r4 := set_ranges r3 _) in *.
  wp_step. eapply wp_intro; [exact Hn4|].
  destruct (group_Start (cg_topic <$> inputs) (rn_ranges r2) (rn_ranges r3) C cg r4 Hm4) as
    (cg' & w5 & Hst & Hm5 & Hlt5 & Hrun & Hreg & Hserve).
  { destruct Hcg as [? Hhs ? ?]. by split. }
  wp_step. eapply wp_intro; [exact Hst|]. cbv beta iota. set (r5 := set_world r4 w5) in *.
  destruct (pass_mid _ _ "[cg] Start ok" r5 Hm5) as (r5' & Hp5 & Hm5' & Hlt5' & Hw5 & Hc5 & _).
  wp_step. eapply wp_intro; [exact Hp5|].
  wp_step. eapply wp_mono; [exact (yield_mid tr N ctx C (live w5) r5' Hm5')|].
  intros [] r6 (Hm6 & Hlt6' & Hlive6 & Hc6).
  assert (later N r5 r6) as Hlt6 by (by etrans).
  apply wp_bind_assoc, wp_bind.
  eapply wp_mono; [eapply (group_deliver (cg_topic <$> inputs)); [exact Hm6|done|done|done|]|].
  { intros Hf t Ht. rewrite Hlive6, Hw5, (Hc6 Hf), Hc5. apply Hserve; [|done].
    apply (later_fine _ _ _ Hlt5), (later_fine _ _ _ Hlt6), Hf. }
  intros [] r7 (Hm7 & Hlt7 & Hlive7 & Hone).
  destruct (range_mid _ _ r7 Hm7) as (Hn8 & Hm8 & Hlt8). set (r8 := set_ranges r7 _) in *.
  wp_step. eapply wp_intro; [exact Hn8|]. wp_step. apply wp_gets.
  destruct (check_counts_spec (map_range (rn_ranges r7) (rn_counts r8)) true r8)
    as (b & vs & r9 & Hchk & Hrep & Hw9 & Hall).
  destruct (reported_mid N ctx _ _ r8 vs r9 Hrep Hm8) as [Hm9 Hlt9].
  { intros Hf. destruct Hall as [-> _]; [|done]. apply Forall_forall.
    intros [t n] Hin%range_lookup. by apply (Hone (later_fine _ _ _ Hlt8 Hf) t n). }
  wp_step. eapply wp_intro; [exact Hchk|].
  wp_step. eapply (wp_mono _ (fun _ r10 => mid N ctx (rn_counts r7) (live w5) r10 /\ later N r9 r10 /\
    rn_world r10 = rn_world r9)).
  { destruct b; [|by apply wp_ret]. destruct (pass_mid _ _
      "[cg] topics each received exactly 1 message (no cross-talk)" r9 Hm9)
      as (r10 & Hp & ? & ? & ? & _). by eapply wp_intro. }
  intros [] r9' (Hm9' & Hlt9' & Hw9').
  wp_step. eapply wp_mono; [exact (yield_mid tr N ctx _ _ r9' Hm9')|].
  intros [] r10 (Hm10 & Hlt10' & Hlive10 & _). assert (later N r9 r10) as Hlt10 by (by etrans).
  destruct (range_mid _ _ r10 Hm10) as (Hn11 & Hm11 & Hlt11). set (r11 := set_ranges r10 _) in *.
  wp_step. eapply wp_intro; [exact Hn11|].
  assert (later N r5 r11) as Hlater.
  { etrans; [exact Hlt6|]. etrans; [exact Hlt7|]. etrans; [exact Hlt8|]. etrans; [exact Hlt9|].
    by etrans. }
  assert (forall t, live (rn_world r11) t = live w5 t) as Hlive11.
  { intros t. change (rn_world r11) with (rn_world r10).
    rewrite Hlive10, Hw9', Hw9. change (rn_world r8) with (rn_world r7).
    by rewrite Hlive7, Hlive6, Hw5. }
  destruct (Stop_kit tr (length (rn_closures r11)) N (rn_ranges r10) cg' (rn_world r11)
    (ok_world _ (md_ok _ _ _ _ _ Hm11)) Hrun) as (e & cg2 & w12 & Hstop & Hstep & Hquiet).
  { by apply (all_registered_later _ r5). }
  wp_step. eapply wp_intro; [by apply (on_local_eq _ _ _ _ _ _ Hstop)|].
  destruct (moves_mid N ctx (rn_counts r7) (live w5) (live w12) r11 w12 Hm11) as [Hm12 Hlt12].
  { apply step_ok_moves; [apply (md_ok _ _ _ _ _ Hm11)|done]. }
  { intros Hf. split; [done|]. rewrite (so_go _ _ _ _ Hstep). apply (md_fine _ _ _ _ _ Hm11 Hf). }
  destruct (pass_mid _ _ "[cg] Stop ok" _ Hm12) as (r13 & Hp13 & Hm13 & Hlt13 & Hw13 & _).
  eapply wp_intro; [exact Hp13|]. exists (rn_counts r7).
  destruct Hm13 as [Hok Hlk Hctx Hf]. split; [done..|]. intros Hfine. destruct (Hf Hfine) as [? ? ? ?].
  split; [|done..]. intros t. rewrite Hw13. simpl.
  pose proof (later_fine _ _ _ Hlt13 Hfine) as Hf12. pose proof (later_fine _ _ _ Hlt12 Hf12) as Hf11.
  assert (serves w12 ∅) as Hsv; [|specialize (Hsv t); by rewrite lookup_empty in Hsv].
  apply Hquiet; [|apply Hm11|apply Hf12].
  apply (covered_later _ r5); [done|done|]. apply Hserve.
  apply (later_fine _ _ _ Hlt5), (later_fine _ _ _ Hlater), Hf11.
Qed.
End Dispatch.
