(* ===== verification/ChallengeRetry.v ===== *)
(** * Sections 5 and 6 of the challenge runner

    Retries that fail and send the message to the dead letter topic, and a
    synchronous producer. *)

From Stdlib Require Import ZArith Lia.
From stdpp Require Import base gmap strings list fin_maps.
From S2P Require Import Prelude Store I18n Errors Message Broker Float64 Retry InMemory.
From S2P Require Import InMemorySubs InMemoryProps PubSub ConsumerGroup DeadLetter Codecs.
From S2P Require Import SyncProducer Runner Challenge ChallengeWorld ChallengeGroup ChallengeRun.
From S2P Require Import ChallengeSpec ChallengePubSub ChallengeDispatch.

Section Retry.
Context {En : Env} {MR : MapRange} {MRS : MapRangeSpec} {Pf : Platform} {Sc : Scheduler}.
Context {CB : Callbacks InMemoryBroker} {J : JSON (gmap string string)}.
Context (tr : Translator any) (N : nat) {UU : UuidSpec N} (ctx : Ctx).

(** ** Section 5 *)

(** The text [s] waits for the retrying handler [hr]; or, as a dead letter,
    for the handler [hd]; or has arrived there. *)
Definition retry_stage (hd hr : nat) (s : string) (w : World InMemoryBroker) (cs : list closure) : Prop :=
  (exists tk, w_go w = [tk] /\ batch_tasks hr (w_mem w) tk s /\
     cs !! hd = Some (AppendMessage []) /\
     cs !! hr = Some (Wrapped 0 (NewDeadLetterHandler dlqTopic_250))) \/
  (exists n d, (1 <= n)%Z /\ cs !! hr = Some (Wrapped n d) /\
     ((exists tk, w_go w = [tk] /\ batch_tasks hd (w_mem w) tk s /\
         cs !! hd = Some (AppendMessage [])) \/
      (exists l, w_go w = [] /\ carries_text (w_mem w) s l /\
         cs !! hd = Some (AppendMessage [Some l])))).

Definition retry_delivery (hd hr : nat) (s : string) (C : gmap string Z)
    (w : World InMemoryBroker) (cs : list closure) (cnt : gmap string Z) : Prop :=
  cnt = C /\ hd <> hr /\ (exists id, live w dlqTopic_250 = [(id, Some hd)]) /\ retry_stage hd hr s w cs.

Lemma iter_wrap k : 1 <= k <= 3 -> (1 <= Nat.iter k (fun z => wrap64 (z + 1)) 0)%Z.
Proof. intros [H1 H2]. destruct k as [|[|[|[|k]]]]; [lia|by vm_compute..|lia]. Qed.

Lemma retry_delivery_stable hd hr s C r : stable r (retry_delivery hd hr s C).
Proof.
  intros r1 i tk h c ct r2 Hok _ (HC & Hne & [id Hid] & Hst) Hi Hh Hc Hct Heff Hcalm.
  assert (exists id, live (rn_world r2) dlqTopic_250 = [(id, Some hd)]) as Hid2.
  { exists id. by rewrite (calm_live _ _ _ Hcalm). }
  destruct Hst as [(tk' & Hgo & [Htk Hcar] & Hhd & Hhr)|(n & d & Hn & Hhr & Hst)].
  - rewrite Hgo in Hi. apply list_lookup_singleton_Some in Hi as [-> ->].
    rewrite Htk in Hh. injection Hh as <-. rewrite Hhr in Hc. injection Hc as <-.
    destruct Heff as (k & reason & now & now' & ms & Hk & Hcn & Hcl & Hgo2 & Hlen & Hms).
    cbn [dlqTopic NewDeadLetterHandler] in Hgo2, Hlen, Hms.
    change (live (rn_world (popped 0 r1)) dlqTopic_250) with (live (rn_world r1) dlqTopic_250) in *.
    rewrite Hid in Hgo2, Hlen. destruct (one_task (task_ctx tk) [(id, Some hd)] ms id hd eq_refl Hlen)
      as (l & -> & Hz). rewrite Hz in Hgo2. pose proof (proj1 (Forall_singleton _ _) Hms) as Hl.
    split; [|split; [done|split; [done|]]].
    { by rewrite Hcn. }
    right. eexists _, _. split; [by apply iter_wrap|]. rewrite Hcl. split.
    { by rewrite list_lookup_insert_eq by (by eapply lookup_lt_Some). }
    left. exists (mkTask (Some hd) (task_ctx tk) l). split; [|split; [split; [done|]|]].
    + unfold popped, pop in Hgo2. simpl in Hgo2. by rewrite Hgo in Hgo2.
    + eexists. split; [exact Hl|]. destruct Hcar as (ct' & Hct' & Hv).
      rewrite Hct in Hct'. injection Hct' as <-. simpl. by rewrite Hv.
    + by rewrite list_lookup_insert_ne.
  - destruct Hst as [(tk' & Hgo & [Htk (ct' & Hct' & Hv)] & Hhd)|(l & Hgo & _)];
      rewrite Hgo in Hi; [|done].
    apply list_lookup_singleton_Some in Hi as [-> ->].
    rewrite Htk in Hh. injection Hh as <-. rewrite Hhd in Hc. injection Hc as <-.
    simpl in Heff. subst r2. split; [done|split; [done|split; [done|]]].
    right. exists n, d. split; [done|]. simpl. split; [by rewrite list_lookup_insert_ne|].
    right. exists (task_msg tk). unfold pop. simpl. rewrite Hgo. split; [done|].
    split; [by exists ct'|]. by rewrite list_lookup_insert_eq by (by eapply lookup_lt_Some).
Qed.

Lemma any_match_spec ms orig r :
  (forall m, m ∈ ms -> exists l ct, m = Some l /\ content_of (w_mem (rn_world r)) l = Some ct) ->
  exists b, any_match ms orig r = (Ok b, r) /\
    ((exists l ct, Some l ∈ ms /\ content_of (w_mem (rn_world r)) l = Some ct /\
       string_of (default [] (c_value ct)) = orig) -> b = true).
Proof.
  induction ms as [|m ms IH]; intros Hlive; simpl.
  - exists false. split; [done|]. by intros (l & ct & ?%elem_of_nil & _).
  - destruct (Hlive m ltac:(by left)) as (l & ct & -> & Hct).
    rewrite (bind_ok _ _ _ _ _ (value_string_eq l ct r Hct)). case_bool_decide as Heq.
    + by exists true.
    + destruct IH as (b & Hrun & Hb); [intros m' Hm'; apply Hlive; by right|].
      exists b. split; [done|]. intros (l' & ct' & [[= ->]|Hin]%elem_of_cons & Hct' & Ho).
      * rewrite Hct in Hct'. by injection Hct' as <-.
      * apply Hb. by exists l', ct'.
Qed.

(** The dead letter has arrived, after an attempt at least. *)
Definition dead_letter_arrived (hd hr : nat) (s : string) (r : Runner) : Prop :=
  (1 <= attempts_at hr r)%Z /\
  exists l, messages_at hd r = [Some l] /\ carries_text (w_mem (rn_world r)) s l.

Lemma reported_kept r vs r' : reported r vs r' -> mem_wf (w_mem (rn_world r)) ->
  mem_extends (w_mem (rn_world r)) (w_mem (rn_world r')) /\ rn_closures r' = rn_closures r.
Proof. intros (n & m & -> & Hm) Hwf. by destruct (Hm Hwf). Qed.

Lemma checks_imp (P Q : Prop) c r : (P -> Q) -> checks Q c r -> checks P c r.
Proof.
  intros HPQ Hc. eapply wp_mono; [exact Hc|]. intros [] r' (vs & Hr & Hp). exists vs. auto.
Qed.

Lemma check_dead_letter_spec hd hr origBytes s r :
  ok r -> read_slice (w_mem (rn_world r)) (Some origBytes) = Some (String.list_byte_of_string s) ->
  checks (dead_letter_arrived hd hr s r) (check_dead_letter hd hr origBytes) r.
Proof.
  intros Hok Hread. unfold check_dead_letter. eapply checks_read; [reflexivity|].
  apply checks_seq.
  { apply checks_if; [|intros; apply checks_pass]. intros Hlt%Z.ltb_lt [? _]. lia. }
  intros vs r1 Hr1. pose proof (ok_wf _ Hok) as Hwf.
  destruct (reported_kept _ _ _ Hr1 Hwf) as [Hext1 Hc1].
  eapply checks_read; [reflexivity|].
  assert (messages_at hd r1 = messages_at hd r) as -> by (unfold messages_at; by rewrite Hc1).
  apply checks_if.
  { intros Hlen%bool_decide_eq_true (_ & l & Hl & _). rewrite Hl in Hlen. simpl in Hlen. lia. }
  intros _. eapply checks_read.
  { apply on_store_pure. unfold load_bytes. by rewrite (read_slice_keeps _ _ Hwf Hext1 _ _ Hread). }
  destruct (any_match_spec (messages_at hd r) (string_of (String.list_byte_of_string s)) r1)
    as (b & Hrun & Hb).
  { intros m Hm. destruct (messages_live hd r m Hok Hm) as (l & ct & -> & Hct). exists l, ct.
    split; [done|]. by apply (reported_content r vs). }
  eapply checks_read; [exact Hrun|]. apply checks_if; [|intros; apply checks_pass].
  intros ->%negb_true_iff (_ & l & Hl & ct & Hct & Hv). assert (false = true) as ?; [|done].
  apply Hb. exists l, ct. rewrite Hl, Hv. split; [by left|]. split; [|done].
  by apply (reported_content r vs).
Qed.

(** A message published to its only listener, or not: the goroutines are known. *)
Lemma publish_listener t h l ct r :
  ok r -> content_of (w_mem (rn_world r)) l = Some ct -> exists w,
    on_world (Ops.Publish ctx t (Some l) []) r = (Ok None, set_world r w) /\
    ok (set_world r w) /\ later N r (set_world r w) /\
    (forall t', live w t' = live (rn_world r) t') /\
    mem_extends (w_mem (rn_world r)) (w_mem w) /\
    forall id s, live (rn_world r) t = [(id, Some h)] ->
      c_value ct = Some (String.list_byte_of_string s) ->
      exists tk, w_go w = w_go (rn_world r) ++ [tk] /\ batch_tasks h (w_mem w) tk s.
Proof.
  intros Hok Hct. destruct (publish_moves N ctx r t l ct Hok Hct)
    as (w & ms & now & Hpub & Hok' & Hlt & Hlive & Hext & Hgo & Hlen & Hms).
  exists w. split_and!; [done..|]. intros id s Hid Hv. rewrite Hid in Hgo, Hlen.
  destruct (one_task ctx [(id, Some h)] ms id h eq_refl Hlen) as (l' & -> & Hz).
  exists (mkTask (Some h) ctx l'). rewrite Hgo, Hz. split; [done|]. split; [done|].
  eexists. split; [exact (proj1 (Forall_singleton _ _) Hms)|]. simpl. by rewrite Hv.
Qed.

(** Publish the failing message and wait. *)
Lemma retry_round C L hd hr idd idr payload (k : GoM Runner unit) Q r :
  mid N ctx C L r -> hd <> hr ->
  L dlqTopic_250 = [(idd, Some hd)] -> L retryTopic = [(idr, Some hr)] ->
  (fine N r -> rn_closures r !! hd = Some (AppendMessage []) /\
     rn_closures r !! hr = Some (Wrapped 0 (NewDeadLetterHandler dlqTopic_250))) ->
  (forall r', mid N ctx C L r' -> later N r r' -> wp k Q r') ->
  wp (let! origBytes := on_store (bytes_of_string (Value payload)) in
      let! msg := on_store (NewMessage retryTopic (Some origBytes)) in
      let! _ := on_world (Ops.Publish ctx retryTopic (Some msg) []) in
      sleep_for tr ;;;
      check_dead_letter hd hr origBytes ;;;
      k) Q r.
Proof.
  intros Hm Hne Hd Hr Hh Hk. pose proof (ok_wf _ (md_ok _ _ _ _ _ Hm)) as Hwf.
  destruct (wp_run _ _ _ (new_array_read (String.list_byte_of_string (Value payload)) _ Hwf))
    as (v & m1 & Hnew & Hwf1 & Hext1 & Hs & Hrd).
  destruct (mem_mid N ctx C L r m1 Hm Hwf1) as [Hm1 Hlt1]; [by apply mem_extends_keeps|].
  wp_step. eapply wp_intro; [by apply on_store_eq|]. set (r1 := set_world r _) in *.
  destruct (wp_run _ _ _ (NewMessage_value retryTopic v _ _ m1 Hwf1 Hext1 Hs Hrd
    ltac:(unfold new_array in Hnew; by injection Hnew as <- _)))
    as (l & m2 & Hmsg & Hwf2 & _ & Hext2 & _ & _ & _ & id & t & Hc).
  destruct (mem_mid N ctx C L r1 m2 Hm1 Hwf2) as [Hm2 Hlt2]; [by apply mem_extends_keeps|].
  wp_step. eapply wp_intro; [exact (on_store_eq _ r1 _ _ Hmsg)|]. set (r2 := set_world r1 _) in *.
  destruct (publish_listener retryTopic hr l _ r2 (md_ok _ _ _ _ _ Hm2) Hc)
    as (w3 & Hpub & Hok3 & Hlt3 & Hlive3 & Hext3 & Htk).
  wp_step. eapply wp_intro; [exact Hpub|]. set (r3 := set_world r2 w3) in *.
  set (P := retry_delivery hd hr (Value payload) C).
  assert (fine N r3 -> (forall t, live (rn_world r3) t = L t) /\ Forall passed (rn_out r3) /\
    holds P r3) as Hfine3.
  { intros Hf. destruct (md_fine _ _ _ _ _ Hm2 (later_fine _ _ _ Hlt3 Hf)) as [HL Hg Hcn Ho].
    split; [intros t'; by rewrite <- HL|]. split; [done|]. split; [done|]. split; [done|].
    split; [exists idd; simpl; by rewrite Hlive3, HL|]. left.
    destruct (Hh (later_fine _ _ _ Hlt1 (later_fine _ _ _ Hlt2 (later_fine _ _ _ Hlt3 Hf))))
      as [Hhd Hhr].
    destruct (Htk idr (Value payload)) as (tk & Hgo & Hb); [by rewrite HL|done|].
    exists tk. simpl. rewrite Hg in Hgo. by split_and!. }
  wp_step. eapply wp_mono.
  { apply (sleep_for_spec tr N P r3); [apply retry_delivery_stable|done|]. by intros (_ & _ & ?)%Hfine3. }
  intros [] r4 Hw4. pose proof (wt_later _ _ _ _ Hw4) as Hlt4.
  assert (mid N ctx C L r4) as Hm4.
  { eapply waited_mid; [exact Hw4|apply (lt_linked _ _ _ Hlt3), Hm2| | |by intros [? _]].
    - etrans; [apply (md_ctx _ _ _ _ _ Hm2)|apply (lt_next _ _ _ Hlt3)].
    - intros Hf. by destruct (Hfine3 Hf) as (? & ? & _). }
  assert (mem_extends m1 (w_mem (rn_world r4))) as Hext4.
  { etrans; [exact Hext2|]. etrans; [exact Hext3|]. apply (wt_ext _ _ _ _ Hw4). }
  wp_step.
  eapply wp_mono; [apply (check_dead_letter_spec hd hr v (Value payload) r4 (md_ok _ _ _ _ _ Hm4))|].
  { by rewrite (read_slice_extends m1). }
  intros [] r5 (vs & Hrep & Hvs).
  destruct (reported_mid N ctx C L r4 vs r5 Hrep Hm4) as [Hm5 Hlt5].
  { intros Hf. apply Hvs.
    destruct (wt_fine _ _ _ _ Hw4 Hf) as [(_ & _ & _ & [(tk & Hgo & _)|(n & d & Hn & Hcr & Hst)]) Hnil].
    { by rewrite Hgo in Hnil. }
    destruct Hst as [(tk & Hgo & _)|(l' & _ & Hcar & Hcd)]; [by rewrite Hgo in Hnil|].
    split; [unfold attempts_at; by rewrite Hcr|]. exists l'. split; [|done].
    unfold messages_at. by rewrite Hcd. }
  apply Hk; [done|]. etrans; [exact Hlt1|]. etrans; [exact Hlt2|]. etrans; [exact Hlt3|]. by etrans.
Qed.

Lemma retry_dlq_spec C inputs r :
  mid N ctx C (fun _ => []) r -> inputs <> [] ->
  wp (retry_dlq tr ctx inputs) (fun _ r' => mid N ctx C (fun _ => []) r') r.
Proof.
  intros Hm Hin. unfold retry_dlq.
  destruct (new_closure_mid N ctx C _ (AppendMessage []) r Hm eq_refl) as (Hnew1 & Hm1 & _ & Hh1).
  set (r1 := set_closures r _) in *. set (hd := length (rn_closures r)) in *.
  wp_step. eapply wp_intro; [exact Hnew1|].
  destruct (subscribe_mid N ctx C _ dlqTopic_250 hd r1 Hm1) as (s1 & id1 & w2 & Hsub1 & Hm2 & _ & Hreg1 & _).
  { by eapply lookup_lt_Some. }
  wp_step. eapply wp_intro; [exact Hsub1|]. cbv beta iota. set (r2 := set_world r1 w2) in *.
  set (d := NewDeadLetterHandler dlqTopic_250).
  destruct (new_closure_mid N ctx C _ (Wrapped 0 d) r2 Hm2 eq_refl) as (Hnew2 & Hm3 & Hlt3 & Hh2).
  set (r3 := set_closures r2 _) in *. set (hr := length (rn_closures r2)) in *.
  wp_step. eapply wp_intro; [exact Hnew2|].
  destruct (subscribe_mid N ctx C _ retryTopic hr r3 Hm3) as (s2 & id2 & w4 & Hsub2 & Hm4 & Hlt4 & Hreg2 & _).
  { by eapply lookup_lt_Some. }
  wp_step. eapply wp_intro; [exact Hsub2|]. cbv beta iota. set (r4 := set_world r3 w4) in *.
  match type of Hm4 with mid _ _ _ ?L0 _ => set (L := L0) in * end.
  destruct (last inputs) as [payload|] eqn:Hlast; [|by apply last_None in Hlast].
  assert (rn_closures r4 !! hd = Some (AppendMessage [])) as Hhd4.
  { simpl. by apply lookup_app_l_Some. }
  assert (hd <> hr) as Hne.
  { apply lookup_lt_Some in Hh1. unfold hr. simpl in *. lia. }
  wp_step. wp_step. eapply wp_mono; [exact (yield_mid tr N ctx C L r4 Hm4)|].
  intros [] r4' (Hm4' & Hlt4' & _ & Hc4').
  apply (retry_round C L hd hr id1 id2 payload); [exact Hm4'|exact Hne|..].
  1-2: by vm_compute.
  1: by intros Hf; rewrite Hc4'.
  intros r5' Hm5' Hlt5'. wp_step. eapply wp_mono; [exact (yield_mid tr N ctx C L r5' Hm5')|].
  intros [] r5 (Hm5 & Hlt5'' & _ & _).
  assert (later N r4 r5) as Hlt5 by (etrans; [exact Hlt4'|]; by etrans).
  destruct (unsubscribe_mid N ctx C L s2 id2 r5 Hm5) as (w6 & Hun2 & Hm6 & Hlt6).
  { by apply (lt_reg _ _ _ Hlt5). }
  eapply wp_intro; [exact Hun2|].
  wp_step. eapply wp_mono; [exact (yield_mid tr N ctx C _ _ Hm6)|].
  intros [] r6 (Hm6' & Hlt6' & _ & _).
  destruct (unsubscribe_mid N ctx C _ s1 id1 _ Hm6') as (w7 & Hun1 & Hm7 & _).
  { by apply (lt_reg _ _ _ Hlt6'), (lt_reg _ _ _ Hlt6), (lt_reg _ _ _ Hlt5), (lt_reg _ _ _ Hlt4), (lt_reg _ _ _ Hlt3). }
  eapply wp_intro; [exact Hun1|]. eapply mid_ext; [|exact Hm7].
  intros t'. match goal with |- ?x = _ => destruct x as [|y l] eqn:Hl end; [done|]. exfalso.
  assert (y ∈ y :: l) as Hy by (by left). rewrite <- Hl in Hy.
  apply list_elem_of_filter in Hy as [Hy1 [Hy2 Hy]%list_elem_of_filter].
  unfold L in Hy. apply elem_of_app in Hy as [Hy|Hy];
    case_decide; simpl in Hy; try (by apply elem_of_nil in Hy);
    apply list_elem_of_singleton in Hy as ->; simpl in *; done.
Qed.
End Retry.
