(* ===== verification/ChallengeMain.v ===== *)
(** * The challenge runner as a whole

    Section 6, [main], and its theorem: for every schedule the runner ends
    with an exit code; and when no wait ended with a goroutine left, every
    check passes and the code is 0. *)

From Stdlib Require Import ZArith Lia.
From stdpp Require Import base gmap strings list fin_maps.
From S2P Require Import Prelude Store Contexts Demo I18n Errors Message MessageJson Broker Float64 Retry.
From S2P Require Import InMemory InMemorySubs InMemoryProps PubSub ConsumerGroup DeadLetter Codecs.
From S2P Require Import SyncProducer Runner Challenge ChallengeWorld ChallengeGroup ChallengeRun.
From S2P Require Import ChallengeSpec ChallengePubSub ChallengeDispatch ChallengeRetry.

Section Main.
Context {En : Env} {MR : MapRange} {MRS : MapRangeSpec} {Pf : Platform} {Sc : Scheduler}.
Context {CB : Callbacks InMemoryBroker} {J : JSON (gmap string string)}.
Context {AJ : AliasJSON} {AJS : AliasJSONSpec} {CS : ClockSpec}.
Context (tr : Translator any) (N : nat) {UU : UuidSpec N}.

(** ** Section 6 *)

Section Sync.
Context (ctx : Ctx) (bs : bytes) (Hbs : json_Marshal sp_payload = inl bs).

(** [SendValue] of the payload, through the producer the runner makes. *)
Lemma send_payload (r : Runner) :
  ok r -> ctx_depth ctx <= next_loc (w_mem (rn_world r)) ->
  exists lc c sp w ms,
    on_local (SetSerializer (Some JSONSerializer) (NewSyncProducer 0))
      (SendValue tr ctx spTopic sp_payload) r = (Ok (None, sp), set_world r w) /\
    ok (set_world r w) /\ later N r (set_world r w) /\
    (forall t, live w t = live (rn_world r) t) /\ c_value c = Some bs /\
    w_go w = w_go (rn_world r) ++ zip_with (task_to (CtxNode lc)) (live (rn_world r) spTopic) ms /\
    length ms = length (live (rn_world r) spTopic) /\
    Forall (fun m => content_of (w_mem w) m = Some c) ms.
Proof using Hbs.
  intros Hok Hctx. pose proof (ok_wf _ Hok) as Hwf.
  set (sp := SetSerializer (Some JSONSerializer) (NewSyncProducer 0)).
  destruct (SendValue_run tr ctx spTopic sp_payload bs sp (rn_world r) Hwf eq_refl Hbs)
    as (l & m & id & t & Hwfm & Hext & Hc & Hsv).
  pose proof (wok_mem _ _ m (ok_world _ Hok) Hwfm (mem_extends_keeps _ _ Hwf Hext)) as Hw1.
  destruct (Send_run (MBS := InMemory_MessageBrokerSpec) tr (fun x => x) ctx spTopic l _ sp
    (set_mem (rn_world r) m) (wk_inv _ _ Hw1) Hc I)
    as (lc & m1 & res & w2 & m3 & (Hwf1 & Hk1 & Hc1) & Hpub & Hext2 & Hsend & Hinv3 & Hk3 & Hsame & _).
  { simpl. pose proof (ext_next _ _ Hext). lia. }
  pose proof (wok_mem _ _ m1 Hw1 Hwf1 Hk1) as Hw2. change (set_mem _ m1) with (set_mem (rn_world r) m1) in *.
  destruct (publish_kit _ N (CtxNode lc) spTopic l _ _ Hw2 Hc1)
    as (w2' & ms & now & Hpub' & Hw2' & _ & Hs & Hi & Hl & Hgo & Hlen & Hms).
  assert (res = None /\ w2' = w2) as [-> ->].
  { change (Ops.Publish (CtxNode lc) spTopic (Some l) [] (set_mem (rn_world r) m1) = (Ok res, w2)) in Hpub.
    rewrite Hpub in Hpub'. by injection Hpub' as -> ->. }
  pose proof (inv_mem _ Hinv3 : mem_wf m3) as Hwf3.
  exists lc, (published spTopic (clock_time now) (prepared sp (fun x => x)
    (value_content "application/json" spTopic id bs t))), (count_result None sp), (set_mem w2 m3), ms.
  split; [apply on_local_eq; by rewrite Hsv|].
  assert (mem_keeps (w_mem (rn_world r)) m3) as Hk.
  { etrans; [by apply mem_extends_keeps|]. etrans; [exact Hk1|]. etrans; [|exact Hk3].
    by apply mem_extends_keeps. }
  destruct (moves_ok N r (set_mem w2 m3) Hok) as [Hok' Hlt].
  { split; [by apply wok_mem|done| |].
    - intros s i (x & Hx & ?). exists x. simpl. by rewrite Hi.
    - apply linked_same; [by apply keep_uuid|done|done]. }
  split_and!; try done.
  - intros t'. unfold live. simpl. by rewrite Hs.
  - eapply Forall_impl; [exact Hms|]. intros k Hk'. simpl. by rewrite Hsame.
Qed.

Lemma check_sent_spec h r :
  ok r -> json_Unmarshal bs = inl sp_payload ->
  checks (exists l ct, messages_at h r = [Some l] /\ content_of (w_mem (rn_world r)) l = Some ct /\
    c_value ct = Some bs) (check_sent h) r.
Proof.
  intros Hok Hjs. unfold check_sent. eapply checks_read; [reflexivity|].
  destruct (messages_at h r) as [|m ms] eqn:Hms.
  { eapply checks_read; [reflexivity|]. apply checks_fail. by intros (? & ? & ? & _). }
  destruct (messages_live h r m Hok) as (l & ct & -> & Hct); [rewrite Hms; by left|].
  destruct (value_string_spec l ct r Hct) as (x & Hx & Hv & _).
  eapply checks_read.
  { simpl. rewrite (bind_ok _ _ _ _ _ (on_store_pure _ _ _ Hx)). by apply on_store_pure. }
  apply checks_if.
  { intros Hne%negb_true_iff%bool_decide_eq_false (? & ? & [= _ ->] & _). done. }
  intros _. set (P := exists _, _).
  assert (P -> default [] (c_value ct) = bs) as HP.
  { intros (l' & ct' & [= <- _] & Hct' & Hv'). rewrite Hct in Hct'. injection Hct' as <-. by rewrite Hv'. }
  clearbody P. destruct (json_Unmarshal (default [] (c_value ct))) as [d|e] eqn:Hd.
  - apply checks_if; [|intros; apply checks_pass].
    intros Hne%negb_true_iff%bool_decide_eq_false Hp. rewrite (HP Hp), Hjs in Hd.
    by injection Hd as <-.
  - apply checks_fail. intros Hp. by rewrite (HP Hp), Hjs in Hd.
Qed.

Lemma sync_producer_spec C r :
  json_Unmarshal bs = inl sp_payload -> mid N ctx C (fun _ => []) r ->
  wp (sync_producer tr ctx) (fun _ r' => mid N ctx C (fun _ => []) r') r.
Proof using Hbs UU MRS.
  intros Hjs Hm. unfold sync_producer.
  destruct (start_listening N ctx C spTopic (AppendMessage []) r Hm eq_refl)
    as (s & id & r1 & r1' & Hnew & Hsub & Hm1 & Hreg1 & Hh1). set (h := length (rn_closures r)) in *.
  wp_step. eapply wp_intro; [exact Hnew|].
  wp_step. eapply wp_intro; [exact Hsub|]. cbv beta iota zeta.
  wp_step. eapply wp_mono; [by eapply (yield_listening tr N ctx C spTopic id h s)|].
  intros [] r2 (Hm2 & Hreg & Hh).
  destruct (send_payload r2 (md_ok _ _ _ _ _ Hm2) (md_ctx _ _ _ _ _ Hm2))
    as (lc & c & sp & w3 & ms & Hsend & Hok3 & Hlt3 & Hlive3 & Hv & Hgo & Hlen & Hms).
  wp_step. eapply wp_intro; [exact Hsend|]. cbn [fst]. cbv iota.
  wp_step. wp_step. eapply wp_mono; [by eapply (wait_one tr N ctx (CtxNode lc) C spTopic id h)|].
  intros [] r4 (Hm4 & Hlt4 & Hone).
  eapply wp_mono; [apply (check_sent_spec h r4 (md_ok _ _ _ _ _ Hm4) Hjs)|].
  intros [] r5 (vs & Hrep & Hvs). destruct (reported_mid N ctx C _ r4 vs r5 Hrep Hm4) as [Hm5 Hlt5].
  { intros Hf. apply Hvs. destruct (Hone Hf) as (l' & Hl' & Hct'). by exists l', c. }
  eapply stop_listening; [exact Hm5|]. by apply (lt_reg _ _ _ Hlt5), (lt_reg _ _ _ Hlt4).
Qed.
End Sync.

(** ** The run *)

(** [main] in a store [m], before the broker is made. *)
Definition start (m : mem) : Runner :=
  mkRunner (mkWorld m [] (mkInMemoryBroker ∅ ∅ false false (zero_metrics (mkTime 0 0)) ∅))
    [] ∅ 0 0 0 false [].

Lemma cg_topics_NoDup inputs : NoDup (Locale <$> inputs) -> NoDup (cg_topic <$> inputs).
Proof.
  intros Hnd.
  replace (cg_topic <$> inputs) with (String.append "cg-" <$> (Locale <$> inputs))
    by (by rewrite <- list_fmap_compose).
  by apply (NoDup_fmap_2 _).
Qed.

Lemma totalFail_passed r : Forall passed (rn_out r) -> totalFail r = 0.
Proof.
  intros Hall. unfold totalFail. apply length_zero_iff_nil.
  destruct (filter _ _) as [|v l] eqn:Hl; [done|].
  assert (v ∈ filter (fun v => is_fail v = true) (rn_out r)) as [Hv Hin]%list_elem_of_filter
    by (rewrite Hl; by left).
  rewrite Forall_forall in Hall. specialize (Hall _ Hin). unfold passed in Hall. congruence.
Qed.

(** The end of [main]: the contract line, [Close] and the exit code. *)
Lemma shutdown_spec ctx C r :
  mid N ctx C (fun _ => []) r ->
  wp (shutdown tr ctx)
    (fun code r' => fine N r' -> code = 0%Z /\ Forall passed (rn_out r')) r.
Proof.
  intros Hm. unfold shutdown. destruct (pass_mid N ctx C _
    "[contract:broker.MessageBroker] InMemoryBroker satisfies interface" r Hm)
    as (r1 & Hp & Hm1 & Hlt1 & _).
  wp_step. eapply wp_intro; [exact Hp|].
  wp_step. eapply wp_mono; [exact (yield_mid tr N ctx C _ r1 Hm1)|].
  intros [] r2 (Hm2 & _). clear r Hm r1 Hm1 Hp Hlt1.
  destruct (ok_world _ (md_ok _ _ _ _ _ Hm2)) as [Hinv Hcon Hopen _ _].
  pose proof (Close_spec ctx _ Hinv) as Hclose. rewrite Hcon, Hopen in Hclose.
  destruct Hclose as (b & Hrun & _).
  wp_step. eapply wp_intro; [exact (on_world_eq _ r2 _ _ Hrun)|].
  wp_step. apply wp_modify. wp_step. apply wp_gets. apply wp_ret.
  intros [Hlate HN]. destruct (md_fine _ _ _ _ _ Hm2) as [_ _ _ Ho]; [by split|].
  assert (forall r', Forall passed (rn_out r') ->
    (if bool_decide (0 < totalFail r') then 1%Z else 0%Z) = 0%Z /\ Forall passed (rn_out r')) as Hcode.
  { intros r' Hall. by rewrite (totalFail_passed _ Hall). }
  apply Hcode. simpl. apply Forall_app. split; [done|]. by constructor.
Qed.

Lemma sections_spec {A} ctx inputs bs (k : GoM Runner A) Q r :
  mid N ctx ∅ (fun _ => []) r -> inputs <> [] ->
  (Z.of_nat (length inputs) <= int64_max)%Z -> NoDup (Locale <$> inputs) ->
  json_Marshal sp_payload = inl bs -> json_Unmarshal bs = inl sp_payload ->
  (forall C r', mid N ctx C (fun _ => []) r' -> wp k Q r') ->
  wp (for_range inputs (pubsub tr ctx) ;;;
      batch tr ctx inputs ;;;
      group tr ctx inputs ;;;
      retry_dlq tr ctx inputs ;;;
      sync_producer tr ctx ;;;
      k) Q r.
Proof.
  intros Hm Hne Hmax Hnd Hbs Hjs Hk.
  wp_step. eapply wp_mono.
  { apply (wp_for_range _ (fun _ => mid N ctx ∅ (fun _ => []))); [exact Hm|].
    intros pre f rest r1 _. exact (pubsub_spec tr N ctx ∅ f r1). }
  intros [] r1 Hm1. wp_step. eapply wp_mono; [by apply (batch_spec tr N ctx ∅)|].
  intros [] r2 Hm2. wp_step. eapply wp_mono; [by apply (group_spec tr N), cg_topics_NoDup|].
  intros [] r3 [C Hm3]. wp_step. eapply wp_mono; [by apply (retry_dlq_spec tr N ctx C)|].
  intros [] r4 Hm4. wp_step. eapply wp_mono; [by apply (sync_producer_spec ctx bs Hbs C)|].
  intros [] r5. apply Hk.
Qed.

Lemma main_start m inputs :
  mem_wf m -> 3 <= length inputs -> exists ctx r,
    mid N ctx ∅ (fun _ => []) r /\
    run_checks tr inputs (start m) = (for_range inputs (pubsub tr ctx) ;;;
      batch tr ctx inputs ;;; group tr ctx inputs ;;; retry_dlq tr ctx inputs ;;;
      sync_producer tr ctx ;;; shutdown tr ctx) r.
Proof.
  intros Hwf Hlen.
  destruct (wp_run _ _ _ (new_ctx_spec (mkCtxNode Background (Some (30 * Second)%Z) None) m Hwf
    ltac:(simpl; lia))) as (ctx & m1 & Hctx & -> & Hwf1 & Hext1 & Hn1).
  set (ctx := CtxNode (next_loc m)) in *.
  pose proof (fresh_broker_inv m1 Hwf1) as Hinv. pose proof (fresh_broker_subs m1) as Hsub.
  set (r2 := set_world (start m) (fresh_broker m1)).
  destruct (lifecycle_spec N ctx r2 Hinv Hsub eq_refl) as (r3 & Hlife & Hm3 & _).
  { by split. }
  { simpl. by destruct (wf_ctxs _ Hwf1 _ _ Hn1). }
  exists ctx, r3. split; [done|]. unfold run_checks.
  assert ((length inputs <? 3) = false) as -> by (by apply Nat.ltb_ge).
  rewrite (bind_ok _ _ _ _ _ (on_store_eq _ (start m) _ _ Hctx)).
  rewrite (bind_ok _ _ _ (w_br (fresh_broker m1))
    (set_world (start m) (set_mem (rn_world (start m)) (w_mem (fresh_broker m1))))) by done.
  rewrite (bind_ok _ _ _ tt r2) by done. by rewrite (bind_ok _ _ _ _ _ Hlife).
Qed.
End Main.

(** C4: the runner holds together.  With a file of at least three fixtures of
    distinct locales, [main] ends without panicking under every schedule of the
    goroutines, which run while it waits and between its calls; and when no wait of [main] ended with a goroutine left (and
    the UUIDs drawn are distinct), every check it made passed and its exit
    code is 0: what the in-memory broker delivers is what was published (value,
    key, topic and headers) and goes through [MarshalJSON] and [UnmarshalJSON],
    a batch arrives as a rearrangement of itself, each topic of the consumer
    group gets its one message, the message whose handler keeps failing
    reaches the dead letter topic with its bytes, and the synchronous
    producer's JSON can be read back.  (encoding/json decodes
    what it encoded of the payload and of messages.) *)
Theorem runner_passes {En : Env} {MR : MapRange} {MRS : MapRangeSpec} {Pf : Platform}
    {Sc : Scheduler} {CB : Callbacks InMemoryBroker} {J : JSON (gmap string string)}
    {AJ : AliasJSON} {AJS : AliasJSONSpec} {CS : ClockSpec} {JF : JSON fixtureFile}
    (tr : Translator any) (N : nat) {UU : UuidSpec N} m data inputs bs :
  json_Unmarshal data = inl (mkFixtureFile inputs) ->
  mem_wf m -> 3 <= length inputs -> (Z.of_nat (length inputs) <= int64_max)%Z ->
  NoDup (Locale <$> inputs) ->
  json_Marshal sp_payload = inl bs -> json_Unmarshal bs = inl sp_payload ->
  exists code r, main tr (inl data) (start m) = (Ok code, r) /\
    (rn_late r = false -> uuid_ctr (w_mem (rn_world r)) <= N ->
     code = 0%Z /\ Forall passed (rn_out r)).
Proof.
  intros Hff Hwf Hlen Hmax Hnd Hbs Hjs. unfold main. rewrite Hff. cbn [Inputs].
  destruct (main_start tr N m inputs Hwf Hlen) as (ctx & r0 & Hm & ->).
  assert (inputs <> []) as Hne by (by intros ->; simpl in Hlen; lia).
  apply wp_run. eapply wp_mono.
  { apply (sections_spec tr N ctx inputs bs); [done..|]. intros C r'. apply shutdown_spec. }
  intros code r Hcode Hlate HN. by apply Hcode.
Qed.

(** Three fixtures, a scheduler that runs every goroutine at once, and a codec
    for payloads of the shape of [sp_payload]. *)
Definition demo_fixtures : list fixturePayload :=
  [mkFixture "en" "events" "user-1" "Hello, world!" {["trace" := "round-250-en"]};
   mkFixture "sr-Cyrl" "догађаји" "корисник-3" "Здраво, свете!" {["trace" := "round-250-sr-cyrl"]};
   mkFixture "ja" "イベント" "ユーザー-4" "こんにちは、世界！" ∅].

Definition demo_scheduler : Scheduler := {|
  picks := fun _ => repeat 0 8;
  polls := fun _ => 2 |}.

Definition demo_payload_json : JSON (gmap string string) := {|
  json_Marshal := fun v => inl (String.list_byte_of_string (default "" (v !! "text")));
  json_Unmarshal := fun b =>
    inl {["action" := "round-250"; "locale" := "sr-Cyrl"; "text" := string_of b]} |}.

Lemma demo_clock_spec : ClockSpec.
Proof.
  intros i. unfold json_time, clock_time. simpl.
  pose proof (Z.mod_pos_bound (Z.of_nat i) 1000000000 eq_refl). lia.
Qed.

(** A fixture file is its demonstration fixtures, whatever its bytes. *)
Definition demo_fixture_json : JSON fixtureFile := {|
  json_Marshal := fun _ => inl [];
  json_Unmarshal := fun _ => inl (mkFixtureFile demo_fixtures) |}.

Abbreviation demo_run :=
  (main (Pf := amd64) (Sc := demo_scheduler) (CB := demo_callbacks) (J := demo_payload_json)
    (AJ := demo_alias) (JF := demo_fixture_json) NoopTranslator (inl []) (start empty_mem))
  (only parsing).

Lemma demo_run_on_time code r :
  demo_run = (Ok code, r) -> rn_late r = false /\ uuid_ctr (w_mem (rn_world r)) <= 32.
Proof.
  intros Hrun. assert (rn_late demo_run.2 = false /\
    (uuid_ctr (w_mem (rn_world demo_run.2)) <=? 32) = true) as [Hl Hu]
    by (split; vm_compute; reflexivity).
  rewrite Hrun in Hl, Hu. split; [exact Hl|]. by apply Nat.leb_le.
Qed.

Lemma demo_locales_NoDup : NoDup (Locale <$> demo_fixtures).
Proof. apply (bool_decide_unpack _). vm_compute. exact I. Qed.

Lemma runner_passes_witness : exists r, demo_run = (Ok 0%Z, r) /\ Forall passed (rn_out r).
Proof.
  destruct (runner_passes (Pf := amd64) (Sc := demo_scheduler) (CB := demo_callbacks)
    (J := demo_payload_json) (AJ := demo_alias) (AJS := demo_alias_spec)
    (CS := demo_clock_spec) (JF := demo_fixture_json) NoopTranslator 32 empty_mem [] demo_fixtures
    (String.list_byte_of_string "Здраво, свете") eq_refl empty_mem_wf
    ltac:(simpl; lia) ltac:(simpl; discriminate) demo_locales_NoDup
    ltac:(vm_compute; reflexivity) ltac:(vm_compute; reflexivity)) as (code & r & Hrun & Hall).
  destruct (demo_run_on_time code r Hrun) as [Hlate HN].
  destruct (Hall Hlate HN) as [Hcode Hp]. subst code. exists r. split; [exact Hrun|exact Hp].
Defined.
